(* ===== verification/_CoqProject ===== *)
-Q . S2P
Prelude.v
Bitcoin.v
ChainTypes.v
Graph.v
Walk.v
GraphFacts.v
Reorg.v
ActiveChain.v
FilterMarks.v
TreeProperties.v
Checkpoints.v
Batches.v
BlockQueue.v
Messages.v
HeaderStore.v
Chain.v
ChainFacts.v
FilterSync.v
ChainProperties.v
Restart.v
HeaderSync.v
FilterProgress.v
PeerStore.v
Network.v
Counter.v
Wire.v
Reader.v
Dns.v
Peer.v
Relay.v
PeerMap.v
Node.v
NodeFacts.v
NodeProperties.v
Client.v
Config.v
Gossip.v
Texts.v
Open.v
Converge.v
Overtake.v
Quiet.v
Delivery.v
Startup.v
Link.v
Session.v
Account.v
Wallet.v
