(* ===== verification/Prelude.v ===== *)
(** * Kyoto: a verification development for the BIP-157/158 light client

    Kyoto is a Bitcoin light client: a node that follows the chain of most work
    by its headers, checks the filter headers and the compact filters of its
    peers, downloads the blocks whose filters match the scripts of a wallet and
    reports them as events.  This library models the program of [src/] as
    executable definitions and proves what makes its parts correct.  It is a
    shallow embedding: pure functions are functions, methods on [&mut self] are
    computations in the state-and-error monad [ST] of this file (what was changed
    before an error stays changed, as in the source), panics are [None], machine
    integers are [Z] with the wrap-around of release builds written out.

    ** The parts and how they interact

    The node ([src/node.rs]) runs a loop.  In each turn it advances its
    synchronization state, dials peers while it has too few, asks for the next
    matching block, announces transactions, and handles one message of a peer or
    of the client.  A peer message goes to the chain ([src/chain/]), which accepts
    headers in the block tree, mirrors them into the header store ([src/db/]),
    commits filter headers when enough peers agree, and checks filters; the
    answer of the chain is a next request, sent back through the peer manager
    ([src/network/peer_map.rs]) to the task of the connection
    ([src/network/peer.rs]), which counts what it asks for and what it gets, and
    reads the socket through the reader and the parsers.  Events, warnings and
    infos leave through the dialog; the client ([src/client.rs]) talks to the
    node through a channel.

    ** Files

    - [Prelude]: integers, bytes, lists, the monad [ST] with its inversion
      tactics ([st_cases], [st_reads]) and the rules of [st_keeps].
    - [Bitcoin]: the [bitcoin] crate as the class the rest is written against.
    - The block tree, [src/chain/graph.rs] and [src/chain/mod.rs]: [ChainTypes]
      (shared data), [Graph] (the operations: [accept_header], [switch_to_fork],
      [locators], the filter marks), [Walk] and [GraphFacts] (the invariant
      [wf_tree]), [Reorg] and [ActiveChain] (the canonical map, refinement to the
      list of the active chain), [FilterMarks], [TreeProperties].
    - Chain data: [Checkpoints] ([src/chain/checkpoints.rs]), [Batches]
      ([header_batch.rs], [cfheader_batch.rs]), [BlockQueue] ([block_queue.rs]).
    - [Messages] and [Texts]: [src/messages.rs], [src/channel_messages.rs], the
      error modules, [src/dialog.rs] and the public types of [src/lib.rs].
    - Stores, [src/db/]: [HeaderStore], [PeerStore] (the traits as classes with
      laws, and the SQLite implementations), [Open] (opening the files).
    - [src/chain/chain.rs]: [Chain] (every method), [ChainFacts] and [FilterSync]
      (helper theory), [ChainProperties], [Restart] ([load_headers]), [HeaderSync]
      and [FilterProgress] (progress behind an honest peer).
    - The network, [src/network/]: [Network] ([mod.rs], [src/prelude.rs],
      [src/broadcaster.rs]) and [Counter] ([counter.rs]), [Wire]
      ([outbound_messages.rs], [parsers.rs]), [Reader] ([reader.rs]), [Dns]
      ([dns.rs], [socks.rs]), [Peer] and [Relay] ([peer.rs]), [PeerMap]
      ([peer_map.rs]).
    - [Node] ([src/node.rs]), [NodeFacts] (what the operations keep, for every
      relation on chains that notices do not disturb), [NodeProperties], [Client]
      ([src/client.rs]), [Config] ([src/config.rs], [src/builder.rs]).
    - The parts together: [Gossip] (a transaction from the client's call to the
      wire), [Converge] (the node and an honest peer), [Overtake] (the same from a
      stale fork), [Quiet] and [Delivery] (the same in the turns of the loop, to
      the client's events), [Startup] (from the builder on), [Link] (the node, the
      task of its connection and a remote node as one system) and [Session] (that
      system under fair schedules, from the builder on); [Account] (requests, marks
      and the dialogue over whole runs, with misbehaving peers too) and [Wallet]
      (what the client is told by each of the two builds).

    Definitions have the names of the source; where two items of the source share
    a name, the component is put in front ([counter_new], [chain_new]).

    ** What is shown

    - Block tree: [accept_header] changes the active chain exactly as the value it
      returns reports; every run of operations keeps [wf_tree] and the accounting
      of work, so that the work of the tip never decreases; a fork takes over
      exactly when it has strictly more work; bits are audited at the end of each
      epoch; lookups by height and locators agree with the active chain.
    - Chain: header sync keeps the store a mirror of the active chain or warns; a
      restart restores the stored chain; only an aligned batch that reaches the
      quorum is committed, block by block at its offset; a filter is marked only
      when it matches its commitment; only the wanted, valid block is delivered,
      once.  The block queue refines a FIFO list.
    - Stores: what was staged and written is loaded again; the peer store records
      each address and never returns a banned peer; a failed opening leaves the
      files and the configuration as they were.
    - Network: messages survive serialization, encryption and parsing, in order;
      the reader ends on every stream and passes on only what respects its limits;
      the counters never wrap and an unsolicited peer is dropped; DNS answers
      round-trip.  A transaction of the client is sent to every live connection or
      to a single drawn one, as its policy says, and over whole runs it is
      delivered to a peer at most as often as the client asked.
    - Node: the state machine turn by turn, when [Synced] is announced, bans, and
      the invariants of the tree over every run under every environment, from any
      configuration on.  Liveness: behind an honest peer the exchange of messages
      ends with all its headers, filter headers and filters
      ([Converge.honest_peer_synchronizes]); a node on a stale fork first
      reorganizes to the peer's chain of more work ([Overtake.stale_fork_overtaken]).
      Through the turns of the loop, under every environment and every schedule of
      arrivals, all matching blocks reach the client before [Synced] is announced
      ([Delivery.client_is_served]); so they do for a node that was just built, which
      first connects and answers the version of its configured peer
      ([Startup.built_node_serves_client]).  With the task of the connection in
      between, which counts, writes, reads and forwards, the same holds under every
      fair schedule of the two, and the task drops no honest remote
      ([Session.fair_session_serves_client]).  Without any assumption on the peers,
      over every run a block whose filter was checked and matched is requested,
      delivered or reported as disconnected, and no other block is
      ([Wallet.wallet_misses_nothing]); where the client screens the filters
      itself, each of them is shown to it and each of its requests for a block has
      an end ([Wallet.filter_control_serves]).
    - Some lemmas show where the code falls short of its intent, on a concrete
      run: a rejected header makes the tree forget a fork
      ([TreeProperties.rejected_header_forgets_fork]), one peer meets a quorum of
      two ([ChainProperties.one_peer_meets_the_quorum]), [Synced] is announced for
      a tip whose filter was not checked
      ([NodeProperties.ToyNode.tip_announced_before_its_filter]), a block that a
      second reorganization brings back is not told again
      ([Wallet.ToyWallet.reconnected_block_forgotten]), one that was taken away
      can still be delivered ([Wallet.ToyWallet.stale_block_delivered]), and the
      second of two requests for a block is never answered
      ([Wallet.ToyWallet.duplicate_request_dropped]), among others.

    ** The environment

    What is not code of the repository is a parameter: the functions of the
    [bitcoin] crate ([Bitcoin], with [WorkLaws] for 256-bit work), its
    encodings and the ciphers ([Wire]), SQLite ([SqlHeaders], [SqlPeers],
    [SqlFile]) and the file system ([Files]), printing ([Foreign]).  Their
    documented behaviour is stated in separate classes of laws, each with a
    concrete instance in a module [Toy...] on which the witnesses evaluate.  The
    clock, random draws, the outcome of dialling a peer and what [select!] chose
    are arguments of the turn that reads them ([Env], [PeerTurn]).  Interleaving
    is the sequence of turns: a theorem about every list of turns is about every
    order of messages.

    ** Fuel and bounds

    Loops along [prev_blockhash] have one more step than there are stored headers
    ([walk_fuel]); on a well-formed tree a walk is at most that long
    ([Walk.chain_from_size]), so that the loops leave by their own exits.  The
    reading loop has one step for each byte of the stream, and one more; every
    message takes at least three.  The dialogue with an honest peer has the
    number of requests computed by [Converge.rounds]; in the turns of the loop an
    arrival lowers [Delivery.measure], and only a late block raises it; under a
    fair schedule, which comes without a bound, so does every turn that has
    something to do.  Drawing a
    next peer is bounded by the constant of the source.  Theorems about heights assume that
    they fit 32 bits; those about counters allow 2^30 messages and 100000
    requests for addresses.

    ** Not modelled

    - The capacity of channels, locks and the scheduling of tasks: a send never
      blocks, so that deadlock is out of reach; timers only as the values of the
      clock that a turn reads.
    - The texts of debug logs (their level is).
    - A crash between two statements of SQLite; durability is that of a committed
      transaction.
    - [example/] and [tests/], which only call the public interface. *)

From stdpp Require Import base numbers list gmap sorting.
From Stdlib Require Import ZArith Lia.


Open Scope Z_scope.

Declare Scope kyoto_scope.
Delimit Scope kyoto_scope with kyoto.

Create HintDb kyoto.

(** ** Machine integers *)

(** The release profile of the crate keeps Rust's default of wrapping
    arithmetic; the model writes the wrap-around out. *)
Definition u32_modulus : Z := 2 ^ 32.
Definition u32_add (a b : Z) : Z := (a + b) mod u32_modulus.
Definition u32_checked_sub (a b : Z) : option Z :=
  if a <? b then None else Some (a - b).
Definition u32_saturating_sub (a b : Z) : Z := Z.max 0 (a - b).
Definition u32_saturating_add (a b : Z) : Z := Z.min (u32_modulus - 1) (a + b).
(** [x as u32] and [x as i32] on an unbounded value. *)
Definition as_u32 (a : Z) : Z := a mod u32_modulus.
Definition wrap_signed (w a : Z) : Z := (a + 2 ^ (w - 1)) mod 2 ^ w - 2 ^ (w - 1).

Definition is_u32 (a : Z) : Prop := 0 <= a < u32_modulus.

Lemma u32_add_small a b :
  is_u32 (a + b) -> u32_add a b = a + b.
Proof. intros H. apply Z.mod_small, H. Qed.

Lemma u32_checked_sub_Some a b c :
  u32_checked_sub a b = Some c <-> b <= a /\ c = a - b.
Proof.
  unfold u32_checked_sub. destruct (Z.ltb_spec a b); split.
  - done.
  - lia.
  - intros [= <-]. lia.
  - intros [_ ->]. done.
Qed.

Lemma u32_checked_sub_None a b :
  u32_checked_sub a b = None <-> a < b.
Proof. unfold u32_checked_sub. destruct (Z.ltb_spec a b); naive_solver lia. Qed.

Lemma wrap_signed_id w a :
  0 < w -> - 2 ^ (w - 1) <= a < 2 ^ (w - 1) -> wrap_signed w a = a.
Proof.
  intros Hw Ha. unfold wrap_signed.
  assert (2 ^ w = 2 * 2 ^ (w - 1)) as Hp.
  { rewrite <- Z.pow_succ_r by lia. f_equal. lia. }
  rewrite Z.mod_small; lia.
Qed.

(** [to_le_bytes] and [from_le_bytes] of an unsigned integer of [n] bytes. *)
Fixpoint le_bytes (n : nat) (v : Z) : list Z :=
  match n with
  | O => []
  | S n' => v mod 256 :: le_bytes n' (v / 256)
  end.

Fixpoint from_le_bytes (l : list Z) : Z :=
  match l with
  | [] => 0
  | b :: l' => b + 256 * from_le_bytes l'
  end.

(** [to_be_bytes] and [from_be_bytes]. *)
Definition be_bytes (n : nat) (v : Z) : list Z := reverse (le_bytes n v).
Definition from_be_bytes (l : list Z) : Z := from_le_bytes (reverse l).

Lemma le_bytes_length n v : length (le_bytes n v) = n.
Proof. revert v. induction n as [|n IH]; intros v; cbn; [done|]. by rewrite IH. Qed.

Lemma from_le_bytes_le_bytes n v :
  0 <= v < 256 ^ Z.of_nat n -> from_le_bytes (le_bytes n v) = v.
Proof.
  revert v. induction n as [|n IH]; intros v Hv; cbn [le_bytes from_le_bytes].
  - cbn in Hv. lia.
  - rewrite Nat2Z.inj_succ, Z.pow_succ_r in Hv by lia.
    pose proof (Z.div_mod v 256 ltac:(lia)) as Hd.
    rewrite IH; [lia|]. split; [apply Z.div_pos; lia|]. apply Z.div_lt_upper_bound; lia.
Qed.

Lemma be_bytes_length n v : length (be_bytes n v) = n.
Proof. unfold be_bytes. by rewrite length_reverse, le_bytes_length. Qed.

Lemma from_be_bytes_be_bytes n v :
  0 <= v < 256 ^ Z.of_nat n -> from_be_bytes (be_bytes n v) = v.
Proof.
  intros Hv. unfold from_be_bytes, be_bytes. rewrite reverse_involutive.
  by apply from_le_bytes_le_bytes.
Qed.

(** ** A state and error monad

    Handlers of the program mutate their receiver and leave early with [?];
    [ST S E A] threads the receiver through and keeps the mutations made
    before an error, as Rust does. *)
Definition ST (S E A : Type) : Type := S -> (E + A) * S.

#[global] Instance ST_ret {S E} : MRet (ST S E) := fun A a s => (inr a, s).
#[global] Instance ST_bind {S E} : MBind (ST S E) := fun A B f m s =>
  match m s with
  | (inl e, s') => (inl e, s')
  | (inr a, s') => f a s'
  end.

Definition st_fail {S E A} (e : E) : ST S E A := fun s => (inl e, s).
Definition st_get {S E A} (f : S -> A) : ST S E A := fun s => (inr (f s), s).
Definition st_modify {S E} (f : S -> S) : ST S E () := fun s => (inr (), f s).
(** A call that returns a value and the new receiver. *)
Definition st_run {S E A} (f : S -> A * S) : ST S E A := fun s => let '(a, s') := f s in (inr a, s').
(** [o.ok_or(e)?] *)
Definition st_ok_or {S E A} (o : option A) (e : E) : ST S E A :=
  match o with Some a => mret a | None => st_fail e end.
(** [if cond { return Err(e) }] *)
Definition st_guard {S E} (b : bool) (e : E) : ST S E () :=
  if b then mret () else st_fail e.

(** ** Lists *)

(** [iter().position(p)]: the index of the first match. *)
Fixpoint position {A} (p : A -> bool) (l : list A) : option nat :=
  match l with
  | [] => None
  | x :: l' => if p x then Some 0%nat else S <$> position p l'
  end.

(** [Vec::swap_remove]: the last element takes the place of the removed one. *)
Definition swap_remove {A} (i : nat) (l : list A) : list A :=
  match last l with
  | None => l
  | Some x => take (length l - 1) (<[i := x]> l)
  end.

Lemma position_Some {A} (p : A -> bool) l i :
  position p l = Some i -> exists x, l !! i = Some x /\ p x = true.
Proof.
  revert i. induction l as [|y l IH]; intros i; [done|]. cbn.
  destruct (p y) eqn:Hy.
  - intros [= <-]. eauto.
  - destruct (position p l) as [j|] eqn:Hj; [|done].
    intros [= <-]. destruct (IH j eq_refl) as (x & ? & ?). eauto.
Qed.

Lemma position_None {A} (p : A -> bool) l :
  position p l = None <-> Forall (fun x => p x = false) l.
Proof.
  induction l as [|y l IH]; cbn; [done|].
  rewrite Forall_cons. destruct (p y); [split; [done|by intros [? _]]|].
  rewrite <- IH. destruct (position p l); split; [done|by intros [_ ?]|done|done].
Qed.

Lemma exists_last' {A} (l : list A) : l = [] \/ exists l' y, l = l' ++ [y].
Proof. induction l using rev_ind; eauto. Qed.

Lemma swap_remove_perm {A} (i : nat) (x : A) (l : list A) :
  l !! i = Some x -> l ≡ₚ x :: swap_remove i l.
Proof.
  intros Hi. apply list_elem_of_split_length in Hi as (l1 & l2 & -> & ->).
  destruct (exists_last' l2) as [->|(l3 & y & ->)]; unfold swap_remove.
  - rewrite last_snoc, length_app. rewrite insert_app_r_alt by done.
    rewrite Nat.sub_diag. cbn. rewrite Nat.add_sub, take_app_length.
    symmetry. apply Permutation_cons_append.
  - replace (l1 ++ x :: l3 ++ [y]) with ((l1 ++ x :: l3) ++ [y]) by (by rewrite <- app_assoc).
    rewrite last_snoc. rewrite insert_app_l by (rewrite length_app; cbn; lia).
    rewrite insert_app_r_alt by done. rewrite Nat.sub_diag. cbn.
    rewrite take_app_length' by (rewrite !length_app; cbn; lia).
    solve_Permutation.
Qed.

Lemma swap_remove_elem {A} (i : nat) (l : list A) x :
  x ∈ swap_remove i l -> x ∈ l.
Proof.
  unfold swap_remove. destruct (last l) as [z|] eqn:Hz; [|done].
  intros Hx%list_elem_of_lookup. destruct Hx as [j Hj].
  apply lookup_take_Some in Hj as [Hj _].
  apply list_lookup_insert_Some in Hj as [(-> & <- & _)|[_ Hj]].
  - apply last_Some_elem_of in Hz. done.
  - apply list_elem_of_lookup. eauto.
Qed.

(** [iter().take_while(p)] and what it leaves. *)
Fixpoint take_while {A} (p : A -> bool) (l : list A) : list A :=
  match l with
  | [] => []
  | x :: l' => if p x then x :: take_while p l' else []
  end.

Fixpoint drop_while {A} (p : A -> bool) (l : list A) : list A :=
  match l with
  | [] => []
  | x :: l' => if p x then drop_while p l' else l
  end.

Lemma take_drop_while {A} (p : A -> bool) l : take_while p l ++ drop_while p l = l.
Proof. induction l as [|x l IH]; [done|]. cbn. destruct (p x); cbn; congruence. Qed.

Lemma take_while_ext {A} (p q : A -> bool) l :
  (forall x, x ∈ l -> p x = q x) -> take_while p l = take_while q l.
Proof.
  induction l as [|x l IH]; intros Hpq; [done|]. cbn.
  rewrite (Hpq x) by left. rewrite IH; [done|].
  intros y Hy. apply Hpq. by right.
Qed.

Lemma take_while_true {A} (p : A -> bool) l x : x ∈ take_while p l -> p x = true.
Proof.
  induction l as [|y l IH]; cbn; [by intros ?%elem_of_nil|].
  destruct (p y) eqn:Hy; [|by intros ?%elem_of_nil].
  intros [->|?]%elem_of_cons; auto.
Qed.

Lemma take_while_all {A} (p : A -> bool) l :
  (forall x, x ∈ l -> p x = true) -> take_while p l = l.
Proof.
  induction l as [|x l IH]; intros Hp; [done|]. cbn.
  rewrite (Hp x) by left. rewrite IH; [done|]. intros y Hy. apply Hp. by right.
Qed.

Lemma drop_while_head {A} (p : A -> bool) l x l' :
  drop_while p l = x :: l' -> p x = false.
Proof.
  induction l as [|y l IH]; cbn; [done|].
  destruct (p y) eqn:Hy; [done|]. by intros [= -> ->].
Qed.

Lemma list_filter_all {A} (P : A -> Prop) `{!forall x, Decision (P x)} l :
  Forall P l -> filter P l = l.
Proof.
  induction 1 as [|x l Hx _ IH]; [done|]. by rewrite filter_cons_True, IH.
Qed.

Lemma filter_take_length {A} (P : A -> Prop) `{!forall x, Decision (P x)} k (l : list A) :
  (length (filter P (take k l)) <= length (filter P l))%nat.
Proof. rewrite <- (take_drop k l) at 2. rewrite filter_app, length_app. lia. Qed.

Lemma list_filter_none {A} (P : A -> Prop) `{!forall x, Decision (P x)} l :
  Forall (fun x => ~ P x) l -> filter P l = [].
Proof.
  induction 1 as [|x l Hx _ IH]; [done|]. by rewrite filter_cons_False.
Qed.

Lemma elem_of_fst {A B} (k : A) (l : list (A * B)) : k ∈ l.*1 <-> exists m, (k, m) ∈ l.
Proof.
  rewrite list_elem_of_fmap. split.
  - intros ([k' m] & -> & Hin). by exists m.
  - intros [m Hin]. by exists (k, m).
Qed.

Lemma StronglySorted_filter {A} (R : relation A) (P : A -> Prop) `{!forall x, Decision (P x)} l :
  StronglySorted R l -> StronglySorted R (filter P l).
Proof.
  induction 1 as [|x l Hs IH Hall]; [constructor|].
  rewrite filter_cons. case_decide; [|done]. constructor; [done|].
  rewrite Forall_forall in *. intros y [_ Hy]%list_elem_of_filter. auto.
Qed.

Lemma NoDup_fmap_filter {A B} (f : A -> B) (P : A -> Prop) `{!forall x, Decision (P x)} l :
  NoDup (f <$> l) -> NoDup (f <$> filter P l).
Proof.
  induction l as [|x l IH]; [done|]. cbn [fmap list_fmap]. inversion_clear 1 as [|? ? Hx Hl].
  rewrite filter_cons. case_decide; [|auto]. cbn. constructor; [|auto].
  intros (y & Hy & [_ Hin]%list_elem_of_filter)%list_elem_of_fmap. apply Hx.
  rewrite Hy. by apply list_elem_of_fmap_2.
Qed.

(** Counting in batches of [k]: one batch less. *)
Lemma div_ceil_step x k c : (0 < k)%nat -> (0 < x)%nat -> (c = k - 1)%nat ->
  ((x - k + c) / k + 1 <= (x + c) / k)%nat.
Proof.
  intros Hk Hx ->. destruct (decide (k <= x)%nat).
  - replace (x + (k - 1))%nat with (x - k + (k - 1) + 1 * k)%nat by lia. rewrite Nat.div_add by lia. lia.
  - replace (x - k + (k - 1))%nat with (k - 1)%nat by lia. rewrite Nat.div_small by lia.
    replace (x + (k - 1))%nat with (x - 1 + 1 * k)%nat by lia. rewrite Nat.div_add by lia. lia.
Qed.

(** ** Running computations of [ST] *)

Lemma st_bind_inv {S E A B} (m : ST S E A) (f : A -> ST S E B) s r s' :
  (m ≫= f) s = (r, s') ->
  (exists e, r = inl e /\ m s = (inl e, s')) \/
  (exists a s1, m s = (inr a, s1) /\ f a s1 = (r, s')).
Proof.
  unfold mbind, ST_bind. destruct (m s) as [[e|a] s1] eqn:Hm.
  - intros [= <- <-]. left. eauto.
  - intros Hf. right. eauto.
Qed.

Lemma st_bind_ok {S E A B} (m : ST S E A) (f : A -> ST S E B) s a s' :
  m s = (inr a, s') -> (m ≫= f) s = f a s'.
Proof. unfold mbind, ST_bind. by intros ->. Qed.

Lemma st_get_ok {S E A B} (g : S -> A) (f : A -> ST S E B) s : (st_get g ≫= f) s = f (g s) s.
Proof. done. Qed.

Lemma st_modify_ok {S E B} (g : S -> S) (f : () -> ST S E B) s :
  (st_modify g ≫= f) s = f () (g s).
Proof. done. Qed.

Lemma st_ok_or_ok {S E A B} (a : A) (e : E) (f : A -> ST S E B) s :
  (st_ok_or (Some a) e ≫= f) s = f a s.
Proof. done. Qed.

Lemma st_guard_ok {S E B} (b : bool) (e : E) (f : () -> ST S E B) s :
  b = true -> (st_guard b e ≫= f) s = f () s.
Proof. by intros ->. Qed.

Lemma st_guard_inv {S E} (b : bool) (e : E) (s : S) r s' :
  st_guard b e s = (r, s') ->
  s' = s /\ (b = true /\ r = inr () \/ b = false /\ r = inl e).
Proof. unfold st_guard. destruct b; intros [= <- <-]; auto. Qed.

Lemma st_ok_or_inv {S E A} (o : option A) (e : E) (s : S) r s' :
  st_ok_or o e s = (r, s') ->
  s' = s /\ ((exists a, o = Some a /\ r = inr a) \/ o = None /\ r = inl e).
Proof. unfold st_ok_or. destruct o; intros [= <- <-]; eauto. Qed.

(** [st_cases H]: the outcomes of the first step of the computation [H] runs. *)
Ltac st_error H :=
  match type of H with
  | ?r = _ => is_var r; subst r
  | inl _ = inl _ => injection H as H
  | _ => idtac
  end.

Ltac st_cases H :=
  let e := fresh "e" in let a := fresh "a" in let s := fresh "s" in
  let He := fresh "Hstep" in let Hr := fresh "Herr" in
  apply st_bind_inv in H as [(e & Hr & He)|(a & s & He & H)]; [st_error Hr|].

(** [st_reads H]: the first step only reads or writes the state. *)
Ltac st_reads H :=
  let He := fresh "Hstep" in
  apply st_bind_inv in H as [(? & ? & He)|(? & ? & He & H)];
  [discriminate He|injection He as <- <-].

(** ** What a computation keeps

    [st_keeps R m]: whatever [m] returns, its states are related by the
    preorder [R]. *)
Definition st_keeps {S E A} (R : relation S) (m : ST S E A) : Prop :=
  forall s r s', m s = (r, s') -> R s s'.

Section StKeeps.
Context {S E : Type} (R : relation S) `{!PreOrder R}.

Lemma st_keeps_bind {A B} (m : ST S E A) (f : A -> ST S E B) :
  st_keeps R m -> (forall a, st_keeps R (f a)) -> st_keeps R (m ≫= f).
Proof.
  intros Hm Hf s r s' Hrun. apply st_bind_inv in Hrun as [(e & _ & He)|(a & s1 & Ha & Hb)].
  - by eapply Hm.
  - transitivity s1; [by eapply Hm|by eapply Hf].
Qed.

Lemma st_keeps_ret {A} (a : A) : st_keeps R (mret (M := ST S E) a).
Proof. by intros s r s' [= _ <-]. Qed.

Lemma st_keeps_fail {A} (e : E) : st_keeps R (st_fail (A := A) e).
Proof. by intros s r s' [= _ <-]. Qed.

Lemma st_keeps_get {A} (f : S -> A) : st_keeps R (st_get (E := E) f).
Proof. by intros s r s' [= _ <-]. Qed.

Lemma st_keeps_modify (f : S -> S) : (forall s, R s (f s)) -> st_keeps R (st_modify (E := E) f).
Proof. by intros Hf s r s' [= _ <-]. Qed.

Lemma st_keeps_guard (b : bool) (e : E) : st_keeps R (st_guard b e).
Proof. intros s r s' [-> _]%st_guard_inv. done. Qed.

Lemma st_keeps_ok_or {A} (o : option A) (e : E) : st_keeps R (st_ok_or o e).
Proof. intros s r s' [-> _]%st_ok_or_inv. done. Qed.

Lemma st_keeps_run {A} (f : S -> A * S) : (forall s, R s (f s).2) -> st_keeps R (st_run (E := E) f).
Proof.
  intros Hf s r s'. unfold st_run. specialize (Hf s). destruct (f s) as [a s1]. by intros [= _ <-].
Qed.

Lemma st_keeps_if {A} (b : bool) (m1 m2 : ST S E A) :
  st_keeps R m1 -> st_keeps R m2 -> st_keeps R (if b then m1 else m2).
Proof. by destruct b. Qed.

Lemma st_keeps_option {A B} (o : option A) (m : A -> ST S E B) (n : ST S E B) :
  (forall a, st_keeps R (m a)) -> st_keeps R n ->
  st_keeps R (match o with Some a => m a | None => n end).
Proof. by destruct o. Qed.
End StKeeps.

(** [st_keeps]: a computation built with the rules above from ones that the
    hints of [kyoto] know. *)
Ltac st_keeps_step :=
  match goal with
  | |- st_keeps _ _ =>
      first
        [ solve [eauto 2 with kyoto]
        | apply st_keeps_bind; [apply _| |intros ?]
        | apply st_keeps_ret; apply _
        | apply st_keeps_fail; apply _
        | apply st_keeps_get; apply _
        | apply st_keeps_guard; apply _
        | apply st_keeps_ok_or; apply _
        | apply st_keeps_modify; intros ?; solve [reflexivity | eauto with kyoto]
        | apply st_keeps_run; intros ?; solve [reflexivity | eauto with kyoto]
        | apply st_keeps_if
        | apply st_keeps_option; [intros ?|]
        | match goal with |- st_keeps _ (match ?x with _ => _ end) => destruct x end ]
  end.
Ltac st_keeps := repeat st_keeps_step.

(** [vm_eq]: an equation of closed terms, evaluated on its left side; the types
    are not normalized. *)
Ltac vm_eq := lazymatch goal with |- _ = ?y => vm_cast_no_check (eq_refl y) end.
