(* ===== verification/Bitcoin.v ===== *)
(** * The [bitcoin] crate, as the program sees it

    The program is written against the [bitcoin] crate, whose code is not part
    of this repository.  Its plain data (hashes, compact targets, the fields of
    a block header, the networks) are modelled as data; every function the
    program calls on them is a field of the class [Bitcoin], a parameter of all
    later definitions.  What the program relies on is stated as separate
    hypotheses ([work_add_spec], [work_positive]), never built in.  The module
    [Toy] is a concrete instance in which the witnesses evaluate. *)

From stdpp Require Import base numbers list gmap strings.
From Stdlib Require Import ZArith Lia.
From S2P Require Import Prelude.

(** ** Data

    A hash is its 256-bit value; a [CompactTarget] the u32 it wraps; a
    [Target] and a [Work] the 256-bit integers they wrap. *)
Abbreviation BlockHash := Z (only parsing).
Abbreviation FilterHash := Z (only parsing).
Abbreviation FilterHeader := Z (only parsing).
Abbreviation Txid := Z (only parsing).
Abbreviation Wtxid := Z (only parsing).
Abbreviation CompactTarget := Z (only parsing).
Abbreviation Target := Z (only parsing).
Abbreviation Work := Z (only parsing).
Abbreviation Height := Z (only parsing).
Abbreviation bytes := (list Z) (only parsing).
(** [ScriptBuf] is a byte vector. *)
Abbreviation ScriptBuf := (list Z) (only parsing).

(** [bitcoin::block::Header], a struct of public fields. *)
Record Header := mkHeader {
  version : Z;
  prev_blockhash : BlockHash;
  merkle_root : Z;
  time : Z;
  bits : CompactTarget;
  nonce : Z;
}.

#[global] Instance Header_eq_dec : EqDecision Header.
Proof. solve_decision. Defined.

Inductive Network :=
  | Mainnet (* [Network::Bitcoin] *)
  | Testnet
  | Testnet4
  | Signet
  | Regtest.

#[global] Instance Network_eq_dec : EqDecision Network.
Proof. solve_decision. Defined.

(** ** Functions of the crate *)
Class Bitcoin := {
  (** [Header::block_hash], [work], [target], [validate_pow(..).is_ok()] *)
  block_hash : Header -> BlockHash;
  (** [BlockHash::from_str]; [None] is its error *)
  block_hash_from_str : string -> option BlockHash;
  header_work : Header -> Work;
  header_target : Header -> Target;
  validate_pow : Header -> Target -> bool;
  (** [impl Add for Work] *)
  work_add : Work -> Work -> Work;
  (** [Target::from_compact], [Target::max_transition_threshold] *)
  from_compact : CompactTarget -> Target;
  max_transition_threshold : Target -> Network -> Target;
  (** [CompactTarget::from_header_difficulty_adjustment] *)
  from_header_difficulty_adjustment : Header -> Header -> Network -> CompactTarget;
  (** [Network::params()] and the fields the program reads *)
  no_pow_retargeting : Network -> bool;
  allow_min_difficulty_blocks : Network -> bool;
  difficulty_adjustment_interval : Network -> Z;
  (** [genesis_block(network).header] *)
  genesis_header : Network -> Header;
  (** [sha256d::Hash::hash] of a filter's contents, [FilterHash::filter_header] *)
  filter_hash_of : bytes -> FilterHash;
  filter_header_of : FilterHash -> FilterHeader -> FilterHeader;
  (** [BlockFilter::match_any]; [None] is its error *)
  match_any : bytes -> BlockHash -> list ScriptBuf -> option bool;
  (** [Block], [Block::block_hash], [Block::check_merkle_root] *)
  Block : Type;
  block_block_hash : Block -> BlockHash;
  check_merkle_root : Block -> bool;
  (** [Transaction], [compute_txid], [compute_wtxid] *)
  Transaction : Type;
  compute_txid : Transaction -> Txid;
  compute_wtxid : Transaction -> Wtxid;
}.

(** The range of a [Work], a 256-bit integer. *)
Definition is_work (w : Work) : Prop := 0 <= w < 2 ^ 256.

(** Documented behaviour of work: addition is the sum while it fits 256 bits. *)
Class WorkLaws `{Bitcoin} : Prop := {
  work_add_spec a b : is_work a -> is_work b -> is_work (a + b) -> work_add a b = a + b;
  header_work_range h : is_work (header_work h);
}.

(** Every valid target yields at least one unit of work. *)
Class WorkPositive `{Bitcoin} : Prop :=
  work_positive h : 0 < header_work h.

(** A hash is printed as 64 hexadecimal digits. *)
Definition hex_digit (c : Ascii.ascii) : option Z :=
  let n := Z.of_nat (Ascii.nat_of_ascii c) in
  if (48 <=? n) && (n <=? 57) then Some (n - 48)
  else if (97 <=? n) && (n <=? 102) then Some (n - 87)
  else None.

Fixpoint hex_value (acc : Z) (s : string) : option Z :=
  match s with
  | EmptyString => Some acc
  | String c s' => d ← hex_digit c; hex_value (16 * acc + d) s'
  end.

Definition is_hash_string (s : string) : bool :=
  (String.length s =? 64)%nat && bool_decide (is_Some (hex_value 0 s)).

(** Documented behaviour of [BlockHash::from_str]: it accepts the printed form. *)
Class FromStrLaws `{Bitcoin} : Prop :=
  block_hash_from_str_hex s : is_hash_string s = true -> is_Some (block_hash_from_str s).

(** ** A concrete instance for the witnesses

    A header's hash is its nonce, its work its compact target: every choice
    of distinct nonces gives a collision-free set of headers. *)
Module Toy.

Definition hdr (hash prev work : Z) : Header := mkHeader 0 prev 0 0 work hash.

(** Two retargeting networks and the regression test network. *)
#[export] Instance toy : Bitcoin := {
  block_hash := nonce;
  block_hash_from_str s := if is_hash_string s then hex_value 0 s else None;
  header_work h := Z.max 0 (bits h) mod 2 ^ 256;
  header_target := bits;
  validate_pow h t := nonce h <=? 1000 * t;
  work_add a b := (a + b) mod 2 ^ 256;
  from_compact c := c;
  max_transition_threshold t _ := 4 * t;
  from_header_difficulty_adjustment s e _ := bits s + time e - time s;
  no_pow_retargeting n := bool_decide (n = Regtest);
  allow_min_difficulty_blocks n := bool_decide (n = Regtest \/ n = Testnet \/ n = Testnet4);
  difficulty_adjustment_interval _ := 4;
  genesis_header _ := hdr 1 0 1;
  filter_hash_of l := foldr Z.add 0 l;
  filter_header_of fh prev := fh + 3 * prev + 1;
  match_any content _ scripts :=
    match content with
    | [] => None
    | _ => Some (existsb (fun s => bool_decide (s = content)) scripts)
    end;
  Block := Z * bool;
  block_block_hash := fst;
  check_merkle_root := snd;
  Transaction := Z;
  compute_txid t := t;
  compute_wtxid t := t + 1;
}.

#[export] Instance toy_work_laws : WorkLaws.
Proof.
  split.
  - intros a b _ _ Hab. apply Z.mod_small, Hab.
  - intros h. apply Z.mod_pos_bound. lia.
Qed.

#[export] Instance toy_from_str : FromStrLaws.
Proof.
  intros s Hs. unfold block_hash_from_str. cbn. rewrite Hs.
  apply andb_true_iff in Hs as [_ Hs]. by apply bool_decide_eq_true in Hs.
Qed.

End Toy.
