(* ===== verification/ChainTypes.v ===== *)
(** * Shared chain data: [src/chain/mod.rs]

    Indexed headers, filter commitments and requests, the agreement counter of
    the filter-header quorum, the per-peer height monitor and the height
    arithmetic of [HeightExt].  The section [HeightMonitorFacts] shows that the
    monitor's maximum is the maximum of what peers advertised. *)

From stdpp Require Import base numbers list gmap.
From Stdlib Require Import ZArith Lia.
From S2P Require Import Prelude Bitcoin.

(** ** Data *)

Record IndexedHeader := mkIndexedHeader {
  ih_height : Height;
  ih_header : Header;
}.

#[global] Instance IndexedHeader_eq_dec : EqDecision IndexedHeader.
Proof. solve_decision. Defined.

Record FilterCommitment := mkFilterCommitment {
  fc_header : FilterHeader;
  fc_filter_hash : FilterHash;
}.

#[global] Instance FilterCommitment_eq_dec : EqDecision FilterCommitment.
Proof. solve_decision. Defined.

Record FilterRequest := mkFilterRequest {
  fr_start_height : Height;
  fr_stop_hash : BlockHash;
}.

Record FilterHeaderRequest := mkFilterHeaderRequest {
  fhr_start_height : Height;
  fhr_stop_hash : BlockHash;
  expected_prev_filter_header : option FilterHeader;
}.

Inductive CFHeaderChanges :=
  | AddedToQueue
  | Extended
  | Conflict.

(** ** [FilterHeaderAgreements] *)
Record FilterHeaderAgreements := mkAgreements {
  current : Z;   (* u8 *)
  required : Z;  (* u8 *)
}.

Definition agreements_new (required : Z) : FilterHeaderAgreements :=
  {| current := 0; required := required |}.

Definition got_agreement (a : FilterHeaderAgreements) : FilterHeaderAgreements :=
  {| current := (current a + 1) mod 256; required := required a |}.

Definition enough_agree (a : FilterHeaderAgreements) : bool :=
  required a <=? current a.

Definition reset_agreements (a : FilterHeaderAgreements) : FilterHeaderAgreements :=
  {| current := 0; required := required a |}.

(** ** [Filter] *)
Section Filter.
Context `{Bitcoin}.

Record Filter := mkFilter {
  filter_hash : FilterHash;
  filter_block_hash : BlockHash;
  block_filter : bytes; (* [BlockFilter], a wrapper of its contents *)
}.

Definition filter_new (contents : bytes) (block_hash : BlockHash) : Filter :=
  {| filter_hash := filter_hash_of contents;
     filter_block_hash := block_hash;
     block_filter := contents |}.

(** [None] is [Err(FilterError::IORead)]. *)
Definition contains_any (f : Filter) (scripts : list ScriptBuf) : option bool :=
  match_any (block_filter f) (filter_block_hash f) scripts.

Definition filter_contents (f : Filter) : bytes := block_filter f.
End Filter.

(** ** [HeightMonitor] *)
Abbreviation PeerId := Z (only parsing).

Record HeightMonitor := mkHeightMonitor { hm_map : gmap PeerId Height }.

Definition height_monitor_new : HeightMonitor := {| hm_map := ∅ |}.

(** [self.map.values().copied().max()] *)
Definition hm_max (m : HeightMonitor) : option Height :=
  map_fold (fun _ h acc => Some (match acc with None => h | Some a => Z.max h a end))
    None (hm_map m).

Definition hm_retain (peers : list PeerId) (m : HeightMonitor) : HeightMonitor :=
  {| hm_map := filter (fun kv => kv.1 ∈ peers) (hm_map m) |}.

Definition hm_insert (peer : PeerId) (height : Height) (m : HeightMonitor) : HeightMonitor :=
  {| hm_map := <[peer := height]> (hm_map m) |}.

(** [*height = height.saturating_add(1)] on the entry, if there is one. *)
Definition hm_increment (peer : PeerId) (m : HeightMonitor) : HeightMonitor :=
  {| hm_map := alter (fun h => u32_saturating_add h 1) peer (hm_map m) |}.

(** ** [HeightExt] for [u32] *)
Section HeightExt.
Context `{Bitcoin}.

Definition increment (h : Height) : Height := u32_add h 1.

Definition from_u64_checked (h : Z) : option Height :=
  if h <? u32_modulus then Some h else None.

Definition is_adjustment_multiple (h : Height) (n : Network) : bool :=
  h mod difficulty_adjustment_interval n =? 0.

Definition last_epoch_start (h : Height) (n : Network) : Height :=
  let interval := as_u32 (difficulty_adjustment_interval n) in
  let floor := h / interval in
  (floor * interval) mod u32_modulus.
End HeightExt.

(** ** Facts *)
Section HeightMonitorFacts.

Lemma hm_max_spec (m : HeightMonitor) :
  match hm_max m with
  | None => hm_map m = ∅
  | Some x => (exists p, hm_map m !! p = Some x) /\
              (forall p h, hm_map m !! p = Some h -> h <= x)
  end.
Proof.
  unfold hm_max. destruct m as [m]. cbn.
  apply (map_fold_weak_ind (fun r m => match r with
    | None => m = ∅
    | Some x => (exists p, m !! p = Some x) /\ (forall p h, m !! p = Some h -> h <= x)
    end)); clear m; [done|].
  intros p h m r Hp IH. destruct r as [x|].
  - destruct IH as [[q Hq] Hle]. split.
    + destruct (Z.max_spec h x) as [[? ->]|[? ->]].
      * exists q. by rewrite lookup_insert_ne by congruence.
      * exists p. apply lookup_insert_eq.
    + intros q' k. rewrite lookup_insert. case_decide.
      * intros [= ->]. lia.
      * intros Hk. apply Hle in Hk. lia.
  - subst m. split; [exists p; apply lookup_insert_eq|].
    intros q k. rewrite lookup_insert, lookup_empty. case_decide; [|done].
    intros [= ->]. lia.
Qed.

Lemma hm_retain_lookup peers m p :
  hm_map (hm_retain peers m) !! p = if decide (p ∈ peers) then hm_map m !! p else None.
Proof.
  unfold hm_retain. cbn. case_decide as Hp.
  - destruct (hm_map m !! p) eqn:E.
    + apply map_lookup_filter_Some. done.
    + apply map_lookup_filter_None. by left.
  - apply map_lookup_filter_None. right. intros x _. done.
Qed.

End HeightMonitorFacts.

Section HeightExtFacts.
Context `{Bitcoin}.

Lemma increment_small h : is_u32 (h + 1) -> increment h = h + 1.
Proof. apply u32_add_small. Qed.

(** The epoch start is the largest multiple of the interval below a height. *)
Lemma last_epoch_start_spec h n :
  is_u32 h -> 0 < difficulty_adjustment_interval n < u32_modulus ->
  let s := last_epoch_start h n in
  is_adjustment_multiple s n = true /\ s <= h < s + difficulty_adjustment_interval n.
Proof.
  unfold is_u32, last_epoch_start, is_adjustment_multiple, as_u32. intros Hh Hi.
  rewrite (Z.mod_small (difficulty_adjustment_interval n)) by lia.
  set (i := difficulty_adjustment_interval n) in *.
  pose proof (Z.div_mod h i ltac:(lia)). pose proof (Z.mod_pos_bound h i ltac:(lia)).
  assert (0 <= h / i) by (apply Z.div_pos; lia).
  rewrite (Z.mod_small (h / i * i)) by nia.
  cbn. rewrite Z_mod_mult. split; [done|nia].
Qed.
End HeightExtFacts.
