(* ===== verification/Graph.v ===== *)
(** * The block tree: [src/chain/graph.rs]

    [BlockTree] keeps every header it accepted ([headers]), the hash of the
    active chain at each height ([canonical_hashes]), the active tip and the
    tips of the candidate forks.  This file holds the data and the operations;
    [GraphFacts] holds the invariants and what they imply.

    Loops that follow [prev_blockhash] are [Fixpoint]s on a fuel of one more
    than the number of stored headers ([walk_fuel]); [GraphFacts] shows that
    on a well-formed tree each loop leaves by the code's own exit before the
    fuel is spent. *)

From stdpp Require Import base numbers list gmap.
From Stdlib Require Import ZArith Lia.
From S2P Require Import Prelude Bitcoin ChainTypes.

Definition LOCATOR_INDEX : list Height := [1; 2; 4; 8; 16; 32; 64; 128; 256; 512; 1024].

Inductive HeaderRejection :=
  | InvalidPow (expected got : CompactTarget)
  | UnknownPrevHash (prev : BlockHash).

Inductive AcceptHeaderChanges :=
  | Accepted (connected_at : IndexedHeader)
  | Duplicate
  | ExtendedFork (connected_at : IndexedHeader)
  | Reorganization (accepted disconnected : list IndexedHeader)
  | Rejected (reason : HeaderRejection).

Record Tip := mkTip {
  th : BlockHash;                           (* [hash] *)
  tip_height : Height;                      (* [height] *)
  next_work_required : option CompactTarget;
}.

Definition from_checkpoint (height : Height) (hash : BlockHash) : Tip :=
  {| th := hash; tip_height := height; next_work_required := None |}.

Record BlockNode := mkNode {
  node_height : Height;
  header : Header;
  acc_work : Work;
  filter_commitment : option FilterCommitment;
  filter_checked : bool;
}.

#[global] Instance BlockNode_eq_dec : EqDecision BlockNode.
Proof. solve_decision. Defined.

#[global] Instance Tip_eq_dec : EqDecision Tip.
Proof. solve_decision. Defined.

Definition node_new (height : Height) (hdr : Header) (work : Work) : BlockNode :=
  {| node_height := height; header := hdr; acc_work := work;
     filter_commitment := None; filter_checked := false |}.

Definition with_commitment (c : option FilterCommitment) (n : BlockNode) : BlockNode :=
  {| node_height := node_height n; header := header n; acc_work := acc_work n;
     filter_commitment := c; filter_checked := filter_checked n |}.

Definition with_checked (b : bool) (n : BlockNode) : BlockNode :=
  {| node_height := node_height n; header := header n; acc_work := acc_work n;
     filter_commitment := filter_commitment n; filter_checked := b |}.

(** [node.header.prev_blockhash] *)
Definition node_prev (n : BlockNode) : BlockHash := prev_blockhash (header n).

(** [IndexedHeader::new(node.height, node.header)] *)
Definition indexed (n : BlockNode) : IndexedHeader :=
  mkIndexedHeader (node_height n) (header n).

Record BlockTree := mkTree {
  canonical_hashes : gmap Height BlockHash;
  headers : gmap BlockHash BlockNode;
  active_tip : Tip;
  candidate_forks : list Tip;
  network : Network;
}.

Definition with_headers (hs : gmap BlockHash BlockNode) (t : BlockTree) : BlockTree :=
  {| canonical_hashes := canonical_hashes t; headers := hs; active_tip := active_tip t;
     candidate_forks := candidate_forks t; network := network t |}.

Definition with_forks (fs : list Tip) (t : BlockTree) : BlockTree :=
  {| canonical_hashes := canonical_hashes t; headers := headers t;
     active_tip := active_tip t; candidate_forks := fs; network := network t |}.

Definition walk_fuel (hs : gmap BlockHash BlockNode) : nat := S (size hs).

Section Graph.
Context `{Bitcoin}.

(** ** Constructors *)

Definition tree_new (tip : Tip) (n : Network) : BlockTree :=
  {| canonical_hashes := ∅; headers := ∅; active_tip := tip;
     candidate_forks := []; network := n |}.

Definition from_genesis (n : Network) : BlockTree :=
  let genesis := genesis_header n in
  let height := 0 in
  let hash := block_hash genesis in
  let tip := mkTip hash height (Some (bits genesis)) in
  let block_node := node_new height genesis (header_work genesis) in
  {| canonical_hashes := {[ 0 := hash ]}; headers := {[ hash := block_node ]};
     active_tip := tip; candidate_forks := []; network := n |}.

Definition from_header (height : Height) (hdr : Header) (n : Network) : BlockTree :=
  let hash := block_hash hdr in
  let tip := mkTip hash height (Some (bits hdr)) in
  let block_node := node_new height hdr (header_work hdr) in
  {| canonical_hashes := ∅; headers := {[ hash := block_node ]};
     active_tip := tip; candidate_forks := []; network := n |}.

(** ** Difficulty *)

Definition compute_next_work_required (t : BlockTree) (new_height : Height)
  : option CompactTarget :=
  adjustment_period ← from_u64_checked (difficulty_adjustment_interval (network t));
  epoch_start ← u32_checked_sub new_height adjustment_period;
  epoch_end ← u32_checked_sub new_height 1;
  epoch_start_hash ← canonical_hashes t !! epoch_start;
  epoch_end_hash ← canonical_hashes t !! epoch_end;
  epoch_start_header ← header <$> headers t !! epoch_start_hash;
  epoch_end_header ← header <$> headers t !! epoch_end_hash;
  Some (from_header_difficulty_adjustment epoch_start_header epoch_end_header (network t)).

(** The work required of a header at [new_height], the same expression in
    the three branches of [accept_header]; [inherited] is the value used
    when no adjustment is due. *)
Definition next_work (t : BlockTree) (new_height : Height) (inherited : option CompactTarget)
  : option CompactTarget :=
  if negb (no_pow_retargeting (network t))
     && negb (allow_min_difficulty_blocks (network t))
     && is_adjustment_multiple new_height (network t)
  then compute_next_work_required t new_height
  else inherited.

(** [if let Some(work) = next_work { if new_header.bits.ne(&work) { .. } }] *)
Definition pow_rejected (required : option CompactTarget) (hdr : Header)
  : option HeaderRejection :=
  match required with
  | Some work =>
      if decide (bits hdr = work) then None else Some (InvalidPow work (bits hdr))
  | None => None
  end.

(** ** Reorganization *)

(** The loop of [switch_to_fork]: connections, disconnections, the updated
    canonical map, and whether the loop returned (rather than ran out of
    fuel). *)
Fixpoint switch_loop (fuel : nat) (hs : gmap BlockHash BlockNode)
    (canonical : gmap Height BlockHash) (curr_hash : BlockHash)
  : list IndexedHeader * list IndexedHeader * gmap Height BlockHash * bool :=
  match fuel with
  | O => ([], [], canonical, false)
  | S fuel' =>
      match hs !! curr_hash with
      | Some node =>
          let next := node_prev node in
          match canonical !! node_height node with
          | Some reorged_hash =>
              if decide (reorged_hash ≠ curr_hash) then
                let disconnection :=
                  match hs !! reorged_hash with
                  | Some reorged => [indexed reorged]
                  | None => []
                  end in
                let '(c, d, canonical', fin) :=
                  switch_loop fuel' hs (<[node_height node := curr_hash]> canonical) next in
                (indexed node :: c, disconnection ++ d, canonical', fin)
              else ([], [], canonical, true)
          | None =>
              let '(c, d, canonical', fin) :=
                switch_loop fuel' hs (<[node_height node := curr_hash]> canonical) next in
              (indexed node :: c, d, canonical', fin)
          end
      | None => ([], [], canonical, true)
      end
  end.

Definition switch_to_fork (t : BlockTree) (new_best : Tip)
  : list IndexedHeader * list IndexedHeader * BlockTree :=
  let '(connections, disconnections, canonical, _) :=
    switch_loop (walk_fuel (headers t)) (headers t) (canonical_hashes t) (th new_best) in
  (connections, disconnections,
   {| canonical_hashes := canonical; headers := headers t; active_tip := active_tip t;
      candidate_forks := candidate_forks t; network := network t |}).

(** ** Accepting a header *)

(** The branch of [accept_header] for a header on the active tip. *)
Definition extend_tip (t : BlockTree) (new_header : Header) : AcceptHeaderChanges * BlockTree :=
  let new_hash := block_hash new_header in
  let prev_hash := prev_blockhash new_header in
  let new_height := increment (tip_height (active_tip t)) in
  let next_work := next_work t new_height (next_work_required (active_tip t)) in
  match pow_rejected next_work new_header with
  | Some e => (Rejected e, t)
  | None =>
      let new_tip := mkTip new_hash new_height next_work in
      let prev_work := default 0 (acc_work <$> headers t !! prev_hash) in
      let new_work := work_add prev_work (header_work new_header) in
      let new_block_node := node_new new_height new_header new_work in
      (Accepted (mkIndexedHeader new_height new_header),
       {| canonical_hashes := <[new_height := new_hash]> (canonical_hashes t);
          headers := <[new_hash := new_block_node]> (headers t);
          active_tip := new_tip;
          candidate_forks := candidate_forks t;
          network := network t |})
  end.

(** The branch for a header on a candidate fork's tip; [node] is the stored
    node of that tip, and [t] no longer has the fork in [candidate_forks]. *)
Definition extend_fork (t : BlockTree) (fork : Tip) (node : BlockNode) (new_header : Header)
  : AcceptHeaderChanges * BlockTree :=
  let new_hash := block_hash new_header in
  let new_height := increment (node_height node) in
  let next_work := next_work t new_height (next_work_required fork) in
  match pow_rejected next_work new_header with
  | Some e => (Rejected e, t)
  | None =>
      let new_work := work_add (acc_work node) (header_work new_header) in
      let new_tip := mkTip new_hash new_height next_work in
      let new_block_node := node_new new_height new_header new_work in
      let hs := <[new_hash := new_block_node]> (headers t) in
      if default 0 (acc_work <$> hs !! th (active_tip t)) <? new_work then
        let t' := {| canonical_hashes := canonical_hashes t; headers := hs;
                     active_tip := new_tip;
                     candidate_forks := candidate_forks t ++ [active_tip t];
                     network := network t |} in
        let '(accepted, disconnected, t'') := switch_to_fork t' new_tip in
        (Reorganization accepted disconnected, t'')
      else
        (ExtendedFork (mkIndexedHeader new_height new_header),
         {| canonical_hashes := canonical_hashes t; headers := hs;
            active_tip := active_tip t;
            candidate_forks := candidate_forks t ++ [new_tip];
            network := network t |})
  end.

(** The final [match]: a header on any other stored node opens a fork. *)
Definition open_fork (t : BlockTree) (new_header : Header) : AcceptHeaderChanges * BlockTree :=
  let new_hash := block_hash new_header in
  let prev_hash := prev_blockhash new_header in
  match headers t !! prev_hash with
  | Some node =>
      let new_height := increment (node_height node) in
      let next_work := next_work t new_height (Some (bits (header node))) in
      match pow_rejected next_work new_header with
      | Some e => (Rejected e, t)
      | None =>
          let new_work := work_add (acc_work node) (header_work new_header) in
          let new_tip := mkTip new_hash new_height next_work in
          let new_block_node := node_new new_height new_header new_work in
          (ExtendedFork (mkIndexedHeader new_height new_header),
           {| canonical_hashes := canonical_hashes t;
              headers := <[new_hash := new_block_node]> (headers t);
              active_tip := active_tip t;
              candidate_forks := candidate_forks t ++ [new_tip];
              network := network t |})
      end
  | None => (Rejected (UnknownPrevHash prev_hash), t)
  end.

Definition accept_header (t : BlockTree) (new_header : Header)
  : AcceptHeaderChanges * BlockTree :=
  let new_hash := block_hash new_header in
  let prev_hash := prev_blockhash new_header in
  if decide (th (active_tip t) = prev_hash) then extend_tip t new_header
  else if decide (is_Some (headers t !! new_hash)) then (Duplicate, t)
  else
    match position (fun fork => bool_decide (th fork = prev_hash)) (candidate_forks t) with
    | Some fork_index =>
        match candidate_forks t !! fork_index with
        | Some fork =>
            let t' := with_forks (swap_remove fork_index (candidate_forks t)) t in
            match headers t' !! th fork with
            | Some node => extend_fork t' fork node new_header
            | None => open_fork t' new_header
            end
        | None => open_fork t new_header
        end
    | None => open_fork t new_header
    end.

(** ** Queries *)

Definition block_hash_at_height (t : BlockTree) (height : Height) : option BlockHash :=
  if decide (tip_height (active_tip t) = height) then Some (th (active_tip t))
  else canonical_hashes t !! height.

Definition header_at_height (t : BlockTree) (height : Height) : option Header :=
  hash ← canonical_hashes t !! height;
  header <$> headers t !! hash.

Definition height_of_hash (t : BlockTree) (hash : BlockHash) : option Height :=
  node_height <$> headers t !! hash.

Definition header_at_hash (t : BlockTree) (hash : BlockHash) : option Header :=
  header <$> headers t !! hash.

Definition tree_height (t : BlockTree) : Height := tip_height (active_tip t).

Definition contains (t : BlockTree) (hash : BlockHash) : bool :=
  bool_decide (is_Some (headers t !! hash)) || bool_decide (th (active_tip t) = hash).

Definition tip_hash (t : BlockTree) : BlockHash := th (active_tip t).

Definition tree_filter_hash (t : BlockTree) (hash : BlockHash) : option FilterHash :=
  node ← headers t !! hash;
  fc_filter_hash <$> filter_commitment node.

Definition tree_filter_commitment (t : BlockTree) (hash : BlockHash)
  : option FilterCommitment :=
  node ← headers t !! hash;
  filter_commitment node.

Definition filter_hash_at_height (t : BlockTree) (height : Height) : option FilterHash :=
  hash ← canonical_hashes t !! height;
  node ← headers t !! hash;
  fc_filter_hash <$> filter_commitment node.

(** ** Filters *)

Definition set_commitment (t : BlockTree) (c : FilterCommitment) (hash : BlockHash)
  : BlockTree :=
  with_headers (alter (with_commitment (Some c)) hash (headers t)) t.

Definition check_filter (t : BlockTree) (hash : BlockHash) : BlockTree :=
  with_headers (alter (with_checked true) hash (headers t)) t.

Definition is_filter_checked (t : BlockTree) (hash : BlockHash) : bool :=
  match headers t !! hash with
  | Some node => filter_checked node
  | None => false
  end.

Fixpoint assume_checked_loop (fuel : nat) (assumed_height : Height)
    (hs : gmap BlockHash BlockNode) (curr : BlockHash) : gmap BlockHash BlockNode :=
  match fuel with
  | O => hs
  | S fuel' =>
      match hs !! curr with
      | Some node =>
          let hs' := if node_height node <=? assumed_height
                     then <[curr := with_checked true node]> hs else hs in
          assume_checked_loop fuel' assumed_height hs' (node_prev node)
      | None => hs
      end
  end.

Definition assume_checked_to (t : BlockTree) (assumed_height : Height) : BlockTree :=
  with_headers (assume_checked_loop (walk_fuel (headers t)) assumed_height
                  (headers t) (tip_hash t)) t.

(** The two loops of [reset_all_filters]: along the active chain, and along
    a fork until its first unchecked node. *)
Fixpoint reset_active_loop (fuel : nat) (hs : gmap BlockHash BlockNode) (curr : BlockHash)
  : gmap BlockHash BlockNode :=
  match fuel with
  | O => hs
  | S fuel' =>
      match hs !! curr with
      | Some node =>
          reset_active_loop fuel' (<[curr := with_checked false node]> hs) (node_prev node)
      | None => hs
      end
  end.

Fixpoint reset_fork_loop (fuel : nat) (hs : gmap BlockHash BlockNode) (curr : BlockHash)
  : gmap BlockHash BlockNode :=
  match fuel with
  | O => hs
  | S fuel' =>
      match hs !! curr with
      | Some node =>
          if negb (filter_checked node) then hs
          else reset_fork_loop fuel' (<[curr := with_checked false node]> hs) (node_prev node)
      | None => hs
      end
  end.

Definition reset_all_filters (t : BlockTree) : BlockTree :=
  let hs := reset_active_loop (walk_fuel (headers t)) (headers t) (tip_hash t) in
  with_headers
    (foldl (fun hs fork => reset_fork_loop (walk_fuel hs) hs (th fork)) hs
       (candidate_forks t)) t.

(** ** Iterators *)

(** [BlockNodeIterator::next] on the iterator state [current]. *)
Definition iter_next (hs : gmap BlockHash BlockNode) (current : BlockHash)
  : option (BlockNode * BlockHash) :=
  node ← hs !! current;
  Some (node, node_prev node).

(** The items an iterator yields, at most [fuel] of them. *)
Fixpoint iter_collect (fuel : nat) (hs : gmap BlockHash BlockNode) (current : BlockHash)
  : list BlockNode :=
  match fuel with
  | O => []
  | S fuel' =>
      match iter_next hs current with
      | Some (node, next) => node :: iter_collect fuel' hs next
      | None => []
      end
  end.

Definition iter_data (t : BlockTree) : list BlockNode :=
  iter_collect (walk_fuel (headers t)) (headers t) (tip_hash t).

Definition iter_headers (t : BlockTree) : list IndexedHeader :=
  indexed <$> iter_data t.

Definition filter_headers_synced (t : BlockTree) : bool :=
  forallb (fun node => bool_decide (is_Some (filter_commitment node))) (iter_data t).

Definition filters_synced (t : BlockTree) : bool :=
  forallb filter_checked (iter_data t).

(** [count() as u32] *)
Definition total_filters_synced (t : BlockTree) : Z :=
  as_u32 (Z.of_nat (length (filter (fun node => filter_checked node = true) (iter_data t)))).

Definition total_filter_headers_synced (t : BlockTree) : Z :=
  as_u32 (Z.of_nat (length (filter (fun node => is_Some (filter_commitment node)) (iter_data t)))).

Definition internal_chain_len (t : BlockTree) : Z := Z.of_nat (size (canonical_hashes t)).

(** ** Locators *)

(** The [for] loop over [LOCATOR_INDEX], with its early returns. *)
Fixpoint locators_loop (t : BlockTree) (index : list Height) (acc : list BlockHash)
  : list BlockHash :=
  match index with
  | [] => acc
  | locator :: index' =>
      match u32_checked_sub (tip_height (active_tip t)) locator with
      | Some height =>
          match block_hash_at_height t height with
          | Some hash => locators_loop t index' (acc ++ [hash])
          | None => acc
          end
      | None => acc
      end
  end.

Definition locators (t : BlockTree) : list BlockHash :=
  reverse (locators_loop t LOCATOR_INDEX [th (active_tip t)]).
End Graph.
