(* ===== verification/Walk.v ===== *)
(** * Walking the block tree

    The program's loops follow [prev_blockhash] through the stored headers.
    [chain_from hs k l] is the path such a loop takes from [k]: it visits the
    entries [l] in order and stops at the first hash that is not stored.

    [wf_headers a b hs] is the invariant of the stored headers: every entry is
    stored under its own hash, and its parent is either stored one height
    below, or is the anchor [a] (of height [b]) on which the tree was started.
    It makes every walk finite, strictly descending in height, and no longer
    than the number of stored headers, so that the fuel of the executable
    loops is never spent. *)

From stdpp Require Import base numbers list gmap sorting.
From Stdlib Require Import ZArith Lia.
From S2P Require Import Prelude Bitcoin ChainTypes Graph.

Inductive chain_from (hs : gmap BlockHash BlockNode)
  : BlockHash -> list (BlockHash * BlockNode) -> Prop :=
  | chain_stop k : hs !! k = None -> chain_from hs k []
  | chain_step k n l :
      hs !! k = Some n -> chain_from hs (node_prev n) l -> chain_from hs k ((k, n) :: l).

(** The height order of a walk. *)
Definition above (x y : BlockHash * BlockNode) : Prop := node_height y.2 < node_height x.2.

Section Walk.
Context `{Bitcoin}.

Record wf_headers (a : BlockHash) (b : Height) (hs : gmap BlockHash BlockNode) : Prop := {
  wf_key k n : hs !! k = Some n -> block_hash (header n) = k;
  wf_anchor : hs !! a = None;
  wf_parent k n : hs !! k = Some n ->
    (node_prev n = a /\ node_height n = b + 1) \/
    (exists p, hs !! node_prev n = Some p /\ node_height n = node_height p + 1);
  wf_low k n : hs !! k = Some n -> b < node_height n;
}.

(** ** Paths *)

Lemma chain_from_det hs k l1 l2 :
  chain_from hs k l1 -> chain_from hs k l2 -> l1 = l2.
Proof.
  intros H1. revert l2.
  induction H1 as [k Hk|k n l Hk _ IH]; intros l2 H2;
    inversion H2; subst; [done|congruence|congruence|].
  assert (n0 = n) as -> by congruence. f_equal. by apply IH.
Qed.

Lemma chain_from_lookup hs k l x n :
  chain_from hs k l -> (x, n) ∈ l -> hs !! x = Some n.
Proof.
  induction 1 as [|k m l Hk _ IH]; [by intros ?%elem_of_nil|].
  intros [[= -> ->]|?]%elem_of_cons; auto.
Qed.

Lemma chain_from_suffix hs k l1 x n l2 :
  chain_from hs k (l1 ++ (x, n) :: l2) -> chain_from hs x ((x, n) :: l2).
Proof.
  revert k. induction l1 as [|[y m] l1 IH]; intros k Hc; inversion Hc; subst.
  - done.
  - eauto.
Qed.

Lemma chain_from_elem hs k l x n :
  chain_from hs k l -> (x, n) ∈ l -> exists l', chain_from hs x l' /\ l' ⊆ l.
Proof.
  intros Hc (l1 & l2 & ->)%list_elem_of_split.
  eexists. split; [by eapply chain_from_suffix|].
  intros z Hz. apply elem_of_app. by right.
Qed.

(** A walk does not see an entry it never visits. *)
Lemma chain_from_insert hs k l x n :
  chain_from hs k l -> k <> x -> (forall y m, (y, m) ∈ l -> node_prev m <> x) ->
  chain_from (<[x := n]> hs) k l.
Proof.
  induction 1 as [k Hk|k m l Hk _ IH]; intros Hne Hl.
  - constructor. by rewrite lookup_insert_ne.
  - constructor; [by rewrite lookup_insert_ne|].
    apply IH; [eapply Hl; left|]. intros y m' Hy. eapply Hl. by right.
Qed.

(** ** Descent *)

Section Wf.
Context {a : BlockHash} {b : Height} {hs : gmap BlockHash BlockNode}.
Context (Hwf : wf_headers a b hs).

Lemma wf_step k n p :
  hs !! k = Some n -> hs !! node_prev n = Some p -> node_height n = node_height p + 1.
Proof.
  intros Hk Hp. destruct (wf_parent _ _ _ Hwf k n Hk) as [[Ha _]|(p' & Hp' & ->)].
  - pose proof (wf_anchor _ _ _ Hwf). congruence.
  - congruence.
Qed.

Lemma wf_bottom k n :
  hs !! k = Some n -> hs !! node_prev n = None -> node_prev n = a /\ node_height n = b + 1.
Proof.
  intros Hk Hp. destruct (wf_parent _ _ _ Hwf k n Hk) as [?|(p' & Hp' & _)]; [done|].
  congruence.
Qed.

Lemma chain_from_head k l :
  chain_from hs k l -> forall n, hs !! k = Some n ->
  Forall (fun x => node_height x.2 <= node_height n) l.
Proof.
  induction 1 as [k Hk|k n l Hk Hl IH]; intros n' Hn'; [congruence|].
  assert (n' = n) as -> by congruence. clear Hn'.
  destruct (hs !! node_prev n) as [p|] eqn:Hp.
  - pose proof (IH p eq_refl) as Hall. pose proof (wf_step _ _ _ Hk Hp) as Hh.
    constructor; [cbn; lia|].
    eapply Forall_impl; [done|]. cbn. lia.
  - inversion Hl; subst; [|congruence]. repeat constructor. cbn. lia.
Qed.

Lemma chain_from_sorted k l : chain_from hs k l -> StronglySorted above l.
Proof.
  induction 1 as [k Hk|k n l Hk Hl IH]; [constructor|].
  constructor; [done|].
  destruct (hs !! node_prev n) as [p|] eqn:Hp.
  - pose proof (chain_from_head _ _ Hl p Hp) as Hall.
    pose proof (wf_step _ _ _ Hk Hp) as Hh.
    eapply Forall_impl; [done|]. unfold above. cbn. lia.
  - inversion Hl; subst; [constructor|congruence].
Qed.

Lemma chain_height_inj k l x n y m :
  chain_from hs k l -> (x, n) ∈ l -> (y, m) ∈ l -> node_height n = node_height m ->
  (x, n) = (y, m).
Proof.
  intros Hs%chain_from_sorted. induction Hs as [|z l Hs IH Hall].
  - by intros ?%elem_of_nil.
  - rewrite Forall_forall in Hall. unfold above in Hall.
    intros [Hx|Hx]%elem_of_cons [Hy|Hy]%elem_of_cons Hh; [congruence|..].
    + subst z. apply Hall in Hy. cbn in Hy. lia.
    + subst z. apply Hall in Hx. cbn in Hx. lia.
    + auto.
Qed.

(** Every height between the bottom of the tree and the start is visited. *)
Lemma chain_height_cover k l n h :
  chain_from hs k l -> hs !! k = Some n -> b + 1 <= h <= node_height n ->
  exists x m, (x, m) ∈ l /\ node_height m = h.
Proof.
  intros Hc. revert n. induction Hc as [k Hk|k n l Hk Hl IH]; intros n' Hn' Hh; [congruence|].
  assert (n' = n) as -> by congruence. clear Hn'.
  destruct (decide (node_height n = h)) as [<-|Hne].
  { exists k, n. split; [left|done]. }
  destruct (hs !! node_prev n) as [p|] eqn:Hp.
  - pose proof (wf_step _ _ _ Hk Hp).
    destruct (IH p eq_refl) as (x & m & ? & ?); [lia|].
    exists x, m. split; [by right|done].
  - pose proof (wf_bottom _ _ Hk Hp). lia.
Qed.

(** ** Termination *)

Lemma chain_from_exists k : exists l, chain_from hs k l.
Proof.
  destruct (hs !! k) as [n|] eqn:Hk; [|exists []; by constructor].
  remember (Z.to_nat (node_height n - b)) as m eqn:Hm.
  revert k n Hk Hm. induction m as [m IH] using lt_wf_ind. intros k n Hk Hm.
  destruct (hs !! node_prev n) as [p|] eqn:Hp.
  - pose proof (wf_step _ _ _ Hk Hp) as Hh.
    pose proof (wf_low _ _ _ Hwf _ _ Hp).
    destruct (IH (Z.to_nat (node_height p - b))) with (k := node_prev n) (n := p)
      as [l Hl]; [lia|done|done|].
    exists ((k, n) :: l). by constructor.
  - exists [(k, n)]. constructor; [done|]. by constructor.
Qed.

Lemma chain_from_NoDup k l : chain_from hs k l -> NoDup l.*1.
Proof.
  intros Hc. pose proof (chain_from_sorted _ _ Hc) as Hs.
  assert (forall x n, (x, n) ∈ l -> hs !! x = Some n) as Hin
    by (intros; by eapply chain_from_lookup).
  clear Hc. induction Hs as [|[x n] l Hs IH Hall]; [constructor|].
  rewrite Forall_forall in Hall. cbn. constructor; [|set_solver].
  intros ((y & m) & Hy & Hm)%list_elem_of_fmap. cbn in Hy. subst y.
  pose proof (Hall _ Hm) as Hlt. unfold above in Hlt. cbn in Hlt.
  assert (Some n = Some m) as [= ->]; [|lia].
  rewrite <- (Hin x n), <- (Hin x m); [done|by right|by left].
Qed.

Lemma chain_from_size k l : chain_from hs k l -> (length l <= size hs)%nat.
Proof.
  intros Hc. pose proof (chain_from_NoDup _ _ Hc) as Hnd.
  assert (list_to_map l ⊆ hs) as Hsub.
  { apply map_subseteq_spec. intros x n Hx%elem_of_list_to_map_2.
    by eapply chain_from_lookup. }
  apply map_subseteq_size in Hsub. etransitivity; [|exact Hsub].
  rewrite <- length_map_to_list. rewrite map_to_list_to_map by done. done.
Qed.
End Wf.

(** ** The executable iterator takes the walk *)

Lemma iter_collect_chain hs k l fuel :
  chain_from hs k l -> (length l <= fuel)%nat -> iter_collect fuel hs k = l.*2.
Proof.
  intros Hc. revert fuel.
  induction Hc as [k Hk|k n l Hk _ IH]; intros fuel Hf.
  - destruct fuel; [done|]. cbn. unfold iter_next. by rewrite Hk.
  - destruct fuel; cbn in Hf; [lia|]. cbn. unfold iter_next. rewrite Hk. cbn.
    f_equal. apply IH. lia.
Qed.

Lemma iter_collect_wf a b hs k l :
  wf_headers a b hs -> chain_from hs k l -> iter_collect (walk_fuel hs) hs k = l.*2.
Proof.
  intros Hwf Hc. apply iter_collect_chain; [done|].
  pose proof (chain_from_size Hwf _ _ Hc). unfold walk_fuel. lia.
Qed.

(** ** Storing a new header *)

Lemma wf_headers_insert a b hs x n :
  wf_headers a b hs -> hs !! x = None -> x <> a -> block_hash (header n) = x ->
  (node_prev n = a /\ node_height n = b + 1 \/
   exists p, hs !! node_prev n = Some p /\ node_height n = node_height p + 1) ->
  wf_headers a b (<[x := n]> hs).
Proof.
  intros Hwf Hx Hxa Hkey Hpar.
  assert (forall y p, hs !! y = Some p -> <[x := n]> hs !! y = Some p) as Hold.
  { intros y p Hy. by rewrite lookup_insert_ne by congruence. }
  split.
  - intros k m [(<- & <-)|[_ Hk]]%lookup_insert_Some; [done|].
    by apply (wf_key _ _ _ Hwf).
  - rewrite lookup_insert_ne by done. apply (wf_anchor _ _ _ Hwf).
  - intros k m [(<- & <-)|[_ Hk]]%lookup_insert_Some.
    + destruct Hpar as [?|(p & Hp & ?)]; [by left|right]. eauto.
    + destruct (wf_parent _ _ _ Hwf _ _ Hk) as [?|(p & Hp & ?)]; [by left|right]. eauto.
  - intros k m [(<- & <-)|[_ Hk]]%lookup_insert_Some; [|by apply (wf_low _ _ _ Hwf _ _ Hk)].
    destruct Hpar as [[_ ->]|(p & Hp & ->)]; [lia|].
    pose proof (wf_low _ _ _ Hwf _ _ Hp). lia.
Qed.

Lemma wf_headers_empty a b : wf_headers a b ∅.
Proof. split; intros *; rewrite lookup_empty; done. Qed.

Lemma wf_headers_root a b n :
  block_hash (header n) <> a -> node_prev n = a -> node_height n = b + 1 ->
  wf_headers a b {[block_hash (header n) := n]}.
Proof.
  intros Hne Ha Hb. apply wf_headers_insert; [apply wf_headers_empty|done..|by left].
Qed.

(** ** Marks on nodes do not change the shape of the tree *)

Definition skeleton (n : BlockNode) : Height * Header * Work :=
  (node_height n, header n, acc_work n).

Definition same_skeleton (hs hs' : gmap BlockHash BlockNode) : Prop :=
  forall k, skeleton <$> hs !! k = skeleton <$> hs' !! k.

#[global] Instance same_skeleton_equiv : Equivalence same_skeleton.
Proof.
  split.
  - intros hs k. done.
  - intros hs hs' Heq k. by rewrite (Heq k).
  - intros h1 h2 h3 H12 H23 k. by rewrite (H12 k), (H23 k).
Qed.

Lemma same_skeleton_sym hs hs' : same_skeleton hs hs' -> same_skeleton hs' hs.
Proof. intros Heq k. by rewrite (Heq k). Qed.

Lemma same_skeleton_Some hs hs' k n :
  same_skeleton hs hs' -> hs !! k = Some n ->
  exists n', hs' !! k = Some n' /\ skeleton n = skeleton n'.
Proof.
  intros Heq Hk. specialize (Heq k). rewrite Hk in Heq.
  destruct (hs' !! k) as [n'|]; [|done]. exists n'. split; [done|]. by apply (inj Some).
Qed.

Lemma same_skeleton_None hs hs' k : same_skeleton hs hs' -> hs !! k = None -> hs' !! k = None.
Proof.
  intros Heq Hk. specialize (Heq k). rewrite Hk in Heq. by destruct (hs' !! k).
Qed.

Lemma same_skeleton_insert hs k n m :
  hs !! k = Some n -> skeleton m = skeleton n -> same_skeleton (<[k := m]> hs) hs.
Proof.
  intros Hk Hs x. rewrite lookup_insert. case_decide; [|done].
  subst. rewrite Hk. cbn. congruence.
Qed.

Lemma same_skeleton_alter (f : BlockNode -> BlockNode) hs k :
  (forall n, skeleton (f n) = skeleton n) -> same_skeleton (alter f k hs) hs.
Proof.
  intros Hf x. rewrite lookup_alter. case_decide; [|done].
  subst. destruct (hs !! x); [cbn; by rewrite Hf|done].
Qed.

Lemma skeleton_prev n n' : skeleton n = skeleton n' -> node_prev n = node_prev n'.
Proof. unfold node_prev. by intros [= _ -> _]. Qed.

Lemma chain_from_skeleton hs hs' k l :
  same_skeleton hs hs' -> chain_from hs k l ->
  exists l', chain_from hs' k l' /\
    Forall2 (fun x y => x.1 = y.1 /\ skeleton x.2 = skeleton y.2) l l'.
Proof.
  intros Heq. induction 1 as [k Hk|k n l Hk _ (l' & Hl' & Hall)].
  - exists []. split; [|done]. constructor. by eapply same_skeleton_None.
  - destruct (same_skeleton_Some _ _ _ _ Heq Hk) as (n' & Hn' & Hs).
    exists ((k, n') :: l'). split; [|by constructor].
    constructor; [done|]. by rewrite <- (skeleton_prev _ _ Hs).
Qed.

#[global] Instance wf_headers_proper a b : Proper (same_skeleton ==> iff) (wf_headers a b).
Proof.
  assert (forall hs hs', same_skeleton hs hs' -> wf_headers a b hs -> wf_headers a b hs')
    as Himp; [|intros hs hs' Heq; split; apply Himp; eauto using same_skeleton_sym].
  intros hs hs' Heq%same_skeleton_sym Hwf.
  split.
  - intros k n Hk. destruct (same_skeleton_Some _ _ _ _ Heq Hk) as (m & Hm & [= _ -> _]).
    by apply (wf_key _ _ _ Hwf).
  - eapply same_skeleton_None; [by apply same_skeleton_sym|]. apply (wf_anchor _ _ _ Hwf).
  - intros k n Hk. destruct (same_skeleton_Some _ _ _ _ Heq Hk) as (m & Hm & Hs).
    rewrite (skeleton_prev _ _ Hs). injection Hs as -> _ _.
    destruct (wf_parent _ _ _ Hwf _ _ Hm) as [?|(p & Hp & Hh)]; [by left|right].
    apply same_skeleton_sym in Heq. destruct (same_skeleton_Some _ _ _ _ Heq Hp) as (p' & Hp' & [= Hpp _ _]).
    exists p'. split; [done|]. lia.
  - intros k n Hk. destruct (same_skeleton_Some _ _ _ _ Heq Hk) as (m & Hm & [= -> _ _]).
    by apply (wf_low _ _ _ Hwf _ _ Hm).
Qed.
End Walk.
