(* ===== verification/GraphFacts.v ===== *)
(** * Invariants of the block tree

    [wf_tree a b t] is the invariant that every operation of [Graph] keeps: the
    stored headers form a tree above the anchor, the active tip is a stored
    leaf (or the anchor itself, before any header is accepted), the candidate
    forks are stored.  [header_ok a t h] is what accepting a header relies on:
    no hash collision with a stored header, no hash equal to the anchor (both
    infeasible for double SHA-256), and no overflow of the u32 height.

    [accounted t] says that the work of every node is the exact sum of its
    ancestors' work; with it, the work of the active tip never decreases. *)

From stdpp Require Import base numbers list gmap sorting.
From Stdlib Require Import ZArith Lia.
From S2P Require Import Prelude Bitcoin ChainTypes Graph Walk.

Section GraphFacts.
Context `{Bitcoin}.

(** ** The invariant *)

Record wf_tree (a : BlockHash) (b : Height) (t : BlockTree) : Prop := {
  wt_headers : wf_headers a b (headers t);
  wt_tip : match headers t !! th (active_tip t) with
           | Some n => node_height n = tip_height (active_tip t)
           | None => th (active_tip t) = a /\ tip_height (active_tip t) = b /\
                     headers t = ∅ /\ canonical_hashes t = ∅
           end;
  wt_leaf k n : headers t !! k = Some n -> node_prev n <> th (active_tip t);
  wt_forks f : f ∈ candidate_forks t ->
    exists n, headers t !! th f = Some n /\ node_height n = tip_height f;
}.

(** What the program relies on when it accepts a header. *)
Record header_ok (a : BlockHash) (t : BlockTree) (h : Header) : Prop := {
  ok_collision n : headers t !! block_hash h = Some n -> header n = h;
  ok_anchor : block_hash h <> a;
  ok_acyclic : block_hash h <> prev_blockhash h;
  ok_tip_height : is_u32 (tip_height (active_tip t) + 1);
  ok_height n : headers t !! prev_blockhash h = Some n -> is_u32 (node_height n + 1);
}.

(** ** Initial trees *)

Lemma wf_tree_new tip n : wf_tree (th tip) (tip_height tip) (tree_new tip n).
Proof.
  split; cbn.
  - apply wf_headers_empty.
  - rewrite lookup_empty. done.
  - intros k m. by rewrite lookup_empty.
  - by intros f ?%elem_of_nil.
Qed.

Lemma wf_tree_singleton hdr height can n :
  block_hash hdr <> prev_blockhash hdr ->
  wf_tree (prev_blockhash hdr) (height - 1)
    {| canonical_hashes := can;
       headers := {[block_hash hdr := node_new height hdr (header_work hdr)]};
       active_tip := mkTip (block_hash hdr) height (Some (bits hdr));
       candidate_forks := []; network := n |}.
Proof.
  intros Hne. split; cbn.
  - apply (wf_headers_root _ _ (node_new height hdr (header_work hdr))); cbn; [done|done|lia].
  - by rewrite lookup_singleton_eq.
  - intros k m [<- <-]%lookup_singleton_Some. done.
  - by intros f ?%elem_of_nil.
Qed.

Lemma wf_tree_from_genesis n :
  block_hash (genesis_header n) <> prev_blockhash (genesis_header n) ->
  wf_tree (prev_blockhash (genesis_header n)) (-1) (from_genesis n).
Proof. apply (wf_tree_singleton _ 0). Qed.

Lemma wf_tree_from_header height hdr n :
  block_hash hdr <> prev_blockhash hdr ->
  wf_tree (prev_blockhash hdr) (height - 1) (from_header height hdr n).
Proof. apply wf_tree_singleton. Qed.

(** ** Storing a header on a stored parent, or on the anchor of an empty tree *)

Section Insert.
Context {a : BlockHash} {b : Height} {t : BlockTree} {h : Header}.
Context (Hwf : wf_tree a b t) (Hok : header_ok a t h).

Abbreviation x := (block_hash h).

(** A fresh hash is nobody's parent. *)
Lemma fresh_leaf k n :
  headers t !! x = None -> headers t !! k = Some n -> node_prev n <> x.
Proof.
  intros Hx Hk Hp.
  destruct (wf_parent _ _ _ (wt_headers _ _ _ Hwf) _ _ Hk) as [[Ha _]|(p & Hpp & _)].
  - apply (ok_anchor _ _ _ Hok). congruence.
  - congruence.
Qed.

(** No stored node is a child of a freshly stored one. *)
Lemma insert_leaf k n m :
  headers t !! x = None -> node_prev m = prev_blockhash h ->
  <[x := m]> (headers t) !! k = Some n -> node_prev n <> x.
Proof.
  intros Hx Hm [(<- & <-)|[_ Hk]]%lookup_insert_Some.
  - rewrite Hm. symmetry. apply (ok_acyclic _ _ _ Hok).
  - by apply (fresh_leaf k).
Qed.

Lemma insert_forks m fs :
  headers t !! x = None -> fs ⊆ candidate_forks t ->
  forall f, f ∈ fs ->
  exists n, <[x := m]> (headers t) !! th f = Some n /\ node_height n = tip_height f.
Proof.
  intros Hx Hfs f Hf.
  destruct (wt_forks _ _ _ Hwf f (Hfs f Hf)) as (n & Hn & Hh).
  exists n. by rewrite lookup_insert_ne by congruence.
Qed.
End Insert.

(** ** What accepting a header does

    One constructor per outcome of [accept_header]; the theorems below are
    by cases on it. *)

Definition leaf_node (height : Height) (parent : option BlockNode) (h : Header) : BlockNode :=
  node_new height h (work_add (default 0 (acc_work <$> parent)) (header_work h)).

Definition grown (t : BlockTree) (h : Header) (n : BlockNode) (can : gmap Height BlockHash)
    (tip : Tip) (fs : list Tip) : BlockTree :=
  {| canonical_hashes := can; headers := <[block_hash h := n]> (headers t);
     active_tip := tip; candidate_forks := fs; network := network t |}.

Definition tip_work (t : BlockTree) : Work :=
  default 0 (acc_work <$> headers t !! th (active_tip t)).

Inductive accept_spec (t : BlockTree) (h : Header) : AcceptHeaderChanges -> BlockTree -> Prop :=
  | as_duplicate :
      th (active_tip t) <> prev_blockhash h -> is_Some (headers t !! block_hash h) ->
      accept_spec t h Duplicate t
  | as_orphan :
      th (active_tip t) <> prev_blockhash h -> headers t !! block_hash h = None ->
      headers t !! prev_blockhash h = None ->
      accept_spec t h (Rejected (UnknownPrevHash (prev_blockhash h))) t
  | as_bad_bits w fs :
      fs ⊆ candidate_forks t -> bits h <> w ->
      accept_spec t h (Rejected (InvalidPow w (bits h))) (with_forks fs t)
  | as_tip next :
      let height := increment (tip_height (active_tip t)) in
      let n := leaf_node height (headers t !! prev_blockhash h) h in
      th (active_tip t) = prev_blockhash h -> headers t !! block_hash h = None ->
      next = next_work t height (next_work_required (active_tip t)) ->
      pow_rejected next h = None ->
      accept_spec t h (Accepted (indexed n))
        (grown t h n (<[height := block_hash h]> (canonical_hashes t))
           (mkTip (block_hash h) height next) (candidate_forks t))
  | as_fork p fs next :
      let n := leaf_node (increment (node_height p)) (Some p) h in
      th (active_tip t) <> prev_blockhash h -> headers t !! block_hash h = None ->
      headers t !! prev_blockhash h = Some p -> fs ⊆ candidate_forks t ->
      pow_rejected next h = None ->
      ((exists f, f ∈ candidate_forks t /\ th f = prev_blockhash h) ->
       acc_work n <= tip_work t) ->
      accept_spec t h (ExtendedFork (indexed n))
        (grown t h n (canonical_hashes t) (active_tip t)
           (fs ++ [mkTip (block_hash h) (node_height n) next]))
  | as_reorg p f fs next c d can fin :
      let n := leaf_node (increment (node_height p)) (Some p) h in
      let hs := <[block_hash h := n]> (headers t) in
      th (active_tip t) <> prev_blockhash h -> headers t !! block_hash h = None ->
      headers t !! prev_blockhash h = Some p ->
      f ∈ candidate_forks t -> th f = prev_blockhash h ->
      fs ⊆ candidate_forks t -> pow_rejected next h = None ->
      tip_work t < acc_work n ->
      switch_loop (walk_fuel hs) hs (canonical_hashes t) (block_hash h) = (c, d, can, fin) ->
      accept_spec t h (Reorganization c d)
        (grown t h n can (mkTip (block_hash h) (node_height n) next) (fs ++ [active_tip t])).

Lemma with_forks_id t : with_forks (candidate_forks t) t = t.
Proof. by destruct t. Qed.

(** The tip is stored as soon as any header is. *)
Lemma tip_stored a b t k n :
  wf_tree a b t -> headers t !! k = Some n ->
  exists m, headers t !! th (active_tip t) = Some m /\ node_height m = tip_height (active_tip t).
Proof.
  intros Hwf Hk. pose proof (wt_tip _ _ _ Hwf) as Htip.
  destruct (headers t !! th (active_tip t)) as [m|]; [eauto|].
  destruct Htip as (_ & _ & He & _). by rewrite He, lookup_empty in Hk.
Qed.

Lemma open_fork_spec t h :
  th (active_tip t) <> prev_blockhash h -> headers t !! block_hash h = None ->
  Forall (fun f => th f <> prev_blockhash h) (candidate_forks t) ->
  accept_spec t h (open_fork t h).1 (open_fork t h).2.
Proof.
  intros Htip Hx Hfs. unfold open_fork.
  destruct (headers t !! prev_blockhash h) as [p|] eqn:Hp; [|by apply as_orphan].
  destruct (pow_rejected _ h) as [e|] eqn:Hpow.
  - unfold pow_rejected in Hpow. repeat case_match; simplify_eq.
    cbn [fst snd]. rewrite <- (with_forks_id t) at 2. by apply as_bad_bits.
  - eapply (as_fork _ _ p (candidate_forks t)); try done.
    rewrite Forall_forall in Hfs. intros (f & Hf & Heq). by destruct (Hfs f Hf).
Qed.

Lemma extend_fork_spec t h f fs p :
  th (active_tip t) <> prev_blockhash h -> th (active_tip t) <> block_hash h ->
  headers t !! block_hash h = None -> headers t !! prev_blockhash h = Some p ->
  f ∈ candidate_forks t -> th f = prev_blockhash h -> fs ⊆ candidate_forks t ->
  accept_spec t h (extend_fork (with_forks fs t) f p h).1 (extend_fork (with_forks fs t) f p h).2.
Proof.
  intros Htip Htx Hx Hp Hf Hfp Hfs. unfold extend_fork.
  destruct (pow_rejected _ h) as [e|] eqn:Hpow.
  - unfold pow_rejected in Hpow. repeat case_match; simplify_eq. by apply as_bad_bits.
  - cbn [headers with_forks active_tip canonical_hashes candidate_forks network].
    rewrite lookup_insert_ne by done. fold (tip_work t).
    destruct (Z.ltb_spec (tip_work t) (work_add (acc_work p) (header_work h))) as [Hlt|Hge].
    + unfold switch_to_fork. cbn [headers canonical_hashes th].
      destruct (switch_loop _ _ _ _) as [[[c d] can] fin] eqn:Hsw.
      cbn [fst snd]. by eapply (as_reorg t h p f fs _ c d can fin).
    + cbn [fst snd]. by eapply (as_fork t h p fs).
Qed.

Lemma extend_tip_spec t h :
  th (active_tip t) = prev_blockhash h -> headers t !! block_hash h = None ->
  accept_spec t h (extend_tip t h).1 (extend_tip t h).2.
Proof.
  intros Htip Hx. unfold extend_tip.
  destruct (pow_rejected _ h) as [e|] eqn:Hpow.
  - unfold pow_rejected in Hpow. repeat case_match; simplify_eq.
    cbn [fst snd]. rewrite <- (with_forks_id t) at 2. by apply as_bad_bits.
  - by eapply as_tip.
Qed.

Lemma accept_header_spec a b t h :
  wf_tree a b t -> header_ok a t h ->
  accept_spec t h (accept_header t h).1 (accept_header t h).2.
Proof.
  intros Hwf Hok. unfold accept_header.
  case_decide as Htip.
  - apply extend_tip_spec; [done|].
    destruct (headers t !! block_hash h) as [n|] eqn:Hx; [|done].
    destruct (wt_leaf _ _ _ Hwf _ _ Hx).
    unfold node_prev. by rewrite (ok_collision _ _ _ Hok n Hx).
  - case_decide as Hx; [by apply as_duplicate|].
    apply eq_None_not_Some in Hx.
    destruct (position _ (candidate_forks t)) as [i|] eqn:Hpos.
    + apply position_Some in Hpos as (f & Hi & Hf%bool_decide_eq_true). rewrite Hi.
      assert (f ∈ candidate_forks t) as Hin by (by eapply list_elem_of_lookup_2).
      destruct (wt_forks _ _ _ Hwf f Hin) as (p & Hp & _).
      cbn [headers with_forks]. rewrite Hp. rewrite Hf in Hp.
      apply extend_fork_spec; try done.
      * destruct (tip_stored _ _ _ _ _ Hwf Hp) as (m & Hm & _). congruence.
      * intros y. apply swap_remove_elem.
    + apply position_None in Hpos. apply open_fork_spec; [done|done|].
      eapply Forall_impl; [done|]. cbn. intros f Hf%bool_decide_eq_false. done.
Qed.

(** ** The invariant is kept *)

(** A tree grown by a fresh leaf on a stored parent, or on the anchor while
    nothing is stored. *)
Lemma grown_headers a b t h n :
  wf_tree a b t -> header_ok a t h -> headers t !! block_hash h = None ->
  header n = h ->
  (prev_blockhash h = a /\ node_height n = b + 1 \/
   exists p, headers t !! prev_blockhash h = Some p /\ node_height n = node_height p + 1) ->
  wf_headers a b (<[block_hash h := n]> (headers t)).
Proof.
  intros Hwf Hok Hx Hn Hpar. apply wf_headers_insert.
  - apply Hwf.
  - done.
  - apply (ok_anchor _ _ _ Hok).
  - by rewrite Hn.
  - unfold node_prev. by rewrite Hn.
Qed.

Lemma child_height a t h p :
  header_ok a t h -> headers t !! prev_blockhash h = Some p ->
  increment (node_height p) = node_height p + 1.
Proof. intros Hok Hp. apply increment_small, (ok_height _ _ _ Hok _ Hp). Qed.

Lemma accept_spec_wf a b t h r t' :
  wf_tree a b t -> header_ok a t h -> accept_spec t h r t' -> wf_tree a b t'.
Proof.
  intros Hwf Hok. destruct 1 as [|???|w fs Hfs _|next height n Htip Hx _ _
    |p fs next n Htip Hx Hp Hfs _ _|p f fs next c d can fin n hs Htip Hx Hp Hf Hfp Hfs _ _ _].
  - done.
  - done.
  - destruct Hwf. by split; cbn; eauto.
  - assert (height = tip_height (active_tip t) + 1) as Hh
      by apply increment_small, (ok_tip_height _ _ _ Hok).
    pose proof (wt_tip _ _ _ Hwf) as Hst. rewrite Htip in Hst.
    split; cbn [headers grown active_tip canonical_hashes candidate_forks th tip_height].
    + eapply grown_headers; try done.
      destruct (headers t !! prev_blockhash h) as [p|].
      * right. exists p. cbn. split; [done|lia].
      * left. destruct Hst as (-> & Hb & _). cbn. split; [done|lia].
    + by rewrite lookup_insert_eq.
    + intros k m. by apply (insert_leaf Hwf Hok).
    + by apply (insert_forks Hwf).
  - pose proof (child_height _ _ _ _ Hok Hp) as Hh.
    destruct (tip_stored _ _ _ _ _ Hwf Hp) as (m & Hm & Hmh).
    split; cbn [headers grown active_tip canonical_hashes candidate_forks].
    + eapply grown_headers; try done. right. exists p. split; [done|]. cbn. lia.
    + by rewrite lookup_insert_ne, Hm by congruence.
    + intros k m' [(<- & <-)|[_ Hk]]%lookup_insert_Some; [done|].
      by apply (wt_leaf _ _ _ Hwf k).
    + intros g [Hg|Hg%list_elem_of_singleton]%elem_of_app; [|subst g].
      * by apply (insert_forks Hwf n fs).
      * exists n. by rewrite lookup_insert_eq.
  - pose proof (child_height _ _ _ _ Hok Hp) as Hh.
    destruct (tip_stored _ _ _ _ _ Hwf Hp) as (m & Hm & Hmh).
    split; cbn [headers grown active_tip canonical_hashes candidate_forks th tip_height].
    + eapply grown_headers; try done. right. exists p. split; [done|]. cbn. lia.
    + by rewrite lookup_insert_eq.
    + intros k m'. by apply (insert_leaf Hwf Hok).
    + intros g [Hg|Hg%list_elem_of_singleton]%elem_of_app; [|subst g].
      * by apply (insert_forks Hwf n fs).
      * exists m. by rewrite lookup_insert_ne by congruence.
Qed.

(** ** Accumulated work *)

Definition parent_work (hs : gmap BlockHash BlockNode) (prev : BlockHash) : Work :=
  default 0 (acc_work <$> hs !! prev).

(** Every node's work is its parent's plus its own, without overflow. *)
Definition accounted (t : BlockTree) : Prop :=
  forall k n, headers t !! k = Some n ->
    is_work (acc_work n) /\
    acc_work n = parent_work (headers t) (node_prev n) + header_work (header n).

Definition work_ok (t : BlockTree) (h : Header) : Prop :=
  is_work (parent_work (headers t) (prev_blockhash h) + header_work h).

Definition work_sum (l : list (BlockHash * BlockNode)) : Work :=
  foldr (fun x w => w + header_work (header x.2)) 0 l.

(** The work of a node is the sum of the work of the headers below it. *)
Lemma accounted_sum t k n l :
  accounted t -> headers t !! k = Some n -> chain_from (headers t) k l ->
  acc_work n = work_sum l.
Proof.
  intros Hacc Hk Hc. revert n Hk.
  induction Hc as [k Hk|k m l Hk Hl IH]; intros n Hn; [congruence|].
  assert (n = m) as -> by congruence. cbn.
  destruct (Hacc _ _ Hk) as [_ ->]. unfold parent_work.
  inversion Hl as [? Hp|? p ? Hp]; subst; rewrite Hp; [done|].
  cbn. by rewrite (IH p Hp).
Qed.

Section Work.
Context `{!WorkLaws}.
Context {a : BlockHash} {b : Height} {t : BlockTree} {h : Header}.
Context (Hwf : wf_tree a b t) (Hok : header_ok a t h).
Context (Hacc : accounted t) (Hwork : work_ok t h).

Lemma parent_work_range prev : is_work (parent_work (headers t) prev).
Proof.
  unfold parent_work. destruct (headers t !! prev) as [p|] eqn:Hp; cbn.
  - apply (Hacc _ _ Hp).
  - unfold is_work. lia.
Qed.

Lemma leaf_work height :
  acc_work (leaf_node height (headers t !! prev_blockhash h) h) =
  parent_work (headers t) (prev_blockhash h) + header_work h.
Proof.
  cbn. apply work_add_spec; [apply parent_work_range|apply header_work_range|apply Hwork].
Qed.

Lemma grown_accounted n can tip fs :
  headers t !! block_hash h = None -> header n = h ->
  acc_work n = parent_work (headers t) (prev_blockhash h) + header_work h ->
  accounted (grown t h n can tip fs).
Proof.
  intros Hx Hn Hw k m. cbn [headers grown].
  intros [(<- & <-)|[Hne Hk]]%lookup_insert_Some.
  - rewrite Hw. split; [apply Hwork|]. unfold node_prev. rewrite Hn. f_equal.
    unfold parent_work. rewrite lookup_insert_ne; [done|]. apply (ok_acyclic _ _ _ Hok).
  - destruct (Hacc _ _ Hk) as [Hr Heq]. split; [done|]. rewrite Heq.
    f_equal. unfold parent_work. rewrite lookup_insert_ne; [done|].
    symmetry. apply (fresh_leaf Hwf Hok _ _ Hx Hk).
Qed.

Lemma accept_spec_accounted r t' : accept_spec t h r t' -> accounted t'.
Proof.
  destruct 1 as [|???|w fs Hfs _|next height n Htip Hx _ _
    |p fs next n Htip Hx Hp Hfs _ _|p f fs next c d can fin n hs Htip Hx Hp _ _ _ _ _ _].
  - done.
  - done.
  - apply Hacc.
  - apply grown_accounted; [done..|]. apply leaf_work.
  - apply grown_accounted; [done..|]. unfold n. rewrite <- Hp. apply leaf_work.
  - apply grown_accounted; [done..|]. unfold n. rewrite <- Hp. apply leaf_work.
Qed.

(** The work of the active chain never decreases, and a reorganization
    happens only to a chain of strictly more work. *)
Lemma accept_spec_tip_work r t' :
  accept_spec t h r t' ->
  tip_work t <= tip_work t' /\
  (forall c d, r = Reorganization c d -> tip_work t < tip_work t').
Proof.
  unfold tip_work.
  destruct 1 as [|???|w fs Hfs _|next height n Htip Hx _ _
    |p fs next n Htip Hx Hp Hfs _ _|p f fs next c d can fin n hs Htip Hx Hp _ _ _ _ Hlt _];
    cbn [headers active_tip grown with_forks th].
  - done.
  - done.
  - done.
  - rewrite lookup_insert_eq. change (default 0 (acc_work <$> Some n)) with (acc_work n).
    unfold n. rewrite leaf_work, Htip. pose proof (header_work_range h).
    unfold parent_work, is_work in *. split; [lia|done].
  - destruct (tip_stored _ _ _ _ _ Hwf Hp) as (m & Hm & _).
    rewrite lookup_insert_ne by congruence. done.
  - rewrite lookup_insert_eq. unfold hs, tip_work in *.
    change (default 0 (acc_work <$> Some n)) with (acc_work n).
    split; [lia|done].
Qed.
End Work.
End GraphFacts.
