(* ===== verification/Reorg.v ===== *)
(** * Reorganizations and the canonical chain

    [canonical_ok lo t] relates [canonical_hashes] to its specification, the
    path from the active tip down: every canonical entry is on the path, and
    every block of the path at or above height [lo] is canonical at its height
    ([lo] is the root's height for a tree from genesis or from a checkpoint,
    and one more for [from_header], which does not enter its root).

    The loop of [switch_to_fork] is characterized exactly ([switch_loop_spec]):
    it takes the new path down to the first block that is already canonical. *)

From stdpp Require Import base numbers list gmap sorting.
From Stdlib Require Import ZArith Lia.
From S2P Require Import Prelude Bitcoin ChainTypes Graph Walk GraphFacts.

(** ** The loop *)

(** Is this entry of a walk new to the canonical map? *)
Definition uncanonical (can : gmap Height BlockHash) (x : BlockHash * BlockNode) : bool :=
  bool_decide (can !! node_height x.2 ≠ Some x.1).

Definition disconnected_at (hs : gmap BlockHash BlockNode) (can : gmap Height BlockHash)
    (x : BlockHash * BlockNode) : option IndexedHeader :=
  k ← can !! node_height x.2;
  indexed <$> hs !! k.

Definition canonize (x : BlockHash * BlockNode) (can : gmap Height BlockHash)
  : gmap Height BlockHash := <[node_height x.2 := x.1]> can.

Section Reorg.
Context `{Bitcoin}.

Lemma below_uncanonical can k n l :
  Forall (above (k, n)) l ->
  take_while (uncanonical (canonize (k, n) can)) l = take_while (uncanonical can) l.
Proof.
  intros Hall. apply take_while_ext. intros x Hx.
  rewrite Forall_forall in Hall. specialize (Hall x Hx). unfold above in Hall. cbn in Hall.
  unfold uncanonical, canonize. cbn. by rewrite lookup_insert_ne by lia.
Qed.

Lemma below_disconnected hs can k n l :
  Forall (above (k, n)) l ->
  omap (disconnected_at hs (canonize (k, n) can)) l = omap (disconnected_at hs can) l.
Proof.
  induction 1 as [|x l Hx _ IH]; [done|]. cbn. rewrite IH.
  replace (disconnected_at hs (canonize (k, n) can) x) with (disconnected_at hs can x); [done|].
  unfold disconnected_at, canonize, above in *. cbn in *. by rewrite lookup_insert_ne by lia.
Qed.

Lemma Forall_take_while {A} (P : A -> Prop) p (l : list A) :
  Forall P l -> Forall P (take_while p l).
Proof.
  induction 1 as [|x l Hx _ IH]; cbn; [done|]. destruct (p x); by constructor.
Qed.

Lemma switch_loop_spec hs k l :
  chain_from hs k l -> StronglySorted above l -> forall fuel can,
  (length l < fuel)%nat ->
  let fresh := take_while (uncanonical can) l in
  switch_loop fuel hs can k =
    ((fun x => indexed x.2) <$> fresh, omap (disconnected_at hs can) fresh,
     foldl (fun c x => canonize x c) can fresh, true).
Proof.
  induction 1 as [k Hk|k n l Hk _ IH]; intros Hs fuel can Hf; (destruct fuel as [|fuel]; [cbn in Hf; lia|]).
  - cbn. by rewrite Hk.
  - inversion Hs as [|? ? Hs' Hall]; subst. cbn in Hf.
    cbn -[canonize]. rewrite Hk. unfold uncanonical at 1 3 5. cbn [fst snd].
    pose proof (IH Hs' fuel (canonize (k, n) can) ltac:(lia)) as IHl. cbn zeta in IHl.
    rewrite below_uncanonical in IHl by done.
    rewrite below_disconnected in IHl by by apply Forall_take_while.
    unfold canonize at 1 in IHl. cbn [fst snd] in IHl.
    destruct (can !! node_height n) as [q|] eqn:Hq.
    + destruct (decide (q = k)) as [->|Hne].
      * rewrite decide_False by (intros Hn; by apply Hn).
        by rewrite bool_decide_false by (intros Hn; by apply Hn).
      * rewrite decide_True by done. rewrite IHl.
        rewrite bool_decide_true by congruence. cbn -[canonize].
        unfold disconnected_at at 2. cbn. rewrite Hq. cbn.
        by destruct (hs !! q).
    + rewrite IHl. rewrite bool_decide_true by done. cbn -[canonize].
      unfold disconnected_at at 2. cbn. by rewrite Hq.
Qed.

(** ** The canonical map after the loop *)

Lemma canonize_all_other can l h :
  (forall x, x ∈ l -> node_height x.2 <> h) ->
  foldl (fun c x => canonize x c) can l !! h = can !! h.
Proof.
  revert can. induction l as [|x l IH]; intros can Hl; [done|]. cbn.
  rewrite IH by (intros y Hy; apply Hl; by right).
  unfold canonize. rewrite lookup_insert_ne; [done|]. apply Hl. by left.
Qed.
Lemma canonize_all_elem can l k n :
  StronglySorted above l -> (k, n) ∈ l ->
  foldl (fun c x => canonize x c) can l !! node_height n = Some k.
Proof.
  intros Hs. revert can. induction Hs as [|x l Hs IH Hall]; intros can.
  - by intros ?%elem_of_nil.
  - intros [<-|Hin]%elem_of_cons; [|by apply IH].
    cbn -[canonize]. rewrite canonize_all_other.
    + unfold canonize. cbn. by rewrite lookup_insert_eq.
    + intros y Hy. rewrite Forall_forall in Hall. specialize (Hall y Hy).
      unfold above in Hall. cbn in Hall. lia.
Qed.

(** ** The canonical invariant *)

Definition on_chain (hs : gmap BlockHash BlockNode) (tip k : BlockHash) (n : BlockNode) : Prop :=
  exists l, chain_from hs tip l /\ (k, n) ∈ l.

Record canonical_ok (lo : Height) (t : BlockTree) : Prop := {
  can_sound h k : canonical_hashes t !! h = Some k ->
    exists n, on_chain (headers t) (th (active_tip t)) k n /\ node_height n = h;
  can_complete k n : on_chain (headers t) (th (active_tip t)) k n -> lo <= node_height n ->
    canonical_hashes t !! node_height n = Some k;
}.

Lemma on_chain_lookup hs tip k n : on_chain hs tip k n -> hs !! k = Some n.
Proof. intros (l & Hc & Hin). by eapply chain_from_lookup. Qed.

Lemma on_chain_height_inj a b hs tip k n k' n' :
  wf_headers a b hs -> on_chain hs tip k n -> on_chain hs tip k' n' ->
  node_height n = node_height n' -> k = k'.
Proof.
  intros Hwf (l & Hc & Hin) (l' & Hc' & Hin') Hh.
  rewrite <- (chain_from_det _ _ _ _ Hc Hc') in Hin'.
  by pose proof (chain_height_inj Hwf _ _ _ _ _ _ Hc Hin Hin' Hh) as [= -> _].
Qed.

(** The height of every block of the chain is between the bottom and the tip. *)
Lemma on_chain_bounds a b t k n :
  wf_tree a b t -> on_chain (headers t) (th (active_tip t)) k n ->
  b < node_height n <= tip_height (active_tip t).
Proof.
  intros Hwf Hon. pose proof (on_chain_lookup _ _ _ _ Hon) as Hk.
  destruct (tip_stored _ _ _ _ _ Hwf Hk) as (m & Hm & <-).
  split; [by eapply wf_low; [apply Hwf|]|].
  destruct Hon as (l & Hc & Hin).
  pose proof (chain_from_head (wt_headers _ _ _ Hwf) _ _ Hc m Hm) as Hall.
  rewrite Forall_forall in Hall. by apply (Hall _ Hin).
Qed.

Lemma canonical_ok_new tip n lo : canonical_ok lo (tree_new tip n).
Proof.
  split; cbn.
  - intros h k. by rewrite lookup_empty.
  - intros k m (l & Hc & Hin). inversion Hc as [|? ? ? Hl]; subst; [by apply elem_of_nil in Hin|].
    by rewrite lookup_empty in Hl.
Qed.

Lemma on_chain_singleton x m k n :
  node_prev m <> x -> on_chain {[x := m]} x k n -> k = x /\ n = m.
Proof.
  intros Hne (l & Hc & Hin). inversion Hc as [|? p l' Hp Hl]; subst; [by apply elem_of_nil in Hin|].
  rewrite lookup_singleton_eq in Hp. injection Hp as <-.
  inversion Hl as [|? p ? Hp]; subst.
  - apply list_elem_of_singleton in Hin. by injection Hin.
  - by rewrite lookup_singleton_ne in Hp by done.
Qed.

Lemma canonical_ok_from_genesis n :
  block_hash (genesis_header n) <> prev_blockhash (genesis_header n) ->
  canonical_ok 0 (from_genesis n).
Proof.
  intros Hne. split; cbn.
  - intros h k [<- <-]%lookup_singleton_Some. eexists (node_new 0 (genesis_header n) _).
    split; [|done]. eexists [(_, _)]. split; [|by left]. constructor; [by rewrite lookup_singleton_eq|].
    constructor. by rewrite lookup_singleton_ne.
  - intros k m [-> ->]%on_chain_singleton _; [by rewrite lookup_singleton_eq|by apply not_eq_sym].
Qed.

Lemma canonical_ok_from_header height hdr n :
  block_hash hdr <> prev_blockhash hdr -> canonical_ok (height + 1) (from_header height hdr n).
Proof.
  intros Hne. split; cbn.
  - intros h k. by rewrite lookup_empty.
  - intros k m [-> ->]%on_chain_singleton; cbn; [lia|]. by apply not_eq_sym.
Qed.

(** ** The loop replaces one chain by the other *)

Lemma on_chain_trans hs tip q n k m :
  on_chain hs tip q n -> on_chain hs q k m -> on_chain hs tip k m.
Proof.
  intros (l & Hc & Hin) (l' & Hc' & Hin').
  destruct (chain_from_elem _ _ _ _ _ Hc Hin) as (l2 & Hc2 & Hsub).
  exists l. split; [done|]. apply Hsub. by rewrite <- (chain_from_det _ _ _ _ Hc' Hc2).
Qed.

Section Switch.
Context {a : BlockHash} {b lo : Height} {hs : gmap BlockHash BlockNode}.
Context {can : gmap Height BlockHash} {old new : BlockHash} {n : BlockNode}.
Context {l : list (BlockHash * BlockNode)}.
Context (Hwf : wf_headers a b hs) (Hn : hs !! new = Some n) (Hl : chain_from hs new l).
Context (Hsound : forall i k, can !! i = Some k ->
  exists m, on_chain hs old k m /\ node_height m = i).
Context (Hcomplete : forall k m, on_chain hs old k m -> lo <= node_height m ->
  can !! node_height m = Some k).

Abbreviation fresh := (take_while (uncanonical can) l).
Abbreviation rest := (drop_while (uncanonical can) l).

(** What the loop leaves is the common part of the two chains. *)
Lemma rest_common k m : (k, m) ∈ rest -> on_chain hs old k m.
Proof.
  pose proof (take_drop_while (uncanonical can) l) as Heq.
  destruct rest as [|[q nq] Q] eqn:HQ; [by intros ?%elem_of_nil|].
  intros Hin. pose proof (drop_while_head _ _ _ _ HQ) as Hq.
  unfold uncanonical in Hq. cbn in Hq.
  apply bool_decide_eq_false, dec_stable in Hq.
  rewrite <- Heq in Hl. pose proof (chain_from_suffix _ _ _ _ _ _ Hl) as Hsuf.
  destruct (Hsound _ _ Hq) as (m' & Hon & _).
  eapply on_chain_trans; [done|]. by exists ((q, nq) :: Q).
Qed.

Lemma fresh_or_rest k m : (k, m) ∈ l -> (k, m) ∈ fresh \/ (k, m) ∈ rest.
Proof. rewrite <- (take_drop_while (uncanonical can) l) at 1. by apply elem_of_app. Qed.

Lemma fresh_in_chain x : x ∈ fresh -> x ∈ l.
Proof. intros Hx. rewrite <- (take_drop_while (uncanonical can) l). apply elem_of_app. by left. Qed.

Lemma rest_in_chain x : x ∈ rest -> x ∈ l.
Proof. intros Hx. rewrite <- (take_drop_while (uncanonical can) l). apply elem_of_app. by right. Qed.

Lemma fresh_sorted : StronglySorted above fresh.
Proof.
  pose proof (chain_from_sorted Hwf _ _ Hl) as Hs.
  rewrite <- (take_drop_while (uncanonical can) l) in Hs.
  by apply StronglySorted_app in Hs as (_ & ? & _).
Qed.

Lemma fresh_rest_disjoint k m k' m' :
  (k, m) ∈ fresh -> (k', m') ∈ rest -> node_height m' < node_height m.
Proof.
  pose proof (chain_from_sorted Hwf _ _ Hl) as Hs.
  rewrite <- (take_drop_while (uncanonical can) l) in Hs.
  apply StronglySorted_app in Hs as (Hcross & _ & _).
  intros Hk Hk'. apply (Hcross _ _ Hk Hk').
Qed.

Lemma switched_sound :
  (forall k m, on_chain hs old k m -> node_height m <= node_height n) ->
  forall i k, foldl (fun c x => canonize x c) can fresh !! i = Some k ->
  exists m, on_chain hs new k m /\ node_height m = i.
Proof.
  intros Hle i k Hk.
  destruct (decide (Exists (fun y => node_height y.2 = i) fresh)) as [Hex|Hno].
  - apply Exists_exists in Hex as ([y m] & Hy & Hi). cbn in Hi. subst i. rewrite (canonize_all_elem _ _ _ _ fresh_sorted Hy) in Hk.
    injection Hk as <-. exists m. split; [|done]. exists l. split; [done|]. by apply fresh_in_chain.
  - rewrite canonize_all_other in Hk
      by (intros y Hy Hi; apply Hno, Exists_exists; by exists y).
    destruct (Hsound _ _ Hk) as (m & Hon & Hi). exists m. split; [|done].
    pose proof (wf_low _ _ _ Hwf _ _ (on_chain_lookup _ _ _ _ Hon)) as Hlow.
    destruct (chain_height_cover Hwf _ _ _ i Hl Hn) as (y & m' & Hy & Hm').
    { specialize (Hle _ _ Hon). lia. }
    destruct (fresh_or_rest _ _ Hy) as [Hf|Hr]; [by destruct Hno; apply Exists_exists; exists (y, m')|].
    pose proof (rest_common _ _ Hr) as Hon'.
    pose proof (on_chain_height_inj _ _ _ _ _ _ _ _ Hwf Hon Hon' ltac:(lia)) as ->.
    assert (m = m') as ->.
    { apply on_chain_lookup in Hon, Hon'. congruence. }
    by exists l.
Qed.

Lemma switched_complete k m :
  on_chain hs new k m -> lo <= node_height m ->
  foldl (fun c x => canonize x c) can fresh !! node_height m = Some k.
Proof.
  intros (l' & Hl' & Hin) Hlo. rewrite (chain_from_det _ _ _ _ Hl' Hl) in Hin.
  destruct (fresh_or_rest _ _ Hin) as [Hf|Hr].
  - by apply canonize_all_elem; [apply fresh_sorted|].
  - rewrite canonize_all_other.
    + apply Hcomplete; [by apply rest_common|done].
    + intros [y m'] Hy. pose proof (fresh_rest_disjoint _ _ _ _ Hy Hr). cbn. lia.
Qed.

(** ** The reported lists *)

Section Exact.
Context {l0 : list (BlockHash * BlockNode)}.
Context (Hlo : lo <= b + 1) (Hl0 : chain_from hs old l0).
Context (Hle : forall k m, on_chain hs old k m -> node_height m <= node_height n).

Lemma old_on_chain k m : (k, m) ∈ l0 <-> on_chain hs old k m.
Proof.
  split; [by exists l0|]. intros (l' & Hl' & Hin).
  by rewrite (chain_from_det _ _ _ _ Hl0 Hl').
Qed.

Lemma old_canonical k m : (k, m) ∈ l0 -> can !! node_height m = Some k.
Proof.
  intros Hon%old_on_chain. apply Hcomplete; [done|].
  pose proof (wf_low _ _ _ Hwf _ _ (on_chain_lookup _ _ _ _ Hon)). lia.
Qed.

Lemma accepted_exact : filter (fun x => x.1 ∉ l0.*1) l = fresh.
Proof.
  rewrite <- (take_drop_while (uncanonical can) l) at 1.
  rewrite filter_app, (list_filter_all _ fresh), (list_filter_none _ rest), app_nil_r; [done|..].
  - apply Forall_forall. intros [k m] Hr Hk. apply Hk, elem_of_fst.
    exists m. by apply old_on_chain, rest_common.
  - apply Forall_forall. intros [k m] Hf (m' & Hin)%elem_of_fst. cbn in *.
    pose proof (take_while_true _ _ _ Hf) as Hu%bool_decide_eq_true. cbn in Hu.
    assert (m' = m) as ->.
    { apply fresh_in_chain in Hf.
      pose proof (chain_from_lookup _ _ _ _ _ Hl Hf).
      pose proof (chain_from_lookup _ _ _ _ _ Hl0 Hin). congruence. }
    by apply Hu, old_canonical.
Qed.

(** The old block at the height of a fresh one. *)
Definition replaced (x : BlockHash * BlockNode) : option (BlockHash * BlockNode) :=
  k ← can !! node_height x.2;
  (fun m => (k, m)) <$> hs !! k.

Lemma replaced_spec x k m :
  replaced x = Some (k, m) -> (k, m) ∈ l0 /\ node_height m = node_height x.2 /\
    can !! node_height x.2 = Some k.
Proof.
  unfold replaced. destruct (can !! node_height x.2) as [q|] eqn:Hq; cbn; [|done].
  destruct (hs !! q) as [nq|] eqn:Hnq; cbn; [|done]. intros [= -> ->].
  destruct (Hsound _ _ Hq) as (m' & Hon & Hh).
  assert (m' = m) as -> by (apply on_chain_lookup in Hon; congruence).
  split; [by apply old_on_chain|done].
Qed.

Lemma replaced_sorted l' : StronglySorted above l' -> StronglySorted above (omap replaced l').
Proof.
  induction 1 as [|x l' Hs IH Hall]; [constructor|]. cbn.
  destruct (replaced x) as [[k m]|] eqn:Hx; [|done].
  constructor; [done|]. apply replaced_spec in Hx as (_ & Hh & _).
  apply Forall_forall. intros [k' m'] (y & Hy & Hr)%list_elem_of_omap.
  apply replaced_spec in Hr as (_ & Hh' & _).
  rewrite Forall_forall in Hall. specialize (Hall y Hy). unfold above in *. cbn. lia.
Qed.

Lemma replaced_elem k m :
  (k, m) ∈ omap replaced fresh <-> k ∉ l.*1 /\ (k, m) ∈ l0.
Proof.
  rewrite list_elem_of_omap. split.
  - intros ([y ny] & Hy & (Hin & Hh & Hc)%replaced_spec). split; [|done].
    intros (m' & Hm')%elem_of_fst.
    assert (m' = m) as ->.
    { pose proof (chain_from_lookup _ _ _ _ _ Hl Hm').
      pose proof (chain_from_lookup _ _ _ _ _ Hl0 Hin). congruence. }
    pose proof (take_while_true _ _ _ Hy) as Hu%bool_decide_eq_true.
    pose proof (chain_height_inj Hwf _ _ _ _ _ _ Hl Hm' (fresh_in_chain _ Hy) Hh) as [= -> ->].
    done.
  - intros [Hk Hin]. pose proof (proj1 (old_on_chain k m) Hin) as Hon.
    pose proof (wf_low _ _ _ Hwf _ _ (on_chain_lookup _ _ _ _ Hon)) as Hlow.
    destruct (chain_height_cover Hwf _ _ _ (node_height m) Hl Hn) as (y & ny & Hy & Hh).
    { specialize (Hle _ _ Hon). lia. }
    destruct (fresh_or_rest _ _ Hy) as [Hf|Hr].
    + exists (y, ny). split; [done|]. unfold replaced. cbn.
      rewrite Hh, (old_canonical _ _ Hin). cbn.
      by rewrite (on_chain_lookup _ _ _ _ Hon).
    + pose proof (on_chain_height_inj _ _ _ _ _ _ _ _ Hwf Hon (rest_common _ _ Hr) ltac:(lia)) as ->.
      destruct Hk. apply elem_of_fst. by exists ny.
Qed.

Lemma above_antisymm (x y : BlockHash * BlockNode) : above x y -> above y x -> x = y.
Proof. unfold above. lia. Qed.

Lemma above_NoDup l' : StronglySorted above l' -> NoDup l'.
Proof.
  induction 1 as [|x l' _ IH Hall]; constructor; [|done].
  intros Hx. rewrite Forall_forall in Hall. specialize (Hall x Hx). unfold above in Hall. lia.
Qed.

Lemma disconnected_exact :
  omap (disconnected_at hs can) fresh = (fun x => indexed x.2) <$> filter (fun x => x.1 ∉ l.*1) l0.
Proof.
  assert (omap replaced fresh = filter (fun x => x.1 ∉ l.*1) l0) as <-.
  - pose proof (chain_from_sorted Hwf _ _ Hl0) as Hs0.
    assert (StronglySorted above (filter (fun x => x.1 ∉ l.*1) l0)) as Hsf
      by by apply StronglySorted_filter.
    apply (StronglySorted_unique_strong above); [|apply replaced_sorted, fresh_sorted|done|].
    + intros y z _ _. apply above_antisymm.
    + apply NoDup_Permutation; [apply above_NoDup, replaced_sorted, fresh_sorted
        |by apply above_NoDup|].
      intros [k m]. by rewrite replaced_elem, list_elem_of_filter.
  - induction fresh as [|y fr IH]; [done|]. cbn. rewrite IH.
    unfold disconnected_at, replaced.
    destruct (can !! node_height y.2) as [q|]; [|done]. cbn. by destruct (hs !! q).
Qed.
End Exact.
End Switch.

(** ** Preservation *)

Section Preserve.
Context {a : BlockHash} {b : Height} {t : BlockTree} {h : Header}.
Context (Hwf : wf_tree a b t) (Hok : header_ok a t h).
Context (Hx : headers t !! block_hash h = None).

Abbreviation x := (block_hash h).

(** Storing a fresh leaf does not change the chain of another block. *)
Lemma chain_grown k l n :
  k <> x -> chain_from (headers t) k l -> chain_from (<[x := n]> (headers t)) k l.
Proof.
  intros Hk Hc. apply chain_from_insert; [done|done|].
  intros y m Hy. apply (fresh_leaf Hwf Hok y); [done|].
  by eapply chain_from_lookup.
Qed.

Lemma on_chain_grown tip k m n :
  tip <> x -> on_chain (<[x := n]> (headers t)) tip k m <-> on_chain (headers t) tip k m.
Proof.
  intros Htip. destruct (chain_from_exists (wt_headers _ _ _ Hwf) tip) as [l Hc].
  pose proof (chain_grown _ _ n Htip Hc) as Hc'. split; intros (l' & Hl' & Hin).
  - exists l. split; [done|]. by rewrite (chain_from_det _ _ _ _ Hc' Hl').
  - exists l. split; [done|]. by rewrite (chain_from_det _ _ _ _ Hc Hl').
Qed.

(** The chain of the new leaf: the leaf, then its parent's chain. *)
Lemma on_chain_leaf k m n :
  node_prev n = prev_blockhash h ->
  on_chain (<[x := n]> (headers t)) x k m <->
  (k = x /\ m = n) \/ on_chain (headers t) (prev_blockhash h) k m.
Proof.
  intros Hn. destruct (chain_from_exists (wt_headers _ _ _ Hwf) (prev_blockhash h)) as [l Hc].
  pose proof (ok_acyclic _ _ _ Hok) as Hne.
  assert (chain_from (<[x := n]> (headers t)) x ((x, n) :: l)) as Hc'.
  { constructor; [by rewrite lookup_insert_eq|]. rewrite Hn.
    apply chain_grown; [by apply not_eq_sym|done]. }
  split.
  - intros (l' & Hl' & Hin). rewrite <- (chain_from_det _ _ _ _ Hc' Hl') in Hin.
    apply elem_of_cons in Hin as [[= -> ->]|Hin]; [by left|right]. by exists l.
  - intros [[-> ->]|(l' & Hl' & Hin)]; eexists; (split; [exact Hc'|]); [by left|].
    right. by rewrite (chain_from_det _ _ _ _ Hc Hl').
Qed.

Lemma canonical_tip lo n next :
  canonical_ok lo t -> th (active_tip t) = prev_blockhash h ->
  node_prev n = prev_blockhash h -> node_height n = tip_height (active_tip t) + 1 ->
  canonical_ok lo (grown t h n (<[node_height n := x]> (canonical_hashes t))
                     (mkTip x (node_height n) next) (candidate_forks t)).
Proof.
  intros Hcan Htip Hn Hh. split; cbn.
  - intros i k [[<- <-]|[Hne Hk]]%lookup_insert_Some.
    + exists n. split; [|done]. apply on_chain_leaf; [done|by left].
    + destruct (can_sound _ _ Hcan _ _ Hk) as (m & Hon & Hm).
      exists m. split; [|done]. apply on_chain_leaf; [done|right]. by rewrite <- Htip.
  - intros k m [[-> ->]|Hon]%on_chain_leaf Hlo; [..|done].
    + by rewrite lookup_insert_eq.
    + rewrite <- Htip in Hon. pose proof (on_chain_bounds _ _ _ _ _ Hwf Hon).
      rewrite lookup_insert_ne by lia. by apply (can_complete _ _ Hcan).
Qed.

Lemma canonical_fork lo n fs :
  canonical_ok lo t -> th (active_tip t) <> x ->
  canonical_ok lo (grown t h n (canonical_hashes t) (active_tip t) fs).
Proof.
  intros Hcan Htip. split; cbn.
  - intros i k Hk. destruct (can_sound _ _ Hcan _ _ Hk) as (m & Hon & Hm).
    exists m. split; [|done]. by apply on_chain_grown.
  - intros k m Hon%on_chain_grown; [|done]. by apply (can_complete _ _ Hcan).
Qed.

(** A reorganization to a chain that is not lower than the old one. *)
Lemma canonical_reorg lo n next fs c d can fin :
  let hs := <[x := n]> (headers t) in
  canonical_ok lo t -> th (active_tip t) <> x -> wf_headers a b hs ->
  switch_loop (walk_fuel hs) hs (canonical_hashes t) x = (c, d, can, fin) ->
  tip_height (active_tip t) <= node_height n ->
  canonical_ok lo (grown t h n can (mkTip x (node_height n) next) fs).
Proof.
  intros hs Hcan Htip Hwf' Hsw Hle.
  destruct (chain_from_exists Hwf' x) as [l Hc].
  rewrite (switch_loop_spec _ _ _ Hc (chain_from_sorted Hwf' _ _ Hc)) in Hsw
    by (pose proof (chain_from_size Hwf' _ _ Hc); unfold walk_fuel; lia).
  injection Hsw as _ _ <- _.
  destruct (canonical_fork lo n [] Hcan Htip) as [Hsound Hcomplete].
  cbn in Hsound, Hcomplete.
  assert (hs !! x = Some n) as Hn by apply lookup_insert_eq.
  split; cbn.
  - apply (switched_sound Hwf' Hn Hc Hsound).
    intros k m Hon%on_chain_grown; [|done].
    pose proof (on_chain_bounds _ _ _ _ _ Hwf Hon). lia.
  - apply (switched_complete Hwf' Hc Hsound Hcomplete).
Qed.
End Preserve.
End Reorg.
