(* ===== verification/ActiveChain.v ===== *)
(** * The active chain

    The specification of the block tree is the list of its active chain,
    [iter_headers t], newest first.  This file refines the operations to it:
    [accept_header] extends it, leaves it, or replaces its top exactly by the
    blocks it reports; [header_at_height] is the lookup in it by height;
    [locators] samples it; the filter marks are set and cleared along it. *)

From stdpp Require Import base numbers list gmap sorting.
From Stdlib Require Import ZArith Lia.
From S2P Require Import Prelude Bitcoin ChainTypes Graph Walk GraphFacts Reorg.

Section ActiveChain.
Context `{Bitcoin}.

Lemma iter_data_chain a b t l :
  wf_tree a b t -> chain_from (headers t) (th (active_tip t)) l -> iter_data t = l.*2.
Proof. intros Hwf Hc. by eapply iter_collect_wf; [apply Hwf|]. Qed.

Lemma iter_headers_chain a b t l :
  wf_tree a b t -> chain_from (headers t) (th (active_tip t)) l ->
  iter_headers t = (fun x => indexed x.2) <$> l.
Proof.
  intros Hwf Hc. unfold iter_headers. rewrite (iter_data_chain _ _ _ _ Hwf Hc).
  by rewrite <- list_fmap_compose.
Qed.

Lemma active_walk a b t :
  wf_tree a b t -> exists l, chain_from (headers t) (th (active_tip t)) l.
Proof. intros Hwf. eapply chain_from_exists, Hwf. Qed.

Lemma on_chain_iter_data a b t n :
  wf_tree a b t ->
  n ∈ iter_data t <-> exists k, on_chain (headers t) (th (active_tip t)) k n.
Proof.
  intros Hwf. destruct (active_walk _ _ _ Hwf) as [l Hc].
  rewrite (iter_data_chain _ _ _ _ Hwf Hc), list_elem_of_fmap. split.
  - intros ([k m] & -> & Hin). exists k, l. done.
  - intros (k & l' & Hc' & Hin). exists (k, n). split; [done|].
    by rewrite (chain_from_det _ _ _ _ Hc Hc').
Qed.

(** ** The canonical map is kept *)

(** A reorganization is read as the switch of two walks of one map. *)
Lemma reorg_tree a b t h n c d can fin :
  let hs := <[block_hash h := n]> (headers t) in
  wf_headers a b hs -> hs !! th (active_tip t) <> None ->
  switch_loop (walk_fuel hs) hs (canonical_hashes t) (block_hash h) = (c, d, can, fin) ->
  fin = true.
Proof.
  intros hs Hwf _ Hsw. destruct (chain_from_exists Hwf (block_hash h)) as [l Hc].
  rewrite (switch_loop_spec _ _ _ Hc (chain_from_sorted Hwf _ _ Hc)) in Hsw
    by (pose proof (chain_from_size Hwf _ _ Hc); unfold walk_fuel; lia).
  by injection Hsw.
Qed.

Lemma accept_spec_canonical a b lo t h r t' :
  wf_tree a b t -> header_ok a t h -> canonical_ok lo t -> accept_spec t h r t' ->
  tip_height (active_tip t) <= tip_height (active_tip t') -> canonical_ok lo t'.
Proof.
  intros Hwf Hok Hcan Hspec Hle.
  pose proof (accept_spec_wf _ _ _ _ _ _ Hwf Hok Hspec) as Hwf'.
  destruct Hspec as [|???|w fs _ _|next height n Htip Hx _ _
    |p fs next n Htip Hx Hp _ _ _|p f fs next c d can fin n hs Htip Hx Hp _ _ _ _ _ Hsw].
  - done.
  - done.
  - by destruct Hcan.
  - apply (canonical_tip Hwf Hok Hx); try done.
    by apply increment_small, (ok_tip_height _ _ _ Hok).
  - destruct (tip_stored _ _ _ _ _ Hwf Hp) as (m & Hm & _).
    apply (canonical_fork Hwf Hok Hx); [done|congruence].
  - destruct (tip_stored _ _ _ _ _ Hwf Hp) as (m & Hm & _).
    eapply (canonical_reorg Hwf Hok Hx); [done|congruence|apply Hwf'|done|done].
Qed.

(** ** A reorganization swaps the tops of two chains *)

Section Tops.
Context {a : BlockHash} {b lo : Height} {hs : gmap BlockHash BlockNode}.
Context {can : gmap Height BlockHash} {old new : BlockHash} {n : BlockNode}.
Context {l l0 : list (BlockHash * BlockNode)}.
Context (Hwf : wf_headers a b hs) (Hn : hs !! new = Some n) (Hl : chain_from hs new l).
Context (Hl0 : chain_from hs old l0) (Hlo : lo <= b + 1).
Context (Hsound : forall i k, can !! i = Some k ->
  exists m, on_chain hs old k m /\ node_height m = i).
Context (Hcomplete : forall k m, on_chain hs old k m -> lo <= node_height m ->
  can !! node_height m = Some k).

Abbreviation fresh := (take_while (uncanonical can) l).
Abbreviation rest := (drop_while (uncanonical can) l).

Lemma fresh_not_old x : x ∈ fresh -> x ∉ l0.
Proof.
  intros Hf Hin. pose proof (take_while_true _ _ _ Hf) as Hu%bool_decide_eq_true.
  destruct x as [k m]. apply Hu. cbn. by eapply old_canonical.
Qed.

(** Below its top, the old chain is the remainder of the new one. *)
Lemma old_suffix : exists top, l0 = top ++ rest.
Proof.
  destruct rest as [|[q nq] Q] eqn:HQ; [exists l0; by rewrite app_nil_r|].
  assert ((q, nq) ∈ rest) as Hq by (rewrite HQ; by left).
  pose proof (rest_common Hl Hsound _ _ Hq) as (l' & Hl' & Hin).
  rewrite (chain_from_det _ _ _ _ Hl' Hl0) in Hin.
  apply list_elem_of_split in Hin as (top & l2 & Heq). exists top.
  rewrite Heq. f_equal.
  pose proof (take_drop_while (uncanonical can) l) as Hsplit. rewrite HQ in Hsplit.
  eapply chain_from_det; eapply chain_from_suffix; [by rewrite <- Heq|by rewrite Hsplit].
Qed.

Lemma old_top top : l0 = top ++ rest -> filter (fun x => x.1 ∉ l.*1) l0 = top.
Proof.
  intros Heq. rewrite Heq, filter_app, (list_filter_all _ top), (list_filter_none _ rest),
    app_nil_r; [done|..].
  - apply Forall_forall. intros [k m] Hr Hk. apply Hk, elem_of_fst.
    exists m. by apply (rest_in_chain (can := can)).
  - apply Forall_forall. intros [k m] Ht (m' & Hin)%elem_of_fst. cbn in *.
    assert ((k, m) ∈ l0) as Hin0 by (rewrite Heq; apply elem_of_app; by left).
    assert (m' = m) as ->.
    { pose proof (chain_from_lookup _ _ _ _ _ Hl Hin).
      pose proof (chain_from_lookup _ _ _ _ _ Hl0 Hin0). congruence. }
    destruct (fresh_or_rest (can := can) _ _ Hin) as [Hf|Hr]; [by apply (fresh_not_old _ Hf)|].
    pose proof (chain_from_sorted Hwf _ _ Hl0) as Hs. rewrite Heq in Hs.
    apply StronglySorted_app in Hs as (Hcross & _ & _).
    specialize (Hcross _ _ Ht Hr). unfold above in Hcross. lia.
Qed.

Lemma swap_tops :
  (forall k m, on_chain hs old k m -> node_height m <= node_height n) ->
  exists top, l0 = top ++ rest /\
    omap (disconnected_at hs can) fresh = (fun x => indexed x.2) <$> top.
Proof.
  intros Hle. destruct old_suffix as [top Htop]. exists top. split; [done|].
  rewrite <- (old_top _ Htop). by eapply disconnected_exact.
Qed.
End Tops.

Lemma indexed_inj a b hs k n k' n' :
  wf_headers a b hs -> hs !! k = Some n -> hs !! k' = Some n' -> indexed n = indexed n' ->
  k = k' /\ n = n'.
Proof.
  intros Hwf Hk Hk' [= _ Hh].
  pose proof (wf_key _ _ _ Hwf _ _ Hk). pose proof (wf_key _ _ _ Hwf _ _ Hk').
  assert (k = k') as -> by congruence. split; [done|congruence].
Qed.

Lemma accept_spec_reorg a b lo t h c d t' :
  wf_tree a b t -> header_ok a t h -> canonical_ok lo t -> lo <= b + 1 ->
  accept_spec t h (Reorganization c d) t' ->
  tip_height (active_tip t) <= tip_height (active_tip t') ->
  (exists common, iter_headers t = d ++ common /\ iter_headers t' = c ++ common) /\
  (forall x, x ∈ c -> x ∉ iter_headers t).
Proof.
  intros Hwf Hok Hcan Hlo Hspec.
  pose proof (accept_spec_wf _ _ _ _ _ _ Hwf Hok Hspec) as Hwf'.
  inversion Hspec as [| | | | |p f fs next c' d' can fin n hs Htip Hx Hp _ _ _ _ _ Hsw]; subst c' d' t'.
  clear Hspec. cbn [active_tip grown tip_height]. intros Hle.
  destruct (tip_stored _ _ _ _ _ Hwf Hp) as (m & Hm & _).
  pose proof (wt_headers _ _ _ Hwf') as Hwfh. cbn [headers grown] in Hwfh. fold hs in Hwfh.
  assert (hs !! block_hash h = Some n) as Hn by apply lookup_insert_eq.
  destruct (active_walk _ _ _ Hwf) as [l0 Hl0].
  destruct (active_walk _ _ _ Hwf') as [l Hl].
  rewrite (iter_headers_chain _ _ _ _ Hwf Hl0), (iter_headers_chain _ _ _ _ Hwf' Hl).
  cbn [headers grown active_tip th] in Hl. fold hs in Hl.
  apply (chain_grown Hwf Hok Hx _ _ n) in Hl0; [|congruence]. fold hs in Hl0.
  rewrite (switch_loop_spec _ _ _ Hl (chain_from_sorted Hwfh _ _ Hl)) in Hsw
    by (pose proof (chain_from_size Hwfh _ _ Hl); unfold walk_fuel; lia).
  injection Hsw as <- <- _ _.
  destruct (canonical_fork Hwf Hok Hx lo n [] Hcan ltac:(congruence)) as [Hsound Hcomplete].
  cbn [headers grown active_tip canonical_hashes] in Hsound, Hcomplete. fold hs in Hsound, Hcomplete.
  destruct (swap_tops Hwfh Hn Hl Hl0 Hlo Hsound Hcomplete) as (top & Htop & ->).
  { intros k m' Hon%(on_chain_grown Hwf Hok Hx); [|congruence].
    pose proof (on_chain_bounds _ _ _ _ _ Hwf Hon). lia. }
  split.
  - exists ((fun x => indexed x.2) <$> drop_while (uncanonical (canonical_hashes t)) l).
    rewrite <- !fmap_app. split; [by rewrite <- Htop|by rewrite take_drop_while].
  - intros x ([k nk] & -> & Hf)%list_elem_of_fmap ([k' nk'] & Heq & Hin)%list_elem_of_fmap.
    pose proof (fresh_in_chain _ Hf) as Hfl.
    apply (chain_from_lookup _ _ _ _ _ Hl) in Hfl.
    pose proof (chain_from_lookup _ _ _ _ _ Hl0 Hin) as Hk'.
    destruct (indexed_inj _ _ _ _ _ _ _ Hwfh Hfl Hk' Heq) as [-> ->].
    by apply (fresh_not_old Hwfh Hl0 Hlo Hcomplete _ Hf).
Qed.

(** ** Lookups by height *)

Lemma header_at_height_chain a b lo t i hdr :
  wf_tree a b t -> canonical_ok lo t -> lo <= i ->
  header_at_height t i = Some hdr <-> mkIndexedHeader i hdr ∈ iter_headers t.
Proof.
  intros Hwf Hcan Hlo. destruct (active_walk _ _ _ Hwf) as [l Hc].
  rewrite (iter_headers_chain _ _ _ _ Hwf Hc), list_elem_of_fmap.
  unfold header_at_height. split.
  - destruct (canonical_hashes t !! i) as [k|] eqn:Hk; cbn; [|done].
    destruct (can_sound _ _ Hcan _ _ Hk) as (n & Hon & <-).
    rewrite (on_chain_lookup _ _ _ _ Hon). intros [= <-].
    destruct Hon as (l' & Hc' & Hin). rewrite (chain_from_det _ _ _ _ Hc' Hc) in Hin.
    by exists (k, n).
  - intros ([k n] & [= -> ->] & Hin).
    rewrite (can_complete _ _ Hcan k n); [|by exists l|done]. cbn.
    by rewrite (chain_from_lookup _ _ _ _ _ Hc Hin).
Qed.

(** The chain lists one block per height, from the tip to the bottom. *)
Lemma walk_heights a b hs k l n :
  wf_headers a b hs -> chain_from hs k l -> hs !! k = Some n ->
  (Z.of_nat (length l) = node_height n - b) /\
  (forall j x, l !! j = Some x -> node_height x.2 = node_height n - Z.of_nat j).
Proof.
  intros Hwf Hc. revert n. induction Hc as [k Hk|k n l Hk Hl IH]; intros n' Hn'; [congruence|].
  assert (n' = n) as -> by congruence. clear Hn'.
  destruct (hs !! node_prev n) as [p|] eqn:Hp.
  - destruct (IH p eq_refl) as [Hlen Hh]. pose proof (wf_step Hwf _ _ _ Hk Hp).
    cbn [length]. split; [lia|]. intros [|j] x; cbn; [intros [= <-]; cbn; lia|].
    intros Hx%Hh. lia.
  - pose proof (wf_bottom Hwf _ _ Hk Hp) as [_ Hb]. inversion Hl; subst; [|congruence].
    cbn. split; [lia|]. intros [|j] x; cbn; [|done]. intros [= <-]. cbn. lia.
Qed.

(** [locators] samples the chain at the given depths while it lasts. *)
Section Locators.
Context {a : BlockHash} {b : Height} {t : BlockTree}.
Context (Hwf : wf_tree a b t) (Hb : -1 <= b) (Hcan : canonical_ok (b + 1) t).
Context (Htip : is_Some (headers t !! th (active_tip t))).

Definition sample (depth : Height) : option BlockHash :=
  n ← iter_data t !! Z.to_nat depth;
  Some (block_hash (header n)).

Lemma sample_spec d k :
  0 <= d -> sample d = Some k <->
  0 <= tip_height (active_tip t) - d /\
  block_hash_at_height t (tip_height (active_tip t) - d) = Some k.
Proof.
  intros Hd. destruct (active_walk _ _ _ Hwf) as [l Hc]. destruct Htip as [n Hn].
  pose proof (wt_tip _ _ _ Hwf) as Hh. rewrite Hn in Hh.
  destruct (walk_heights _ _ _ _ _ _ (wt_headers _ _ _ Hwf) Hc Hn) as [Hlen Hlk].
  rewrite Hh in Hlen, Hlk. unfold sample, block_hash_at_height.
  rewrite (iter_data_chain _ _ _ _ Hwf Hc), list_lookup_fmap. split.
  - destruct (l !! Z.to_nat d) as [[q m]|] eqn:Hj; [|done]. cbn.
    assert ((q, m) ∈ l) as Hin by (by eapply list_elem_of_lookup_2).
    pose proof (wf_key _ _ _ (wt_headers _ _ _ Hwf) _ _ (chain_from_lookup _ _ _ _ _ Hc Hin)) as ->.
    intros [= ->]. pose proof (Hlk _ _ Hj) as Hm. cbn in Hm. rewrite Z2Nat.id in Hm by done.
    pose proof (lookup_lt_Some _ _ _ Hj). split; [lia|]. case_decide as Hd0.
    + assert (d = 0) as -> by lia. f_equal.
      inversion Hc; subst; [congruence|]. cbn in Hj. injection Hj as <- _. done.
    + rewrite <- Hm. apply (can_complete _ _ Hcan); [by exists l|].
      pose proof (wf_low _ _ _ (wt_headers _ _ _ Hwf) _ _ (chain_from_lookup _ _ _ _ _ Hc Hin)). lia.
  - intros [Hge Hk].
    assert (exists m, on_chain (headers t) (th (active_tip t)) k m /\
              node_height m = tip_height (active_tip t) - d) as (m & (l' & Hc' & Hin) & Hm).
    { case_decide as Hd0; [|by apply (can_sound _ _ Hcan)].
      injection Hk as <-. exists n. split; [|lia]. exists l. split; [done|].
      inversion Hc; subst; [congruence|]. rewrite Hn in *. simplify_eq. by left. }
    rewrite (chain_from_det _ _ _ _ Hc' Hc) in Hin.
    pose proof (list_elem_of_lookup_1 _ _ Hin) as [j Hj].
    pose proof (Hlk _ _ Hj) as Hmj. cbn in Hmj.
    replace (Z.to_nat d) with j by lia. rewrite Hj. cbn.
    by rewrite (wf_key _ _ _ (wt_headers _ _ _ Hwf) _ _ (chain_from_lookup _ _ _ _ _ Hc Hin)).
Qed.

Lemma sample_beyond d d' : d <= d' -> sample d = None -> sample d' = None.
Proof.
  unfold sample. intros Hle Hd.
  assert (iter_data t !! Z.to_nat d = None) as Hnone.
  { destruct (iter_data t !! Z.to_nat d); done. }
  rewrite (lookup_ge_None_2 (iter_data t) (Z.to_nat d')); [done|].
  apply lookup_ge_None in Hnone. lia.
Qed.

Lemma samples_beyond d index :
  Forall (Z.lt d) index -> sample d = None -> omap sample index = [].
Proof.
  intros Hall Hd. induction Hall as [|x index Hx _ IH]; [done|].
  cbn. by rewrite (sample_beyond d x), IH by (done || lia).
Qed.

Lemma locators_loop_spec index acc :
  StronglySorted Z.lt index -> Forall (Z.le 0) index ->
  locators_loop t index acc = acc ++ omap sample index.
Proof.
  intros Hs. revert acc. induction Hs as [|d index Hs IH Hall]; intros acc Hpos.
  - by rewrite app_nil_r.
  - inversion Hpos as [|? ? Hd Hpos']; subst.
    assert (forall k, sample d = Some k <-> _) as Hk by (intros k; apply (sample_spec _ k Hd)).
    cbn [locators_loop]. destruct (u32_checked_sub _ d) as [h|] eqn:Hsub.
    + apply u32_checked_sub_Some in Hsub as [Hle ->].
      destruct (block_hash_at_height t _) as [k|] eqn:Hat.
      * rewrite IH by done. cbn. rewrite (proj2 (Hk k)) by (split; [lia|done]).
        by rewrite <- app_assoc.
      * assert (sample d = None) as Hnone.
        { destruct (sample d) as [k|]; [|done].
          destruct (proj1 (Hk k) eq_refl) as [_ ?]. congruence. }
        cbn. by rewrite Hnone, (samples_beyond d), app_nil_r.
    + apply u32_checked_sub_None in Hsub.
      assert (sample d = None) as Hnone.
      { destruct (sample d) as [k|]; [|done].
        destruct (proj1 (Hk k) eq_refl) as [? _]. lia. }
      cbn. by rewrite Hnone, (samples_beyond d), app_nil_r.
Qed.

Lemma locators_sample : locators t = reverse (omap sample (0 :: LOCATOR_INDEX)).
Proof.
  unfold locators. rewrite locators_loop_spec.
  - assert (sample 0 = Some (th (active_tip t))) as H0.
    { apply sample_spec; [lia|]. destruct Htip as [n Hn].
      pose proof (wt_tip _ _ _ Hwf) as Hh. rewrite Hn in Hh.
      pose proof (wf_low _ _ _ (wt_headers _ _ _ Hwf) _ _ Hn).
      unfold block_hash_at_height. rewrite decide_True by lia. split; [lia|done]. }
    cbn [omap list_omap]. by rewrite H0.
  - repeat constructor.
  - repeat constructor; lia.
Qed.
End Locators.
End ActiveChain.
