(* ===== verification/FilterMarks.v ===== *)
(** * Filter marks on the block tree

    [check_filter], [assume_checked_to] and [reset_all_filters] set and clear
    the [filter_checked] mark; [filters_synced] reads it along the active
    chain.  Each marking loop is shown to be a pointwise update of the nodes it
    walks over ([marks]), which never changes the shape of the tree. *)

From stdpp Require Import base numbers list gmap sorting.
From Stdlib Require Import ZArith Lia.
From S2P Require Import Prelude Bitcoin ChainTypes Graph Walk GraphFacts Reorg ActiveChain.

(** [f] applied to the entries of a walk. *)
Definition marks (f : BlockNode -> BlockNode) (l : list (BlockHash * BlockNode))
    (hs : gmap BlockHash BlockNode) : gmap BlockHash BlockNode :=
  foldl (fun hs x => alter f x.1 hs) hs l.

Definition mark_upto (h : Height) (n : BlockNode) : BlockNode :=
  if node_height n <=? h then with_checked true n else n.

Section Marks.
Context (f : BlockNode -> BlockNode).

Lemma marks_cons x l hs : marks f (x :: l) hs = marks f l (alter f x.1 hs).
Proof. done. Qed.

Lemma marks_lookup l hs k :
  NoDup l.*1 -> marks f l hs !! k = if decide (k ∈ l.*1) then f <$> hs !! k else hs !! k.
Proof.
  revert hs. induction l as [|[q n] l IH]; intros hs Hnd; [done|].
  cbn in Hnd. inversion Hnd as [|? ? Hq Hnd']; subst. rewrite marks_cons, IH by done. cbn [fst fmap list_fmap].
  destruct (decide (k = q)) as [->|Hne].
  - rewrite decide_False by done. rewrite decide_True by (by left). apply lookup_alter_eq.
  - rewrite lookup_alter_ne by done.
    destruct (decide (k ∈ l.*1)) as [Hin|Hout].
    + by rewrite decide_True by (by right).
    + by rewrite decide_False by (by intros [?|?]%elem_of_cons).
Qed.

Lemma marks_skeleton l hs :
  (forall n, skeleton (f n) = skeleton n) -> same_skeleton (marks f l hs) hs.
Proof.
  intros Hf. revert hs. induction l as [|x l IH]; intros hs; [done|]. rewrite marks_cons.
  etransitivity; [apply IH|]. by apply same_skeleton_alter.
Qed.
End Marks.

Lemma chain_from_set hs k l x n m :
  chain_from hs k l -> x ∉ l.*1 -> hs !! x = Some m -> chain_from (<[x := n]> hs) k l.
Proof.
  induction 1 as [k Hk|k p l Hk _ IH]; intros Hx Hm; cbn in *.
  - constructor. rewrite lookup_insert_ne; congruence.
  - apply not_elem_of_cons in Hx as [Hx Hx']. constructor; [|by apply IH].
    by rewrite lookup_insert_ne.
Qed.

Lemma skeleton_checked c n : skeleton (with_checked c n) = skeleton n.
Proof. done. Qed.

Lemma skeleton_mark_upto h n : skeleton (mark_upto h n) = skeleton n.
Proof. unfold mark_upto. by destruct (_ <=? _). Qed.

Lemma insert_as_alter (f : BlockNode -> BlockNode) (hs : gmap BlockHash BlockNode) k n :
  hs !! k = Some n -> <[k := f n]> hs = alter f k hs.
Proof.
  intros Hk. apply map_eq. intros q. rewrite lookup_insert, lookup_alter.
  case_decide; [|done]. subst. by rewrite Hk.
Qed.

Lemma assume_checked_marks hs k l : chain_from hs k l -> NoDup l.*1 -> forall fuel h,
  (length l < fuel)%nat -> assume_checked_loop fuel h hs k = marks (mark_upto h) l hs.
Proof.
  remember (length l) as len eqn:Hlen. revert hs k l Hlen.
  induction len as [|len IH]; intros hs k l Hlen Hc Hnd [|fuel] h Hf; try lia;
    inversion Hc as [? Hk|? n l' Hk Hc']; subst; cbn in *; try lia; rewrite Hk; [done|].
  inversion Hnd as [|? ? Hq Hnd']; subst.
  replace (if node_height n <=? h then <[k:=with_checked true n]> hs else hs)
    with (<[k := mark_upto h n]> hs).
  - rewrite (IH _ _ l') by (lia || done || by eapply chain_from_set).
    by rewrite (insert_as_alter (mark_upto h)).
  - unfold mark_upto. destruct (_ <=? _); [done|by apply insert_id].
Qed.

Lemma reset_active_marks hs k l : chain_from hs k l -> NoDup l.*1 -> forall fuel,
  (length l < fuel)%nat -> reset_active_loop fuel hs k = marks (with_checked false) l hs.
Proof.
  remember (length l) as len eqn:Hlen. revert hs k l Hlen.
  induction len as [|len IH]; intros hs k l Hlen Hc Hnd [|fuel] Hf; try lia;
    inversion Hc as [? Hk|? n l' Hk Hc']; subst; cbn in *; try lia; rewrite Hk; [done|].
  inversion Hnd as [|? ? Hq Hnd']; subst.
  rewrite (IH _ _ l') by (lia || done || by eapply chain_from_set).
  by rewrite (insert_as_alter (with_checked false)).
Qed.

(** The fork loop clears the marks above the first unchecked block. *)
Lemma reset_fork_marks hs k l : chain_from hs k l -> NoDup l.*1 -> forall fuel,
  (length l < fuel)%nat ->
  reset_fork_loop fuel hs k =
    marks (with_checked false) (take_while (fun x => filter_checked x.2) l) hs.
Proof.
  remember (length l) as len eqn:Hlen. revert hs k l Hlen.
  induction len as [|len IH]; intros hs k l Hlen Hc Hnd [|fuel] Hf; try lia;
    inversion Hc as [? Hk|? n l' Hk Hc']; subst; cbn in *; try lia; rewrite Hk; [done|].
  inversion Hnd as [|? ? Hq Hnd']; subst.
  destruct (filter_checked n); [|done]. cbn.
  rewrite (IH _ _ l') by (lia || done || by eapply chain_from_set).
  by rewrite (insert_as_alter (with_checked false)).
Qed.

Section FilterMarks.
Context `{Bitcoin}.

(** Skeleton-preserving changes keep the tree's invariants. *)
Lemma wf_tree_skeleton a b t hs :
  same_skeleton hs (headers t) -> wf_tree a b t -> wf_tree a b (with_headers hs t).
Proof.
  intros Heq Hwf. pose proof (same_skeleton_sym _ _ Heq) as Heq'.
  split; cbn [headers with_headers active_tip candidate_forks canonical_hashes].
  - rewrite Heq. apply Hwf.
  - pose proof (wt_tip _ _ _ Hwf) as Htip.
    destruct (headers t !! th (active_tip t)) as [n|] eqn:Hn.
    + destruct (same_skeleton_Some _ _ _ _ Heq' Hn) as (m & -> & [= Hm _ _]). congruence.
    + rewrite (same_skeleton_None _ _ _ Heq' Hn).
      destruct Htip as (? & ? & He & ?). split_and!; [done..| |done].
      apply map_empty. intros k. apply (same_skeleton_None _ _ _ Heq'). by rewrite He, lookup_empty.
  - intros k n Hk. destruct (same_skeleton_Some _ _ _ _ Heq Hk) as (m & Hm & Hs).
    rewrite (skeleton_prev _ _ Hs). by eapply wt_leaf.
  - intros g Hg. destruct (wt_forks _ _ _ Hwf g Hg) as (n & Hn & Hh).
    destruct (same_skeleton_Some _ _ _ _ Heq' Hn) as (m & Hm & [= Hs _ _]). exists m.
    split; [done|congruence].
Qed.

Lemma on_chain_skeleton hs hs' tip k n :
  same_skeleton hs hs' -> on_chain hs tip k n ->
  exists n', on_chain hs' tip k n' /\ skeleton n = skeleton n'.
Proof.
  intros Heq (l & Hc & Hin).
  destruct (chain_from_skeleton _ _ _ _ Heq Hc) as (l' & Hc' & Hall).
  apply list_elem_of_lookup_1 in Hin as [i Hi].
  destruct (Forall2_lookup_l _ _ _ _ _ Hall Hi) as ([k' n'] & Hi' & Hk & Hs).
  cbn in *. subst k'. exists n'. split; [|done]. exists l'. split; [done|].
  by eapply list_elem_of_lookup_2.
Qed.

Lemma on_chain_skeleton_key hs hs' tip k :
  same_skeleton hs hs' ->
  (exists n, on_chain hs tip k n) <-> (exists n, on_chain hs' tip k n).
Proof.
  intros Heq. split; intros [n Hn].
  - destruct (on_chain_skeleton _ _ _ _ _ Heq Hn) as (n' & ? & _). eauto.
  - destruct (on_chain_skeleton _ _ _ _ _ (same_skeleton_sym _ _ Heq) Hn) as (n' & ? & _). eauto.
Qed.

Lemma canonical_ok_skeleton lo t hs :
  same_skeleton hs (headers t) -> canonical_ok lo t -> canonical_ok lo (with_headers hs t).
Proof.
  intros Heq [Hs Hc]. split; cbn [headers with_headers active_tip canonical_hashes].
  - intros h k Hk. destruct (Hs h k Hk) as (n & Hon & Hh).
    destruct (on_chain_skeleton _ _ _ _ _ (same_skeleton_sym _ _ Heq) Hon) as (n' & Hon' & [= Hn _ _]).
    exists n'. split; [done|congruence].
  - intros k n Hon Hlo. destruct (on_chain_skeleton _ _ _ _ _ Heq Hon) as (n' & Hon' & [= Hn _ _]).
    rewrite Hn in *. by apply Hc.
Qed.

Lemma iter_headers_skeleton a b t hs :
  wf_tree a b t -> same_skeleton hs (headers t) ->
  iter_headers (with_headers hs t) = iter_headers t.
Proof.
  intros Hwf Hs. pose proof (wf_tree_skeleton _ _ _ _ Hs Hwf) as Hwf'.
  destruct (active_walk _ _ _ Hwf') as [l Hl].
  destruct (chain_from_skeleton _ _ _ _ Hs Hl) as (l' & Hl' & Hall).
  rewrite (iter_headers_chain _ _ _ _ Hwf' Hl), (iter_headers_chain _ _ _ _ Hwf Hl').
  clear -Hall. induction Hall as [|x y l l' [_ Hxy] _ IH]; [done|]. cbn. rewrite IH.
  f_equal. unfold indexed. by injection Hxy as -> -> _.
Qed.

Section Marked.
Context {a : BlockHash} {b : Height} {t : BlockTree} (Hwf : wf_tree a b t).

Lemma assume_checked_skeleton h : same_skeleton (headers (assume_checked_to t h)) (headers t).
Proof.
  destruct (active_walk _ _ _ Hwf) as [l Hc].
  unfold assume_checked_to. cbn [headers with_headers]. fold (tip_hash t) in Hc.
  rewrite (assume_checked_marks _ _ l); [|done|by eapply chain_from_NoDup; [apply Hwf|]|].
  - apply marks_skeleton, skeleton_mark_upto.
  - pose proof (chain_from_size (wt_headers _ _ _ Hwf) _ _ Hc). unfold walk_fuel. lia.
Qed.

(** Exactly the blocks of the active chain up to the height are marked. *)
Lemma assume_checked_exact h k n :
  headers t !! k = Some n ->
  headers (assume_checked_to t h) !! k =
    Some (if bool_decide (n ∈ iter_data t) && (node_height n <=? h)
          then with_checked true n else n).
Proof.
  intros Hk. destruct (active_walk _ _ _ Hwf) as [l Hc].
  unfold assume_checked_to. cbn [headers with_headers]. fold (tip_hash t) in Hc.
  rewrite (assume_checked_marks _ _ l); [|done|by eapply chain_from_NoDup; [apply Hwf|]|].
  - rewrite marks_lookup by (by eapply chain_from_NoDup; [apply Hwf|]).
    rewrite Hk. unfold mark_upto. cbn.
    assert (k ∈ l.*1 <-> n ∈ iter_data t) as Hin.
    { rewrite (iter_data_chain _ _ _ _ Hwf Hc). rewrite elem_of_fst, list_elem_of_fmap. split.
      - intros [m Hm]. exists (k, m). split; [|done].
        pose proof (chain_from_lookup _ _ _ _ _ Hc Hm). cbn. congruence.
      - intros ([q m] & -> & Hm). cbn in Hk. exists m.
        pose proof (chain_from_lookup _ _ _ _ _ Hc Hm) as Hq.
        pose proof (wf_key _ _ _ (wt_headers _ _ _ Hwf) _ _ Hq) as <-.
        by rewrite (wf_key _ _ _ (wt_headers _ _ _ Hwf) _ _ Hk) in Hm. }
    destruct (decide (k ∈ l.*1)) as [Hy|Hn].
    + rewrite bool_decide_true by (by apply Hin). cbn. by destruct (_ <=? _).
    + by rewrite bool_decide_false by (by rewrite <- Hin).
  - pose proof (chain_from_size (wt_headers _ _ _ Hwf) _ _ Hc). unfold walk_fuel. lia.
Qed.

(** ** [reset_all_filters] *)

(** Clearing marks: the shape stays, and no mark is set. *)
Definition cleared (hs hs' : gmap BlockHash BlockNode) : Prop :=
  same_skeleton hs' hs /\
  forall k n n', hs !! k = Some n -> hs' !! k = Some n' ->
    n' = n \/ n' = with_checked false n.

#[local] Instance cleared_preorder : PreOrder cleared.
Proof.
  split.
  - split; [done|]. intros k n n' Hn Hn'. left. congruence.
  - intros h1 h2 h3 [S12 C12] [S23 C23]. split; [by rewrite S23|].
    intros k n1 n3 H1 H3.
    destruct (same_skeleton_Some _ _ _ _ S23 H3) as (n2 & H2 & _).
    destruct (C12 _ _ _ H1 H2) as [->| ->], (C23 _ _ _ H2 H3) as [->| ->]; auto.
Qed.

Lemma marks_cleared l hs :
  cleared hs (marks (with_checked false) l hs).
Proof.
  revert hs. induction l as [|x l IH]; intros hs; [done|]. rewrite marks_cons.
  etransitivity; [|apply IH]. split.
  - by apply same_skeleton_alter.
  - intros k n n' Hn. rewrite lookup_alter. case_decide; [|left; congruence].
    subst k. rewrite Hn. intros [= <-]. by right.
Qed.

Lemma reset_fork_cleared hs k :
  wf_headers a b hs -> cleared hs (reset_fork_loop (walk_fuel hs) hs k).
Proof.
  intros Hw. destruct (chain_from_exists Hw k) as [l Hc].
  rewrite (reset_fork_marks _ _ l); [|done|by eapply chain_from_NoDup|].
  - apply marks_cleared.
  - pose proof (chain_from_size Hw _ _ Hc). unfold walk_fuel. lia.
Qed.

Lemma reset_forks_cleared hs fs :
  wf_headers a b hs ->
  cleared hs (foldl (fun hs fork => reset_fork_loop (walk_fuel hs) hs (th fork)) hs fs).
Proof.
  revert hs. induction fs as [|g fs IH]; intros hs Hw; [done|]. cbn.
  pose proof (reset_fork_cleared hs (th g) Hw) as Hc.
  etransitivity; [apply Hc|]. apply IH. destruct Hc as [Hs _]. by rewrite Hs.
Qed.

Lemma reset_cleared :
  cleared (headers t) (headers (reset_all_filters t)) /\
  (forall n, n ∈ iter_data (reset_all_filters t) -> filter_checked n = false).
Proof.
  destruct (active_walk _ _ _ Hwf) as [l Hc].
  unfold reset_all_filters. cbn [headers with_headers].
  set (hs := reset_active_loop _ _ _).
  assert (hs = marks (with_checked false) l (headers t)) as Hhs.
  { apply reset_active_marks; [done|by eapply chain_from_NoDup; [apply Hwf|]|].
    pose proof (chain_from_size (wt_headers _ _ _ Hwf) _ _ Hc). unfold walk_fuel. lia. }
  assert (cleared (headers t) hs) as Hc1 by (rewrite Hhs; apply marks_cleared).
  assert (wf_headers a b hs) as Hw by (destruct Hc1 as [-> _]; apply Hwf).
  pose proof (reset_forks_cleared hs (candidate_forks t) Hw) as Hc2.
  assert (cleared (headers t) (headers (reset_all_filters t))) as Hall by by etransitivity.
  split; [done|].
  assert (wf_tree a b (reset_all_filters t)) as Hwf'
    by (apply wf_tree_skeleton; [apply Hall|done]).
  intros n [k Hon]%(on_chain_iter_data _ _ _ _ Hwf').
  pose proof (on_chain_lookup _ _ _ _ Hon) as Hk.
  destruct (on_chain_skeleton _ _ _ _ _ (proj1 Hall) Hon) as (n0 & (l' & Hl' & Hin) & _).
  cbn in Hl'. rewrite (chain_from_det _ _ _ _ Hl' Hc) in Hin.
  destruct Hc2 as [Hs2 Hck]. destruct (same_skeleton_Some _ _ _ _ Hs2 Hk) as (n1 & Hn1 & _).
  rewrite Hhs, marks_lookup in Hn1 by (by eapply chain_from_NoDup; [apply Hwf|]).
  rewrite decide_True in Hn1 by (apply elem_of_fst; by exists n0).
  rewrite (chain_from_lookup _ _ _ _ _ Hc Hin) in Hn1. injection Hn1 as <-.
  by destruct (Hck k _ n ltac:(rewrite Hhs, marks_lookup by (by eapply chain_from_NoDup; [apply Hwf|]);
    rewrite decide_True by (apply elem_of_fst; by exists n0);
    by rewrite (chain_from_lookup _ _ _ _ _ Hc Hin)) Hk) as [->| ->].
Qed.

(** A mark that is left was there before. *)
Lemma reset_marked_same k n' :
  headers (reset_all_filters t) !! k = Some n' -> filter_checked n' = true ->
  headers t !! k = Some n'.
Proof.
  intros Hk Hm. destruct reset_cleared as [[Hs Hc] _].
  destruct (same_skeleton_Some _ _ _ _ Hs Hk) as (n & Hn & _).
  destruct (Hc _ _ _ Hn Hk) as [->| ->]; [done|discriminate Hm].
Qed.

(** ** Reading the marks *)

Lemma filters_synced_spec :
  filters_synced t = true <->
  forall k n, on_chain (headers t) (th (active_tip t)) k n -> filter_checked n = true.
Proof.
  unfold filters_synced. rewrite forallb_forall. setoid_rewrite <- list_elem_of_In.
  split.
  - intros Hall k n Hon. apply Hall, (on_chain_iter_data _ _ _ _ Hwf). eauto.
  - intros Hall n [k Hon]%(on_chain_iter_data _ _ _ _ Hwf). eauto.
Qed.
End Marked.
End FilterMarks.
