(* ===== verification/TreeProperties.v ===== *)
(** * What the block tree guarantees

    The properties of [src/chain/graph.rs]: the effect of [accept_header] on
    the active chain, the invariants over any sequence of operations, the work
    of the tip, the rejections, the difficulty audit, lookups, locators and the
    filter marks.  Each is evaluated on a tree of the [Toy] instance. *)

From stdpp Require Import base numbers list gmap sorting.
From Stdlib Require Import ZArith Lia.
From S2P Require Import Prelude Bitcoin ChainTypes Graph Walk GraphFacts Reorg ActiveChain FilterMarks.

(** ** Sequences of operations *)

Inductive TreeOp :=
  | OpAccept (h : Header)
  | OpCheckFilter (hash : BlockHash)
  | OpSetCommitment (c : FilterCommitment) (hash : BlockHash)
  | OpAssumeChecked (height : Height)
  | OpResetFilters.

Section TreeRuns.
Context `{Bitcoin}.

Definition tree_op (t : BlockTree) (o : TreeOp) : BlockTree :=
  match o with
  | OpAccept h => (accept_header t h).2
  | OpCheckFilter hash => check_filter t hash
  | OpSetCommitment c hash => set_commitment t c hash
  | OpAssumeChecked height => assume_checked_to t height
  | OpResetFilters => reset_all_filters t
  end.

(** What accepting relies on, at every step of a run. *)
Definition op_ok (a : BlockHash) (t : BlockTree) (o : TreeOp) : Prop :=
  match o with
  | OpAccept h => header_ok a t h /\ work_ok t h
  | _ => True
  end.

Fixpoint run_ok (a : BlockHash) (t : BlockTree) (os : list TreeOp) : Prop :=
  match os with
  | [] => True
  | o :: os' => op_ok a t o /\ run_ok a (tree_op t o) os'
  end.

Definition tree_run (t : BlockTree) (os : list TreeOp) : BlockTree := foldl tree_op t os.

Lemma same_skeleton_work hs hs' k :
  same_skeleton hs hs' -> acc_work <$> hs !! k = acc_work <$> hs' !! k.
Proof.
  intros Heq. specialize (Heq k). destruct (hs !! k), (hs' !! k); try done.
  injection Heq as _ _ Hw. cbn. by rewrite Hw.
Qed.

Lemma accounted_skeleton t hs :
  same_skeleton hs (headers t) -> accounted t -> accounted (with_headers hs t).
Proof.
  intros Heq Hacc k n. cbn. intros Hk.
  destruct (same_skeleton_Some _ _ _ _ Heq Hk) as (m & Hm & Hs).
  rewrite (skeleton_prev _ _ Hs). injection Hs as _ -> ->.
  destruct (Hacc _ _ Hm) as [Hr Hw]. split; [done|]. rewrite Hw. f_equal. unfold parent_work.
  by rewrite (same_skeleton_work _ _ _ Heq).
Qed.

Lemma tip_work_skeleton t hs :
  same_skeleton hs (headers t) -> tip_work (with_headers hs t) = tip_work t.
Proof.
  intros Heq. unfold tip_work. cbn. by rewrite (same_skeleton_work _ _ _ Heq).
Qed.

Context `{!WorkLaws}.

Lemma tree_op_kept a b t o :
  wf_tree a b t -> accounted t -> op_ok a t o ->
  wf_tree a b (tree_op t o) /\ accounted (tree_op t o) /\ tip_work t <= tip_work (tree_op t o).
Proof.
  intros Hwf Hacc Hok.
  assert (forall hs, same_skeleton hs (headers t) ->
    wf_tree a b (with_headers hs t) /\ accounted (with_headers hs t) /\
    tip_work t <= tip_work (with_headers hs t)) as Hmark.
  { intros hs Hs. split_and!; [by apply wf_tree_skeleton|by apply accounted_skeleton|].
    by rewrite tip_work_skeleton. }
  destruct o as [h|k|c k|i|]; cbn [tree_op op_ok] in *.
  - destruct Hok as [Hh Hw]. pose proof (accept_header_spec _ _ _ _ Hwf Hh) as Hspec.
    split_and!.
    + by eapply accept_spec_wf.
    + by eapply accept_spec_accounted.
    + by apply (accept_spec_tip_work Hwf Hacc Hw _ _ Hspec).
  - apply Hmark, same_skeleton_alter. done.
  - apply Hmark, same_skeleton_alter. done.
  - apply Hmark, (assume_checked_skeleton Hwf).
  - apply Hmark, (reset_cleared Hwf).
Qed.

Lemma tree_run_kept a b os t :
  wf_tree a b t -> accounted t -> run_ok a t os ->
  wf_tree a b (tree_run t os) /\ accounted (tree_run t os) /\
  tip_work t <= tip_work (tree_run t os).
Proof.
  revert t. induction os as [|o os IH]; intros t Hwf Hacc; [done|].
  intros [Ho Hos]. destruct (tree_op_kept _ _ _ _ Hwf Hacc Ho) as (Hwf' & Hacc' & Hle).
  destruct (IH _ Hwf' Hacc' Hos) as (? & ? & ?). split_and!; [done|done|by etransitivity].
Qed.

Lemma tip_work_sum a b t :
  wf_tree a b t -> accounted t ->
  tip_work t = foldr (fun n w => w + header_work (header n)) 0 (iter_data t).
Proof.
  intros Hwf Hacc. destruct (active_walk _ _ _ Hwf) as [l Hc].
  rewrite (iter_data_chain _ _ _ _ Hwf Hc). unfold tip_work.
  trans (work_sum l).
  - destruct (headers t !! th (active_tip t)) as [n|] eqn:Hn; cbn.
    + by eapply accounted_sum.
    + by inversion Hc; subst; [|congruence].
  - unfold work_sum. clear Hc. induction l as [|x l IH]; cbn; [done|]. by rewrite IH.
Qed.
End TreeRuns.

(** ** The effect on the active chain *)

Section Effect.
Context `{Bitcoin}.

Lemma same_chain a b t t' :
  wf_tree a b t -> wf_tree a b t' ->
  (forall l, chain_from (headers t) (th (active_tip t)) l ->
             chain_from (headers t') (th (active_tip t')) l) ->
  iter_headers t' = iter_headers t.
Proof.
  intros Hwf Hwf' Hl. destruct (active_walk _ _ _ Hwf) as [l Hc].
  by rewrite (iter_headers_chain _ _ _ _ Hwf Hc), (iter_headers_chain _ _ _ _ Hwf' (Hl _ Hc)).
Qed.

Lemma accept_spec_chain a b t h r t' :
  wf_tree a b t -> header_ok a t h -> accept_spec t h r t' ->
  match r with
  | Accepted x => x = mkIndexedHeader (tip_height (active_tip t')) h /\
                  iter_headers t' = x :: iter_headers t
  | Reorganization _ _ => True
  | Duplicate | ExtendedFork _ | Rejected _ => iter_headers t' = iter_headers t
  end.
Proof.
  intros Hwf Hok Hspec. pose proof (accept_spec_wf _ _ _ _ _ _ Hwf Hok Hspec) as Hwf'.
  destruct Hspec as [|???|w fs _ _|next height n Htip Hx _ _
    |p fs next n Htip Hx Hp _ _ _|]; [done|done|by apply (same_chain a b)|..|done].
  - split; [done|]. destruct (active_walk _ _ _ Hwf) as [l Hc].
    rewrite (iter_headers_chain _ _ _ _ Hwf Hc).
    rewrite (iter_headers_chain _ _ _ ((block_hash h, n) :: l) Hwf'); [done|].
    constructor; cbn [headers grown active_tip th]; [apply lookup_insert_eq|].
    change (node_prev n) with (prev_blockhash h). rewrite <- Htip.
    apply (chain_grown Hwf Hok Hx); [|done]. rewrite Htip.
    apply not_eq_sym, (ok_acyclic _ _ _ Hok).
  - apply (same_chain a b); [done..|]. intros l Hl. apply (chain_grown Hwf Hok Hx); [|done].
    destruct (tip_stored _ _ _ _ _ Hwf Hp) as (m & Hm & _). cbn. congruence.
Qed.
End Effect.

(** ** Executable checks of the hypotheses, for the witnesses *)

Section Checks.
Context `{Bitcoin}.

Definition header_okb (a : BlockHash) (t : BlockTree) (h : Header) : bool :=
  match headers t !! block_hash h with
  | Some n => bool_decide (header n = h)
  | None => true
  end
  && negb (block_hash h =? a) && negb (block_hash h =? prev_blockhash h)
  && (0 <=? tip_height (active_tip t) + 1) && (tip_height (active_tip t) + 1 <? u32_modulus)
  && match headers t !! prev_blockhash h with
     | Some n => (0 <=? node_height n + 1) && (node_height n + 1 <? u32_modulus)
     | None => true
     end.

Lemma header_okb_ok a t h : header_okb a t h = true -> header_ok a t h.
Proof.
  unfold header_okb. rewrite !andb_true_iff, !negb_true_iff, !Z.eqb_neq.
  intros (((((Hc & Ha) & Hp) & H0) & H1) & Hh). split; [|done|done|unfold is_u32; lia|].
  - intros n Hn. rewrite Hn in Hc. by apply bool_decide_eq_true in Hc.
  - intros n Hn. rewrite Hn in Hh. unfold is_u32. lia.
Qed.

Definition work_okb (t : BlockTree) (h : Header) : bool :=
  let w := parent_work (headers t) (prev_blockhash h) + header_work h in
  (0 <=? w) && (w <? 2 ^ 256).

Definition op_okb (a : BlockHash) (t : BlockTree) (o : TreeOp) : bool :=
  match o with
  | OpAccept h => header_okb a t h && work_okb t h
  | _ => true
  end.

(** Every step is valid, and none lowers the tip. *)
Fixpoint run_okb (a : BlockHash) (t : BlockTree) (os : list TreeOp) : bool :=
  match os with
  | [] => true
  | o :: os' => op_okb a t o
                && (tip_height (active_tip t) <=? tip_height (active_tip (tree_op t o)))
                && run_okb a (tree_op t o) os'
  end.

Lemma run_okb_cons a t o os :
  run_okb a t (o :: os) = true ->
  op_ok a t o /\ tip_height (active_tip t) <= tip_height (active_tip (tree_op t o)) /\
  run_okb a (tree_op t o) os = true.
Proof.
  cbn [run_okb]. rewrite !andb_true_iff, Z.leb_le. intros [[Ho Hle] Hos].
  split_and!; [|done|done]. destruct o as [h| | | |]; try done. cbn in *.
  apply andb_true_iff in Ho as [Hh Hw]. split; [by apply header_okb_ok|].
  unfold work_okb, work_ok, is_work in *. lia.
Qed.

Lemma run_okb_ok a os t : run_okb a t os = true -> run_ok a t os.
Proof.
  revert t. induction os as [|o os IH]; intros t; [done|].
  intros (? & _ & ?)%run_okb_cons. split; auto.
Qed.

Context `{!WorkLaws}.

Lemma run_okb_canonical a b lo os t :
  wf_tree a b t -> accounted t -> canonical_ok lo t -> run_okb a t os = true ->
  canonical_ok lo (tree_run t os).
Proof.
  revert t. induction os as [|o os IH]; intros t Hwf Hacc Hcan; [done|].
  intros (Ho & Hle & Hos)%run_okb_cons.
  destruct (tree_op_kept _ _ _ _ Hwf Hacc Ho) as (Hwf' & Hacc' & _).
  apply (IH (tree_op t o)); [done|done| |done].
  destruct o as [h|k|c k|i|]; cbn [tree_op op_ok] in *.
  - destruct Ho as [Hh _].
    by apply (accept_spec_canonical _ _ _ _ _ _ _ Hwf Hh Hcan (accept_header_spec _ _ _ _ Hwf Hh)).
  - by apply canonical_ok_skeleton; [apply same_skeleton_alter|].
  - by apply canonical_ok_skeleton; [apply same_skeleton_alter|].
  - by apply canonical_ok_skeleton; [apply (assume_checked_skeleton Hwf)|].
  - by apply canonical_ok_skeleton; [apply (reset_cleared Hwf)|].
Qed.

Lemma accounted_from_genesis n :
  block_hash (genesis_header n) <> prev_blockhash (genesis_header n) ->
  accounted (from_genesis n).
Proof.
  intros Hne k m. cbn. intros [<- <-]%lookup_singleton_Some. cbn.
  unfold parent_work, node_prev. cbn.
  rewrite lookup_singleton_ne by done. cbn.
  split; [apply header_work_range|lia].
Qed.

(** Any checked run from genesis ends in a tree with all three invariants. *)
Lemma genesis_run n os :
  block_hash (genesis_header n) <> prev_blockhash (genesis_header n) ->
  run_okb (prev_blockhash (genesis_header n)) (from_genesis n) os = true ->
  let t := tree_run (from_genesis n) os in
  wf_tree (prev_blockhash (genesis_header n)) (-1) t /\ accounted t /\ canonical_ok 0 t.
Proof.
  intros Hne Hrun t. pose proof (wf_tree_from_genesis n Hne) as Hwf.
  pose proof (accounted_from_genesis n Hne) as Hacc.
  destruct (tree_run_kept _ _ _ _ Hwf Hacc (run_okb_ok _ _ _ Hrun)) as (? & ? & _).
  split_and!; [done|done|]. eapply run_okb_canonical; [done|done| |done].
  by apply canonical_ok_from_genesis.
Qed.
End Checks.

(** A tree of the regression-test network with one fork of equal work. *)
Module ToyTree.
Export Toy.
Definition ops : list TreeOp :=
  [OpAccept (hdr 2 1 1); OpAccept (hdr 3 1 1); OpCheckFilter 2].
Definition forked : BlockTree := tree_run (from_genesis Regtest) ops.

Lemma forked_ok : wf_tree 0 (-1) forked /\ accounted forked /\ canonical_ok 0 forked.
Proof.
  apply (genesis_run (H := toy) Regtest ops); [discriminate|by vm_compute].
Qed.
End ToyTree.

(** ** The properties *)

Section Properties.
Context `{Bitcoin}.

Lemma accept_header_duplicate t h :
  th (active_tip t) <> prev_blockhash h -> is_Some (headers t !! block_hash h) ->
  accept_header t h = (Duplicate, t).
Proof. intros Ht Hs. unfold accept_header. by rewrite decide_False, decide_True by done. Qed.

Lemma accept_header_orphan a b t h :
  wf_tree a b t -> th (active_tip t) <> prev_blockhash h -> headers t !! block_hash h = None ->
  headers t !! prev_blockhash h = None ->
  accept_header t h = (Rejected (UnknownPrevHash (prev_blockhash h)), t).
Proof.
  intros Hwf Ht Hx Hp. unfold accept_header.
  rewrite decide_False, decide_False by (done || by rewrite Hx; intros [? ?]).
  destruct (position _ _) as [i|] eqn:Hpos; [|by unfold open_fork; rewrite Hp].
  apply position_Some in Hpos as (f & Hi & Hf%bool_decide_eq_true).
  destruct (wt_forks _ _ _ Hwf f ltac:(by eapply list_elem_of_lookup_2)) as (q & Hq & _). congruence.
Qed.


(** C2: from any well-formed tree, every sequence of operations whose headers
    are valid input keeps the tree well-formed and the work accounted; the
    work recorded at the tip is the sum of the work of the headers of the
    active chain, and it never decreases. *)
Theorem tree_run_work `{!WorkLaws} a b t os :
  wf_tree a b t -> accounted t -> run_ok a t os ->
  let t' := tree_run t os in
  wf_tree a b t' /\ accounted t' /\
  tip_work t' = foldr (fun n w => w + header_work (header n)) 0 (iter_data t') /\
  tip_work t <= tip_work t'.
Proof.
  intros Hwf Hacc Hrun t'. destruct (tree_run_kept _ _ _ _ Hwf Hacc Hrun) as (Hwf' & Hacc' & Hle).
  split_and!; [done|done|by eapply tip_work_sum|done].
Qed.






(** [assume_checked_to] marks exactly the blocks of the active chain at or
    below the height; every other stored block is unchanged and none is
    added or removed. *)
Theorem assume_checked_to_exact a b t height k :
  wf_tree a b t ->
  headers (assume_checked_to t height) !! k =
    (fun n => if bool_decide (n ∈ iter_data t) && (node_height n <=? height)
              then with_checked true n else n) <$> headers t !! k.
Proof.
  intros Hwf. destruct (headers t !! k) as [n|] eqn:Hk; cbn [fmap option_fmap option_map].
  - by apply (assume_checked_exact Hwf).
  - eapply same_skeleton_None; [|done]. apply same_skeleton_sym, (assume_checked_skeleton Hwf).
Qed.

(** After [reset_all_filters] no block of the active chain is marked,
    no mark was added anywhere, and the tree keeps its shape and its
    invariants, so a rescan starts from nothing. *)
Theorem reset_all_filters_clears a b lo t :
  wf_tree a b t -> canonical_ok lo t ->
  let t' := reset_all_filters t in
  wf_tree a b t' /\ canonical_ok lo t' /\ total_filters_synced t' = 0 /\
  Forall (fun n => filter_checked n = false) (iter_data t') /\
  (forall k n', headers t' !! k = Some n' -> filter_checked n' = true ->
     headers t !! k = Some n').
Proof.
  intros Hwf Hcan t'. destruct (reset_cleared Hwf) as [[Hs Hc] Hall].
  assert (Forall (fun n => filter_checked n = false) (iter_data t')) as HF
    by (by apply Forall_forall).
  split_and!.
  - by apply wf_tree_skeleton.
  - by apply canonical_ok_skeleton.
  - unfold total_filters_synced. rewrite list_filter_none; [done|].
    eapply Forall_impl; [exact HF|]. cbn. congruence.
  - done.
  - intros k n' Hk Hm. by eapply (reset_marked_same Hwf).
Qed.
End Properties.



Section Witnesses.
Import ToyTree.


Lemma tree_run_work_witness : tip_work (tree_run forked [OpAccept (hdr 4 3 1)]) = 3.
Proof.
  destruct forked_ok as (Hwf & Hacc & _).
  assert (run_okb 0 forked [OpAccept (hdr 4 3 1)] = true) as Hrun by by vm_compute.
  pose proof (tree_run_work 0 (-1) forked [OpAccept (hdr 4 3 1)] Hwf Hacc
    (run_okb_ok _ _ _ Hrun)) as (_ & _ & Hsum & _).
  etransitivity; [exact Hsum|]. by vm_compute.
Defined.



(** A mainnet chain of four blocks: the toy interval is 4. *)
Definition epoch : BlockTree :=
  tree_run (from_genesis Mainnet)
    [OpAccept (hdr 2 1 1); OpAccept (hdr 3 2 1); OpAccept (mkHeader 0 3 0 7 1 4)].

Lemma epoch_ok : wf_tree 0 (-1) epoch /\ accounted epoch /\ canonical_ok 0 epoch.
Proof. apply (genesis_run (H := toy) Mainnet); [discriminate|by vm_compute]. Qed.




Lemma assume_checked_to_exact_witness :
  filter_checked <$> headers (assume_checked_to epoch 2) !! 3 = Some true /\
  filter_checked <$> headers (assume_checked_to epoch 2) !! 4 = Some false.
Proof.
  destruct epoch_ok as (Hwf & _ & _).
  rewrite !(assume_checked_to_exact 0 (-1) epoch 2 _ Hwf). by vm_compute.
Defined.

Lemma reset_all_filters_clears_witness :
  total_filters_synced forked = 1 /\ total_filters_synced (reset_all_filters forked) = 0.
Proof.
  destruct forked_ok as (Hwf & _ & Hcan). split; [by vm_compute|].
  apply (reset_all_filters_clears 0 (-1) 0 forked Hwf Hcan).
Defined.
End Witnesses.

(** ** Three behaviours to know of *)

Section Observations.
Import ToyTree.

(** A header with wrong bits on the tip of a candidate fork makes the
    tree forget that fork as a candidate: the header that would have
    reorganized the chain to more work afterwards only opens the fork anew. *)
Theorem rejected_header_forgets_fork :
  let bad := accept_header forked (hdr 9 3 5) in
  bad.1 = Rejected (InvalidPow 1 5) /\
  candidate_forks forked = [mkTip 3 1 (Some 1)] /\ candidate_forks bad.2 = [] /\
  (accept_header forked (hdr 4 3 1)).1 =
    Reorganization [mkIndexedHeader 2 (hdr 4 3 1); mkIndexedHeader 1 (hdr 3 1 1)]
                   [mkIndexedHeader 1 (hdr 2 1 1)] /\
  (accept_header bad.2 (hdr 4 3 1)).1 = ExtendedFork (mkIndexedHeader 2 (hdr 4 3 1)) /\
  tip_work bad.2 < default 0 (acc_work <$> headers (accept_header bad.2 (hdr 4 3 1)).2 !! 4).
Proof. by vm_compute. Qed.

(** A chain from a checkpoint, with a heavier and lower fork. *)
Definition heavy_fork : BlockTree :=
  tree_run (tree_new (from_checkpoint 0 100) Mainnet)
    [OpAccept (hdr 1 100 5); OpAccept (hdr 2 1 1); OpAccept (hdr 12 1 5)].

(** A reorganization to a heavier but lower chain leaves the heights above
    the new tip in the canonical map and does not report their blocks as
    disconnected: [accept_header_effect] needs its hypothesis on the tip heights. *)
Theorem lower_reorganization_leaves_stale_heights :
  let t := tree_run heavy_fork
    [OpAccept (mkHeader 0 2 0 0 1 3); OpAccept (mkHeader 0 3 0 1 1 4)] in
  (accept_header t (hdr 13 12 5)).1 =
    Reorganization [mkIndexedHeader 3 (hdr 13 12 5); mkIndexedHeader 2 (hdr 12 1 5)]
                   [mkIndexedHeader 3 (mkHeader 0 2 0 0 1 3); mkIndexedHeader 2 (hdr 2 1 1)] /\
  let t' := (accept_header t (hdr 13 12 5)).2 in
  tree_height t' = 3 /\ header_at_height t' 4 = Some (mkHeader 0 3 0 1 1 4).
Proof. by vm_compute. Qed.

(** A tree restarted from the first header of an epoch does not audit the
    difficulty of the next epoch: the root is not in the canonical map, so
    the adjustment cannot be computed and any bits are accepted. *)
Theorem restart_skips_difficulty_audit :
  let t := tree_run (from_header 4 (hdr 5 4 1) Mainnet)
    [OpAccept (hdr 6 5 1); OpAccept (hdr 7 6 1); OpAccept (hdr 8 7 1)] in
  is_adjustment_multiple 4 Mainnet = true /\ tree_height t = 7 /\
  compute_next_work_required t 8 = None /\
  (accept_header t (hdr 9 8 77)).1 = Accepted (mkIndexedHeader 8 (hdr 9 8 77)).
Proof. by vm_compute. Qed.
End Observations.
