(* ===== verification/Batches.v ===== *)
(** * Message batches: [src/chain/header_batch.rs] and [src/chain/cfheader_batch.rs]

    The sanity checks of a [headers] message and the filter-header chain built
    from a [cfheaders] message. *)

From stdpp Require Import base numbers list gmap.
From Stdlib Require Import ZArith Lia.
From S2P Require Import Prelude Bitcoin ChainTypes.

Record HeadersBatch := mkHeadersBatch { hb_batch : list Header }.

Inductive HeadersBatchError := EmptyVec.

(** [bitcoin::p2p::message_filter::CFHeaders], a struct of public fields. *)
Record CFHeaders := mkCFHeaders {
  cfh_stop_hash : BlockHash;
  previous_filter_header : FilterHeader;
  filter_hashes : list FilterHash;
}.

Record CFHeaderBatch := mkCFHeaderBatch {
  inner : list FilterCommitment;
  prev_filter_header : FilterHeader;
  stop_hash : BlockHash;
}.

#[global] Instance CFHeaderBatch_eq_dec : EqDecision CFHeaderBatch.
Proof. solve_decision. Defined.

(** [l.iter().zip(l.iter().skip(1))] *)
Definition pairs {A} (l : list A) : list (A * A) := zip l (tail l).

Section Batches.
Context `{Bitcoin}.

(** ** [HeadersBatch] *)

Definition headers_batch_new (batch : list Header) : HeadersBatchError + HeadersBatch :=
  match batch with
  | [] => inl EmptyVec
  | _ => inr {| hb_batch := batch |}
  end.

Definition connected (b : HeadersBatch) : bool :=
  forallb (fun '(first, second) => block_hash first =? prev_blockhash second)
    (pairs (hb_batch b)).

Definition individually_valid_pow (b : HeadersBatch) : bool :=
  negb (existsb (fun hdr =>
    let target := header_target hdr in
    let valid_pow := validate_pow hdr target in
    negb valid_pow) (hb_batch b)).

Definition bits_adhere_transition (n : Network) (b : HeadersBatch) : bool :=
  if allow_min_difficulty_blocks n then true
  else forallb (fun '(first, second) =>
         let transition := max_transition_threshold (from_compact (bits first)) n in
         from_compact (bits second) <=? transition)
       (pairs (hb_batch b)).

(** [expect] on an empty batch is [None]; no batch built by [new] is empty. *)
Definition headers_batch_last (b : HeadersBatch) : option Header := last (hb_batch b).

(** ** [CFHeaderBatch] *)

(** The loop of [new]: the commitments, each header from the previous one. *)
Fixpoint commitments_from (prev_header : FilterHeader) (hashes : list FilterHash)
  : list FilterCommitment :=
  match hashes with
  | [] => []
  | hash :: hashes' =>
      let next_header := filter_header_of hash prev_header in
      mkFilterCommitment next_header hash :: commitments_from next_header hashes'
  end.

Definition cfheader_batch_new (batch : CFHeaders) : CFHeaderBatch :=
  {| inner := commitments_from (previous_filter_header batch) (filter_hashes batch);
     prev_filter_header := previous_filter_header batch;
     stop_hash := cfh_stop_hash batch |}.

Definition cfheader_batch_prev_header (b : CFHeaderBatch) : FilterHeader := prev_filter_header b.

Definition cfheader_batch_len (b : CFHeaderBatch) : Z := as_u32 (Z.of_nat (length (inner b))).

Definition take_inner (b : CFHeaderBatch) : list FilterCommitment * CFHeaderBatch :=
  (inner b, {| inner := []; prev_filter_header := prev_filter_header b;
               stop_hash := stop_hash b |}).

(** ** Facts *)

Lemma pairs_lookup {A} (l : list A) i x y :
  pairs l !! i = Some (x, y) <-> l !! i = Some x /\ l !! S i = Some y.
Proof.
  unfold pairs. rewrite lookup_zip_Some, lookup_tail. done.
Qed.

Lemma forallb_lookup {A} (p : A -> bool) l :
  forallb p l = true <-> forall i x, l !! i = Some x -> p x = true.
Proof.
  rewrite forallb_forall. setoid_rewrite <- list_elem_of_In.
  setoid_rewrite list_elem_of_lookup. naive_solver.
Qed.

(** A batch passes the three checks of the sync exactly when it is nonempty,
    every header links to the one before it, every header meets its own
    target, and, on networks with a difficulty floor, no target grows faster
    than the allowed transition. *)
Theorem headers_batch_checks n batch b :
  headers_batch_new batch = inr b ->
  hb_batch b = batch /\ is_Some (headers_batch_last b) /\
  (connected b = true <->
     forall i x y, batch !! i = Some x -> batch !! S i = Some y ->
       prev_blockhash y = block_hash x) /\
  (individually_valid_pow b = true <->
     forall x, x ∈ batch -> validate_pow x (header_target x) = true) /\
  (bits_adhere_transition n b = true <->
     allow_min_difficulty_blocks n = true \/
     forall i x y, batch !! i = Some x -> batch !! S i = Some y ->
       from_compact (bits y) <= max_transition_threshold (from_compact (bits x)) n).
Proof.
  intros Hb. assert (hb_batch b = batch) as Hbb.
  { unfold headers_batch_new in Hb. by destruct batch; [|injection Hb as <-]. }
  split; [done|]. unfold headers_batch_last, connected, individually_valid_pow, bits_adhere_transition.
  rewrite Hbb. split_and!.
  - destruct batch; [done|]. apply last_is_Some. done.
  - rewrite forallb_lookup. split.
    + intros Hall i x y Hx Hy.
      symmetry. apply Z.eqb_eq, (Hall i (x, y)). by apply pairs_lookup.
    + intros Hall i [x y] [Hx Hy]%pairs_lookup. apply Z.eqb_eq. symmetry. eauto.
  - rewrite negb_true_iff, <- not_true_iff_false, existsb_exists.
    setoid_rewrite <- list_elem_of_In. split.
    + intros Hno x Hx. destruct (validate_pow x (header_target x)) eqn:Hv; [done|].
      destruct Hno. exists x. by rewrite Hv.
    + intros Hall (x & Hx & Hv). by rewrite (Hall x Hx) in Hv.
  - destruct (allow_min_difficulty_blocks n); [split; [by left|done]|].
    rewrite forallb_lookup. split.
    + intros Hall. right. intros i x y Hx Hy. apply Z.leb_le.
      apply (Hall i (x, y)). by apply pairs_lookup.
    + intros [?|Hall] i [x y] [Hx Hy]%pairs_lookup; [done|]. apply Z.leb_le. eauto.
Qed.

Lemma commitments_length prev hashes : length (commitments_from prev hashes) = length hashes.
Proof. revert prev. induction hashes as [|h l IH]; intros prev; cbn; [done|]. by rewrite IH. Qed.

Lemma commitments_hashes prev hashes : fc_filter_hash <$> commitments_from prev hashes = hashes.
Proof. revert prev. induction hashes as [|h l IH]; intros prev; cbn; [done|]. by rewrite IH. Qed.

(** The filter header before the [i]-th commitment. *)
Definition header_before (prev : FilterHeader) (l : list FilterCommitment) (i : nat)
  : option FilterHeader :=
  match i with
  | O => Some prev
  | S j => fc_header <$> l !! j
  end.

Lemma commitments_linked prev hashes i c :
  commitments_from prev hashes !! i = Some c ->
  exists p, header_before prev (commitments_from prev hashes) i = Some p /\
    fc_header c = filter_header_of (fc_filter_hash c) p.
Proof.
  revert prev i. induction hashes as [|h l IH]; intros prev i; [done|].
  destruct i as [|i]; cbn [commitments_from lookup list_lookup].
  - intros [= <-]. by exists prev.
  - intros Hc. destruct (IH _ _ Hc) as (p & Hp & Heq). exists p. split; [|done].
    by destruct i.
Qed.

Lemma commitments_last prev hashes :
  default prev (fc_header <$> last (commitments_from prev hashes)) =
  foldl (fun p h => filter_header_of h p) prev hashes.
Proof.
  revert prev. induction hashes as [|h l IH]; intros prev; [done|].
  cbn [foldl]. rewrite <- IH. cbn [commitments_from]. rewrite last_cons.
  by destruct (last (commitments_from _ l)).
Qed.

(** The commitments of a [cfheaders] message are its filter hashes in order,
    each with the filter header computed from the one before it, starting at
    the message's previous header: the last is the fold of the hash chain. *)
Theorem cfheader_batch_chain m :
  let b := cfheader_batch_new m in
  fc_filter_hash <$> inner b = filter_hashes m /\
  length (inner b) = length (filter_hashes m) /\
  (forall i c, inner b !! i = Some c ->
     exists p, header_before (previous_filter_header m) (inner b) i = Some p /\
       fc_header c = filter_header_of (fc_filter_hash c) p) /\
  default (previous_filter_header m) (fc_header <$> last (inner b)) =
    foldl (fun p h => filter_header_of h p) (previous_filter_header m) (filter_hashes m).
Proof.
  cbn. split_and!.
  - apply commitments_hashes.
  - apply commitments_length.
  - apply commitments_linked.
  - apply commitments_last.
Qed.
End Batches.

Section BatchWitnesses.
Import Toy.

Lemma headers_batch_checks_witness :
  connected (mkHeadersBatch [hdr 2 1 1; hdr 3 2 1]) = true /\
  is_Some (headers_batch_last (mkHeadersBatch [hdr 2 1 1; hdr 3 2 1])).
Proof.
  destruct (headers_batch_checks Mainnet [hdr 2 1 1; hdr 3 2 1] _ eq_refl)
    as (_ & Hl & [_ Hc] & _). split; [|done].
  apply Hc. intros [|[|i]] x y; cbn; intros [= <-] [= <-]; done.
Defined.
End BatchWitnesses.
