(* ===== verification/BlockQueue.v ===== *)
(** * The block queue: [src/chain/block_queue.rs]

    Requested blocks wait in [queue]; [want] is the one asked of the peers.
    An instant is a number of nanoseconds, passed to the operations that read
    the clock; one call reads the same instant throughout.  A [BlockSender] is
    the identity of the channel.

    The specification is a FIFO list of requests, [pending]: the wanted one,
    then the queue from its back.  Every operation is shown to refine it, and
    a queue whose blocks arrive is served completely and in order. *)

From stdpp Require Import base numbers list gmap.
From Stdlib Require Import ZArith Lia.
From S2P Require Import Prelude Bitcoin.

Definition SPAM_LIMIT : Z := 5.

Abbreviation Instant := Z (only parsing).
Abbreviation BlockSender := Z (only parsing).

(** [now.duration_since(then).as_secs()], zero when the clock went back. *)
Definition secs_since (now then_ : Instant) : Z := Z.max 0 (now - then_) / 1000000000.

Record Request := mkRequest {
  req_hash : BlockHash;
  sender : option BlockSender;
}.

Definition request_new (hash : BlockHash) : Request := {| req_hash := hash; sender := None |}.

(** With the feature [filter-control]. *)
Definition from_block_request (hash : BlockHash) (oneshot : BlockSender) : Request :=
  {| req_hash := hash; sender := Some oneshot |}.

Record BlockQueue := mkBlockQueue {
  queue : list Request; (* the front is the head *)
  want : option Request;
  last_req : Instant;
}.

Definition block_queue_new (now : Instant) : BlockQueue :=
  {| queue := []; want := None; last_req := now |}.

Definition queue_contains (q : BlockQueue) (block : BlockHash) : bool :=
  existsb (fun request => req_hash request =? block) (queue q)
  || match want q with
     | Some request => req_hash request =? block
     | None => false
     end.

Definition queue_add (request : Request) (q : BlockQueue) : BlockQueue :=
  if negb (queue_contains q (req_hash request))
  then {| queue := request :: queue q; want := want q; last_req := last_req q |}
  else q.

(** [VecDeque::pop_back] *)
Definition pop_back {A} (l : list A) : option A * list A := (last l, take (length l - 1) l).

Definition queue_pop (now : Instant) (q : BlockQueue) : option BlockHash * BlockQueue :=
  match want q with
  | Some request =>
      if secs_since now (last_req q) <? SPAM_LIMIT then (None, q)
      else (Some (req_hash request),
            {| queue := queue q; want := want q; last_req := now |})
  | None =>
      let '(request, rest) := pop_back (queue q) in
      (req_hash <$> request, {| queue := rest; want := request; last_req := now |})
  end.

Definition queue_need (q : BlockQueue) (block : BlockHash) : bool :=
  match want q with
  | Some request => req_hash request =? block
  | None => false
  end.

Definition queue_receive (hash : BlockHash) (q : BlockQueue) : option BlockSender * BlockQueue :=
  match want q with
  | Some request =>
      if req_hash request =? hash
      then (sender request, {| queue := queue q; want := None; last_req := last_req q |})
      else (None, {| queue := queue q; want := Some request; last_req := last_req q |})
  | None => (None, {| queue := queue q; want := None; last_req := last_req q |})
  end.

Definition queue_complete (q : BlockQueue) : bool :=
  match want q, queue q with
  | None, [] => true
  | _, _ => false
  end.

Definition queue_remove (hashes : list BlockHash) (q : BlockQueue) : BlockQueue :=
  {| queue := filter (fun request => req_hash request ∉ hashes) (queue q);
     want := match want q with
             | Some request => if decide (req_hash request ∈ hashes) then None else want q
             | None => None
             end;
     last_req := last_req q |}.

(** ** The specification *)

(** The requests in the order they are served. *)
Definition pending (q : BlockQueue) : list Request := option_list (want q) ++ reverse (queue q).

Definition pending_hashes (q : BlockQueue) : list BlockHash := req_hash <$> pending q.

(** No block is asked for twice. *)
Definition queue_ok (q : BlockQueue) : Prop := NoDup (pending_hashes q).

(** ** Refinement *)

Lemma queue_contains_spec q b : queue_contains q b = true <-> b ∈ pending_hashes q.
Proof.
  unfold queue_contains, pending_hashes, pending.
  rewrite fmap_app, elem_of_app, orb_true_iff.
  assert (existsb (fun request => req_hash request =? b) (queue q) = true <->
          b ∈ req_hash <$> reverse (queue q)) as ->.
  { rewrite existsb_exists, list_elem_of_fmap. setoid_rewrite <- list_elem_of_In.
    setoid_rewrite elem_of_reverse. setoid_rewrite Z.eqb_eq. naive_solver. }
  assert (match want q with Some r => req_hash r =? b | None => false end = true <->
          b ∈ req_hash <$> option_list (want q)) as ->; [|tauto].
  destruct (want q) as [r|]; cbn; [|split; [done|by intros ?%elem_of_nil]].
  rewrite list_elem_of_singleton, Z.eqb_eq. by split.
Qed.

Lemma pending_add r q :
  pending (queue_add r q) =
    if decide (req_hash r ∈ pending_hashes q) then pending q else pending q ++ [r].
Proof.
  unfold queue_add. destruct (queue_contains q (req_hash r)) eqn:Hc; cbn.
  - apply queue_contains_spec in Hc. by rewrite decide_True.
  - rewrite decide_False by (rewrite <- queue_contains_spec; congruence).
    unfold pending. cbn [want queue]. by rewrite reverse_cons, app_assoc.
Qed.

Lemma pop_back_spec {A} (l : list A) :
  option_list (pop_back l).1 ++ reverse (pop_back l).2 = reverse l.
Proof.
  destruct (exists_last' l) as [->|(l' & y & ->)]; [done|].
  unfold pop_back. cbn. rewrite last_snoc, length_app, Nat.add_sub, take_app_length. cbn.
  by rewrite reverse_snoc.
Qed.

Lemma pending_pop now q : pending (queue_pop now q).2 = pending q.
Proof.
  unfold queue_pop. destruct (want q) as [r|] eqn:Hw.
  - destruct (_ <? _); [done|]. unfold pending. cbn. by rewrite Hw.
  - pose proof (pop_back_spec (queue q)) as Hp. destruct (pop_back (queue q)) as [o rest].
    unfold pending. cbn in *. by rewrite Hw, Hp.
Qed.

Lemma pop_head now q :
  (queue_pop now q).1 =
    if bool_decide (is_Some (want q)) && (secs_since now (last_req q) <? SPAM_LIMIT)
    then None else head (pending_hashes q).
Proof.
  unfold queue_pop, pending_hashes, pending. destruct (want q) as [r|] eqn:Hw.
  - rewrite bool_decide_true by done. cbn. by destruct (_ <? _).
  - rewrite bool_decide_false by (by intros [? ?]). cbn.
    destruct (exists_last' (queue q)) as [->|(l' & y & ->)]; [done|].
    by rewrite last_snoc, reverse_snoc.
Qed.

Lemma pending_receive h q :
  pending (queue_receive h q).2 = if queue_need q h then tail (pending q) else pending q.
Proof.
  unfold queue_receive, queue_need, pending. destruct (want q) as [r|] eqn:Hw; cbn; [|done].
  by destruct (_ =? _).
Qed.

Lemma pending_remove hs q :
  pending (queue_remove hs q) = filter (fun r => req_hash r ∉ hs) (pending q).
Proof.
  unfold pending, queue_remove. cbn. rewrite filter_app. f_equal.
  - destruct (want q) as [r|]; cbn; [|done]. case_decide as Hin; cbn.
    + by rewrite decide_False by (intros Hn; by apply Hn).
    + by rewrite decide_True.
  - symmetry. apply filter_reverse.
Qed.

(** C24: every operation of the block queue is the FIFO operation on the pending
    requests: [add] appends a block that is not pending and ignores one that
    is, [pop] returns the head without removing it (or nothing within five
    seconds of the last request), [receive] removes the head when it is the
    wanted block and returns its channel, [remove] drops the given blocks; no
    block is ever pending twice. *)
Theorem block_queue_refines_fifo q :
  queue_ok q ->
  (forall r, queue_ok (queue_add r q) /\
     pending (queue_add r q) =
       if decide (req_hash r ∈ pending_hashes q) then pending q else pending q ++ [r]) /\
  (forall now, pending (queue_pop now q).2 = pending q /\
     (queue_pop now q).1 =
       if bool_decide (is_Some (want q)) && (secs_since now (last_req q) <? SPAM_LIMIT)
       then None else head (pending_hashes q)) /\
  (forall h, queue_ok (queue_receive h q).2 /\
     pending (queue_receive h q).2 = (if queue_need q h then tail (pending q) else pending q) /\
     (queue_receive h q).1 = if queue_need q h then head (pending q) ≫= sender else None) /\
  (forall hs, queue_ok (queue_remove hs q) /\
     pending (queue_remove hs q) = filter (fun r => req_hash r ∉ hs) (pending q)) /\
  (queue_complete q = true <-> pending q = []).
Proof.
  unfold queue_ok, pending_hashes. intros Hok. split_and!.
  - intros r. rewrite pending_add. split; [|done]. case_decide as Hin; [done|].
    rewrite fmap_app. apply NoDup_app. split_and!; [done| |apply NoDup_singleton].
    intros h Hh ->%list_elem_of_singleton. done.
  - intros now. split; [apply pending_pop|apply pop_head].
  - intros h. rewrite pending_receive. split_and!; [|done|].
    + destruct (queue_need q h); [|done]. destruct (pending q); [done|]. by inversion Hok.
    + unfold queue_receive, queue_need, pending. destruct (want q) as [r|]; [|done].
      cbn. by destruct (_ =? _).
  - intros hs. rewrite pending_remove. split; [|done].
    by apply NoDup_fmap_filter.
  - unfold queue_complete, pending. destruct (want q) as [r|]; [done|]. cbn.
    destruct (queue q) as [|r l] eqn:Hq; [done|]. rewrite reverse_cons.
    split; [done|]. intros Happ%app_eq_nil. by destruct Happ.
Qed.

(** ** Serving the queue *)

(** Pop, then receive the block that was asked for. *)
Definition serve (now : Instant) (q : BlockQueue) : list BlockHash * BlockQueue :=
  match queue_pop now q with
  | (Some h, q') => ([h], (queue_receive h q').2)
  | (None, q') => ([], q')
  end.

Fixpoint serve_all (times : list Instant) (q : BlockQueue) : list BlockHash * BlockQueue :=
  match times with
  | [] => ([], q)
  | now :: times' =>
      let '(l, q') := serve now q in
      let '(l', q'') := serve_all times' q' in
      (l ++ l', q'')
  end.

Lemma serve_step now q :
  want q = None ->
  want (serve now q).2 = None /\ (serve now q).1 = option_list (head (pending_hashes q)) /\
  pending (serve now q).2 = tail (pending q).
Proof.
  intros Hw. unfold serve, queue_pop, pending_hashes, pending. rewrite Hw.
  destruct (exists_last' (queue q)) as [->|(l & y & ->)]; [done|].
  unfold pop_back. rewrite last_snoc, length_app, Nat.add_sub, take_app_length, reverse_snoc.
  cbn. unfold queue_receive. cbn. by rewrite Z.eqb_refl.
Qed.

(** Serving: while peers answer each request, as many requests as there are
    pending blocks deliver every one of them once, in the order they were
    added, and complete the queue. *)
Theorem block_queue_served times q :
  want q = None -> length times = length (pending q) ->
  (serve_all times q).1 = pending_hashes q /\ queue_complete (serve_all times q).2 = true.
Proof.
  revert q. induction times as [|now times IH]; intros q Hw Hlen; cbn in Hlen.
  - unfold pending_hashes, queue_complete. cbn [serve_all fst snd]. rewrite Hw.
    assert (pending q = []) as Hp by (by destruct (pending q)).
    rewrite Hp. split; [done|]. unfold pending in Hp. rewrite Hw in Hp. cbn in Hp.
    destruct (queue q) as [|r l]; [done|]. rewrite reverse_cons in Hp. by apply app_eq_nil in Hp as [_ ?].
  - destruct (serve_step now q Hw) as (Hw' & Hl & Hp). cbn [serve_all].
    destruct (serve now q) as [l q'] eqn:Hs. cbn [fst snd] in *.
    destruct (IH q' Hw') as [Hall Hc]; [rewrite Hp; destruct (pending q); cbn in *; lia|].
    destruct (serve_all times q') as [l' q'']. cbn [fst snd] in *.
    split; [|done]. rewrite Hl, Hall. unfold pending_hashes. rewrite Hp.
    destruct (pending q); [done|]. done.
Qed.

Section BlockQueueWitnesses.

Definition three : BlockQueue :=
  queue_add (request_new 1) (queue_add (request_new 3)
    (queue_add (request_new 2) (queue_add (request_new 1) (block_queue_new 0)))).

Lemma block_queue_refines_fifo_witness :
  pending_hashes three = [1; 2; 3] /\
  pending (queue_remove [2] three) = [request_new 1; request_new 3].
Proof.
  split; [by vm_compute|].
  destruct (block_queue_refines_fifo three) as (_ & _ & _ & Hr & _).
  - unfold queue_ok. apply (bool_decide_unpack (NoDup (pending_hashes three))). by vm_compute.
  - destruct (Hr [2]) as [_ ->]. by vm_compute.
Defined.

Lemma block_queue_served_witness : (serve_all [10; 20; 30] three).1 = [1; 2; 3].
Proof. apply (block_queue_served [10; 20; 30] three); by vm_compute. Defined.
End BlockQueueWitnesses.
