(* ===== verification/Messages.v ===== *)
(** * Messages and errors: [src/messages.rs], [src/channel_messages.rs], [src/chain/error.rs], [src/error.rs], [src/dialog.rs]

    The messages that pass between the node, its peers and the client, and the
    error values of the handlers.  A one-shot channel is an identity.  The
    [Dialog] is the trace of what the node tells the client, in order, as with
    [LogLevel::Info] or [LogLevel::Debug] (with [LogLevel::Warning] the entries
    [SendInfo] are not sent); the text of debug logs is not part of it. *)

From stdpp Require Import base numbers list gmap strings.
From Stdlib Require Import ZArith Lia.
From S2P Require Import Prelude Bitcoin ChainTypes Checkpoints Batches.

(** ** Data of the [bitcoin] crate's message types *)

(** [bitcoin::p2p::address::AddrV2] *)
Inductive AddrV2 :=
  | Ipv4 (octets : list Z)
  | Ipv6 (segments : list Z)
  | TorV2 (key : list Z)
  | TorV3 (key : list Z)
  | I2p (key : list Z)
  | Cjdns (segments : list Z)
  | Unknown (kind : Z) (payload : list Z).

#[global] Instance AddrV2_eq_dec : EqDecision AddrV2.
Proof. solve_decision. Defined.

(** [ServiceFlags] is the u64 bit set it wraps. *)
Abbreviation ServiceFlags := Z (only parsing).
Definition NO_SERVICES : ServiceFlags := 0.
Definition NETWORK_SERVICE : ServiceFlags := 1.
Definition WITNESS : ServiceFlags := 8.
Definition COMPACT_FILTERS : ServiceFlags := 64.
Definition P2P_V2 : ServiceFlags := 2048.

(** [ServiceFlags::has] *)
Definition services_has (s f : ServiceFlags) : bool := Z.land s f =? f.

(** [bitcoin::p2p::Address]: an IPv6 address in eight segments, IPv4 mapped. *)
Record NetAddress := mkNetAddress {
  na_services : ServiceFlags;
  na_address : list Z;
  na_port : Z;
}.

Record VersionMessage := mkVersion {
  ver_version : Z;
  ver_services : ServiceFlags;
  ver_timestamp : Z;
  ver_receiver : NetAddress;
  ver_sender : NetAddress;
  ver_nonce : Z;
  ver_user_agent : string;
  ver_start_height : Z;
  ver_relay : bool;
}.

Record GetCFHeaders := mkGetCFHeaders {
  gcfh_filter_type : Z;
  gcfh_start_height : Height;
  gcfh_stop_hash : BlockHash;
}.

Record GetCFilters := mkGetCFilters {
  gcf_filter_type : Z;
  gcf_start_height : Height;
  gcf_stop_hash : BlockHash;
}.

Record CFilter := mkCFilter {
  cf_filter_type : Z;
  cf_block_hash : BlockHash;
  cf_filter : bytes;
}.

Abbreviation FeeRate := Z (only parsing).
Abbreviation Duration := Z (only parsing).
Abbreviation ChannelId := Z (only parsing).

(** ** Errors *)

Inductive HeaderSyncError :=
  | EmptyMessage
  | HeadersNotConnected
  | InvalidHeaderWork
  | InvalidHeaderTimes
  | InvalidCheckpoint
  | MiscalculatedDifficulty
  | InvalidBits
  | FloatingHeaders
  | DbError.

Inductive CFHeaderSyncError :=
  | CFEmptyMessage
  | CFUnknownStophash
  | StopHashMismatch
  | CFUnrequestedStophash
  | PrevHeaderMismatch
  | HeaderChainIndexOverflow
  | UnexpectedCFHeaderMessage
  | StartHeightMisalignment.

Inductive FilterError := IORead.

Inductive CFilterSyncError :=
  | UnknownStophash
  | UnrequestedStophash
  | UnknownFilterHash
  | MisalignedFilterHash
  | FilterErr (e : FilterError).

Inductive BlockScanError :=
  | NoBlockHash
  | InvalidMerkleRoot.

Inductive HeaderPersistenceError (H : Type) :=
  | HeadersDoNotLink
  | MismatchedCheckpoints
  | CannotLocateHistory
  | Database (e : H).
Arguments HeadersDoNotLink {H}.
Arguments MismatchedCheckpoints {H}.
Arguments CannotLocateHistory {H}.
Arguments Database {H} e.

Inductive PeerManagerError (P : Type) :=
  | PeerStoreError (e : P).
Arguments PeerStoreError {P} e.

Inductive NodeError (H P : Type) :=
  | HeaderDatabase (e : HeaderPersistenceError H)
  | PeerDatabase (e : PeerManagerError P).
Arguments HeaderDatabase {H P} e.
Arguments PeerDatabase {H P} e.

Inductive FetchHeaderError :=
  | FetchHeaderSendError
  | FetchHeaderDatabaseOptFailed
  | FetchHeaderRecvError
  | UnknownHeight.

Inductive FetchBlockError :=
  | FetchBlockSendError
  | FetchBlockDatabaseOptFailed
  | FetchBlockRecvError
  | UnknownHash.

(** *** [Display] of the errors that reach the client's warnings *)

Definition header_sync_error_text (e : HeaderSyncError) : string :=
  match e with
  | EmptyMessage => "empty headers message."
  | HeadersNotConnected => "the headers received do not connect."
  | InvalidHeaderWork => "one or more headers does not match its own PoW target."
  | InvalidHeaderTimes => "one or more headers does not have a valid block time."
  | InvalidCheckpoint => "a checkpoint in the chain did not match."
  | MiscalculatedDifficulty => "a computed difficulty adjustment did not match."
  | FloatingHeaders => "the peer sent us a chain that does not connect to any header of ours."
  | DbError => "the database could not load a fork."
  | InvalidBits => "the target work does not adhere to basic transition requirements."
  end.

Definition cf_header_sync_error_text (e : CFHeaderSyncError) : string :=
  match e with
  | CFEmptyMessage => "empty headers message."
  | CFUnknownStophash => "a stop hash received was not found in our chain."
  | StopHashMismatch => "the requested and received stop hashes do not match."
  | CFUnrequestedStophash => "we did not request this stop hash."
  | PrevHeaderMismatch => "previous filter header mismatch."
  | HeaderChainIndexOverflow =>
      "indexed out of bounds on the header chain trying to find a block hash."
  | UnexpectedCFHeaderMessage => "we already had a message from this peer staged in our queue."
  | StartHeightMisalignment => "the size of the batch and the requested start height do not align"
  end.

Definition cfilter_sync_error_text (e : CFilterSyncError) : string :=
  match e with
  | UnknownStophash => "a stop hash recevied was not found in our chain."
  | UnrequestedStophash => "we did not request this stop hash."
  | UnknownFilterHash => "we could not find the filter hash corresponding to that stop hash."
  | MisalignedFilterHash =>
      "the filter hash from our header chain and this filter hash do not match."
  | FilterErr _ => "the filter experienced an IO error checking for Script inclusions."
  end.

Definition block_scan_error_text (e : BlockScanError) : string :=
  match e with
  | NoBlockHash => "the block sent to us does not have a known hash."
  | InvalidMerkleRoot =>
      "the block sent to us does not have a merkle root that matches its header commitment."
  end.

(** ** Node states: [src/lib.rs] *)
Inductive NodeState :=
  | Behind
  | HeadersSynced
  | FilterHeadersSynced
  | FiltersSynced
  | TransactionsSynced.

#[global] Instance NodeState_eq_dec : EqDecision NodeState.
Proof. solve_decision. Defined.

(** ** What the client is told *)

Record Progress := mkProgress {
  progress_filter_headers : Z;
  progress_filters : Z;
  total_to_check : Z;
}.

Inductive Info :=
  | StateChange (s : NodeState)
  | ConnectionsMet
  | InfoProgress (p : Progress)
  | TxGossiped (wtxid : Wtxid).

Record RejectPayload := mkRejectPayload {
  reject_reason : option Z;
  reject_txid : Txid;
}.

Definition reject_from_txid (txid : Txid) : RejectPayload :=
  {| reject_reason := None; reject_txid := txid |}.

Inductive Warning :=
  | NeedConnections (connected required : Z)
  | WarnPeerTimedOut
  | CouldNotConnect
  | NoCompactFilters
  | PotentialStaleTip
  | UnsolicitedMessage
  | InvalidStartHeight
  | CorruptedHeaders
  | TransactionRejected (payload : RejectPayload)
  | FailedPersistence
  | EvaluatingFork
  | EmptyPeerDatabase
  | UnexpectedSyncError (warning : string)
  | ChannelDropped.

Record SyncUpdate := mkSyncUpdate {
  update_tip : HeaderCheckpoint;
  recent_history : gmap Height Header;
}.

Record CombinedAddr := mkCombinedAddr {
  ca_addr : AddrV2;
  ca_port : Z;
  ca_services : ServiceFlags;
}.

Definition combined_addr_new (addr : AddrV2) (port : Z) : CombinedAddr :=
  {| ca_addr := addr; ca_port := port; ca_services := NO_SERVICES |}.

Definition combined_addr_services (services : ServiceFlags) (c : CombinedAddr) : CombinedAddr :=
  {| ca_addr := ca_addr c; ca_port := ca_port c; ca_services := services |}.

Record GetHeaderConfig := mkGetHeaderConfig {
  ghc_locators : list BlockHash;
  ghc_stop_hash : option BlockHash;
}.

Section Messages.
Context `{Bitcoin}.

Record IndexedBlock := mkIndexedBlock {
  ib_height : Height;
  ib_block : Block;
}.

(** With the feature [filter-control]. *)
Record IndexedFilter := mkIndexedFilter {
  if_height : Height;
  if_filter : Filter;
}.

Inductive Event :=
  | BlockEvent (b : IndexedBlock)
  | Synced (u : SyncUpdate)
  | BlocksDisconnected (l : list IndexedHeader)
  | IndexedFilterEvent (f : IndexedFilter).

(** One entry of the dialog.  [ToChannel] is the answer sent on the one-shot
    channel of a request. *)
Inductive Output :=
  | SendWarning (w : Warning)
  | SendInfo (i : Info)
  | SendEvent (e : Event)
  | BlockToChannel (c : ChannelId) (r : FetchBlockError + IndexedBlock)
  | HeaderToChannel (c : ChannelId) (r : FetchHeaderError + Header)
  | HeadersToChannel (c : ChannelId) (r : FetchHeaderError + list (Height * Header))
  | FeeRateToChannel (c : ChannelId) (r : FeeRate).

(** ** Messages of the peers' threads *)

Inductive MainThreadMessage :=
  | GetAddr
  | GetAddrV2
  | WtxidRelay
  | GetHeaders (config : GetHeaderConfig)
  | GetFilterHeaders (message : GetCFHeaders)
  | GetFilters (message : GetCFilters)
  | GetBlock (locator : BlockHash)
  | DisconnectPeer
  | BroadcastTx (tx : Transaction)
  | SendVerack.

Inductive PeerMessage :=
  | PeerVersion (v : VersionMessage)
  | PeerAddr (l : list CombinedAddr)
  | PeerHeaders (l : list Header)
  | PeerFilterHeaders (m : CFHeaders)
  | PeerFilter (m : CFilter)
  | PeerBlock (b : Block)
  | PeerNewBlocks (l : list BlockHash)
  | PeerFeeFilter (f : FeeRate).

Record PeerThreadMessage := mkPeerThreadMessage {
  ptm_nonce : PeerId;
  ptm_message : PeerMessage;
}.

Inductive ReaderMessage :=
  | RdVersion (v : VersionMessage)
  | RdAddr (l : list CombinedAddr)
  | RdHeaders (l : list Header)
  | RdFilterHeaders (m : CFHeaders)
  | RdFilter (m : CFilter)
  | RdBlock (b : Block)
  | RdNewBlocks (l : list BlockHash)
  | RdReject (p : RejectPayload)
  | RdDisconnect
  | RdVerack
  | RdPing (nonce : Z)
  | RdPong (nonce : Z)
  | RdFeeFilter (f : FeeRate)
  | RdTxRequests (l : list Wtxid).

(** ** Messages of the client *)

(** [TxBroadcastPolicy] and [TxBroadcast] of [src/lib.rs] *)
Inductive TxBroadcastPolicy :=
  | AllPeers
  | RandomPeer.

Record TxBroadcast := mkTxBroadcast {
  tb_tx : Transaction;
  tb_broadcast_policy : TxBroadcastPolicy;
}.

Record TrustedPeer := mkTrustedPeer {
  tp_address : AddrV2;
  tp_port : option Z;
  tp_known_services : ServiceFlags;
}.

Inductive ClientMessage :=
  | Shutdown
  | Broadcast (t : TxBroadcast)
  | AddScript (s : ScriptBuf)
  | Rescan
  | ClientGetBlock (hash : BlockHash) (oneshot : ChannelId)
  | SetDuration (d : Duration)
  | AddPeer (p : TrustedPeer)
  | GetHeader (oneshot : ChannelId) (height : Height)
  | GetHeaderBatch (oneshot : ChannelId) (start stop : Height)
  | GetBroadcastMinFeeRate (oneshot : ChannelId)
  | NoOp.
End Messages.
