(* ===== verification/HeaderStore.v ===== *)
(** * The header store: [src/db/traits.rs], [src/db/mod.rs] and [src/db/sqlite/headers.rs]

    [HeaderStore] is the trait as a class of operations; [HeaderStoreLaws] is
    the contract the chain relies on, stated on a view of the store: the
    headers by height once everything staged is written.

    [SqliteHeaderDb] is the implementation, over the class [SqlHeaders] of the
    statements it sends to SQLite (not part of this repository; its documented
    behaviour is [SqlHeadersLaws]).  Its operations satisfy the contract. *)

From stdpp Require Import base numbers list gmap sorting.
From Stdlib Require Import ZArith Lia.
From S2P Require Import Prelude Bitcoin ChainTypes.

Inductive BlockHeaderChanges :=
  | Connected (x : IndexedHeader)
  | Reorganized (accepted reorganized : list IndexedHeader).

(** [std::ops::Bound] *)
Inductive Bound :=
  | Unbounded
  | Included (h : Height)
  | Excluded (h : Height).

Definition above_bound (b : Bound) (h : Height) : bool :=
  match b with
  | Unbounded => 0 <=? h
  | Included l => l <=? h
  | Excluded l => l <? h
  end.

Definition below_bound (b : Bound) (h : Height) : bool :=
  match b with
  | Unbounded => true
  | Included u => h <=? u
  | Excluded u => h <? u
  end.

(** A [BTreeMap<u32, Header>] that is only iterated is its entries by height. *)
Class HeaderStore (D : Type) := {
  store_error : Type;
  store_load : Bound -> Bound -> D -> (store_error + list (Height * Header)) * D;
  store_stage : BlockHeaderChanges -> D -> D;
  store_write : D -> (store_error + ()) * D;
  store_height_of : BlockHash -> D -> (store_error + option Height) * D;
  store_hash_at : Height -> D -> (store_error + option BlockHash) * D;
  store_header_at : Height -> D -> (store_error + option Header) * D;
}.

Section Contract.
Context `{Bitcoin}.

Definition insert_headers (l : list IndexedHeader) (m : gmap Height Header) : gmap Height Header :=
  foldl (fun m x => <[ih_height x := ih_header x]> m) m l.

Definition hashes_of (l : list IndexedHeader) : list BlockHash :=
  (fun x => block_hash (ih_header x)) <$> l.

(** The effect of a change on a chain indexed by height. *)
Definition apply_changes (c : BlockHeaderChanges) (m : gmap Height Header) : gmap Height Header :=
  match c with
  | Connected x => <[ih_height x := ih_header x]> m
  | Reorganized acc dis =>
      insert_headers acc (filter (fun kv => block_hash kv.2 ∉ hashes_of dis) m)
  end.

Definition added (c : BlockHeaderChanges) : list IndexedHeader :=
  match c with Connected x => [x] | Reorganized acc _ => acc end.

Definition removed (c : BlockHeaderChanges) : list BlockHash :=
  match c with Connected _ => [] | Reorganized _ dis => hashes_of dis end.

(** What the chain relies on of any store: staging keeps everything the change
    keeps, drops what it removes, and writing does not change the view. *)
Class HeaderStoreLaws (D : Type) `{HeaderStore D} := {
  store_view : D -> gmap Height Header;
  store_ok : D -> Prop;
  store_stage_ok c s : store_ok s -> store_ok (store_stage c s);
  store_stage_keeps c s : store_ok s ->
    apply_changes c (store_view s) ⊆ store_view (store_stage c s);
  store_stage_drops c s i hdr : store_ok s -> store_view (store_stage c s) !! i = Some hdr ->
    block_hash hdr ∈ removed c -> mkIndexedHeader i hdr ∈ added c;
  store_write_law s s' : store_ok s -> store_write s = (inr (), s') ->
    store_ok s' /\ store_view s' = store_view s;
}.
End Contract.

(** ** SQLite *)

Inductive SqlStatement :=
  | DeleteHash (h : BlockHash)                           (* [DELETE .. WHERE block_hash = ?1] *)
  | InsertOrReplace (height : Height) (hash : BlockHash) (hdr : Header).

(** The statements the program sends.  A row is its height, its hash column and
    its header column; hashes and headers are stored in their consensus
    encoding, whose decoding can fail. *)
Class SqlHeaders (T : Type) := {
  sql_error : Type;
  decode_error : Type;
  Tx : Type;
  (** [SELECT * FROM headers WHERE .. ORDER BY height], rows as they come *)
  sql_select : Bound -> Bound -> T -> sql_error + list (Height * (decode_error + Header));
  (** [query_row]: an error when there is no row *)
  sql_height_of : BlockHash -> T -> sql_error + Height;
  sql_hash_at : Height -> T -> sql_error + BlockHash;
  sql_row_at : Height -> T -> sql_error + Header;
  (** is it [rusqlite::Error::QueryReturnedNoRows]? *)
  no_rows : sql_error -> bool;
  sql_begin : T -> sql_error + Tx;
  sql_execute : SqlStatement -> Tx -> sql_error + Tx;
  sql_commit : Tx -> sql_error + T;
}.

(** Documented behaviour: the table as a map, transactions as batches. *)
Class SqlHeadersLaws (T : Type) `{SqlHeaders T} := {
  rows : T -> gmap Height (BlockHash * Header);
  tx_rows : Tx -> gmap Height (BlockHash * Header);
  sql_begin_law t tx : sql_begin t = inr tx -> tx_rows tx = rows t;
  sql_delete_law h tx tx' : sql_execute (DeleteHash h) tx = inr tx' ->
    tx_rows tx' = filter (fun kv => kv.2.1 ≠ h) (tx_rows tx);
  sql_insert_law i h hdr tx tx' : sql_execute (InsertOrReplace i h hdr) tx = inr tx' ->
    tx_rows tx' = <[i := (h, hdr)]> (tx_rows tx);
  sql_commit_law tx t : sql_commit tx = inr t -> rows t = tx_rows tx;
  sql_select_law lo hi t l : sql_select lo hi t = inr l ->
    StronglySorted Z.lt l.*1 /\
    forall i r, (i, r) ∈ l <-> exists h hdr, r = inr hdr /\ rows t !! i = Some (h, hdr) /\
      above_bound lo i = true /\ below_bound hi i = true;
  sql_row_at_law i t hdr : sql_row_at i t = inr hdr -> exists h, rows t !! i = Some (h, hdr);
  sql_no_row_law i t e : sql_row_at i t = inl e -> no_rows e = true -> rows t !! i = None;
}.

(** ** [SqliteHeaderDb] *)

Section Sqlite.
Context `{Bitcoin} {T : Type} `{SqlHeaders T}.

Inductive SqlHeaderStoreError :=
  | Corruption
  | Deserialize (e : decode_error)
  | SQL (e : sql_error).

Record SqliteHeaderDb := mkSqliteHeaderDb {
  conn : T;
  accepted : gmap Height Header;
  disconnected : gset BlockHash;
}.

(** The loop of [load] over the rows; [acc] holds the headers so far. *)
Fixpoint load_rows (l : list (Height * (decode_error + Header))) (acc : list (Height * Header))
  : SqlHeaderStoreError + list (Height * Header) :=
  match l with
  | [] => inr acc
  | (height, inl e) :: _ => inl (Deserialize e)
  | (height, inr next_header) :: l' =>
      match last acc with
      | Some (_, hdr) =>
          if decide (block_hash hdr ≠ prev_blockhash next_header) then inl Corruption
          else load_rows l' (acc ++ [(height, next_header)])
      | None => load_rows l' (acc ++ [(height, next_header)])
      end
  end.

Definition db_load (lo hi : Bound) (s : SqliteHeaderDb)
  : (SqlHeaderStoreError + list (Height * Header)) * SqliteHeaderDb :=
  match sql_select lo hi (conn s) with
  | inl e => (inl (SQL e), s)
  | inr l => (load_rows l [], s)
  end.

Definition db_stage (changes : BlockHeaderChanges) (s : SqliteHeaderDb) : SqliteHeaderDb :=
  match changes with
  | Connected x =>
      {| conn := conn s; accepted := <[ih_height x := ih_header x]> (accepted s);
         disconnected := disconnected s |}
  | Reorganized acc reorganized =>
      let s1 := foldl (fun s x =>
        let removed_hash := block_hash (ih_header x) in
        {| conn := conn s;
           accepted := filter (fun kv => block_hash kv.2 ≠ removed_hash) (accepted s);
           disconnected := {[removed_hash]} ∪ disconnected s |}) s reorganized in
      {| conn := conn s1; accepted := insert_headers acc (accepted s1);
         disconnected := disconnected s1 |}
  end.

(** The two loops of [write], statement by statement. *)
Fixpoint execute_all (l : list SqlStatement) (tx : Tx) : sql_error + Tx :=
  match l with
  | [] => inr tx
  | stmt :: l' => match sql_execute stmt tx with
                  | inl e => inl e
                  | inr tx' => execute_all l' tx'
                  end
  end.

Definition deletions (dis : gset BlockHash) : list SqlStatement := DeleteHash <$> elements dis.

Definition insertions (acc : gmap Height Header) : list SqlStatement :=
  (fun kv => InsertOrReplace kv.1 (block_hash kv.2) kv.2) <$> map_to_list acc.

(** Each staged set is taken when its loop starts; an error drops the
    transaction. *)
Definition db_write (s : SqliteHeaderDb) : (SqlHeaderStoreError + ()) * SqliteHeaderDb :=
  match sql_begin (conn s) with
  | inl e => (inl (SQL e), s)
  | inr tx =>
      let s1 := {| conn := conn s; accepted := accepted s; disconnected := ∅ |} in
      match execute_all (deletions (disconnected s)) tx with
      | inl e => (inl (SQL e), s1)
      | inr tx1 =>
          let s2 := {| conn := conn s; accepted := ∅; disconnected := ∅ |} in
          match execute_all (insertions (accepted s)) tx1 with
          | inl e => (inl (SQL e), s2)
          | inr tx2 =>
              match sql_commit tx2 with
              | inl e => (inl (SQL e), s2)
              | inr t => (inr (), {| conn := t; accepted := ∅; disconnected := ∅ |})
              end
          end
      end
  end.

Definition db_height_of (h : BlockHash) (s : SqliteHeaderDb)
  : (SqlHeaderStoreError + option Height) * SqliteHeaderDb :=
  match sql_height_of h (conn s) with
  | inl e => (inl (SQL e), s)
  | inr height => (inr (Some height), s)
  end.

Definition db_hash_at (height : Height) (s : SqliteHeaderDb)
  : (SqlHeaderStoreError + option BlockHash) * SqliteHeaderDb :=
  match sql_hash_at height (conn s) with
  | inl e => (inl (SQL e), s)
  | inr hash => (inr (Some hash), s)
  end.

Definition db_header_at (height : Height) (s : SqliteHeaderDb)
  : (SqlHeaderStoreError + option Header) * SqliteHeaderDb :=
  match sql_row_at height (conn s) with
  | inr hdr => (inr (Some hdr), s)
  | inl e => if no_rows e then (inr None, s) else (inl (SQL e), s)
  end.

#[export] Instance sqlite_header_store : HeaderStore SqliteHeaderDb := {
  store_error := SqlHeaderStoreError;
  store_load := db_load;
  store_stage := db_stage;
  store_write := db_write;
  store_height_of := db_height_of;
  store_hash_at := db_hash_at;
  store_header_at := db_header_at;
}.
End Sqlite.

Arguments SqliteHeaderDb T : clear implicits.

(** ** Facts *)

Section InsertHeaders.
Context `{Bitcoin}.

Lemma insert_headers_other l m i :
  i ∉ ih_height <$> l -> insert_headers l m !! i = m !! i.
Proof.
  revert m. induction l as [|x l IH]; intros m Hi; [done|].
  cbn in Hi. apply not_elem_of_cons in Hi as [Hx Hi]. cbn [insert_headers foldl].
  fold (insert_headers l (<[ih_height x := ih_header x]> m)). rewrite IH by done.
  by rewrite lookup_insert_ne.
Qed.

Lemma insert_headers_mono l m m' : m ⊆ m' -> insert_headers l m ⊆ insert_headers l m'.
Proof.
  revert m m'. induction l as [|x l IH]; intros m m' Hm; [done|].
  apply IH. by apply insert_mono.
Qed.

Lemma insert_headers_some l m i hdr :
  insert_headers l m !! i = Some hdr -> mkIndexedHeader i hdr ∈ l \/ m !! i = Some hdr.
Proof.
  revert m. induction l as [|x l IH]; intros m; [by right|]. intros Hi.
  destruct (IH _ Hi) as [Hin|Hlk]; [left; by right|].
  apply lookup_insert_Some in Hlk as [[<- <-]|[_ Hlk]]; [left|by right].
  destruct x. by left.
Qed.

Lemma insert_headers_union l m1 m2 :
  insert_headers l (m1 ∪ m2) = insert_headers l m1 ∪ m2.
Proof.
  revert m1. induction l as [|x l IH]; intros m1; [done|]. cbn [insert_headers foldl].
  rewrite insert_union_l. apply IH.
Qed.

Lemma insert_headers_nodup l m x :
  NoDup (ih_height <$> l) -> x ∈ l -> insert_headers l m !! ih_height x = Some (ih_header x).
Proof.
  revert m. induction l as [|y l IH]; intros m Hnd; [by intros ?%elem_of_nil|].
  inversion Hnd as [|? ? Hy Hnd']; subst. intros [->|Hx]%elem_of_cons; [|by apply IH].
  change (insert_headers (y :: l) m) with (insert_headers l (<[ih_height y := ih_header y]> m)).
  rewrite insert_headers_other by done. apply lookup_insert_eq.
Qed.
End InsertHeaders.

Section SqliteFacts.
Context `{Bitcoin} {T : Type} `{Hsql : SqlHeaders T} `{!SqlHeadersLaws T}.
Implicit Types s : SqliteHeaderDb T.

Definition row_headers (m : gmap Height (BlockHash * Header)) (dis : gset BlockHash)
  : gmap Height Header := snd <$> filter (fun kv => kv.2.1 ∉ dis) m.

Definition db_view (s : SqliteHeaderDb T) : gmap Height Header :=
  accepted s ∪ row_headers (rows (conn s)) (disconnected s).

(** The hash column of a row is the hash of its header. *)
Definition rows_ok (m : gmap Height (BlockHash * Header)) : Prop :=
  map_Forall (fun _ r => r.1 = block_hash r.2) m.

Definition db_ok (s : SqliteHeaderDb T) : Prop := rows_ok (rows (conn s)).

Lemma row_headers_lookup m dis i hdr :
  row_headers m dis !! i = Some hdr <-> exists h, m !! i = Some (h, hdr) /\ h ∉ dis.
Proof.
  unfold row_headers. rewrite lookup_fmap, fmap_Some. split.
  - intros ([h hdr'] & [Hm Hd]%map_lookup_filter_Some & ->). eauto.
  - intros (h & Hm & Hd). exists (h, hdr). split; [|done]. by apply map_lookup_filter_Some.
Qed.

(** The loop over the disconnected headers. *)
Lemma stage_reorganized acc dis s :
  db_stage (Reorganized acc dis) s =
    {| conn := conn s;
       accepted := insert_headers acc (filter (fun kv => block_hash kv.2 ∉ hashes_of dis) (accepted s));
       disconnected := list_to_set (hashes_of dis) ∪ disconnected s |}.
Proof.
  cbn [db_stage].
  assert (foldl (fun (s : SqliteHeaderDb T) x =>
    {| conn := conn s;
       accepted := filter (fun kv => block_hash kv.2 ≠ block_hash (ih_header x)) (accepted s);
       disconnected := {[block_hash (ih_header x)]} ∪ disconnected s |}) s dis =
    {| conn := conn s;
       accepted := filter (fun kv => block_hash kv.2 ∉ hashes_of dis) (accepted s);
       disconnected := list_to_set (hashes_of dis) ∪ disconnected s |}) as ->; [|done].
  revert s. induction dis as [|x dis IH]; intros s.
  - destruct s as [c a d]. cbn. f_equal.
    + symmetry. apply map_filter_id. intros i hdr _. apply not_elem_of_nil.
    + by rewrite union_empty_l_L.
  - cbn [foldl]. rewrite IH. cbn. f_equal.
    + rewrite map_filter_filter. apply map_filter_ext. intros i hdr _. cbn.
      rewrite not_elem_of_cons. tauto.
    + rewrite assoc_L by apply _. f_equal. apply comm_L, _.
Qed.

Lemma db_stage_ok c s : db_ok s -> db_ok (db_stage c s).
Proof. destruct c as [x|acc dis]; [done|]. by rewrite stage_reorganized. Qed.

Lemma db_stage_keeps c s : db_ok s -> apply_changes c (db_view s) ⊆ db_view (db_stage c s).
Proof.
  intros Hok. destruct c as [x|acc dis].
  - unfold db_view. cbn. by rewrite insert_union_l.
  - rewrite stage_reorganized. unfold db_view. cbn [apply_changes accepted disconnected conn].
    rewrite <- insert_headers_union. apply insert_headers_mono.
    apply map_subseteq_spec. intros i hdr [Hv Hd]%map_lookup_filter_Some. cbn in Hd.
    apply lookup_union_Some_raw in Hv as [Ha|[Ha Hr]].
    + apply lookup_union_Some_raw. left. by apply map_lookup_filter_Some.
    + apply lookup_union_Some_raw. right. split.
      * apply map_lookup_filter_None. by left.
      * apply row_headers_lookup in Hr as (h & Hr & Hh). apply row_headers_lookup.
        pose proof (Hok _ _ Hr) as Hkey. cbn in Hkey. subst h.
        eexists. split; [done|].
        rewrite elem_of_union, elem_of_list_to_set. by intros [?|?].
Qed.

Lemma db_stage_drops c s i hdr :
  db_ok s -> db_view (db_stage c s) !! i = Some hdr ->
  block_hash hdr ∈ removed c -> mkIndexedHeader i hdr ∈ added c.
Proof.
  intros Hok Hv. destruct c as [x|acc dis]; [by intros ?%elem_of_nil|].
  rewrite stage_reorganized in Hv. unfold db_view in Hv. cbn [accepted disconnected conn] in Hv.
  cbn [removed added]. intros Hdis. apply lookup_union_Some_raw in Hv as [Ha|[_ Hr]].
  - apply insert_headers_some in Ha as [?|[_ Ha]%map_lookup_filter_Some]; [done|].
    by destruct Ha.
  - apply row_headers_lookup in Hr as (h & Hr & Hh). destruct Hh.
    pose proof (Hok _ _ Hr) as Hkey. cbn in Hkey. subst h. apply elem_of_union. left. by apply elem_of_list_to_set.
Qed.

(** ** Writing *)

Lemma execute_deletions l tx tx' :
  execute_all (DeleteHash <$> l) tx = inr tx' ->
  tx_rows tx' = filter (fun kv => kv.2.1 ∉ l) (tx_rows tx).
Proof.
  revert tx. induction l as [|h l IH]; intros tx; cbn [fmap list_fmap execute_all].
  - intros [= <-]. symmetry. apply map_filter_id. intros i r _. apply not_elem_of_nil.
  - destruct (sql_execute (DeleteHash h) tx) as [|tx1] eqn:He; [done|]. intros Hl.
    rewrite (IH _ Hl), (sql_delete_law _ _ _ He), map_filter_filter.
    apply map_filter_ext. intros i r _. cbn. rewrite not_elem_of_cons. tauto.
Qed.

Lemma execute_insertions l tx tx' :
  execute_all ((fun kv => InsertOrReplace kv.1 (block_hash kv.2) kv.2) <$> l) tx = inr tx' ->
  NoDup l.*1 ->
  tx_rows tx' = ((fun hdr => (block_hash hdr, hdr)) <$> list_to_map l) ∪ tx_rows tx.
Proof.
  revert tx. induction l as [|[i hdr] l IH]; intros tx; cbn [fmap list_fmap execute_all].
  - intros [= <-] _. cbn. by rewrite fmap_empty, map_empty_union.
  - cbn [fst snd]. destruct (sql_execute _ tx) as [|tx1] eqn:He; [done|]. intros Hl Hnd.
    inversion Hnd as [|? ? Hi Hnd']; subst.
    rewrite (IH _ Hl Hnd'), (sql_insert_law _ _ _ _ _ He). cbn [list_to_map foldr fst snd].
    rewrite fmap_insert. change (uncurry _ (i, hdr)) with (insert (M := gmap Height Header) i hdr).
    rewrite <- insert_union_l. symmetry. apply insert_union_r.
    rewrite lookup_fmap. cbn in Hi. by rewrite (not_elem_of_list_to_map_1 _ _ Hi).
Qed.

(** A successful write stores the view and leaves nothing staged. *)
Lemma db_write_view s s' :
  db_ok s -> db_write s = (inr (), s') ->
  accepted s' = ∅ /\ disconnected s' = ∅ /\ db_ok s' /\
  (snd <$> rows (conn s')) = db_view s.
Proof.
  intros Hok. unfold db_write.
  destruct (sql_begin (conn s)) as [|tx] eqn:Hb; [done|].
  destruct (execute_all (deletions _) tx) as [|tx1] eqn:Hd; [done|].
  destruct (execute_all (insertions _) tx1) as [|tx2] eqn:Hi; [done|].
  destruct (sql_commit tx2) as [|t] eqn:Hc; [done|]. intros [= <-]. cbn.
  assert (rows t = ((fun hdr => (block_hash hdr, hdr)) <$> accepted s) ∪
    filter (fun kv => kv.2.1 ∉ disconnected s) (rows (conn s))) as Hrows.
  { rewrite (sql_commit_law _ _ Hc).
    rewrite (execute_insertions _ _ _ Hi) by apply NoDup_fst_map_to_list.
    rewrite list_to_map_to_list. f_equal.
    rewrite (execute_deletions _ _ _ Hd), (sql_begin_law _ _ Hb).
    apply map_filter_ext. intros i r _. cbn. by rewrite elem_of_elements. }
  split_and!; [done|done| |].
  - unfold db_ok, rows_ok. cbn. rewrite Hrows. intros i r [Ha|[_ Hr]]%lookup_union_Some_raw.
    + by apply lookup_fmap_Some in Ha as (hdr & <- & _).
    + apply map_lookup_filter_Some in Hr as [Hr _]. by apply (Hok i).
  - rewrite Hrows, map_fmap_union, <- map_fmap_compose. unfold db_view, row_headers.
    f_equal. rewrite <- (map_fmap_id (accepted s)) at 2. by apply map_fmap_ext.
Qed.

Lemma db_view_clean s :
  accepted s = ∅ -> disconnected s = ∅ -> db_view s = snd <$> rows (conn s).
Proof.
  intros Ha Hd. unfold db_view, row_headers. rewrite Ha, Hd, map_empty_union. f_equal.
  apply map_filter_id. intros i r _. apply not_elem_of_empty.
Qed.

#[export] Program Instance sqlite_store_laws : HeaderStoreLaws (SqliteHeaderDb T) := {
  store_view := db_view;
  store_ok := db_ok;
  store_stage_ok := db_stage_ok;
  store_stage_keeps := db_stage_keeps;
  store_stage_drops := db_stage_drops;
}.
Next Obligation.
  intros s s' Hok Hw. destruct (db_write_view _ _ Hok Hw) as (Ha & Hd & Hok' & Hv).
  split; [done|]. by rewrite db_view_clean, Hv.
Qed.

(** ** Loading *)

Definition linked (l : list (Height * Header)) : Prop :=
  forall i x y, l !! i = Some x -> l !! S i = Some y -> prev_blockhash y.2 = block_hash x.2.

Lemma linked_snoc l x :
  linked l -> (forall y, last l = Some y -> prev_blockhash x.2 = block_hash y.2) ->
  linked (l ++ [x]).
Proof.
  intros Hl Hx i y z Hy Hz. apply lookup_snoc_Some in Hz as [[Hi Hz]|[Hi ->]].
  - rewrite lookup_app_l in Hy by lia. eauto.
  - rewrite lookup_app_l in Hy by lia. apply Hx. rewrite last_lookup, <- Hi. done.
Qed.

Lemma load_rows_inr l acc res :
  load_rows l acc = inr res -> linked acc ->
  exists l', Forall2 (fun r x => r = (x.1, inr x.2)) l l' /\ res = acc ++ l' /\ linked res.
Proof.
  revert acc. induction l as [|[i [e|hdr]] l IH]; intros acc; cbn [load_rows]; [..|done|].
  - intros [= <-] Hl. exists []. by rewrite app_nil_r.
  - destruct (last acc) as [[j p]|] eqn:Hlast.
    + case_decide as Hp; [done|]. intros Hres Hl.
      destruct (IH _ Hres) as (l' & Hall & -> & Hlk).
      { apply linked_snoc; [done|]. intros y. rewrite Hlast. intros [= <-]. by symmetry. }
      exists ((i, hdr) :: l'). rewrite <- app_assoc in *. by split_and!; [constructor|..].
    + intros Hres Hl. destruct (IH _ Hres) as (l' & Hall & -> & Hlk).
      { apply linked_snoc; [done|]. by rewrite Hlast. }
      exists ((i, hdr) :: l'). rewrite <- app_assoc in *. by split_and!; [constructor|..].
Qed.

Lemma db_load_inr lo hi s l s' :
  db_load lo hi s = (inr l, s') ->
  s' = s /\ linked l /\ StronglySorted Z.lt l.*1 /\
  forall i hdr, (i, hdr) ∈ l <-> (snd <$> rows (conn s)) !! i = Some hdr /\
    above_bound lo i = true /\ below_bound hi i = true.
Proof.
  unfold db_load. destruct (sql_select lo hi (conn s)) as [|rs] eqn:Hs; [done|].
  intros [= Hl <-]. split; [done|].
  destruct (load_rows_inr _ _ _ Hl) as (l' & Hall & -> & Hlk); [by intros i x y|]. cbn in *.
  destruct (sql_select_law _ _ _ _ Hs) as [Hsort Hrows]. split; [done|].
  assert (rs = (fun x => (x.1, inr x.2)) <$> l') as ->.
  { clear -Hall. induction Hall as [|r x rs l' -> _ IH]; [done|]. cbn. by rewrite <- IH. }
  rewrite <- list_fmap_compose in Hsort. split; [done|].
  intros i hdr. rewrite lookup_fmap, fmap_Some. split.
  - intros Hin. destruct (Hrows i (inr hdr)) as [Hr _].
    destruct Hr as (h & hdr' & [= <-] & Hr & Hlo & Hhi);
      [by apply (list_elem_of_fmap_2 (fun x => (x.1, inr x.2)) _ (i, hdr))|].
    split; [|done]. by exists (h, hdr).
  - intros (([h hdr'] & Hr & [= ->]) & Hlo & Hhi). destruct (Hrows i (inr hdr')) as [_ Hr'].
    destruct (list_elem_of_fmap_1 _ _ _ (Hr' (ex_intro _ h (ex_intro _ hdr'
      (conj eq_refl (conj Hr (conj Hlo Hhi))))))) as ([j x] & [= -> ->] & Hin). done.
Qed.

(** What the chain relies on when it reads: a successful read tells exactly
    what was written, and no read changes it. *)
Class HeaderStoreReads (D : Type) `{HeaderStore D} := {
  store_rows : D -> gmap Height Header;
  store_header_at_law i (s s' : D) r : store_header_at i s = (r, s') ->
    store_rows s' = store_rows s /\ forall o, r = inr o -> o = store_rows s !! i;
  store_load_law lo hi (s s' : D) l : store_load lo hi s = (inr l, s') ->
    store_rows s' = store_rows s /\ linked l /\ StronglySorted Z.lt l.*1 /\
    forall i hdr, (i, hdr) ∈ l <->
      store_rows s !! i = Some hdr /\ above_bound lo i = true /\ below_bound hi i = true;
}.

#[export] Program Instance sqlite_store_reads : HeaderStoreReads (SqliteHeaderDb T) := {
  store_rows s := snd <$> rows (conn s);
}.
Next Obligation.
  cbn. intros i s s' r. unfold db_header_at. destruct (sql_row_at i (conn s)) as [e|hdr] eqn:Hr.
  - destruct (no_rows e) eqn:He; intros [= <- <-]; (split; [done|]); intros o; [|done].
    intros [= <-]. by rewrite lookup_fmap, (sql_no_row_law _ _ _ Hr He).
  - intros [= <- <-]. split; [done|]. intros o [= <-].
    destruct (sql_row_at_law _ _ _ Hr) as [h Hrow]. by rewrite lookup_fmap, Hrow.
Qed.
Next Obligation.
  cbn. intros lo hi s s' l Hl. by destruct (db_load_inr _ _ _ _ _ Hl) as (-> & ? & ? & ?).
Qed.

(** C27: what is staged is what is read back: after a successful write the
    table holds exactly the view, nothing is left staged, and a load of any
    range that succeeds returns exactly the headers of the view in that range,
    in order of height, each linking to the one before it. *)
Theorem sqlite_write_then_load s s' lo hi l s'' :
  db_ok s -> db_write s = (inr (), s') -> db_load lo hi s' = (inr l, s'') ->
  s'' = s' /\ accepted s' = ∅ /\ disconnected s' = ∅ /\
  linked l /\ StronglySorted Z.lt l.*1 /\
  forall i hdr, (i, hdr) ∈ l <->
    db_view s !! i = Some hdr /\ above_bound lo i = true /\ below_bound hi i = true.
Proof.
  intros Hok Hw Hl. destruct (db_write_view _ _ Hok Hw) as (Ha & Hd & _ & <-).
  destruct (db_load_inr _ _ _ _ _ Hl) as (-> & Hlk & Hs & Hin). done.
Qed.

(** Staging a change: everything the change keeps or adds is in the view of
    the store, everything it removes is gone unless it is added again; with
    one block per height the added blocks are all stored at their heights. *)
Theorem sqlite_stage_refines c s :
  db_ok s ->
  db_ok (db_stage c s) /\
  apply_changes c (db_view s) ⊆ db_view (db_stage c s) /\
  (forall i hdr, db_view (db_stage c s) !! i = Some hdr -> block_hash hdr ∈ removed c ->
     mkIndexedHeader i hdr ∈ added c) /\
  (NoDup (ih_height <$> added c) -> forall x, x ∈ added c ->
     db_view (db_stage c s) !! ih_height x = Some (ih_header x)).
Proof.
  intros Hok. split_and!; [by apply db_stage_ok|by apply db_stage_keeps|by intros; eapply db_stage_drops|].
  intros Hnd x Hx. eapply lookup_weaken; [|by apply db_stage_keeps].
  destruct c as [y|acc dis]; cbn in *.
  - apply list_elem_of_singleton in Hx as ->. apply lookup_insert_eq.
  - by apply insert_headers_nodup.
Qed.

(** A failed write loses staged headers: when a statement of the insertion
    loop or the commit fails, the table is unchanged and nothing is staged any
    more. *)
Theorem sqlite_failed_write_drops_staged s tx tx1 e :
  sql_begin (conn s) = inr tx ->
  execute_all (deletions (disconnected s)) tx = inr tx1 ->
  execute_all (insertions (accepted s)) tx1 = inl e ->
  let '(r, s') := db_write s in
  r = inl (SQL e) /\ conn s' = conn s /\ accepted s' = ∅ /\ disconnected s' = ∅.
Proof. intros Hb Hd Hi. unfold db_write. by rewrite Hb, Hd, Hi. Qed.
End SqliteFacts.

(** ** A concrete table for the witnesses

    The table is its map of rows; inserting a header of hash 666 fails. *)
Module ToySql.
Export Toy.

Abbreviation table := (gmap Height (BlockHash * Header)).

Definition select_one (lo hi : Bound) (t : table) (i : Height)
  : option (Height * (Empty_set + Header)) :=
  if above_bound lo i && below_bound hi i then (fun r => (i, inr r.2)) <$> t !! i else None.

#[export] Instance toy_sql : SqlHeaders table := {
  sql_error := Z;
  decode_error := Empty_set;
  Tx := table;
  sql_select lo hi t := inr (omap (select_one lo hi t) (merge_sort Z.le (map_to_list t).*1));
  sql_height_of h t :=
    match filter (fun kv => kv.2.1 = h) (map_to_list t) with
    | [] => inl 0
    | kv :: _ => inr kv.1
    end;
  sql_hash_at i t := match t !! i with Some r => inr r.1 | None => inl 0 end;
  sql_row_at i t := match t !! i with Some r => inr r.2 | None => inl 0 end;
  no_rows e := e =? 0;
  sql_begin t := inr t;
  sql_execute stmt t :=
    match stmt with
    | DeleteHash h => inr (filter (fun kv => kv.2.1 ≠ h) t)
    | InsertOrReplace i h hdr => if h =? 666 then inl 1 else inr (<[i := (h, hdr)]> t)
    end;
  sql_commit t := inr t;
}.

Lemma keys_sorted (t : table) : StronglySorted Z.lt (merge_sort Z.le (map_to_list t).*1).
Proof.
  assert (StronglySorted Z.le (merge_sort Z.le (map_to_list t).*1)) as Hs
    by (apply StronglySorted_merge_sort; apply _).
  assert (NoDup (merge_sort Z.le (map_to_list t).*1)) as Hnd
    by (rewrite merge_sort_Permutation; apply NoDup_fst_map_to_list).
  induction Hs as [|x l Hs IH Hall]; [constructor|]. inversion Hnd as [|? ? Hx Hnd']; subst.
  constructor; [by apply IH|]. rewrite Forall_forall in *. intros y Hy.
  specialize (Hall y Hy). assert (x <> y) by (intros ->; done). lia.
Qed.

Lemma select_sorted lo hi (t : table) l :
  StronglySorted Z.lt l -> StronglySorted Z.lt (omap (select_one lo hi t) l).*1.
Proof.
  induction 1 as [|x l Hs IH Hall]; [constructor|]. cbn.
  unfold select_one at 1. destruct (above_bound lo x && below_bound hi x); [|done].
  destruct (t !! x) as [r|]; cbn; [|done]. constructor; [done|].
  apply Forall_forall. intros y (r' & Hin)%elem_of_fst.
  apply list_elem_of_omap in Hin as (z & Hz & Heq). unfold select_one in Heq.
  destruct (above_bound lo z && below_bound hi z); [|done]. destruct (t !! z); [|done].
  injection Heq as -> _. rewrite Forall_forall in Hall. auto.
Qed.

#[export] Program Instance toy_sql_laws : SqlHeadersLaws table := {
  rows t := t;
  tx_rows t := t;
}.
Next Obligation. by intros t tx [= ->]. Qed.
Next Obligation. by intros h tx tx' [= <-]. Qed.
Next Obligation. intros i h hdr tx tx'. cbn. destruct (h =? 666); [done|]. by intros [= <-]. Qed.
Next Obligation. by intros tx t [= ->]. Qed.
Next Obligation.
  intros lo hi t l [= <-]. split; [apply select_sorted, keys_sorted|]. intros i r.
  rewrite list_elem_of_omap. setoid_rewrite merge_sort_Permutation. split.
  - intros (x & Hx & Heq). unfold select_one in Heq.
    destruct (above_bound lo x) eqn:Hlo, (below_bound hi x) eqn:Hhi; try done. cbn in Heq.
    destruct (t !! x) as [[h hdr]|] eqn:Ht; [|done]. injection Heq as <- <-. eauto 10.
  - intros (h & hdr & -> & Ht & Hlo & Hhi). exists i. split.
    + apply elem_of_fst. exists (h, hdr). by apply elem_of_map_to_list.
    + unfold select_one. rewrite Hlo, Hhi. cbn in *. by rewrite Ht.
Qed.
Next Obligation.
  intros i t hdr. cbn. destruct (t !! i) as [[h x]|]; [|done]. intros [= <-]. by exists h.
Qed.
Next Obligation. intros i t e. cbn. by case_match. Qed.

(** Two stored headers and one staged. *)
Definition store : SqliteHeaderDb table :=
  db_stage (Connected (mkIndexedHeader 2 (hdr 12 11 1)))
    {| conn := {[0 := (10, hdr 10 9 1); 1 := (11, hdr 11 10 1)]};
       accepted := ∅; disconnected := ∅ |}.

Lemma store_rows_ok : db_ok store.
Proof.
  unfold db_ok, rows_ok. apply (bool_decide_unpack (map_Forall
    (fun (_ : Z) (r : BlockHash * Header) => r.1 = block_hash r.2) (rows (conn store)))).
  by vm_compute.
Qed.
End ToySql.

Section StoreWitnesses.
Import ToySql.

Definition written : SqliteHeaderDb table := (db_write store).2.

Lemma written_ok : db_write store = (inr (), written).
Proof. reflexivity. Qed.

Lemma written_loads :
  db_load (Included 1) Unbounded written = (inr [(1, hdr 11 10 1); (2, hdr 12 11 1)], written).
Proof. reflexivity. Qed.

Lemma sqlite_write_then_load_witness :
  linked [(1, hdr 11 10 1); (2, hdr 12 11 1)] /\ accepted written = ∅.
Proof.
  pose proof (sqlite_write_then_load store written (Included 1) Unbounded _ _ store_rows_ok
    written_ok written_loads) as (_ & Ha & _ & Hl & _).
  split; [exact Hl|exact Ha].
Defined.

Lemma sqlite_stage_refines_witness :
  let c := Reorganized [mkIndexedHeader 1 (hdr 21 10 1)]
             [mkIndexedHeader 2 (hdr 12 11 1); mkIndexedHeader 1 (hdr 11 10 1)] in
  db_view (db_stage c store) !! 1 = Some (hdr 21 10 1) /\
  db_view (db_stage c store) !! 2 = None.
Proof.
  intros c. destruct (sqlite_stage_refines c store store_rows_ok) as (_ & _ & _ & Hadd).
  split; [|by vm_compute]. apply (Hadd ltac:(apply NoDup_singleton) (mkIndexedHeader 1 (hdr 21 10 1))).
  by left.
Defined.

Lemma sqlite_failed_write_drops_staged_witness :
  let s := db_stage (Connected (mkIndexedHeader 3 (hdr 666 12 1))) store in
  size (accepted s) = 2%nat /\ accepted (db_write s).2 = ∅.
Proof.
  intros s. split; [by vm_compute|].
  pose proof (sqlite_failed_write_drops_staged s (conn s) (conn s) 1 eq_refl
    ltac:(by vm_compute) ltac:(by vm_compute)) as Hw.
  destruct (db_write s) as [r s']. apply Hw.
Defined.
End StoreWitnesses.
