(* ===== verification/Chain.v ===== *)
(** * The chain: [src/chain/chain.rs]

    [Chain] joins the block tree, the checkpoints, the header store, the
    filter-header quorum, the scripts and the block queue.  Each method is a
    computation in the state-and-error monad [ST]; mutations made before an
    error are kept, as in the source.  The dialog is the trace of warnings,
    infos and events; logging is not modelled.

    The section variables are the environment: the store, the compile-time
    feature [filter-control], and which one-shot receivers are still alive. *)

From stdpp Require Import base numbers list gmap strings.
From Stdlib Require Import ZArith Lia.
From S2P Require Import Prelude Bitcoin ChainTypes Graph Checkpoints Batches BlockQueue Messages HeaderStore.

Definition REORG_LOOKBACK : Height := 7.
Definition FILTER_BASIC : Z := 0.
Definition CF_HEADER_BATCH_SIZE : Height := 1999.
Definition FILTER_BATCH_SIZE : Height := 999.

(** [src/chain/mod.rs] *)
Record FilterRequestState := mkRequestState {
  last_filter_request : option FilterRequest;
  last_filter_header_request : option FilterHeaderRequest;
  pending_batch : option (PeerId * CFHeaderBatch);
  agreement_state : FilterHeaderAgreements;
}.

Definition request_state_new (required : Z) : FilterRequestState :=
  {| last_filter_request := None; last_filter_header_request := None;
     pending_batch := None; agreement_state := agreements_new required |}.

Section Chain.
Context `{Bitcoin} {D : Type} `{HeaderStore D}.
Context (filter_control : bool) (alive : ChannelId -> bool).

Record Chain := mkChain {
  header_chain : BlockTree;
  request_state : FilterRequestState;
  ch_checkpoints : HeaderCheckpoints;
  ch_network : Network;
  db : D;
  heights : HeightMonitor;
  scripts : gset ScriptBuf;
  block_queue : BlockQueue;
  dialog : list Output;
}.

(** [Tip::from] of the anchor, and an empty tree on it. *)
Definition chain_new (n : Network) (s : gset ScriptBuf) (anchor : HeaderCheckpoint)
    (cps : HeaderCheckpoints) (d : list Output) (monitor : HeightMonitor) (store : D)
    (quorum_required : Z) (now : Instant) : Chain :=
  {| header_chain := tree_new (from_checkpoint (cp_height anchor) (cp_hash anchor)) n;
     request_state := request_state_new quorum_required;
     ch_checkpoints := cps; ch_network := n; db := store; heights := monitor;
     scripts := s; block_queue := block_queue_new now; dialog := d |}.

(** ** Field updates *)

Definition set_tree (t : BlockTree) (c : Chain) : Chain :=
  {| header_chain := t; request_state := request_state c; ch_checkpoints := ch_checkpoints c;
     ch_network := ch_network c; db := db c; heights := heights c; scripts := scripts c;
     block_queue := block_queue c; dialog := dialog c |}.

Definition set_request_state (r : FilterRequestState) (c : Chain) : Chain :=
  {| header_chain := header_chain c; request_state := r; ch_checkpoints := ch_checkpoints c;
     ch_network := ch_network c; db := db c; heights := heights c; scripts := scripts c;
     block_queue := block_queue c; dialog := dialog c |}.

Definition set_checkpoints (cps : HeaderCheckpoints) (c : Chain) : Chain :=
  {| header_chain := header_chain c; request_state := request_state c; ch_checkpoints := cps;
     ch_network := ch_network c; db := db c; heights := heights c; scripts := scripts c;
     block_queue := block_queue c; dialog := dialog c |}.

Definition set_db (d : D) (c : Chain) : Chain :=
  {| header_chain := header_chain c; request_state := request_state c;
     ch_checkpoints := ch_checkpoints c; ch_network := ch_network c; db := d;
     heights := heights c; scripts := scripts c; block_queue := block_queue c;
     dialog := dialog c |}.

Definition set_scripts (s : gset ScriptBuf) (c : Chain) : Chain :=
  {| header_chain := header_chain c; request_state := request_state c;
     ch_checkpoints := ch_checkpoints c; ch_network := ch_network c; db := db c;
     heights := heights c; scripts := s; block_queue := block_queue c; dialog := dialog c |}.

Definition set_block_queue (q : BlockQueue) (c : Chain) : Chain :=
  {| header_chain := header_chain c; request_state := request_state c;
     ch_checkpoints := ch_checkpoints c; ch_network := ch_network c; db := db c;
     heights := heights c; scripts := scripts c; block_queue := q; dialog := dialog c |}.

(** [self.dialog.send_*] *)
Definition say (o : Output) (c : Chain) : Chain :=
  {| header_chain := header_chain c; request_state := request_state c;
     ch_checkpoints := ch_checkpoints c; ch_network := ch_network c; db := db c;
     heights := heights c; scripts := scripts c; block_queue := block_queue c;
     dialog := dialog c ++ [o] |}.

Definition with_pending (p : option (PeerId * CFHeaderBatch)) (r : FilterRequestState)
  : FilterRequestState :=
  {| last_filter_request := last_filter_request r;
     last_filter_header_request := last_filter_header_request r;
     pending_batch := p; agreement_state := agreement_state r |}.

Definition with_agreements (a : FilterHeaderAgreements) (r : FilterRequestState)
  : FilterRequestState :=
  {| last_filter_request := last_filter_request r;
     last_filter_header_request := last_filter_header_request r;
     pending_batch := pending_batch r; agreement_state := a |}.

Definition with_header_request (q : option FilterHeaderRequest) (r : FilterRequestState)
  : FilterRequestState :=
  {| last_filter_request := last_filter_request r; last_filter_header_request := q;
     pending_batch := pending_batch r; agreement_state := agreement_state r |}.

Definition with_filter_request (q : option FilterRequest) (r : FilterRequestState)
  : FilterRequestState :=
  {| last_filter_request := q; last_filter_header_request := last_filter_header_request r;
     pending_batch := pending_batch r; agreement_state := agreement_state r |}.

(** [self.header_chain.accept_header(header)] *)
Definition accept {E} (hdr : Header) : ST Chain E AcceptHeaderChanges :=
  st_run (fun c => let '(r, t) := accept_header (header_chain c) hdr in (r, set_tree t c)).

(** ** Queries *)

Definition last_ten (c : Chain) : gmap Height Header :=
  list_to_map ((fun x => (ih_height x, ih_header x)) <$>
    reverse (take 10 (iter_headers (header_chain c)))).

Definition is_synced (c : Chain) : bool :=
  match hm_max (heights c) with
  | Some peer_max => peer_max <=? tree_height (header_chain c)
  | None => false
  end.

Definition is_cf_headers_synced (c : Chain) : bool := filter_headers_synced (header_chain c).

Definition is_filters_synced (c : Chain) : bool := filters_synced (header_chain c).

Definition block_queue_empty (c : Chain) : bool := queue_complete (block_queue c).

(** ** Loading headers *)

(** [db.header_at(height).await.ok().flatten()], and the tree restarted there. *)
Definition restart_at {E} (height : Height) : ST Chain E () :=
  st_modify (fun c =>
    let '(r, d) := store_header_at height (db c) in
    let c' := set_db d c in
    match r with
    | inr (Some hdr) => set_tree (from_header height hdr (ch_network c)) c'
    | _ => c'
    end).

(** The body of the loop of [load_headers]. *)
Definition load_one (height : Height) (hdr : Header)
  : ST Chain (HeaderPersistenceError store_error) () :=
  changes ← accept hdr;
  match changes with
  | Accepted connected_at =>
      if decide (height ≠ ih_height connected_at) then
        st_modify (say (SendWarning CorruptedHeaders));;
        st_fail HeadersDoNotLink
      else
        st_modify (fun c =>
          match checkpoints_next (ch_checkpoints c) with
          | Some checkpoint =>
              if block_hash (ih_header connected_at) =? cp_hash checkpoint
              then set_checkpoints (checkpoints_advance (ch_checkpoints c)) c
              else c
          | None => c
          end)
  | Rejected (UnknownPrevHash _) => st_fail CannotLocateHistory
  | _ => mret ()
  end.

Fixpoint load_loop (l : list (Height * Header))
  : ST Chain (HeaderPersistenceError store_error) () :=
  match l with
  | [] => mret ()
  | (height, hdr) :: l' => load_one height hdr;; load_loop l'
  end.

Definition load_headers : ST Chain (HeaderPersistenceError store_error) () :=
  scan_height ← st_get (fun c => tree_height (header_chain c));
  network ← st_get ch_network;
  let last_adjustment := last_epoch_start scan_height network in
  let reorg := u32_saturating_sub scan_height REORG_LOOKBACK in
  let min_interesting_height := Z.min last_adjustment reorg in
  let max_interesting_height := Z.max last_adjustment reorg in
  restart_at max_interesting_height;;
  restart_at min_interesting_height;;
  from ← st_get (fun c => increment (tree_height (header_chain c)));
  loaded ← st_run (fun c =>
    let '(r, d) := store_load (Included from) Unbounded (db c) in (r, set_db d c));
  match loaded with
  | inl e => st_fail (Database e)
  | inr l =>
      load_loop l;;
      st_modify (fun c => set_tree (assume_checked_to (header_chain c) scan_height) c)
  end.

(** ** Syncing headers *)

Definition sanity_check (b : HeadersBatch) : ST Chain HeaderSyncError () :=
  network ← st_get ch_network;
  st_guard (connected b) HeadersNotConnected;;
  st_guard (individually_valid_pow b) InvalidHeaderWork;;
  st_guard (bits_adhere_transition network b) InvalidBits.

Definition clear_compact_filter_queue (c : Chain) : Chain :=
  let r := request_state c in
  set_request_state
    (with_pending None (with_header_request None
       (with_agreements (reset_agreements (agreement_state r)) r))) c.

Definition stage (changes : BlockHeaderChanges) (c : Chain) : Chain :=
  set_db (store_stage changes (db c)) c.

(** The body of the loop of [sync_chain]; the result says whether the header
    reorganized the chain. *)
Definition sync_one (next_checkpoint : option HeaderCheckpoint) (hdr : Header)
  : ST Chain HeaderSyncError bool :=
  changes ← accept hdr;
  match changes with
  | Accepted connected_at =>
      st_modify (stage (Connected connected_at));;
      match next_checkpoint with
      | Some checkpoint =>
          if ih_height connected_at =? cp_height checkpoint then
            if block_hash (ih_header connected_at) =? cp_hash checkpoint then
              st_modify (fun c => set_checkpoints (checkpoints_advance (ch_checkpoints c)) c);;
              mret false
            else
              st_modify (say (SendWarning (UnexpectedSyncError
                "Unmatched checkpoint sent by a peer. Restarting header sync with new peers.")));;
              st_fail InvalidCheckpoint
          else mret false
      | None => mret false
      end
  | Duplicate => mret false
  | ExtendedFork _ =>
      match next_checkpoint with
      | Some _ =>
          st_modify (say (SendWarning (UnexpectedSyncError "Pre-checkpoint fork")));;
          mret false
      | None => mret false
      end
  | Reorganization acc dis =>
      let removed_hashes := (fun x => block_hash (ih_header x)) <$> dis in
      st_modify (fun c => set_block_queue (queue_remove removed_hashes (block_queue c)) c);;
      st_modify (stage (Reorganized acc dis));;
      st_modify (say (SendEvent (BlocksDisconnected (reverse dis))));;
      mret true
  | Rejected (InvalidPow _ _) => st_fail InvalidBits
  | Rejected (UnknownPrevHash _) => st_fail FloatingHeaders
  end.

Fixpoint sync_loop (next_checkpoint : option HeaderCheckpoint) (l : list Header)
    (reorg_occured : bool) : ST Chain HeaderSyncError bool :=
  match l with
  | [] => mret reorg_occured
  | hdr :: l' =>
      reorg ← sync_one next_checkpoint hdr;
      sync_loop next_checkpoint l' (reorg_occured || reorg)
  end.

(** [db.write().await], with the warning of a failure. *)
Definition write_headers (c : Chain) : Chain :=
  let '(r, d) := store_write (db c) in
  match r with
  | inl _ => say (SendWarning FailedPersistence) (set_db d c)
  | inr _ => set_db d c
  end.

Definition sync_chain (message : list Header) : ST Chain HeaderSyncError () :=
  match headers_batch_new message with
  | inl _ => st_fail EmptyMessage
  | inr header_batch =>
      known ← st_get (fun c => contains (header_chain c)
        (default 0 (block_hash <$> headers_batch_last header_batch)));
      if (known : bool) then mret ()
      else
        sanity_check header_batch;;
        next_checkpoint ← st_get (fun c => checkpoints_next (ch_checkpoints c));
        reorg_occured ← sync_loop next_checkpoint (hb_batch header_batch) false;
        st_modify write_headers;;
        st_modify (fun c => if (reorg_occured : bool) then clear_compact_filter_queue c else c)
  end.

(** ** Filter headers *)

(** The loop of [push_cf_header_batch], on the commitments from the last. *)
Fixpoint push_loop (l : list FilterCommitment) (curr : BlockHash) (t : BlockTree) : BlockTree :=
  match l with
  | [] => t
  | commitment :: l' =>
      let t' := set_commitment t commitment curr in
      match header_at_hash t' curr with
      | Some hdr => push_loop l' (prev_blockhash hdr) t'
      | None => t'
      end
  end.

Definition push_cf_header_batch (batch : CFHeaderBatch) (stop : BlockHash) (c : Chain) : Chain :=
  set_tree (push_loop (reverse (take_inner batch).1) stop (header_chain c)) c.

Definition update_request (f : FilterRequestState -> FilterRequestState) (c : Chain) : Chain :=
  set_request_state (f (request_state c)) c.

Definition agree (r : FilterRequestState) : FilterRequestState :=
  with_agreements (got_agreement (agreement_state r)) r.

Definition disagree (r : FilterRequestState) : FilterRequestState :=
  with_agreements (reset_agreements (agreement_state r)) r.

(** What both arms of the final [match] of [sync_cf_headers] do after an
    agreement; [id] is the peer the batch is kept for. *)
Definition count_agreement (id : PeerId) (batch : CFHeaderBatch) (stop : BlockHash)
  : ST Chain CFHeaderSyncError CFHeaderChanges :=
  st_modify (update_request agree);;
  enough ← st_get (fun c => enough_agree (agreement_state (request_state c)));
  if (enough : bool) then
    st_modify (update_request disagree);;
    st_modify (push_cf_header_batch batch stop);;
    mret Extended
  else
    st_modify (update_request (with_pending (Some (id, batch))));;
    mret AddedToQueue.

(** An older message whose previous header is already committed. *)
Definition already_committed (t : BlockTree) (prev : FilterHeader) : bool :=
  existsb (fun commit => fc_header commit =? prev) (omap filter_commitment (iter_data t)).

(** The alignment checks: the length of the batch and the requested start. *)
Definition check_alignment (request : FilterHeaderRequest) (batch : CFHeaderBatch)
  : ST Chain CFHeaderSyncError () :=
  st_guard (fhr_stop_hash request =? stop_hash batch) CFUnrequestedStophash;;
  height ← st_get (fun c => height_of_hash (header_chain c) (stop_hash batch));
  height_of_stop_hash ← st_ok_or height CFUnknownStophash;
  offset ← st_ok_or (u32_checked_sub (cfheader_batch_len batch) 1) CFEmptyMessage;
  expected_start_height ← st_ok_or (u32_checked_sub height_of_stop_hash offset)
                            HeaderChainIndexOverflow;
  st_guard (expected_start_height =? fhr_start_height request) StartHeightMisalignment.

Definition take_pending (c : Chain) : option (PeerId * CFHeaderBatch) * Chain :=
  (pending_batch (request_state c), update_request (with_pending None) c).

(** The final [match] of [sync_cf_headers]. *)
Definition queue_batch (peer_id : PeerId) (batch : CFHeaderBatch) (stop : BlockHash)
  : ST Chain CFHeaderSyncError CFHeaderChanges :=
  taken ← st_run take_pending;
  match taken with
  | Some (id, pending) =>
      if peer_id =? id then mret AddedToQueue
      else if decide (pending ≠ batch) then
        st_modify (update_request (with_pending None));;
        st_modify (update_request disagree);;
        mret Conflict
      else count_agreement id batch stop
  | None => count_agreement peer_id batch stop
  end.

Definition sync_cf_headers (peer_id : PeerId) (cf_headers : CFHeaders)
  : ST Chain CFHeaderSyncError CFHeaderChanges :=
  let batch := cfheader_batch_new cf_headers in
  request ← st_get (fun c => last_filter_header_request (request_state c));
  request ← st_ok_or request UnexpectedCFHeaderMessage;
  old ← st_get (fun c => already_committed (header_chain c) (cfheader_batch_prev_header batch));
  match expected_prev_filter_header request with
  | Some expected =>
      if decide (expected ≠ cfheader_batch_prev_header batch) then
        if (old : bool) then mret AddedToQueue else st_fail PrevHeaderMismatch
      else
        check_alignment request batch;;
        queue_batch peer_id batch (fhr_stop_hash request)
  | None =>
      check_alignment request batch;;
      queue_batch peer_id batch (fhr_stop_hash request)
  end.

(** The loop of [next_cf_header_message]. *)
Fixpoint cf_cursor (l : list BlockNode) (last_unchecked : Height)
  : Height * option FilterHeader :=
  match l with
  | [] => (last_unchecked, None)
  | data :: l' =>
      match filter_commitment data with
      | Some commitment => (last_unchecked, Some (fc_header commitment))
      | None => cf_cursor l' (node_height data)
      end
  end.

Definition next_cf_header_message (c : Chain) : GetCFHeaders * Chain :=
  let t := header_chain c in
  let '(last_unchecked_cfheader, prev_header) := cf_cursor (iter_data t) (tree_height t) in
  let stop_hash_index := u32_add last_unchecked_cfheader CF_HEADER_BATCH_SIZE in
  let stop := default (tip_hash t) (block_hash_at_height t stop_hash_index) in
  (mkGetCFHeaders FILTER_BASIC last_unchecked_cfheader stop,
   update_request (with_header_request
     (Some (mkFilterHeaderRequest last_unchecked_cfheader stop prev_header))) c).

(** ** Filters *)

(** The loop of [next_filter_message]. *)
Fixpoint filter_cursor (l : list BlockNode) (last_unchecked : Height) : Height :=
  match l with
  | [] => last_unchecked
  | data :: l' =>
      if filter_checked data then last_unchecked else filter_cursor l' (node_height data)
  end.

Definition next_filter_message (c : Chain) : GetCFilters * Chain :=
  let t := header_chain c in
  let last_unchecked_filter := filter_cursor (iter_data t) (tree_height t) in
  let stop_hash_index := u32_add last_unchecked_filter FILTER_BATCH_SIZE in
  let stop := default (tip_hash t) (block_hash_at_height t stop_hash_index) in
  (mkGetCFilters FILTER_BASIC last_unchecked_filter stop,
   update_request (with_filter_request
     (Some (mkFilterRequest last_unchecked_filter stop))) c).

(** The two [cfg] branches of [sync_filter]: tell the client about the filter,
    or match it against the scripts and queue the block. *)
Definition report_filter (block : BlockHash) (f : Filter) : ST Chain CFilterSyncError () :=
  checked ← st_get (fun c => is_filter_checked (header_chain c) block);
  if negb checked then
    height ← st_get (fun c => height_of_hash (header_chain c) block);
    height ← st_ok_or height UnknownFilterHash;
    st_modify (say (SendEvent (IndexedFilterEvent (mkIndexedFilter height f))))
  else mret ().

Definition match_filter (block : BlockHash) (f : Filter) : ST Chain CFilterSyncError () :=
  skip ← st_get (fun c => queue_contains (block_queue c) block
                          || is_filter_checked (header_chain c) block);
  if (skip : bool) then mret ()
  else
    found ← st_get (fun c => contains_any f (elements (scripts c)));
    found ← st_ok_or found (FilterErr IORead);
    if (found : bool)
    then st_modify (fun c => set_block_queue (queue_add (request_new block) (block_queue c)) c)
    else mret ().

Definition sync_filter (filter_message : CFilter)
  : ST Chain CFilterSyncError (option GetCFilters) :=
  synced ← st_get is_filters_synced;
  if (synced : bool) then mret None
  else
    let block := cf_block_hash filter_message in
    let f := filter_new (cf_filter filter_message) block in
    expected ← st_get (fun c => tree_filter_commitment (header_chain c) block);
    match expected with
    | None => st_fail UnknownFilterHash
    | Some ref_hash =>
        st_guard (filter_hash f =? fc_filter_hash ref_hash) MisalignedFilterHash;;
        (if filter_control then report_filter block f else match_filter block f);;
        st_modify (fun c => set_tree (check_filter (header_chain c) block) c);;
        request ← st_get (fun c => last_filter_request (request_state c));
        request ← st_ok_or request UnrequestedStophash;
        if block =? fr_stop_hash request then
          synced ← st_get is_filters_synced;
          if negb synced then st_run next_filter_message ≫= fun m => mret (Some m)
          else mret None
        else mret None
    end.

(** ** Blocks *)

Definition next_block (now : Instant) (c : Chain) : option BlockHash * Chain :=
  let '(h, q) := queue_pop now (block_queue c) in (h, set_block_queue q c).

(** [sender.send(..)], with the warning when the receiver is gone. *)
Definition answer_block (channel : ChannelId) (r : FetchBlockError + IndexedBlock) (c : Chain)
  : Chain :=
  if alive channel then say (BlockToChannel channel r) c else say (SendWarning ChannelDropped) c.

Definition check_send_block (block : Block) : ST Chain BlockScanError () :=
  let hash := block_block_hash block in
  needed ← st_get (fun c => queue_need (block_queue c) hash);
  if negb needed then mret ()
  else
    height ← st_get (fun c => height_of_hash (header_chain c) hash);
    height ← st_ok_or height NoBlockHash;
    st_guard (check_merkle_root block) InvalidMerkleRoot;;
    sender ← st_run (fun c =>
      let '(s, q) := queue_receive hash (block_queue c) in (s, set_block_queue q c));
    match sender with
    | Some channel => st_modify (answer_block channel (inr (mkIndexedBlock height block)))
    | None => st_modify (say (SendEvent (BlockEvent (mkIndexedBlock height block))))
    end.

Definition put_script (script : ScriptBuf) (c : Chain) : Chain :=
  set_scripts ({[script]} ∪ scripts c) c.

Definition get_block (hash : BlockHash) (oneshot : ChannelId) (c : Chain) : Chain :=
  match height_of_hash (header_chain c) hash with
  | None => answer_block oneshot (inl UnknownHash) c
  | Some _ => set_block_queue (queue_add (from_block_request hash oneshot) (block_queue c)) c
  end.

(** ** Fetching headers *)

Definition fetch_header (height : Height)
  : ST Chain (HeaderPersistenceError store_error) (option Header) :=
  cached ← st_get (fun c => header_at_height (header_chain c) height);
  match cached with
  | Some hdr => mret (Some hdr)
  | None =>
      header_opt ← st_run (fun c =>
        let '(r, d) := store_header_at height (db c) in (r, set_db d c));
      match header_opt with
      | inl e => st_modify (say (SendWarning FailedPersistence));; st_fail (Database e)
      | inr o => mret o
      end
  end.

Definition fetch_header_range (start stop : Height)
  : ST Chain (HeaderPersistenceError store_error) (list (Height * Header)) :=
  range_opt ← st_run (fun c =>
    let '(r, d) := store_load (Included start) (Excluded stop) (db c) in (r, set_db d c));
  match range_opt with
  | inl e => st_modify (say (SendWarning FailedPersistence));; st_fail (Database e)
  | inr l => mret l
  end.

Definition clear_filters (c : Chain) : Chain := set_tree (reset_all_filters (header_chain c)) c.

Definition send_chain_update (c : Chain) : Chain :=
  let t := header_chain c in
  say (SendInfo (InfoProgress (mkProgress (total_filter_headers_synced t)
    (total_filters_synced t) (as_u32 (internal_chain_len t))))) c.
End Chain.

Arguments Chain {_} D.
