(* ===== verification/ChainFacts.v ===== *)
(** * Header sync keeps the store a mirror of the chain

    The contract of [HeaderStore] is used here, never its implementation: the
    store's view holds every header of the active chain at its height
    ([mirrors]), and every branch of [sync_chain] keeps it so, reorganizations
    and early returns included. *)

From stdpp Require Import base numbers list gmap sorting strings.
From Stdlib Require Import ZArith Lia.
From S2P Require Import Prelude Bitcoin ChainTypes Graph Walk GraphFacts Reorg ActiveChain FilterMarks TreeProperties.
From S2P Require Import Checkpoints Batches BlockQueue Messages HeaderStore Chain.

Definition mirrors (t : BlockTree) (m : gmap Height Header) : Prop :=
  forall x, x ∈ iter_headers t -> m !! ih_height x = Some (ih_header x).

Section ChainOfHeaders.
Context `{Bitcoin}.

(** ** The active chain has one block per height and per hash *)

Lemma sorted_heights_NoDup (l : list (BlockHash * BlockNode)) :
  StronglySorted above l -> NoDup (ih_height <$> ((fun x => indexed x.2) <$> l)).
Proof.
  induction 1 as [|x l _ IH Hall]; cbn; constructor; [|done].
  intros (y & Hy & (z & -> & Hz)%list_elem_of_fmap)%list_elem_of_fmap.
  rewrite Forall_forall in Hall. specialize (Hall z Hz). unfold above in Hall. cbn in Hy. lia.
Qed.

Lemma iter_headers_NoDup a b t : wf_tree a b t -> NoDup (ih_height <$> iter_headers t).
Proof.
  intros Hwf. destruct (active_walk _ _ _ Hwf) as [l Hc].
  rewrite (iter_headers_chain _ _ _ _ Hwf Hc). apply sorted_heights_NoDup.
  by eapply chain_from_sorted; [apply Hwf|].
Qed.

Lemma iter_headers_elem a b t x :
  wf_tree a b t -> x ∈ iter_headers t ->
  exists n, x = indexed n /\ headers t !! block_hash (ih_header x) = Some n /\
    ih_height x <= tip_height (active_tip t).
Proof.
  intros Hwf. destruct (active_walk _ _ _ Hwf) as [l Hc].
  rewrite (iter_headers_chain _ _ _ _ Hwf Hc). intros ([k n] & -> & Hin)%list_elem_of_fmap.
  pose proof (chain_from_lookup _ _ _ _ _ Hc Hin) as Hk. exists n. split; [done|].
  pose proof (wf_key _ _ _ (wt_headers _ _ _ Hwf) _ _ Hk) as Hkey. cbn. rewrite Hkey.
  split; [done|]. eapply (on_chain_bounds _ _ _ k); [done|]. by exists l.
Qed.

Lemma iter_headers_hash_inj a b t x y :
  wf_tree a b t -> x ∈ iter_headers t -> y ∈ iter_headers t ->
  block_hash (ih_header x) = block_hash (ih_header y) -> x = y.
Proof.
  intros Hwf Hx Hy Heq.
  destruct (iter_headers_elem _ _ _ _ Hwf Hx) as (n & -> & Hn & _).
  destruct (iter_headers_elem _ _ _ _ Hwf Hy) as (m & -> & Hm & _).
  congruence.
Qed.

(** ** Applying a reported change keeps the mirror *)

Definition reported (r : AcceptHeaderChanges) (m : gmap Height Header) : gmap Height Header :=
  match r with
  | Accepted x => apply_changes (Connected x) m
  | Reorganization acc dis => apply_changes (Reorganized acc dis) m
  | _ => m
  end.

Lemma mirrors_mono t m m' : m ⊆ m' -> mirrors t m -> mirrors t m'.
Proof. intros Hm Ht x Hx. eapply lookup_weaken; [by apply Ht|done]. Qed.

Section Step.
Context {a : BlockHash} {b lo : Height} {t t' : BlockTree} {h : Header} {r : AcceptHeaderChanges}.
Context (Hwf : wf_tree a b t) (Hok : header_ok a t h) (Hcan : canonical_ok lo t).
Context (Hlo : lo <= b + 1) (Hr : accept_header t h = (r, t')).
Context (Hle : tip_height (active_tip t) <= tip_height (active_tip t')).

Lemma accept_kept : wf_tree a b t' /\ canonical_ok lo t'.
Proof.
  pose proof (accept_header_spec _ _ _ _ Hwf Hok) as Hspec. rewrite Hr in Hspec.
  split; [by eapply accept_spec_wf|by eapply accept_spec_canonical].
Qed.

Lemma accept_mirrors m : mirrors t m -> mirrors t' (reported r m).
Proof.
  intros Hm. destruct accept_kept as [Hwf' _].
  pose proof (accept_header_spec _ _ _ _ Hwf Hok) as Hspec. rewrite Hr in Hspec. cbn in Hspec.
  pose proof (accept_spec_chain _ _ _ _ _ _ Hwf Hok Hspec) as Hch.
  destruct r as [x| |x|acc dis|e]; cbn [reported apply_changes].
  - destruct Hch as [Hx Hch]. intros y. rewrite Hch. intros [->|Hy]%elem_of_cons.
    + apply lookup_insert_eq.
    + pose proof (iter_headers_NoDup _ _ _ Hwf') as Hnd. rewrite Hch in Hnd.
      inversion Hnd as [|? ? Hnx _]; subst. rewrite lookup_insert_ne; [by apply Hm|].
      intros Heq. apply Hnx. rewrite Heq. by apply list_elem_of_fmap_2.
  - intros y. rewrite Hch. apply Hm.
  - intros y. rewrite Hch. apply Hm.
  - destruct (accept_spec_reorg _ _ _ _ _ _ _ _ Hwf Hok Hcan Hlo Hspec Hle)
      as [(common & Ht & Ht') _].
    pose proof (iter_headers_NoDup _ _ _ Hwf') as Hnd'. rewrite Ht', fmap_app in Hnd'.
    apply NoDup_app in Hnd' as (Hnda & Hdisj & _).
    intros y. rewrite Ht'. intros [Hy|Hy]%elem_of_app; [by apply insert_headers_nodup|].
    rewrite insert_headers_other.
    + apply map_lookup_filter_Some. assert (y ∈ iter_headers t) as Hyt
        by (rewrite Ht; apply elem_of_app; by right).
      split; [by apply Hm|]. cbn. intros (z & Hz & Hzd)%list_elem_of_fmap.
      assert (z ∈ iter_headers t) as Hzt by (rewrite Ht; apply elem_of_app; by left).
      pose proof (iter_headers_hash_inj _ _ _ _ _ Hwf Hyt Hzt Hz) as ->.
      pose proof (iter_headers_NoDup _ _ _ Hwf) as Hnd. rewrite Ht, fmap_app in Hnd.
      apply NoDup_app in Hnd as (_ & Hdd & _).
      by apply (Hdd (ih_height z)); apply list_elem_of_fmap_2.
    + intros Hin. apply (Hdisj _ Hin). by apply list_elem_of_fmap_2.
  - intros y. rewrite Hch. apply Hm.
Qed.
End Step.
End ChainOfHeaders.

(** ** The sync loop *)

Section Sync.
Context `{Bitcoin} {D : Type} `{HeaderStore D} `{!HeaderStoreLaws D}.

(** The headers of a message, as [accept_header] meets them one by one. *)
Fixpoint batch_ok (a : BlockHash) (t : BlockTree) (l : list Header) : Prop :=
  match l with
  | [] => True
  | h :: l' =>
      let t' := (accept_header t h).2 in
      header_ok a t h /\ tip_height (active_tip t) <= tip_height (active_tip t') /\ batch_ok a t' l'
  end.

Record chain_inv (a : BlockHash) (b lo : Height) (c : Chain D) : Prop := {
  ci_wf : wf_tree a b (header_chain c);
  ci_canonical : canonical_ok lo (header_chain c);
  ci_low : lo <= b + 1;
  ci_store : store_ok (db c);
  ci_mirror : mirrors (header_chain c) (store_view (db c));
}.

(** What staging the reported change does to the store. *)
Definition store_after (r : AcceptHeaderChanges) (d : D) : D :=
  match r with
  | Accepted x => store_stage (Connected x) d
  | Reorganization acc dis => store_stage (Reorganized acc dis) d
  | _ => d
  end.

(** [sync_one] changes the tree by [accept_header] and stages what it reports,
    whatever it returns. *)
Lemma sync_one_effect ncp hdr c r c' :
  sync_one ncp hdr c = (r, c') ->
  header_chain c' = (accept_header (header_chain c) hdr).2 /\
  db c' = store_after (accept_header (header_chain c) hdr).1 (db c) /\
  ch_network c' = ch_network c.
Proof.
  unfold sync_one, accept, st_run. intros Hs. st_cases Hs.
  { destruct (accept_header _ _); discriminate. }
  destruct (accept_header (header_chain c) hdr) as [ch t]. injection Hstep as <- <-. cbn [fst snd].
  destruct ch as [x| |x|acc dis|[w g|p]]; cbn [store_after].
  - st_reads Hs. destruct ncp as [cp|]; [|by injection Hs as _ <-].
    destruct (ih_height x =? cp_height cp); [|by injection Hs as _ <-].
    destruct (_ =? _); st_reads Hs; by injection Hs as _ <-.
  - by injection Hs as _ <-.
  - destruct ncp as [cp|]; [st_reads Hs|]; by injection Hs as _ <-.
  - do 3 st_reads Hs. by injection Hs as _ <-.
  - by injection Hs as _ <-.
  - by injection Hs as _ <-.
Qed.

Lemma store_after_mirrors a b lo c hdr :
  chain_inv a b lo c ->
  let '(r, t') := accept_header (header_chain c) hdr in
  header_ok a (header_chain c) hdr ->
  tip_height (active_tip (header_chain c)) <= tip_height (active_tip t') ->
  store_ok (store_after r (db c)) /\ mirrors t' (store_view (store_after r (db c))).
Proof.
  intros [Hwf Hcan Hlo Hst Hm]. destruct (accept_header (header_chain c) hdr) as [r t'] eqn:Hr.
  intros Hok Hle. pose proof (accept_mirrors Hwf Hok Hcan Hlo Hr Hle _ Hm) as Hm'.
  destruct r as [x| |x|acc dis|e]; cbn [store_after reported] in *; try done.
  - split; [by apply store_stage_ok|]. by eapply mirrors_mono; [apply store_stage_keeps|].
  - split; [by apply store_stage_ok|]. by eapply mirrors_mono; [apply store_stage_keeps|].
Qed.

Lemma sync_one_inv a b lo ncp hdr c r c' :
  chain_inv a b lo c -> header_ok a (header_chain c) hdr ->
  tip_height (active_tip (header_chain c)) <=
    tip_height (active_tip (accept_header (header_chain c) hdr).2) ->
  sync_one ncp hdr c = (r, c') -> chain_inv a b lo c'.
Proof.
  intros Hinv Hok Hle Hs. destruct (sync_one_effect _ _ _ _ _ Hs) as (Ht & Hdb & _).
  pose proof (store_after_mirrors _ _ _ _ hdr Hinv) as Hafter.
  destruct (accept_header (header_chain c) hdr) as [ch t'] eqn:Hr. cbn in *.
  destruct (Hafter Hok Hle) as [Hst Hm]. destruct Hinv as [Hwf Hcan Hlo _ _].
  destruct (accept_kept Hwf Hok Hcan Hr Hle). split; rewrite ?Ht, ?Hdb; done.
Qed.

Lemma sync_loop_inv a b lo ncp l : forall flag c r c',
  chain_inv a b lo c -> batch_ok a (header_chain c) l ->
  sync_loop ncp l flag c = (r, c') -> chain_inv a b lo c'.
Proof.
  induction l as [|hdr l IH]; intros flag c r c' Hinv Hok Hs; cbn [sync_loop] in Hs.
  - by injection Hs as _ <-.
  - destruct Hok as (Hh & Hle & Hl). st_cases Hs; [by eapply sync_one_inv|].
    eapply IH; [by eapply sync_one_inv|..|done].
    by destruct (sync_one_effect _ _ _ _ _ Hstep) as (-> & _ & _).
Qed.

(** Writing: the store is unchanged to the chain, or the client is warned. *)
Lemma write_headers_inv a b lo c :
  chain_inv a b lo c ->
  chain_inv a b lo (write_headers c) \/
  exists l, dialog (write_headers c) = l ++ [SendWarning FailedPersistence].
Proof.
  intros [Hwf Hcan Hlo Hst Hm]. unfold write_headers.
  destruct (store_write (db c)) as [[e|[]] d] eqn:Hw; [right; by eexists|left].
  destruct (store_write_law _ _ Hst Hw) as [Hst' Hv].
  split; cbn; [done..|]. by rewrite Hv.
Qed.

Lemma sync_chain_inv a b lo msg c r c' :
  chain_inv a b lo c -> batch_ok a (header_chain c) msg ->
  sync_chain msg c = (r, c') ->
  chain_inv a b lo c' \/ exists l, dialog c' = l ++ [SendWarning FailedPersistence].
Proof.
  intros Hinv Hok Hs. unfold sync_chain in Hs.
  destruct (headers_batch_new msg) as [e|hb] eqn:Hb; [left; by injection Hs as _ <-|].
  assert (hb_batch hb = msg) as Hbm
    by (unfold headers_batch_new in Hb; destruct msg; [done|by injection Hb as <-]).
  st_reads Hs. destruct (contains _ _); [left; by injection Hs as _ <-|].
  st_cases Hs.
  { unfold sanity_check in Hstep. left. st_reads Hstep.
    st_cases Hstep; [by apply st_guard_inv in Hstep0 as [-> _]|].
    apply st_guard_inv in Hstep0 as [-> _].
    st_cases Hstep; [by apply st_guard_inv in Hstep0 as [-> _]|].
    apply st_guard_inv in Hstep0 as [-> _]. by apply st_guard_inv in Hstep as [-> _]. }
  assert (s = c) as ->.
  { unfold sanity_check in Hstep. st_reads Hstep. do 2 (st_cases Hstep; [done|];
    apply st_guard_inv in Hstep0 as [-> _]). by apply st_guard_inv in Hstep as [-> _]. }
  st_reads Hs. st_cases Hs; [left; eapply sync_loop_inv; [done| |done]; by rewrite Hbm|].
  st_reads Hs. injection Hs as _ <-.
  assert (chain_inv a b lo s) as Hinv' by (eapply sync_loop_inv; [done| |done]; by rewrite Hbm).
  destruct (write_headers_inv _ _ _ _ Hinv') as [[]|[l Hl]].
  - left. destruct a1; [|done]. by split.
  - right. exists l. by destruct a1.
Qed.
End Sync.
