(* ===== verification/FilterSync.v ===== *)
(** * Filter headers and filters on the block tree

    What the filter half of [Chain] does to the tree: [push_loop] commits the
    batch block by block down from the stop hash, the cursors of the two
    request builders find the lowest unanswered block, and the stop hash they
    ask for is on the active chain. *)

From stdpp Require Import base numbers list gmap sorting strings.
From Stdlib Require Import ZArith Lia.
From S2P Require Import Prelude Bitcoin ChainTypes Graph Walk GraphFacts Reorg ActiveChain FilterMarks TreeProperties.
From S2P Require Import Checkpoints Batches BlockQueue Messages HeaderStore Chain ChainFacts.

Section FilterSync.
Context `{Bitcoin}.

(** ** Committing a batch *)

Lemma skeleton_commitment o n : skeleton (with_commitment o n) = skeleton n.
Proof. done. Qed.

Lemma push_loop_spec l : forall k w t,
  chain_from (headers t) k w -> NoDup w.*1 -> (length l <= length w)%nat ->
  let t' := push_loop l k t in
  (forall i q n cm, w !! i = Some (q, n) -> l !! i = Some cm ->
     headers t' !! q = Some (with_commitment (Some cm) n)) /\
  (forall q, q ∉ (take (length l) w).*1 -> headers t' !! q = headers t !! q).
Proof.
  induction l as [|cm l IH]; intros k w t Hc Hnd Hlen; cbn zeta.
  { split; [intros i q n cm _; by rewrite lookup_nil|done]. }
  inversion Hc as [? Hk|? n w' Hk Hc']; subst; cbn in Hlen; [lia|].
  inversion Hnd as [|? ? Hkw Hnd']; subst. cbn [fst] in Hkw.
  cbn [push_loop]. unfold header_at_hash. cbn [headers set_commitment with_headers].
  rewrite lookup_alter_eq, Hk. cbn [fmap option_fmap option_map].
  set (t1 := set_commitment t cm k).
  change (prev_blockhash (header (with_commitment (Some cm) n))) with (node_prev n).
  assert (headers t1 = <[k := with_commitment (Some cm) n]> (headers t)) as Ht1.
  { symmetry. by apply (insert_as_alter (with_commitment (Some cm))). }
  assert (chain_from (headers t1) (node_prev n) w') as Hc1.
  { rewrite Ht1. by eapply chain_from_set. }
  destruct (IH _ _ _ Hc1 Hnd' ltac:(lia)) as [Hset Hother]. split.
  - intros [|i] q m cm' Hq Hl; [|by eapply Hset].
    injection Hq as <- <-. injection Hl as <-. rewrite Hother.
    + by rewrite Ht1, lookup_insert_eq.
    + intros (p & Hin)%elem_of_fst. apply Hkw, elem_of_fst. exists p.
      apply list_elem_of_lookup_1 in Hin as [j Hj]. apply lookup_take_Some in Hj as [Hj _].
      by eapply list_elem_of_lookup_2.
  - intros q Hq. cbn [length take fmap list_fmap] in Hq.
    apply not_elem_of_cons in Hq as [Hqk Hq]. cbn in Hqk. rewrite Hother by done.
    rewrite Ht1. by rewrite lookup_insert_ne by congruence.
Qed.

(** Committing an aligned batch: the block at each height from the start to the
    stop hash gets the commitment at its offset, and nothing else changes. *)
Lemma push_aligned a b t stop n start (l : list FilterCommitment) :
  wf_tree a b t -> headers t !! stop = Some n -> b < start ->
  start = node_height n - (Z.of_nat (length l) - 1) ->
  let t' := push_loop (reverse l) stop t in
  (forall q m, on_chain (headers t) stop q m -> start <= node_height m ->
     exists cm, l !! Z.to_nat (node_height m - start) = Some cm /\
       headers t' !! q = Some (with_commitment (Some cm) m)) /\
  (forall q, ~ (exists m, on_chain (headers t) stop q m /\ start <= node_height m) ->
     headers t' !! q = headers t !! q).
Proof.
  intros Hwf Hn Hb Hstart t'. pose proof (wt_headers _ _ _ Hwf) as Hw.
  destruct (chain_from_exists Hw stop) as [w Hc].
  destruct (walk_heights _ _ _ _ _ _ Hw Hc Hn) as [Hlen Hh].
  pose proof (chain_from_NoDup Hw _ _ Hc) as Hnd.
  destruct (push_loop_spec (reverse l) stop w t Hc Hnd) as [Hset Hother];
    [rewrite length_reverse; lia|].
  fold t' in Hset, Hother. rewrite length_reverse in Hother. split.
  - intros q m (w' & Hc' & Hin) Hm. rewrite (chain_from_det _ _ _ _ Hc' Hc) in Hin.
    apply list_elem_of_lookup_1 in Hin as [i Hi]. pose proof (Hh _ _ Hi) as Hmi. cbn in Hmi.
    destruct (lookup_lt_is_Some_2 (reverse l) i) as [cm Hcm]; [rewrite length_reverse; lia|].
    exists cm. split; [|by eapply Hset].
    assert (i < length l)%nat by lia. rewrite reverse_lookup in Hcm by done.
    rewrite <- Hcm. f_equal. lia.
  - intros q Hq. apply Hother. intros (m & Hm)%elem_of_fst. apply Hq.
    apply list_elem_of_lookup_1 in Hm as [i Hi]. apply lookup_take_Some in Hi as [Hi Hil].
    exists m. split; [exists w; split; [done|by eapply list_elem_of_lookup_2]|].
    pose proof (Hh _ _ Hi) as Hmi. cbn in Hmi. lia.
Qed.

Lemma push_loop_skeleton l : forall k t, same_skeleton (headers (push_loop l k t)) (headers t).
Proof.
  induction l as [|cm l IH]; intros k t; [done|]. cbn [push_loop].
  assert (same_skeleton (headers (set_commitment t cm k)) (headers t)) as Hs
    by (by apply same_skeleton_alter).
  destruct (header_at_hash _ _); [|done]. by rewrite IH.
Qed.

(** ** The cursors *)

Lemma cf_cursor_spec l h :
  let '(start, prev) := cf_cursor l h in
  exists l1 l2, l = l1 ++ l2 /\ Forall (fun n => filter_commitment n = None) l1 /\
    start = default h (node_height <$> last l1) /\
    match l2 with
    | [] => prev = None
    | p :: _ => is_Some prev /\ prev = fc_header <$> filter_commitment p
    end.
Proof.
  revert h. induction l as [|n l IH]; intros h; cbn; [by exists [], []|].
  destruct (filter_commitment n) as [cm|] eqn:Hn.
  - exists [], (n :: l). by rewrite Hn.
  - specialize (IH (node_height n)). destruct (cf_cursor l (node_height n)) as [start prev].
    destruct IH as (l1 & l2 & -> & Hall & -> & Hp). exists (n :: l1), l2.
    split_and!; [done|by constructor| |done]. rewrite last_cons. by destruct (last l1).
Qed.

Lemma filter_cursor_spec l h :
  exists l1 l2, l = l1 ++ l2 /\ Forall (fun n => filter_checked n = false) l1 /\
    filter_cursor l h = default h (node_height <$> last l1) /\
    match l2 with [] => True | p :: _ => filter_checked p = true end.
Proof.
  revert h. induction l as [|n l IH]; intros h; cbn; [by exists [], []|].
  destruct (filter_checked n) eqn:Hn.
  - exists [], (n :: l). by rewrite Hn.
  - destruct (IH (node_height n)) as (l1 & l2 & -> & Hall & -> & Hp). exists (n :: l1), l2.
    split_and!; [done|by constructor| |done]. rewrite last_cons. by destruct (last l1).
Qed.

(** ** The stop hash of a request *)

Lemma stop_hash_spec a b lo t start size m :
  wf_tree a b t -> canonical_ok lo t -> m ∈ iter_data t -> node_height m = start ->
  0 <= size -> lo <= start + size -> is_u32 (start + size) ->
  let stop := default (tip_hash t) (block_hash_at_height t (u32_add start size)) in
  exists n, n ∈ iter_data t /\ block_hash (header n) = stop /\
    node_height n = Z.min (start + size) (tree_height t).
Proof.
  intros Hwf Hcan Hm Hstart Hsize Hlo Hu stop. subst stop. rewrite u32_add_small by done.
  pose proof Hm as [k Hon]%(on_chain_iter_data _ _ _ _ Hwf).
  pose proof (on_chain_bounds _ _ _ _ _ Hwf Hon) as Hbound.
  destruct (tip_stored _ _ _ _ _ Hwf (on_chain_lookup _ _ _ _ Hon)) as (n & Hn & Hnh).
  assert (n ∈ iter_data t) as Htip.
  { apply (on_chain_iter_data _ _ _ _ Hwf). exists (th (active_tip t)).
    destruct (active_walk _ _ _ Hwf) as [l Hc]. exists l. split; [done|].
    inversion Hc as [|? p l' Hp Hl]; subst; [congruence|].
    assert (p = n) as -> by congruence. by left. }
  pose proof (wf_key _ _ _ (wt_headers _ _ _ Hwf) _ _ Hn) as Hkey.
  unfold block_hash_at_height, tree_height. case_decide as Hd.
  - exists n. split_and!; [done|done|lia].
  - destruct (canonical_hashes t !! (start + size)) as [q|] eqn:Hq.
    + destruct (can_sound _ _ Hcan _ _ Hq) as (p & Hp & Hph). exists p.
      split_and!; [apply (on_chain_iter_data _ _ _ _ Hwf); by exists q| |].
      * by apply (wf_key _ _ _ (wt_headers _ _ _ Hwf)), (on_chain_lookup _ _ _ _ Hp).
      * pose proof (on_chain_bounds _ _ _ _ _ Hwf Hp). lia.
    + exists n. split_and!; [done|done|].
      destruct (Z.le_gt_cases (start + size) (tip_height (active_tip t))) as [Hle|Hgt]; [|lia].
      exfalso. destruct Hon as (l & Hc & Hin).
      destruct (chain_height_cover (wt_headers _ _ _ Hwf) _ _ _ (start + size) Hc Hn) as (x & p & Hx & Hp);
        [lia|].
      rewrite <- Hp, (can_complete _ _ Hcan x p) in Hq; [done|by exists l|lia].
Qed.
End FilterSync.
