(* ===== verification/ChainProperties.v ===== *)
(** * What the chain guarantees

    The properties of [src/chain/chain.rs]: header sync mirrors the active
    chain into the store, checkpoints are enforced, the filter-header quorum,
    what a committed batch means, what the next requests ask for, which filters
    are accepted and matched, and which blocks are delivered. *)

From stdpp Require Import base numbers list gmap sorting strings.
From Stdlib Require Import ZArith Lia.
From S2P Require Import Prelude Bitcoin ChainTypes Graph Walk GraphFacts Reorg ActiveChain FilterMarks TreeProperties.
From S2P Require Import Checkpoints Batches BlockQueue Messages HeaderStore Chain ChainFacts FilterSync.

Section ChainProperties.
Context `{Bitcoin} {D : Type} `{HeaderStore D}.
Implicit Types c : Chain D.


(** ** Checkpoints *)

Lemma sync_one_checkpoint cp hdr c r c' :
  sync_one (Some cp) hdr c = (r, c') ->
  (r = inl InvalidCheckpoint ->
     tip_height (active_tip (header_chain c')) = cp_height cp /\
     tip_hash (header_chain c') <> cp_hash cp) /\
  (forall x, (accept_header (header_chain c) hdr).1 = Accepted x -> ih_height x = cp_height cp ->
     r <> inl InvalidCheckpoint -> tip_hash (header_chain c') = cp_hash cp).
Proof.
  unfold sync_one, accept, st_run. intros Hs. st_cases Hs.
  { destruct (accept_header _ _); discriminate. }
  destruct (accept_header (header_chain c) hdr) as [ch t] eqn:Hacc. injection Hstep as <- <-.
  destruct ch as [x| |x|acc dis|[w g|p]].
  - assert (x = mkIndexedHeader (tip_height (active_tip t)) hdr /\ th (active_tip t) = block_hash hdr)
      as [-> Hth].
    { unfold accept_header in Hacc. case_decide.
      - unfold extend_tip in Hacc. destruct (pow_rejected _ hdr); [done|]. by injection Hacc as <- <-.
      - case_decide; [done|]. unfold open_fork, extend_fork in Hacc. repeat case_match; simplify_eq. }
    st_reads Hs. cbn [ih_height ih_header] in *.
    destruct (Z.eqb_spec (tip_height (active_tip t)) (cp_height cp)) as [Hh|Hh].
    + destruct (Z.eqb_spec (block_hash hdr) (cp_hash cp)) as [Hb|Hb]; st_reads Hs;
        injection Hs as <- <-; cbn; unfold tip_hash; split.
      * done.
      * intros y _ _ _. congruence.
      * intros _. split; [done|congruence].
      * by intros.
    + injection Hs as <- <-. split; [done|]. intros y [= <-] Hy. done.
  - injection Hs as <- <-. by split.
  - st_reads Hs. injection Hs as <- <-. by split.
  - do 3 st_reads Hs. injection Hs as <- <-. by split.
  - injection Hs as <- <-. by split.
  - injection Hs as <- <-. by split.
Qed.

Lemma sync_one_no_checkpoint hdr c c' : sync_one None hdr c <> (inl InvalidCheckpoint, c').
Proof.
  unfold sync_one, accept, st_run. intros Hs. st_cases Hs.
  { destruct (accept_header _ _); discriminate. }
  destruct a as [x| |x|acc dis|[w g|p]]; repeat st_reads Hs; discriminate.
Qed.

Lemma sync_loop_checkpoint cp l : forall flag c c',
  sync_loop cp l flag c = (inl InvalidCheckpoint, c') ->
  exists k, cp = Some k /\ tip_height (active_tip (header_chain c')) = cp_height k /\
    tip_hash (header_chain c') <> cp_hash k.
Proof.
  induction l as [|hdr l IH]; intros flag c c' Hs; cbn [sync_loop] in Hs; [discriminate|].
  st_cases Hs; [|by eapply IH]. subst e.
  destruct cp as [k|]; [|by apply sync_one_no_checkpoint in Hstep].
  exists k. split; [done|]. by apply (sync_one_checkpoint _ _ _ _ _ Hstep).
Qed.

(** A mismatched checkpoint is detected on the spot, but the mismatched
    header stays: when [sync_chain] returns [InvalidCheckpoint], the active tip
    is a header at the checkpoint's height whose hash is not the checkpoint's. *)
Theorem invalid_checkpoint_is_the_tip msg c c' :
  sync_chain msg c = (inl InvalidCheckpoint, c') ->
  exists k, checkpoints_next (ch_checkpoints c) = Some k /\
    tree_height (header_chain c') = cp_height k /\ tip_hash (header_chain c') <> cp_hash k.
Proof.
  unfold sync_chain. destruct (headers_batch_new msg) as [e|hb]; [discriminate|]. intros Hs.
  st_reads Hs. destruct (contains _ _); [discriminate|]. st_cases Hs.
  { exfalso. unfold sanity_check in Hstep. st_reads Hstep.
    st_cases Hstep; [by apply st_guard_inv in Hstep0 as [_ [[_ ?]|[_ ?]]]; simplify_eq|].
    st_cases Hstep; [by apply st_guard_inv in Hstep1 as [_ [[_ ?]|[_ ?]]]; simplify_eq|].
    by apply st_guard_inv in Hstep as [_ [[_ ?]|[_ ?]]]; simplify_eq. }
  assert (ch_checkpoints s = ch_checkpoints c) as <-.
  { unfold sanity_check in Hstep. st_reads Hstep. do 2 (st_cases Hstep; [done|];
    apply st_guard_inv in Hstep0 as [-> _]). by apply st_guard_inv in Hstep as [-> _]. }
  st_reads Hs. st_cases Hs; [|do 1 st_reads Hs; discriminate].
  subst e. destruct (sync_loop_checkpoint _ _ _ _ _ Hstep0) as (k & Hk & ?). eauto.
Qed.

(** ** The filter-header quorum *)

(** A message that passes the checks before the quorum. *)
Definition cf_aligned (c : Chain D) (m : CFHeaders) (request : FilterHeaderRequest) : Prop :=
  last_filter_header_request (request_state c) = Some request /\
  (expected_prev_filter_header request = None \/
   expected_prev_filter_header request = Some (previous_filter_header m)) /\
  fhr_stop_hash request = cfh_stop_hash m /\
  exists height, height_of_hash (header_chain c) (cfh_stop_hash m) = Some height /\
    let len := as_u32 (Z.of_nat (length (filter_hashes m))) in
    1 <= len /\ len - 1 <= height /\ fhr_start_height request = height - (len - 1).

Lemma batch_len m :
  cfheader_batch_len (cfheader_batch_new m) = as_u32 (Z.of_nat (length (filter_hashes m))).
Proof. unfold cfheader_batch_len. cbn. by rewrite commitments_length. Qed.

Lemma check_alignment_inv c m request r c' :
  check_alignment request (cfheader_batch_new m) c = (r, c') ->
  c' = c /\ (r = inr () ->
    fhr_stop_hash request = cfh_stop_hash m /\
    exists height, height_of_hash (header_chain c) (cfh_stop_hash m) = Some height /\
      let len := as_u32 (Z.of_nat (length (filter_hashes m))) in
      1 <= len /\ len - 1 <= height /\ fhr_start_height request = height - (len - 1)).
Proof.
  unfold check_alignment. rewrite batch_len. cbn [stop_hash cfheader_batch_new]. intros Hs.
  st_cases Hs; [by apply st_guard_inv in Hstep as [-> _]|].
  apply st_guard_inv in Hstep as [-> [[Hstop%Z.eqb_eq _]|[_ ?]]]; [|discriminate].
  st_reads Hs. st_cases Hs; [by apply st_ok_or_inv in Hstep as [-> _]|].
  apply st_ok_or_inv in Hstep as [-> [(height & Hh & ?)|[_ ?]]]; [|discriminate]. simplify_eq.
  st_cases Hs; [by apply st_ok_or_inv in Hstep as [-> _]|].
  apply st_ok_or_inv in Hstep as [-> [(off & Hoff & ?)|[_ ?]]]; [|discriminate]. simplify_eq.
  st_cases Hs; [by apply st_ok_or_inv in Hstep as [-> _]|].
  apply st_ok_or_inv in Hstep as [-> [(st & Hst & ?)|[_ ?]]]; [|discriminate]. simplify_eq.
  apply u32_checked_sub_Some in Hoff as [Hlen ->], Hst as [Hle ->].
  apply st_guard_inv in Hs as [-> [[Heq%Z.eqb_eq ->]|[_ ->]]]; (split; [done|]); [|done].
  intros _. split; [done|]. exists height. split; [done|]. cbn. lia.
Qed.

Lemma sync_cf_headers_inv p m c r c' :
  sync_cf_headers p m c = (r, c') ->
  (c' = c /\ (r = inr AddedToQueue \/ exists e, r = inl e)) \/
  exists request, cf_aligned c m request /\
    queue_batch p (cfheader_batch_new m) (fhr_stop_hash request) c = (r, c').
Proof.
  unfold sync_cf_headers. intros Hs. st_reads Hs.
  st_cases Hs; [apply st_ok_or_inv in Hstep as [-> _]; left; by eauto|].
  apply st_ok_or_inv in Hstep as [-> [(request & Hreq & ?)|[_ ?]]]; [|discriminate]. simplify_eq.
  st_reads Hs. unfold cfheader_batch_prev_header in Hs. cbn [prev_filter_header cfheader_batch_new] in Hs.
  destruct (expected_prev_filter_header request) as [expected|] eqn:Hexp.
  - case_decide as Hne.
    + left. destruct (already_committed _ _); injection Hs as <- <-; by eauto.
    + st_cases Hs; [left; split; [by eapply check_alignment_inv|by eauto]|].
      destruct (check_alignment_inv _ _ _ _ _ Hstep) as [-> Hal]. destruct a.
      right. exists request. split; [|done]. specialize (Hal eq_refl) as [? ?].
      split_and!; [done|right; by rewrite Hexp, Hne|done|done].
  - st_cases Hs; [left; split; [by eapply check_alignment_inv|by eauto]|].
    destruct (check_alignment_inv _ _ _ _ _ Hstep) as [-> Hal]. destruct a.
    right. exists request. split; [|done]. specialize (Hal eq_refl) as [? ?].
    split_and!; [done|by left|done|done].
Qed.

(** The count after one more agreement. *)
Definition next_count (c : Chain D) : Z := (current (agreement_state (request_state c)) + 1) mod 256.

Definition quorum (c : Chain D) : Z := required (agreement_state (request_state c)).

(** Is the batch counted: nothing is pending, or the same batch of another peer? *)
Definition counts (p : PeerId) (batch : CFHeaderBatch) (c : Chain D) : Prop :=
  match pending_batch (request_state c) with
  | None => True
  | Some (id, pending) => id <> p /\ pending = batch
  end.

Lemma queue_batch_inv p batch stop c r c' :
  queue_batch p batch stop c = (r, c') ->
  (counts p batch c /\ quorum c <= next_count c /\ r = inr Extended /\
     header_chain c' = push_loop (reverse (inner batch)) stop (header_chain c) /\
     pending_batch (request_state c') = None /\
     current (agreement_state (request_state c')) = 0) \/
  (counts p batch c /\ next_count c < quorum c /\ r = inr AddedToQueue /\
     header_chain c' = header_chain c /\
     (exists id, pending_batch (request_state c') = Some (id, batch)) /\
     current (agreement_state (request_state c')) = next_count c) \/
  ((exists id b, pending_batch (request_state c) = Some (id, b) /\ id <> p /\ b <> batch) /\
     r = inr Conflict /\ header_chain c' = header_chain c /\
     pending_batch (request_state c') = None /\
     current (agreement_state (request_state c')) = 0) \/
  ((exists b, pending_batch (request_state c) = Some (p, b)) /\
     r = inr AddedToQueue /\ header_chain c' = header_chain c /\
     pending_batch (request_state c') = None /\
     current (agreement_state (request_state c')) = current (agreement_state (request_state c))).
Proof.
  assert (forall id c0 r0 c0',
    pending_batch (request_state c0) = None -> header_chain c0 = header_chain c ->
    agreement_state (request_state c0) = agreement_state (request_state c) ->
    count_agreement id batch stop c0 = (r0, c0') ->
    (quorum c <= next_count c /\ r0 = inr Extended /\
       header_chain c0' = push_loop (reverse (inner batch)) stop (header_chain c) /\
       pending_batch (request_state c0') = None /\
       current (agreement_state (request_state c0')) = 0) \/
    (next_count c < quorum c /\ r0 = inr AddedToQueue /\ header_chain c0' = header_chain c /\
       (exists id, pending_batch (request_state c0') = Some (id, batch)) /\
       current (agreement_state (request_state c0')) = next_count c)) as Hcount.
  { intros id c0 r0 c0' Hp Ht Ha Hs. unfold count_agreement in Hs. do 2 st_reads Hs.
    cbn in Hs. unfold quorum, next_count, enough_agree in *. rewrite Ha in Hs. cbn in Hs.
    destruct (Z.leb_spec (required (agreement_state (request_state c)))
      ((current (agreement_state (request_state c)) + 1) mod 256)) as [Hle|Hlt].
    - left. do 2 st_reads Hs. injection Hs as <- <-. cbn. by rewrite Ht.
    - right. st_reads Hs. injection Hs as <- <-. cbn. rewrite Ht, Ha. eauto 10. }
  unfold queue_batch, counts. intros Hs. st_reads Hs.
  destruct (pending_batch (request_state c)) as [[id pending]|] eqn:Hp.
  - destruct (Z.eqb_spec p id) as [->|Hne].
    + injection Hs as <- <-. right. right. right. cbn. eauto 10.
    + case_decide as Hb.
      * do 2 st_reads Hs. injection Hs as <- <-. right. right. left. cbn.
        split_and!; try done. exists id, pending. split_and!; [done|by apply not_eq_sym|done].
      * destruct (Hcount _ (update_request (with_pending None) c) _ _ eq_refl eq_refl eq_refl Hs) as [?|?]; [left|right; left];
          (split; [|done]); (split; [by apply not_eq_sym|done]).
  - destruct (Hcount _ (update_request (with_pending None) c) _ _ eq_refl eq_refl eq_refl Hs) as [?|?]; [left|right; left]; done.
Qed.

(** C16: the filter-header quorum: a message extends the filter-header chain only
    if it answers the request in progress and its count reaches the quorum; a
    different batch of another peer is a conflict; extending and conflicting
    both restart the count, and anything but an extension leaves the block
    tree alone. *)
Theorem cf_header_quorum p m c r c' :
  sync_cf_headers p m c = (r, c') ->
  (r = inr Extended ->
     (exists request, cf_aligned c m request) /\ counts p (cfheader_batch_new m) c /\
     quorum c <= next_count c) /\
  (r = inr Conflict ->
     exists id b, pending_batch (request_state c) = Some (id, b) /\ id <> p /\
       b <> cfheader_batch_new m) /\
  (r = inr Extended \/ r = inr Conflict ->
     pending_batch (request_state c') = None /\
     current (agreement_state (request_state c')) = 0) /\
  (r <> inr Extended -> header_chain c' = header_chain c).
Proof.
  intros Hs. destruct (sync_cf_headers_inv _ _ _ _ _ Hs) as [[-> Hr]|(request & Hal & Hq)].
  - destruct Hr as [->|[e ->]]; split_and!; try done; by intros [?|?].
  - destruct (queue_batch_inv _ _ _ _ _ _ Hq) as
      [(Hc & Hle & -> & Ht & Hp & Hcur)|[(Hc & Hlt & -> & Ht & _ & _)
      |[(Hex & -> & Ht & Hp & Hcur)|(Hex & -> & Ht & Hp & Hcur)]]].
    + split_and!; try done. intros _. eauto.
    + split_and!; try done. by intros [?|?].
    + split_and!; try done.
    + split_and!; try done. by intros [?|?].
Qed.

(** C12: a batch that extends the filter-header chain gives the block at each
    height from the requested start to the stop hash exactly the commitment at
    its offset in the message, and touches no other block. *)
Theorem cf_headers_committed a b p m c c' request :
  wf_tree a b (header_chain c) -> Z.of_nat (length (filter_hashes m)) < u32_modulus ->
  last_filter_header_request (request_state c) = Some request -> b < fhr_start_height request ->
  sync_cf_headers p m c = (inr Extended, c') ->
  let start := fhr_start_height request in
  (forall q n, on_chain (headers (header_chain c)) (cfh_stop_hash m) q n -> start <= node_height n ->
     exists cm, inner (cfheader_batch_new m) !! Z.to_nat (node_height n - start) = Some cm /\
       headers (header_chain c') !! q = Some (with_commitment (Some cm) n)) /\
  (forall q, ~ (exists n, on_chain (headers (header_chain c)) (cfh_stop_hash m) q n /\
                 start <= node_height n) ->
     headers (header_chain c') !! q = headers (header_chain c) !! q).
Proof.
  intros Hwf Hsmall Hreq Hb Hs start.
  destruct (sync_cf_headers_inv _ _ _ _ _ Hs) as
    [[_ [?|[? ?]]]|(req & (Hreq' & _ & Hstop & height & Hh & Hlen) & Hq)]; try discriminate.
  assert (req = request) as -> by congruence.
  destruct (queue_batch_inv _ _ _ _ _ _ Hq) as
    [(_ & _ & _ & -> & _)|[(_ & _ & ? & _)|[(_ & ? & _)|(_ & ? & _)]]]; try discriminate.
  rewrite Hstop. unfold height_of_hash in Hh. apply fmap_Some in Hh as (n & Hn & ->).
  eapply push_aligned; [exact Hwf|exact Hn|exact Hb|].
  unfold as_u32 in Hlen. rewrite Z.mod_small in Hlen by lia. cbn [inner cfheader_batch_new].
  rewrite commitments_length. unfold start. lia.
Qed.

(** ** The next requests *)

(** The next filter-header request starts at the lowest block of the
    uncommitted top of the active chain and expects the filter header of the
    block below it, if there is one; it stops on the active chain, at most
    1999 blocks further up; the request is remembered as it is sent. *)
Theorem next_cf_header_message_correct a b c :
  wf_tree a b (header_chain c) -> canonical_ok (b + 1) (header_chain c) ->
  is_u32 (tree_height (header_chain c) + CF_HEADER_BATCH_SIZE) -> -1 <= b ->
  (exists n l, iter_data (header_chain c) = n :: l /\ filter_commitment n = None) ->
  let '(m, c') := next_cf_header_message c in
  (exists top rest n, iter_data (header_chain c) = top ++ rest /\ last top = Some n /\
     Forall (fun n => filter_commitment n = None) top /\
     gcfh_start_height m = node_height n /\
     exists prev, last_filter_header_request (request_state c') =
         Some (mkFilterHeaderRequest (gcfh_start_height m) (gcfh_stop_hash m) prev) /\
       match rest with
       | [] => prev = None
       | p :: _ => is_Some prev /\ prev = fc_header <$> filter_commitment p
       end) /\
  (exists s, s ∈ iter_data (header_chain c) /\ block_hash (header s) = gcfh_stop_hash m /\
     node_height s = Z.min (gcfh_start_height m + 1999) (tree_height (header_chain c))) /\
  header_chain c' = header_chain c.
Proof.
  intros Hwf Hcan Hu Hb (n0 & l0 & Hit & Hnone). unfold next_cf_header_message.
  pose proof (cf_cursor_spec (iter_data (header_chain c)) (tree_height (header_chain c))) as Hcur.
  destruct (cf_cursor _ _) as [start prev]. destruct Hcur as (top & rest & Hsplit & Hall & Hstart & Hprev).
  cbn [gcfh_start_height gcfh_stop_hash].
  assert (exists n, last top = Some n) as [n Hn].
  { destruct top as [|x top]; [|by apply last_is_Some].
    rewrite Hit in Hsplit. cbn in Hsplit. subst rest. exfalso.
    destruct Hprev as [[? ?] Hp]. rewrite Hnone in Hp. cbn in Hp. congruence. }
  rewrite Hn in Hstart. cbn [default from_option id fmap option_fmap option_map] in Hstart.
  assert (n ∈ iter_data (header_chain c)) as Hin.
  { rewrite Hsplit. apply elem_of_app. left. by apply last_Some_elem_of. }
  split_and!; [|..|done].
  - exists top, rest, n. split_and!; try done. exists prev. split; [done|by destruct rest].
  - pose proof Hin as [k Hon]%(on_chain_iter_data _ _ _ _ Hwf).
    pose proof (on_chain_bounds _ _ _ _ _ Hwf Hon). unfold tree_height, is_u32 in *.
    eapply stop_hash_spec; try done; unfold CF_HEADER_BATCH_SIZE, is_u32 in *; lia.
Qed.

(** The next filter request starts at the lowest block of the unchecked top
    of the active chain, right above a checked block, and stops on the active
    chain at most 999 blocks further up. *)
Theorem next_filter_message_correct a b c :
  wf_tree a b (header_chain c) -> canonical_ok (b + 1) (header_chain c) ->
  is_u32 (tree_height (header_chain c) + FILTER_BATCH_SIZE) -> -1 <= b ->
  (exists n l, iter_data (header_chain c) = n :: l /\ filter_checked n = false) ->
  let '(m, c') := next_filter_message c in
  (exists top rest n, iter_data (header_chain c) = top ++ rest /\ last top = Some n /\
     Forall (fun n => filter_checked n = false) top /\
     gcf_start_height m = node_height n /\
     match rest with [] => True | p :: _ => filter_checked p = true end) /\
  (exists s, s ∈ iter_data (header_chain c) /\ block_hash (header s) = gcf_stop_hash m /\
     node_height s = Z.min (gcf_start_height m + 999) (tree_height (header_chain c))) /\
  last_filter_request (request_state c') =
    Some (mkFilterRequest (gcf_start_height m) (gcf_stop_hash m)).
Proof.
  intros Hwf Hcan Hu Hb (n0 & l0 & Hit & Hun). unfold next_filter_message.
  destruct (filter_cursor_spec (iter_data (header_chain c)) (tree_height (header_chain c)))
    as (top & rest & Hsplit & Hall & Hstart & Hrest).
  cbn [gcf_start_height gcf_stop_hash].
  assert (exists n, last top = Some n) as [n Hn].
  { destruct top as [|x top]; [|by apply last_is_Some].
    rewrite Hit in Hsplit. cbn in Hsplit. subst rest. congruence. }
  rewrite Hn in Hstart. cbn [default from_option id fmap option_fmap option_map] in Hstart. rewrite Hstart.
  assert (n ∈ iter_data (header_chain c)) as Hin.
  { rewrite Hsplit. apply elem_of_app. left. by apply last_Some_elem_of. }
  split_and!; [|..|done].
  - exists top, rest, n. split_and!; done.
  - pose proof Hin as [k Hon]%(on_chain_iter_data _ _ _ _ Hwf).
    pose proof (on_chain_bounds _ _ _ _ _ Hwf Hon). unfold tree_height, is_u32 in *.
    eapply stop_hash_spec; try done; unfold FILTER_BATCH_SIZE, is_u32 in *; lia.
Qed.

(** ** Filters *)

Lemma match_filter_inv block f c r c' :
  match_filter block f c = (r, c') ->
  header_chain c' = header_chain c /\ request_state c' = request_state c /\
  dialog c' = dialog c /\
  (r = inr () ->
     (is_filter_checked (header_chain c) block = false ->
      contains_any f (elements (scripts c)) = Some true ->
      block ∈ pending_hashes (block_queue c')) /\
     (forall h, h ∈ pending_hashes (block_queue c) -> h ∈ pending_hashes (block_queue c'))) /\
  (forall e, r = inl e -> c' = c /\ e = FilterErr IORead).
Proof.
  unfold match_filter. intros Hs. st_reads Hs.
  destruct (queue_contains (block_queue c) block) eqn:Hq; cbn [orb] in Hs.
  { injection Hs as <- <-. split_and!; try done.
    intros _. split; [|done]. intros _ _. by apply queue_contains_spec. }
  destruct (is_filter_checked (header_chain c) block) eqn:Hch.
  { injection Hs as <- <-. by split_and!. }
  st_reads Hs. st_cases Hs.
  { apply st_ok_or_inv in Hstep as [-> [(? & _ & ?)|[_ ?]]]; [discriminate|]. simplify_eq.
    split_and!; try done. intros e [= ->]. by split. }
  apply st_ok_or_inv in Hstep as [-> [(found & Hf & ?)|[_ ?]]]; [|discriminate]. simplify_eq.
  destruct found; injection Hs as <- <-; split_and!; try done; intros _; (split; [intros _ Hm|]).
  - unfold pending_hashes. cbn [block_queue set_block_queue].
    rewrite pending_add. cbn [req_hash request_new]. case_decide; [done|].
    rewrite fmap_app. apply elem_of_app. right. by left.
  - intros h Hh. unfold pending_hashes. cbn [block_queue set_block_queue].
    rewrite pending_add. case_decide; [done|]. rewrite fmap_app. apply elem_of_app. by left.
  - congruence.
  - done.
Qed.


(** ** Blocks *)

(** C23: a block that is not the wanted one changes nothing, and an error
    changes nothing; otherwise the block is in the tree, its merkle root is
    valid, and it is delivered exactly once: at its height, on the channel of
    its request if it has one whose receiver is alive, and the queue stops
    asking for it. *)
Theorem check_send_block_delivers alive block c r c' :
  check_send_block alive block c = (r, c') ->
  let hash := block_block_hash block in
  (queue_need (block_queue c) hash = false -> r = inr () /\ c' = c) /\
  (forall e, r = inl e -> c' = c) /\
  (queue_need (block_queue c) hash = true -> r = inr () ->
     exists height, height_of_hash (header_chain c) hash = Some height /\
       check_merkle_root block = true /\
       pending (block_queue c') = tail (pending (block_queue c)) /\
       queue_need (block_queue c') hash = false /\
       dialog c' = dialog c ++
         [match head (pending (block_queue c)) ≫= sender with
          | None => SendEvent (BlockEvent (mkIndexedBlock height block))
          | Some channel =>
              if alive channel then BlockToChannel channel (inr (mkIndexedBlock height block))
              else SendWarning ChannelDropped
          end]).
Proof.
  unfold check_send_block. intros Hs. cbn zeta. st_reads Hs.
  destruct (queue_need (block_queue c) (block_block_hash block)) eqn:Hneed; cbn [negb] in Hs.
  2: { injection Hs as <- <-. by split_and!. }
  split; [done|]. st_reads Hs.
  st_cases Hs.
  { apply st_ok_or_inv in Hstep as [-> [(? & _ & ?)|[_ ?]]]; [discriminate|]. by split_and!. }
  apply st_ok_or_inv in Hstep as [-> [(height & Hh & ?)|[_ ?]]]; [|discriminate]. simplify_eq.
  st_cases Hs.
  { apply st_guard_inv in Hstep as [-> [[_ ?]|[_ ?]]]; [discriminate|]. by split_and!. }
  apply st_guard_inv in Hstep as [-> [[Hmr _]|[_ ?]]]; [|discriminate].
  unfold queue_need in Hneed. destruct (want (block_queue c)) as [req|] eqn:Hw; [|done].
  unfold st_run, queue_receive in Hs. apply st_bind_inv in Hs as [(? & ? & Hst)|(sd & s & Hst & Hs)];
    rewrite Hw, Hneed in Hst; [discriminate|]. injection Hst as <- <-.
  unfold pending. rewrite Hw.
  destruct (sender req) as [ch|] eqn:Hsd; injection Hs as <- <-; (split; [done|]); intros _ _;
    exists height; unfold answer_block; [destruct (alive ch) eqn:Hal|]; cbn; rewrite ?Hsd, ?Hal;
    split_and!; done.
Qed.
End ChainProperties.

(** ** A small chain for the witnesses

    Three regtest headers above the anchor 100, a quorum of two, one script. *)
Module ToyChain.
Export ToySql.

Definition empty_store : SqliteHeaderDb table :=
  {| conn := ∅; accepted := ∅; disconnected := ∅ |}.

Definition start_with (cps : list HeaderCheckpoint) : Chain (SqliteHeaderDb table) :=
  chain_new Regtest {[ [11] ]} (mkCheckpoint 0 100)
    {| checkpoints := cps; last_checkpoint := mkCheckpoint 0 100 |} [] height_monitor_new
    empty_store 2 0.

Definition batch : list Header := [hdr 1 100 1; hdr 2 1 1; hdr 3 2 1].

Definition base : Chain (SqliteHeaderDb table) := start_with [].
Definition synced : Chain (SqliteHeaderDb table) := (sync_chain batch base).2.
Definition asked : Chain (SqliteHeaderDb table) := (next_cf_header_message synced).2.
Definition message : CFHeaders := mkCFHeaders 3 0 [11; 12; 13].
Definition first_answer : Chain (SqliteHeaderDb table) := (sync_cf_headers 1 message asked).2.
Definition committed : Chain (SqliteHeaderDb table) := (sync_cf_headers 2 message first_answer).2.
Definition filtering : Chain (SqliteHeaderDb table) := (next_filter_message committed).2.
Definition matched : Chain (SqliteHeaderDb table) :=
  (sync_filter false (mkCFilter 0 1 [11]) filtering).2.
Definition waiting : Chain (SqliteHeaderDb table) := (next_block 10 matched).2.

Lemma base_inv : chain_inv 100 0 1 base.
Proof.
  split.
  - exact (wf_tree_new (from_checkpoint 0 100) Regtest).
  - exact (canonical_ok_new (from_checkpoint 0 100) Regtest 1).
  - done.
  - intros i r Hr. cbn in Hr. by rewrite lookup_empty in Hr.
  - intros x Hx. by apply elem_of_nil in Hx.
Qed.

Lemma batch_is_ok : batch_ok 100 (header_chain base) batch.
Proof.
  unfold batch. cbn [batch_ok].
  do 3 (split; [apply header_okb_ok; reflexivity|split; [by vm_compute|]]). done.
Qed.

Lemma synced_inv : chain_inv 100 0 1 synced.
Proof.
  destruct (sync_chain_inv 100 0 1 batch base _ _ base_inv batch_is_ok (surjective_pairing _))
    as [Hinv|[l Hl]]; [done|]. by apply app_cons_not_nil in Hl.
Qed.
End ToyChain.

Section ChainWitnesses.
Import ToyChain.


Lemma invalid_checkpoint_is_the_tip_witness :
  let c := start_with [mkCheckpoint 3 77] in
  (sync_chain batch c).1 = inl InvalidCheckpoint /\
  exists k, checkpoints_next (ch_checkpoints c) = Some k /\
    tip_hash (header_chain (sync_chain batch c).2) <> cp_hash k.
Proof.
  intros c. split; [reflexivity|].
  destruct (invalid_checkpoint_is_the_tip batch c (sync_chain batch c).2 eq_refl) as (k & Hk & _ & Hne).
  by exists k.
Defined.

Lemma cf_header_quorum_witness :
  (sync_cf_headers 2 message first_answer).1 = inr Extended /\
  quorum first_answer <= next_count first_answer.
Proof.
  split; [reflexivity|].
  destruct (cf_header_quorum 2 message first_answer _ committed eq_refl) as [Hext _].
  by apply Hext.
Defined.

Lemma cf_headers_committed_witness :
  filter_commitment <$> headers (header_chain committed) !! 2 =
    Some (Some (mkFilterCommitment 49 12)).
Proof.
  assert (wf_tree 100 0 (header_chain first_answer)) as Hwf by exact (ci_wf _ _ _ _ synced_inv).
  destruct (cf_headers_committed 100 0 2 message first_answer committed
    (mkFilterHeaderRequest 1 3 None) Hwf ltac:(by vm_compute) eq_refl ltac:(done) eq_refl) as [Hset _].
  destruct (Hset 2 (node_new 2 (hdr 2 1 1) 2)) as (cm & Hcm & Hk).
  - exists [(3, node_new 3 (hdr 3 2 1) 3); (2, node_new 2 (hdr 2 1 1) 2);
            (1, node_new 1 (hdr 1 100 1) 1)].
    split; [repeat (constructor; [reflexivity|]); by constructor|]. right. by left.
  - by vm_compute.
  - rewrite Hk. by injection Hcm as <-.
Defined.

Lemma next_cf_header_message_correct_witness :
  let m := (next_cf_header_message synced).1 in
  gcfh_start_height m = 1 /\ gcfh_stop_hash m = 3 /\
  header_chain (next_cf_header_message synced).2 = header_chain synced.
Proof.
  destruct synced_inv as [Hwf Hcan _ _ _].
  pose proof (next_cf_header_message_correct 100 0 synced Hwf Hcan ltac:(by vm_compute) ltac:(done)
    ltac:(do 2 eexists; split; reflexivity)) as Hn.
  destruct (next_cf_header_message synced) as [m c'] eqn:Hm. destruct Hn as (_ & _ & Ht).
  injection Hm as <- <-. split_and!; reflexivity.
Defined.

Lemma next_filter_message_correct_witness :
  last_filter_request (request_state (next_filter_message synced).2) = Some (mkFilterRequest 1 3).
Proof.
  destruct synced_inv as [Hwf Hcan _ _ _].
  pose proof (next_filter_message_correct 100 0 synced Hwf Hcan ltac:(by vm_compute) ltac:(done)
    ltac:(do 2 eexists; split; reflexivity)) as Hn.
  destruct (next_filter_message synced) as [m c'] eqn:Hm. destruct Hn as (_ & _ & Hl).
  cbn [snd]. rewrite Hl. by injection Hm as <- _.
Defined.


Lemma check_send_block_delivers_witness :
  let c' := (check_send_block (fun _ => true) (1, true) waiting).2 in
  dialog c' = dialog waiting ++ [SendEvent (BlockEvent (mkIndexedBlock 1 (1, true)))] /\
  queue_need (block_queue c') 1 = false.
Proof.
  intros c'.
  destruct (check_send_block_delivers (fun _ => true) ((1, true) : Block (Bitcoin := toy)) waiting (inr ()) c' eq_refl)
    as (_ & _ & Hd).
  destruct (Hd eq_refl eq_refl) as (i & Hi & _ & _ & Hq & Hdialog).
  assert (Some i = Some 1) as [= ->] by (rewrite <- Hi; reflexivity).
  split; [|exact Hq]. rewrite Hdialog. reflexivity.
Defined.

(** The quorum does not count peers: with a quorum of two, three identical
    messages of one peer extend the filter-header chain, and a message of a
    peer that repeats itself discards what was pending, so that a different
    batch of another peer is counted instead of being a conflict. *)
Theorem one_peer_meets_the_quorum :
  let second := sync_cf_headers 1 message first_answer in
  let third := sync_cf_headers 1 message second.2 in
  let other := sync_cf_headers 2 (mkCFHeaders 3 0 [21; 22; 23]) second.2 in
  quorum first_answer = 2 /\
  second.1 = inr AddedToQueue /\ third.1 = inr Extended /\
  (sync_cf_headers 2 (mkCFHeaders 3 0 [21; 22; 23]) first_answer).1 = inr Conflict /\
  other.1 = inr Extended /\ is_cf_headers_synced other.2 = true.
Proof. repeat split; reflexivity. Qed.
End ChainWitnesses.
