(* ===== verification/Restart.v ===== *)
(** * Restarting from the header store

    [Chain::load_headers] rebuilds the block tree when the node starts: it
    restarts the tree at a stored header below the scan height and accepts the
    stored headers above it.  The contract used is [HeaderStoreReads]; the
    stored history is only assumed to be free of hash cycles and collisions
    ([history_ok]).  A successful load leaves as active chain exactly the stored
    headers above the root, but for at most one rejected header on top. *)

From stdpp Require Import base numbers list gmap sorting strings.
From Stdlib Require Import ZArith Lia.
From S2P Require Import Prelude Bitcoin ChainTypes Graph Walk GraphFacts Reorg ActiveChain FilterMarks TreeProperties.
From S2P Require Import Checkpoints Batches BlockQueue Messages HeaderStore Chain ChainFacts ChainProperties.

Section Restart.
Context `{Bitcoin} `{!WorkLaws} {D : Type} `{HeaderStore D} `{!HeaderStoreReads D}.
Implicit Types (c : Chain D) (t : BlockTree) (l : list (Height * Header)).

(** No block has the work of this many hashes, so sums of u32 many do not
    overflow the 256 bits. *)
Definition work_limit : Z := 2 ^ 224.

Definition row_header (x : Height * Header) : IndexedHeader := mkIndexedHeader x.1 x.2.

Definition unmarked t : Prop := Forall (fun n => filter_checked n = false) (iter_data t).

(** ** The tree while it is loaded *)

Record loading (a : BlockHash) (b : Height) t : Prop := {
  ld_wf : wf_tree a b t;
  ld_accounted : accounted t;
  ld_forks : candidate_forks t = [];
  ld_anchor : is_Some (headers t !! th (active_tip t)) \/ th (active_tip t) = a;
  ld_range : -1 <= b <= tip_height (active_tip t);
  ld_work : tip_work t <= (tip_height (active_tip t) - b) * (work_limit - 1);
  ld_unmarked : unmarked t;
}.

(** A stored header that has not been accepted yet. *)
Record pending_row (a : BlockHash) t (x : Height * Header) : Prop := {
  pr_fresh : headers t !! block_hash x.2 = None;
  pr_anchor : block_hash x.2 <> a;
  pr_acyclic : block_hash x.2 <> prev_blockhash x.2;
  pr_height : tip_height (active_tip t) < x.1 < u32_modulus;
  pr_work : header_work x.2 < work_limit;
}.

Lemma loading_iter a b t n can tip h :
  wf_tree a b t -> header_ok a t h -> headers t !! block_hash h = None ->
  node_prev n = th (active_tip t) -> th tip = block_hash h ->
  wf_tree a b (grown t h n can tip (candidate_forks t)) ->
  iter_data (grown t h n can tip (candidate_forks t)) = n :: iter_data t.
Proof.
  intros Hwf Hok Hx Hp Htip Hwf'. destruct (active_walk _ _ _ Hwf) as [l Hl].
  rewrite (iter_data_chain _ _ _ l Hwf Hl).
  apply (iter_data_chain _ _ _ ((block_hash h, n) :: l) Hwf'). cbn [headers grown active_tip].
  rewrite Htip. constructor; [apply lookup_insert_eq|]. rewrite Hp.
  apply (chain_grown Hwf Hok Hx); [|done].
  destruct (headers t !! th (active_tip t)) as [m|] eqn:Hm; [congruence|].
  pose proof (wt_tip _ _ _ Hwf) as Ht. rewrite Hm in Ht. destruct Ht as [-> _].
  intros Heq. by apply (ok_anchor _ _ _ Hok).
Qed.

Lemma tip_parent_work t h : prev_blockhash h = th (active_tip t) ->
  parent_work (headers t) (prev_blockhash h) = tip_work t.
Proof. by intros ->. Qed.

Lemma pending_ok a b t x :
  loading a b t -> pending_row a t x ->
  (prev_blockhash x.2 = th (active_tip t) \/ headers t !! prev_blockhash x.2 = None) ->
  header_ok a t x.2.
Proof.
  intros Hld Hpr Hprev. destruct (pr_height _ _ _ Hpr). pose proof (ld_range _ _ _ Hld).
  assert (is_u32 (tip_height (active_tip t) + 1)) by (unfold is_u32; lia).
  split; [| apply Hpr| apply Hpr|done|].
  - intros n. by rewrite (pr_fresh _ _ _ Hpr).
  - intros n Hn. destruct Hprev as [Hp|Hp]; [|congruence]. rewrite Hp in Hn.
    pose proof (wt_tip _ _ _ (ld_wf _ _ _ Hld)) as Ht. rewrite Hn in Ht. by rewrite Ht.
Qed.

(** A header on the tip is accepted above it, or refused for its bits. *)
Lemma accept_on_tip a b t x :
  loading a b t -> pending_row a t x -> prev_blockhash x.2 = th (active_tip t) ->
  (exists w, accept_header t x.2 = (Rejected (InvalidPow w (bits x.2)), t)) \/
  (exists t', accept_header t x.2 =
      (Accepted (mkIndexedHeader (tip_height (active_tip t) + 1) x.2), t') /\
    loading a b t' /\ th (active_tip t') = block_hash x.2 /\
    tip_height (active_tip t') = tip_height (active_tip t) + 1 /\
    (forall k, k <> block_hash x.2 -> headers t' !! k = headers t !! k) /\
    iter_headers t' = mkIndexedHeader (tip_height (active_tip t) + 1) x.2 :: iter_headers t).
Proof.
  intros Hld Hpr Hp. pose proof (ld_wf _ _ _ Hld) as Hwf.
  pose proof (pending_ok _ _ _ _ Hld Hpr (or_introl Hp)) as Hok.
  assert (work_ok t x.2) as Hwork.
  { unfold work_ok, is_work. rewrite (tip_parent_work _ _ Hp).
    pose proof (parent_work_range (ld_accounted _ _ _ Hld) (prev_blockhash x.2)) as [Hlo _].
    rewrite (tip_parent_work _ _ Hp) in Hlo. pose proof (header_work_range x.2) as [Hw _].
    pose proof (pr_work _ _ _ Hpr). pose proof (pr_height _ _ _ Hpr).
    pose proof (ld_work _ _ _ Hld). pose proof (ld_range _ _ _ Hld).
    unfold work_limit, u32_modulus in *. lia. }
  pose proof (accept_header_spec _ _ _ _ Hwf Hok) as Hspec.
  destruct (accept_header t x.2) as [r t'] eqn:Ha. cbn [fst snd] in Hspec.
  pose proof (accept_spec_wf _ _ _ _ _ _ Hwf Hok Hspec) as Hwf'.
  pose proof (accept_spec_accounted Hwf Hok (ld_accounted _ _ _ Hld) Hwork _ _ Hspec) as Hacc'.
  assert (increment (tip_height (active_tip t)) = tip_height (active_tip t) + 1) as Hinc
    by (apply increment_small, (ok_tip_height _ _ _ Hok)).
  inversion Hspec as [He|He|w fs Hfs Hb|next height n Htip Hx Hn Hpow|? ? ? ? He|? ? ? ? ? ? ? ? ? ? He];
    subst; try congruence.
  - left. exists w. f_equal. rewrite (ld_forks _ _ _ Hld) in Hfs.
    apply list_nil_subseteq in Hfs as ->. by rewrite <- (ld_forks _ _ _ Hld), with_forks_id.
  - right. eexists. split; [unfold indexed; cbn; fold height; by rewrite <- Hinc|].
    assert (iter_data (grown t x.2 n (<[height:=block_hash x.2]> (canonical_hashes t))
      (mkTip (block_hash x.2) height (next_work t height (next_work_required (active_tip t))))
      (candidate_forks t)) = n :: iter_data t) as Hiter.
    { apply (loading_iter a b); try done. }
    assert (acc_work n = tip_work t + header_work x.2) as Hw.
    { unfold n. rewrite (leaf_work (ld_accounted _ _ _ Hld) Hwork). by rewrite tip_parent_work. }
    assert (height = tip_height (active_tip t) + 1) as Hheight by done.
    split_and!.
    + split; cbn [grown active_tip candidate_forks headers th tip_height]; try done.
      * apply Hld.
      * left. rewrite lookup_insert_eq. eauto.
      * pose proof (ld_range _ _ _ Hld). lia.
      * unfold tip_work. cbn [grown active_tip headers th]. rewrite lookup_insert_eq.
        change (default 0 (acc_work <$> Some n)) with (acc_work n). rewrite Hw, Hheight.
        pose proof (pr_work _ _ _ Hpr). pose proof (ld_work _ _ _ Hld). lia.
      * unfold unmarked. rewrite Hiter. constructor; [done|apply Hld].
    + done.
    + done.
    + intros k Hk. cbn. by rewrite lookup_insert_ne.
    + unfold iter_headers. rewrite Hiter, fmap_cons. f_equal. unfold indexed. f_equal. exact Hheight.
Qed.

(** A header whose parent is unknown stops the load. *)
Lemma accept_unknown a b t x :
  loading a b t -> pending_row a t x ->
  prev_blockhash x.2 <> th (active_tip t) -> headers t !! prev_blockhash x.2 = None ->
  exists h, (accept_header t x.2).1 = Rejected (UnknownPrevHash h).
Proof.
  intros Hld Hpr Hne Hp.
  pose proof (accept_header_spec _ _ _ _ (ld_wf _ _ _ Hld)
    (pending_ok _ _ _ _ Hld Hpr (or_intror Hp))) as Hspec.
  destruct (accept_header t x.2) as [r t'] eqn:Ha. cbn [fst snd] in *.
  inversion Hspec as [? Hdup|?|w fs Hfs Hb|next height n Htip|p ? ? ? ? ? He|p ? ? ? ? ? ? ? ? ? ? ? He];
    subst; try congruence; eauto.
  - rewrite (pr_fresh _ _ _ Hpr) in Hdup. by destruct Hdup.
  - clear Hspec. revert Ha. unfold accept_header. rewrite decide_False by done.
    rewrite decide_False by (rewrite (pr_fresh _ _ _ Hpr); by intros []).
    rewrite (ld_forks _ _ _ Hld). cbn. unfold open_fork. by rewrite Hp.
Qed.

(** ** The loop *)

Lemma load_one_unknown x c r c' :
  (exists h, (accept_header (header_chain c) x.2).1 = Rejected (UnknownPrevHash h)) ->
  load_one x.1 x.2 c = (r, c') -> exists e, r = inl e.
Proof.
  intros [h Ha]. unfold load_one, accept, mbind, ST_bind, st_run.
  destruct (accept_header _ _) as [ch t']. cbn in Ha. subst ch. intros [= <- _]. eauto.
Qed.

Lemma load_one_refused x c w c' r :
  accept_header (header_chain c) x.2 = (Rejected (InvalidPow w (bits x.2)), header_chain c) ->
  load_one x.1 x.2 c = (r, c') -> header_chain c' = header_chain c.
Proof.
  intros Ha. unfold load_one, accept, mbind, ST_bind, st_run. rewrite Ha.
  by intros [= _ <-].
Qed.

Lemma load_one_accepted x c y t' c' :
  accept_header (header_chain c) x.2 = (Accepted y, t') ->
  load_one x.1 x.2 c = (inr (), c') -> x.1 = ih_height y /\ header_chain c' = t'.
Proof.
  intros Ha. unfold load_one, accept, mbind, ST_bind, st_run. rewrite Ha.
  destruct (decide _) as [Hh|Hh]; [done|]. unfold st_modify. intros [= <-].
  split; [by apply dec_stable|]. cbn. destruct (checkpoints_next _) as [cp|]; [|done].
  by destruct (_ =? _).
Qed.

Definition links_to t (x : Height * Header) : Prop :=
  prev_blockhash x.2 = th (active_tip t) \/ headers t !! prev_blockhash x.2 = None.

Lemma linked_tail x l : linked (x :: l) -> linked l.
Proof. intros Hl i y z Hy Hz. by apply (Hl (S i)). Qed.

Lemma load_loop_spec a b l : forall c c',
  loading a b (header_chain c) -> Forall (pending_row a (header_chain c)) l ->
  NoDup ((fun x => block_hash x.2) <$> l) -> StronglySorted Z.lt l.*1 -> linked l ->
  (forall x, head l = Some x -> links_to (header_chain c) x) ->
  load_loop l c = (inr (), c') ->
  exists loaded lost, l = loaded ++ lost /\ (length lost <= 1)%nat /\
    loading a b (header_chain c') /\
    iter_headers (header_chain c') = reverse (row_header <$> loaded) ++ iter_headers (header_chain c).
Proof.
  induction l as [|x l IH]; intros c c' Hld Hpend Hnd Hs Hlk Hhead Hrun.
  { injection Hrun as <-. exists [], []. split_and!; [done|cbn; lia|done|done]. }
  apply Forall_cons in Hpend as [Hx Hpend]. cbn in Hnd. apply NoDup_cons in Hnd as [Hxl Hnd].
  apply StronglySorted_inv in Hs as [Hs Hlt]. specialize (Hhead x eq_refl).
  cbn [load_loop] in Hrun. destruct x as [i hdr].
  apply st_bind_inv in Hrun as [(e & [=] & _)|([] & c1 & Hone & Hrun)].
  destruct (decide (prev_blockhash hdr = th (active_tip (header_chain c)))) as [Hp|Hp]; last first.
  { destruct Hhead as [Hhead|Hhead]; [done|].
    destruct (load_one_unknown _ _ _ _ (accept_unknown _ _ _ _ Hld Hx Hp Hhead) Hone) as [e [=]]. }
  destruct (accept_on_tip _ _ _ _ Hld Hx Hp) as [[w Ha]|(t' & Ha & Hld' & Htip & Hh & Hkeep & Hit)].
  - pose proof (load_one_refused _ _ _ _ _ Ha Hone) as Ht1.
    exists [], ((i, hdr) :: l). destruct l as [|y l].
    { injection Hrun as <-. rewrite Ht1. split_and!; [done|cbn; lia|done|done]. }
    destruct y as [j y]. cbn [load_loop] in Hrun.
    apply st_bind_inv in Hrun as [(e & [=] & _)|([] & c2 & Htwo & _)]. apply Forall_cons in Hpend as [Hy _].
    assert (prev_blockhash y = block_hash hdr) as Hyp by exact (Hlk 0%nat _ _ eq_refl eq_refl).
    destruct (load_one_unknown (j, y) c1 (inr ()) c2) as [e [=]]; [|done]. rewrite Ht1.
    eapply accept_unknown; [done|done|..]; cbn; rewrite Hyp; [|apply Hx].
    destruct (ld_anchor _ _ _ Hld) as [[m Hm]| ->]; [|apply Hx].
    intros Heq. rewrite <- Heq in Hm. pose proof (pr_fresh _ _ _ Hx) as Hf. cbn in Hf. congruence.
  - destruct (load_one_accepted _ _ _ _ _ Ha Hone) as [Hi Ht1]. cbn in Hi. subst t'.
    destruct (IH c1 c') as (loaded & lost & -> & Hlen & Hld1 & Hit1); try done.
    + rewrite Forall_forall in Hlt. rewrite Forall_forall in Hpend. apply Forall_forall. intros y Hy. specialize (Hpend y Hy).
      split; try apply Hpend.
      * rewrite Hkeep; [apply Hpend|]. intros Heq. apply Hxl, list_elem_of_fmap. by exists y.
      * split; [|apply Hpend]. rewrite Hh, <- Hi. apply Hlt, list_elem_of_fmap. by exists y.
    + by eapply linked_tail.
    + intros y Hy. left. rewrite Htip. apply (Hlk 0%nat); [done|].
      by destruct l.
    + exists ((i, hdr) :: loaded), lost. split_and!; [done|done|done|].
      rewrite Hit1, Hit, fmap_cons, reverse_cons, <- app_assoc. by rewrite <- Hi.
Qed.

(** ** The trees it starts from *)

Lemma loading_new cp n :
  is_u32 (cp_height cp) ->
  loading (cp_hash cp) (cp_height cp) (tree_new (from_checkpoint (cp_height cp) (cp_hash cp)) n).
Proof.
  unfold is_u32. intros Hh. split; cbn; try done.
  - exact (wf_tree_new (from_checkpoint (cp_height cp) (cp_hash cp)) n).
  - by right.
  - lia.
  - rewrite Z.sub_diag. done.
  - unfold unmarked. rewrite (iter_data_chain _ _ _ [] (wf_tree_new _ n)); [constructor|].
    by constructor.
Qed.

Lemma from_header_iter i x n :
  block_hash x <> prev_blockhash x ->
  iter_data (from_header i x n) = [node_new i x (header_work x)].
Proof.
  intros Hne. apply (iter_data_chain _ _ _ [(block_hash x, _)] (wf_tree_from_header i x n Hne)).
  constructor; cbn; [by rewrite lookup_singleton_eq|].
  constructor. by rewrite lookup_singleton_ne.
Qed.

Lemma loading_from_header i x n :
  is_u32 i -> block_hash x <> prev_blockhash x -> header_work x < work_limit ->
  loading (prev_blockhash x) (i - 1) (from_header i x n).
Proof.
  intros [Hi _] Hne Hw. split; cbn.
  - by apply wf_tree_from_header.
  - intros k m. cbn. intros [<- <-]%lookup_singleton_Some. cbn.
    unfold parent_work, is_work. rewrite lookup_singleton_ne by done. cbn.
    pose proof (header_work_range x). unfold is_work in *. lia.
  - done.
  - left. rewrite lookup_singleton_eq. eauto.
  - lia.
  - unfold tip_work. cbn. rewrite lookup_singleton_eq. cbn. lia.
  - unfold unmarked. rewrite from_header_iter by done. by constructor.
Qed.

Lemma assumed_tree a b t height :
  loading a b t ->
  wf_tree a b (assume_checked_to t height) /\ accounted (assume_checked_to t height) /\
  iter_headers (assume_checked_to t height) = iter_headers t.
Proof.
  intros Hld. pose proof (ld_wf _ _ _ Hld) as Hwf.
  pose proof (assume_checked_skeleton Hwf height) as Hsk. split_and!.
  - by apply wf_tree_skeleton.
  - apply accounted_skeleton; [done|apply Hld].
  - by eapply iter_headers_skeleton.
Qed.

(** Marking the blocks up to the scan height. *)
Lemma assumed_marks a b t height x :
  loading a b t -> x ∈ iter_headers t ->
  is_filter_checked (assume_checked_to t height) (block_hash (ih_header x)) = (ih_height x <=? height).
Proof.
  intros Hld Hx. pose proof (ld_wf _ _ _ Hld) as Hwf.
  unfold iter_headers in Hx. apply list_elem_of_fmap in Hx as (n & -> & Hn).
  pose proof Hn as (k & l & Hl & Hin)%(on_chain_iter_data _ _ _ _ Hwf).
  pose proof (chain_from_lookup _ _ _ _ _ Hl Hin) as Hk.
  pose proof (wf_key _ _ _ (wt_headers _ _ _ Hwf) _ _ Hk) as Hkey. cbn [indexed ih_header ih_height].
  unfold is_filter_checked. rewrite Hkey, (assume_checked_exact Hwf height _ _ Hk).
  rewrite bool_decide_true by done. cbn [andb].
  pose proof (ld_unmarked _ _ _ Hld) as Hu. unfold unmarked in Hu. rewrite Forall_forall in Hu.
  destruct (node_height n <=? height); [done|by apply Hu].
Qed.

(** ** Loading *)

(** What is stored has no two headers of one hash, no cycle of hashes, and does
    not come back to the checkpoint. *)
Record history_ok (cp : HeaderCheckpoint) (rows : gmap Height Header) : Prop := {
  ho_height i x : rows !! i = Some x -> is_u32 i;
  ho_hash i j x y : rows !! i = Some x -> rows !! j = Some y ->
    block_hash x = block_hash y -> i = j;
  ho_acyclic i j x y : rows !! i = Some x -> rows !! j = Some y -> i <= j ->
    block_hash y <> prev_blockhash x;
  ho_checkpoint i x : rows !! i = Some x -> cp_height cp < i -> block_hash x <> cp_hash cp;
  ho_work i x : rows !! i = Some x -> header_work x < work_limit;
}.

(** The two heights at which [load_headers] tries to restart the tree. *)
Definition restart_heights (scan_height : Height) (n : Network) : list Height :=
  [last_epoch_start scan_height n; u32_saturating_sub scan_height REORG_LOOKBACK].

(** The root of the loaded tree: the checkpoint, or a stored header. *)
Definition rooted (cp : HeaderCheckpoint) (n : Network) (rows : gmap Height Header)
    (root : option (Height * Header)) : Prop :=
  forall i x, root = Some (i, x) -> rows !! i = Some x /\ i ∈ restart_heights (cp_height cp) n.

Definition root_tree (cp : HeaderCheckpoint) (n : Network) (root : option (Height * Header))
  : BlockTree :=
  match root with
  | None => tree_new (from_checkpoint (cp_height cp) (cp_hash cp)) n
  | Some (i, x) => from_header i x n
  end.

Definition root_anchor (cp : HeaderCheckpoint) (root : option (Height * Header)) : BlockHash :=
  match root with None => cp_hash cp | Some (_, x) => prev_blockhash x end.

Definition root_base (cp : HeaderCheckpoint) (root : option (Height * Header)) : Height :=
  match root with None => cp_height cp | Some (i, _) => i - 1 end.

Definition root_height (cp : HeaderCheckpoint) (root : option (Height * Header)) : Height :=
  match root with None => cp_height cp | Some (i, _) => i end.

Lemma restart_at_spec {E} i c (r : E + ()) c1 :
  restart_at i c = (r, c1) ->
  r = inr () /\ store_rows (db c1) = store_rows (db c) /\ ch_network c1 = ch_network c /\
  (header_chain c1 = header_chain c \/
   exists x, store_rows (db c) !! i = Some x /\ header_chain c1 = from_header i x (ch_network c)).
Proof.
  unfold restart_at, st_modify. destruct (store_header_at i (db c)) as [o d] eqn:Ho.
  destruct (store_header_at_law _ _ _ _ Ho) as [Hd Hr].
  destruct o as [e|[x|]]; intros [= <- <-]; split_and!; try done; [by left| |by left].
  right. exists x. split; [|done]. by rewrite <- (Hr _ eq_refl).
Qed.

Section Load.
Context (cp : HeaderCheckpoint) (Hcp : is_u32 (cp_height cp)).

Lemma root_loading n rows root :
  history_ok cp rows -> rooted cp n rows root ->
  loading (root_anchor cp root) (root_base cp root) (root_tree cp n root) /\
  tip_height (active_tip (root_tree cp n root)) = root_height cp root /\
  iter_headers (root_tree cp n root) = row_header <$> option_list root.
Proof.
  intros Hok Hroot. destruct root as [[i x]|]; cbn [root_anchor root_base root_tree root_height].
  - destruct (Hroot i x eq_refl) as [Hx _].
    assert (block_hash x <> prev_blockhash x) as Hne by (by eapply (ho_acyclic _ _ Hok i i)).
    split_and!; [|done|].
    + apply loading_from_header; [by eapply ho_height|done|by eapply ho_work].
    + unfold iter_headers. by rewrite from_header_iter.
  - split_and!; [by apply loading_new|done|]. unfold iter_headers.
    by rewrite (iter_data_chain _ _ _ [] (wf_tree_new _ n)) by (by constructor).
Qed.

Lemma root_pending n rows root x :
  history_ok cp rows -> rooted cp n rows root ->
  rows !! x.1 = Some x.2 -> root_height cp root < x.1 ->
  pending_row (root_anchor cp root) (root_tree cp n root) x /\ links_to (root_tree cp n root) x.
Proof.
  intros Hok Hroot Hx Hlt. destruct x as [j y]. cbn in Hx, Hlt.
  pose proof (ho_height _ _ Hok _ _ Hx) as [_ Hj]. pose proof (ho_work _ _ Hok _ _ Hx) as Hw.
  assert (block_hash y <> prev_blockhash y) by (by eapply (ho_acyclic _ _ Hok j j)).
  unfold links_to. destruct root as [[i x]|]; cbn [root_anchor root_tree root_height] in *.
  - destruct (Hroot i x eq_refl) as [Hi _]. split.
    + split; cbn; try done.
      * apply lookup_singleton_ne. intros Heq.
        pose proof (ho_hash _ _ Hok _ _ _ _ Hi Hx Heq). lia.
      * eapply (ho_acyclic _ _ Hok i j); [done|done|lia].
    + cbn. destruct (decide (prev_blockhash y = block_hash x)) as [|Hne]; [by left|right].
      by apply lookup_singleton_ne.
  - split; [|right; apply lookup_empty]. split; cbn; try done. by eapply ho_checkpoint.
Qed.

Lemma restart_heights_le i n : i ∈ restart_heights (cp_height cp) n -> i <= cp_height cp.
Proof.
  destruct Hcp as [Hlo Hhi]. intros [->|[->|[]%elem_of_nil]%elem_of_cons]%elem_of_cons.
  - unfold last_epoch_start. set (k := as_u32 _).
    assert (0 <= k) as Hk by (apply Z.mod_pos_bound; done).
    pose proof (Z.mod_le (cp_height cp / k * k) u32_modulus) as Hm.
    destruct (decide (k = 0)) as [->|Hne].
    { rewrite Z.mul_0_r, Z.mod_0_l in * by done. lia. }
    pose proof (Z.div_mod (cp_height cp) k Hne). pose proof (Z.mod_pos_bound (cp_height cp) k).
    pose proof (Z.div_pos (cp_height cp) k). nia.
  - unfold u32_saturating_sub, REORG_LOOKBACK. lia.
Qed.

Lemma root_height_le n rows root : rooted cp n rows root -> root_height cp root <= cp_height cp.
Proof.
  intros Hroot. destruct root as [[i x]|]; [|done].
  by eapply restart_heights_le, (Hroot i x).
Qed.

(** The tree from which [load_headers] loads. *)
Lemma restarted_root {E} n rows c (r : E + ()) c2 :
  header_chain c = root_tree cp n None -> ch_network c = n -> store_rows (db c) = rows ->
  (restart_at (Z.max (last_epoch_start (cp_height cp) n)
     (u32_saturating_sub (cp_height cp) REORG_LOOKBACK));;
   restart_at (Z.min (last_epoch_start (cp_height cp) n)
     (u32_saturating_sub (cp_height cp) REORG_LOOKBACK))) c = (r, c2) ->
  r = inr () /\ store_rows (db c2) = rows /\
  exists root, rooted cp n rows root /\ header_chain c2 = root_tree cp n root.
Proof.
  intros Ht Hn Hr Hrun.
  assert (forall k i x, k = Z.max (last_epoch_start (cp_height cp) n)
      (u32_saturating_sub (cp_height cp) REORG_LOOKBACK) \/
    k = Z.min (last_epoch_start (cp_height cp) n)
      (u32_saturating_sub (cp_height cp) REORG_LOOKBACK) ->
    rows !! k = Some x -> Some (k, x) = Some i -> rooted cp n rows (Some i)) as Hrooted.
  { intros k i x Hk Hx [= <-] j y [= <- <-]. split; [done|]. unfold restart_heights.
    destruct Hk as [-> | ->].
    - destruct (Z.max_spec (last_epoch_start (cp_height cp) n)
        (u32_saturating_sub (cp_height cp) REORG_LOOKBACK)) as [[_ ->]|[_ ->]]; set_solver.
    - destruct (Z.min_spec (last_epoch_start (cp_height cp) n)
        (u32_saturating_sub (cp_height cp) REORG_LOOKBACK)) as [[_ ->]|[_ ->]]; set_solver. }
  apply st_bind_inv in Hrun as [(e & -> & Hrun)|([] & c1 & H1c & Hrun)].
  { by destruct (restart_at_spec _ _ _ _ Hrun) as [? _]. }
  destruct (restart_at_spec _ _ _ _ H1c) as (_ & Hr1 & Hn1 & Ht1).
  destruct (restart_at_spec _ _ _ _ Hrun) as (-> & Hr2 & _ & Ht2).
  rewrite Hr1, Hr in Hr2, Ht2. rewrite Hr in Ht1. rewrite Hn1, Hn in Ht2. rewrite Hn in Ht1.
  split_and!; [done|done|].
  destruct Ht2 as [Ht2|(x & Hx & Ht2)]; [destruct Ht1 as [Ht1|(x & Hx & Ht1)]|].
  - exists None. split; [done|]. by rewrite Ht2, Ht1.
  - eexists (Some (_, x)). split; [by eapply Hrooted; [left| |]|]. by rewrite Ht2.
  - eexists (Some (_, x)). split; [by eapply Hrooted; [right| |]|]. done.
Qed.

Lemma loaded_NoDup rows l :
  history_ok cp rows -> (forall i x, (i, x) ∈ l -> rows !! i = Some x) ->
  StronglySorted Z.lt l.*1 -> NoDup ((fun x => block_hash x.2) <$> l).
Proof.
  intros Hok Hin Hs. induction l as [|[i x] l IH]; cbn in *; [constructor|].
  apply StronglySorted_inv in Hs as [Hs Hlt]. rewrite Forall_forall in Hlt.
  constructor; [|apply IH; [|done]; intros; apply Hin; by right].
  intros ([j y] & Heq & Hy)%list_elem_of_fmap. cbn in Heq.
  assert (i = j) as <- by (eapply ho_hash; [done|apply Hin; by left|apply Hin; by right|done]).
  assert (i < i) by (apply Hlt, list_elem_of_fmap; by exists (i, y)). lia.
Qed.

Lemma load_headers_spec n rows c c' :
  header_chain c = root_tree cp n None -> ch_network c = n -> store_rows (db c) = rows ->
  is_u32 (cp_height cp + 1) -> history_ok cp rows ->
  load_headers c = (inr (), c') ->
  exists root loaded lost t,
    rooted cp n rows root /\ loading (root_anchor cp root) (root_base cp root) t /\
    header_chain c' = assume_checked_to t (cp_height cp) /\
    iter_headers t = reverse (row_header <$> option_list root ++ loaded) /\
    (length lost <= 1)%nat /\ StronglySorted Z.lt (loaded ++ lost).*1 /\
    forall i x, (i, x) ∈ loaded ++ lost <-> rows !! i = Some x /\ root_height cp root < i.
Proof.
  intros Ht Hn Hr Hcp1 Hok Hrun. unfold load_headers in Hrun.
  rewrite (st_bind_ok (st_get _) _ _ _ _ eq_refl), (st_bind_ok (st_get _) _ _ _ _ eq_refl) in Hrun.
  rewrite Hn in Hrun. change (tree_height (header_chain c)) with (tip_height (active_tip (header_chain c))) in Hrun.
  rewrite Ht in Hrun. cbn [root_tree tree_new active_tip from_checkpoint tip_height] in Hrun.
  apply st_bind_inv in Hrun as [(e & [=] & _)|([] & c1 & Hmax & Hrun)].
  apply st_bind_inv in Hrun as [(e & [=] & _)|([] & c2 & Hmin & Hrun)].
  destruct (restarted_root (E := HeaderPersistenceError store_error) n rows c (inr ()) c2 Ht Hn Hr) as (_ & Hr2 & root & Hroot & Ht2).
  { by rewrite (st_bind_ok _ _ _ _ _ Hmax). }
  destruct (root_loading n rows root Hok Hroot) as (Hld & Htip & Hit).
  pose proof (root_height_le _ _ _ Hroot) as Hle.
  assert (increment (root_height cp root) = root_height cp root + 1) as Hinc.
  { apply increment_small. pose proof (ld_range _ _ _ Hld). unfold is_u32 in *. lia. }
  rewrite (st_bind_ok (st_get _) _ _ _ _ eq_refl) in Hrun.
  unfold tree_height in Hrun. rewrite Ht2, Htip, Hinc in Hrun.
  apply st_bind_inv in Hrun as [(e & [=] & _)|(res & c3 & Hload & Hrun)].
  unfold st_run in Hload. destruct (store_load _ _ _) as [res' d] eqn:Hl.
  injection Hload as -> <-. destruct res as [e|l]; [done|].
  destruct (store_load_law _ _ _ _ _ Hl) as (_ & Hlk & Hs & Hin). rewrite Hr2 in Hin.
  assert (forall i x, (i, x) ∈ l <-> rows !! i = Some x /\ root_height cp root < i) as Hin'.
  { intros i x. rewrite (Hin i x). cbn [above_bound below_bound]. rewrite Z.leb_le.
    split; [intros (? & ? & _)|intros [? ?]]; split_and?; try done; lia. }
  apply st_bind_inv in Hrun as [(e & [=] & _)|([] & c4 & Hloop & Hrun)].
  unfold st_modify in Hrun. injection Hrun as <-.
  destruct (load_loop_spec (root_anchor cp root) (root_base cp root) l (set_db d c2) c4)
    as (loaded & lost & -> & Hlen & Hld4 & Hit4); try done; cbn [header_chain set_db]; rewrite ?Ht2.
  - done.
  - apply Forall_forall. intros [i x] Hx. apply Hin' in Hx as [Hx Hlt].
    by eapply (root_pending n rows root (i, x)).
  - eapply loaded_NoDup; [done| |done]. intros i x Hx. by apply Hin'.
  - intros [i x] Hx. apply head_Some in Hx as [l' Heq].
    assert ((i, x) ∈ l) as Hx by (rewrite Heq; by left). apply Hin' in Hx as [Hx Hlt].
    by eapply (root_pending n rows root (i, x)).
  - exists root, loaded, lost, (header_chain c4). split_and!; try done.
    rewrite Hit4. cbn [header_chain set_db]. rewrite Ht2, Hit, fmap_app, reverse_app. f_equal.
    by destruct root.
Qed.
End Load.

(** C11: a restart restores the stored chain.  When a new chain loads its headers
    successfully, its block tree is well formed above a root (the checkpoint,
    or a stored header at the last epoch start or seven blocks below the
    checkpoint), and its active chain is exactly that root and the stored
    headers above it, in order, except for at most the highest one, which is
    refused when its bits are wrong; exactly the filters up to the checkpoint
    are assumed to be checked. *)
Theorem load_headers_restores cp c c' :
  header_chain c = tree_new (from_checkpoint (cp_height cp) (cp_hash cp)) (ch_network c) ->
  is_u32 (cp_height cp) -> is_u32 (cp_height cp + 1) -> history_ok cp (store_rows (db c)) ->
  load_headers c = (inr (), c') ->
  exists root loaded lost,
    rooted cp (ch_network c) (store_rows (db c)) root /\
    wf_tree (root_anchor cp root) (root_base cp root) (header_chain c') /\
    accounted (header_chain c') /\
    iter_headers (header_chain c') = reverse (row_header <$> option_list root ++ loaded) /\
    (length lost <= 1)%nat /\ StronglySorted Z.lt (loaded ++ lost).*1 /\
    (forall i x, (i, x) ∈ loaded ++ lost <->
       store_rows (db c) !! i = Some x /\ root_height cp root < i) /\
    forall x, x ∈ iter_headers (header_chain c') ->
      is_filter_checked (header_chain c') (block_hash (ih_header x)) =
        (ih_height x <=? cp_height cp).
Proof.
  intros Ht Hcp Hcp1 Hok Hrun.
  destruct (load_headers_spec cp Hcp _ _ c c' Ht eq_refl eq_refl Hcp1 Hok Hrun)
    as (root & loaded & lost & t & Hroot & Hld & Ht' & Hit & Hlen & Hs & Hin).
  destruct (assumed_tree _ _ _ (cp_height cp) Hld) as (Hwf & Hacc & Hit').
  exists root, loaded, lost. rewrite Ht', Hit', Hit. split_and!; try done.
  intros x Hx. eapply assumed_marks; [done|]. by rewrite Hit.
Qed.
End Restart.


(** ** A small restart *)

Module ToyRestart.
Export ToyChain.

Definition history_okb `{Bitcoin} (cp : HeaderCheckpoint) (rows : gmap Height Header) : bool :=
  let l := map_to_list rows in
  forallb (fun x =>
    (0 <=? x.1) && (x.1 <? u32_modulus) && (header_work x.2 <? work_limit) &&
    ((x.1 <=? cp_height cp) || negb (block_hash x.2 =? cp_hash cp)) &&
    forallb (fun y =>
      ((x.1 =? y.1) || negb (block_hash x.2 =? block_hash y.2)) &&
      ((y.1 <? x.1) || negb (block_hash y.2 =? prev_blockhash x.2))) l) l.

Lemma history_okb_ok `{Bitcoin} cp rows : history_okb cp rows = true -> history_ok cp rows.
Proof.
  unfold history_okb. rewrite forallb_forall. intros Hall.
  assert (forall i x, rows !! i = Some x -> (i, x) ∈ map_to_list rows) as Hl
    by (intros; by apply elem_of_map_to_list).
  assert (forall i x, rows !! i = Some x -> _) as Hrow
    by (intros i x Hx; exact (Hall _ (proj1 (list_elem_of_In _ _) (Hl i x Hx)))).
  assert (forall i x j y, rows !! i = Some x -> rows !! j = Some y ->
    ((i =? j) || negb (block_hash x =? block_hash y)) &&
    ((j <? i) || negb (block_hash y =? prev_blockhash x)) = true) as Hpair.
  { intros i x j y Hx Hy. pose proof (Hrow i x Hx) as Hr. cbn in Hr. rewrite !andb_true_iff in Hr.
    destruct Hr as [_ Hr]. rewrite forallb_forall in Hr.
    exact (Hr _ (proj1 (list_elem_of_In _ _) (Hl j y Hy))). }
  split.
  - intros i x Hx. specialize (Hrow i x Hx). cbn in Hrow. unfold is_u32. lia.
  - intros i j x y Hx Hy Heq. specialize (Hpair i x j y Hx Hy). cbn in Hpair. lia.
  - intros i j x y Hx Hy Hle Heq. specialize (Hpair i x j y Hx Hy). cbn in Hpair. lia.
  - intros i x Hx Hlt Heq. specialize (Hrow i x Hx). cbn in Hrow. lia.
  - intros i x Hx. specialize (Hrow i x Hx). cbn in Hrow. lia.
Qed.

(** A store of nine headers, and a chain that starts over at height 8. *)
Definition nine : Chain (SqliteHeaderDb table) :=
  (sync_chain (hdr 1 100 1 :: ((fun i => hdr i (i - 1) 1) <$> [2; 3; 4; 5; 6; 7; 8; 9])) base).2.

Definition restarted (cp : HeaderCheckpoint) : Chain (SqliteHeaderDb table) :=
  chain_new Regtest {[ [11] ]} cp {| checkpoints := []; last_checkpoint := cp |} []
    height_monitor_new (db nine) 2 0.

Lemma load_headers_restores_witness :
  let c' := (load_headers (restarted (mkCheckpoint 8 8))).2 in
  (exists root loaded, iter_headers (header_chain c') =
     reverse (row_header <$> option_list root ++ loaded)) /\
  tip_height (active_tip (header_chain c')) = 9 /\
  is_filter_checked (header_chain c') 8 = true /\ is_filter_checked (header_chain c') 9 = false.
Proof.
  intros c'. assert (load_headers (restarted (mkCheckpoint 8 8)) = (inr (), c')) as Hrun.
  { rewrite (surjective_pairing (load_headers _)). by apply (f_equal (fun r => (r, c'))). }
  destruct (load_headers_restores (mkCheckpoint 8 8) (restarted (mkCheckpoint 8 8)) c')
    as (root & loaded & lost & _ & _ & _ & Hit & _); [reflexivity|split; by vm_compute|split; by vm_compute| |exact Hrun|].
  - apply history_okb_ok. by vm_compute.
  - split; [by exists root, loaded|]. split_and!; by vm_compute.
Defined.
End ToyRestart.
