(* ===== verification/HeaderSync.v ===== *)
(** * Following an honest peer: header sync makes progress

    [best] is the chain of a peer, oldest first, above the anchor of the tree.
    [on_best m t] says that the active chain of [t] is its first [m] headers.
    A message of headers of [best] that starts at or below the tip changes
    nothing for the headers already known and accepts the others one by one, so
    that [sync_chain] succeeds and the active chain reaches the end of the
    message.  The locators the node sends always name a block of its active
    chain no deeper than 1024. *)

From stdpp Require Import base numbers list gmap sorting strings.
From Stdlib Require Import ZArith Lia.
From S2P Require Import Prelude Bitcoin ChainTypes Graph Walk GraphFacts Reorg ActiveChain FilterMarks TreeProperties.
From S2P Require Import Checkpoints Batches BlockQueue Messages HeaderStore Chain ChainFacts ChainProperties.

Section Honest.
Context `{Bitcoin}.
Context (a : BlockHash) (b lo : Height) (n : Network) (best : list Header).
Context (commits : list FilterCommitment).

(** The hashes of the peer's chain from the anchor up. *)
Definition hashes_from : list BlockHash := a :: (block_hash <$> best).

(** The chain of an honest peer: linked, without two equal hashes, with valid
    proof of work and transitions of the difficulty, at heights below 2^32. *)
Record honest_chain : Prop := {
  hc_linked j h : best !! j = Some h -> hashes_from !! j = Some (prev_blockhash h);
  hc_distinct : NoDup hashes_from;
  hc_pow h : h ∈ best -> validate_pow h (header_target h) = true;
  hc_bits : allow_min_difficulty_blocks n = true \/
    forall i x y, best !! i = Some x -> best !! S i = Some y ->
      from_compact (bits y) <= max_transition_threshold (from_compact (bits x)) n;
  hc_height : -1 <= b /\ is_u32 (b + 1 + Z.of_nat (length best));
}.

(** The headers pass the audit of the difficulty when they are accepted in
    turn, wherever they land in the tree. *)
Fixpoint audited (t : BlockTree) (l : list Header) : Prop :=
  match l with
  | [] => True
  | h :: l' =>
      (forall w g, (accept_header t h).1 <> Rejected (InvalidPow w g)) /\
      audited (accept_header t h).2 l'
  end.

(** The active chain is the first [m] headers; the first [p] have their
    commitment and the first [q] a checked filter. *)
Record on_best (p q m : nat) (t : BlockTree) : Prop := {
  ob_wf : wf_tree a b t;
  ob_canonical : canonical_ok lo t;
  ob_chain : ih_header <$> iter_headers t = reverse (take m best);
  ob_length : (m <= length best)%nat;
  ob_collision h x : h ∈ best -> headers t !! block_hash h = Some x -> header x = h;
  ob_audited : audited t (drop m best);
  ob_marks_length : (p <= m)%nat /\ (q <= m)%nat;
  ob_marks j h x : (j < m)%nat -> best !! j = Some h -> headers t !! block_hash h = Some x ->
    filter_commitment x = (if decide (j < p)%nat then commits !! j else None) /\
    filter_checked x = bool_decide (j < q)%nat;
}.

Context (Hbest : honest_chain).

Lemma hashes_succ j h : best !! j = Some h -> hashes_from !! S j = Some (block_hash h).
Proof. intros Hj. unfold hashes_from. change ((block_hash <$> best) !! j = Some (block_hash h)). by rewrite list_lookup_fmap, Hj. Qed.

Lemma hashes_inj i j k : hashes_from !! i = Some k -> hashes_from !! j = Some k -> i = j.
Proof. intros Hi Hj. by eapply NoDup_lookup; [apply hc_distinct|..]. Qed.

Lemma best_not_anchor h : h ∈ best -> block_hash h <> a.
Proof.
  intros [j Hj]%list_elem_of_lookup Ha.
  pose proof (hashes_inj 0 (S j) a eq_refl) as Hi. rewrite (hashes_succ _ _ Hj), Ha in Hi.
  by specialize (Hi eq_refl).
Qed.

Lemma best_acyclic h : h ∈ best -> block_hash h <> prev_blockhash h.
Proof.
  intros [j Hj]%list_elem_of_lookup Heq. pose proof (hc_linked Hbest _ _ Hj) as Hp.
  rewrite <- Heq in Hp. pose proof (hashes_inj _ _ _ Hp (hashes_succ _ _ Hj)). lia.
Qed.

Lemma best_hash_inj h h' : h ∈ best -> h' ∈ best -> block_hash h = block_hash h' -> h = h'.
Proof.
  intros [i Hi]%list_elem_of_lookup [j Hj]%list_elem_of_lookup Heq.
  pose proof (hashes_succ _ _ Hi) as Hi'. rewrite Heq in Hi'.
  pose proof (hashes_inj _ _ _ Hi' (hashes_succ _ _ Hj)) as [= ->]. congruence.
Qed.

(** ** The tree on the peer's chain *)

Section OnBest.
Context {p q m : nat} {t : BlockTree} (Ht : on_best p q m t).

(** The active chain as a walk: the block at depth [i] is the header [m - 1 - i]. *)
Lemma on_best_walk l :
  chain_from (headers t) (th (active_tip t)) l ->
  length l = m /\
  forall i k x, l !! i = Some (k, x) ->
    best !! (m - 1 - i)%nat = Some (header x) /\ hashes_from !! (m - i)%nat = Some k.
Proof.
  intros Hc. pose proof (ob_chain _ _ _ _ Ht) as Hch.
  rewrite (iter_headers_chain _ _ _ _ (ob_wf _ _ _ _ Ht) Hc) in Hch.
  rewrite <- list_fmap_compose in Hch.
  assert (length l = m) as Hlen.
  { apply (f_equal length) in Hch. rewrite length_fmap, length_reverse, length_take in Hch.
    pose proof (ob_length _ _ _ _ Ht). lia. }
  split; [done|]. intros i k x Hi.
  pose proof (lookup_lt_Some _ _ _ Hi) as Hlt.
  apply (f_equal (.!! i)) in Hch. rewrite list_lookup_fmap, Hi in Hch. cbn in Hch. symmetry in Hch.
  pose proof (ob_length _ _ _ _ Ht).
  rewrite reverse_lookup, length_take, lookup_take in Hch
    by (rewrite length_take; lia).
  rewrite decide_True in Hch by lia.
  replace (m `min` length best - S i)%nat with (m - 1 - i)%nat in Hch by lia.
  split; [done|]. apply hashes_succ in Hch. replace (S (m - 1 - i)) with (m - i)%nat in Hch by lia.
  rewrite Hch. f_equal. eapply (wf_key _ _ _ (wt_headers _ _ _ (ob_wf _ _ _ _ Ht))).
  eapply chain_from_lookup; [exact Hc|]. by eapply list_elem_of_lookup_2.
Qed.

Lemma on_best_tip :
  tip_height (active_tip t) = b + Z.of_nat m /\
  hashes_from !! m = Some (th (active_tip t)).
Proof.
  destruct (active_walk _ _ _ (ob_wf _ _ _ _ Ht)) as [l Hc].
  destruct (on_best_walk _ Hc) as [Hlen Hl].
  pose proof (wt_tip _ _ _ (ob_wf _ _ _ _ Ht)) as Htip.
  assert (Z.of_nat (length l) = Z.of_nat m) as HlenZ by lia. clear Hlen.
  inversion Hc as [k Hk|k x l' Hk Hl']; subst l.
  - rewrite Hk in Htip. cbn in HlenZ. assert (m = 0%nat) as Hm by lia. destruct Htip as (Ha & Hb & _). rewrite Ha, Hm. split; [lia|done].
  - destruct (walk_heights _ _ _ _ _ _ (wt_headers _ _ _ (ob_wf _ _ _ _ Ht)) Hc Hk) as [Hh _].
    rewrite Hk in Htip. split; [cbn in *; lia|].
    pose proof (Hl 0%nat _ _ eq_refl) as [_ Hx]. by rewrite Nat.sub_0_r in Hx.
Qed.

(** A header of the chain already known is stored. *)
Lemma on_best_known j h :
  (j < m)%nat -> best !! j = Some h ->
  exists x, headers t !! block_hash h = Some x /\ header x = h.
Proof.
  intros Hj Hh. destruct (active_walk _ _ _ (ob_wf _ _ _ _ Ht)) as [l Hc].
  destruct (on_best_walk _ Hc) as [Hlen Hl].
  destruct (lookup_lt_is_Some_2 l (m - 1 - j)) as [[k x] Hi]; [lia|].
  destruct (Hl _ _ _ Hi) as [Hx Hk].
  replace (m - 1 - (m - 1 - j))%nat with j in Hx by lia.
  assert (header x = h) as Hxh by congruence.
  replace (m - (m - 1 - j))%nat with (S j) in Hk by lia.
  rewrite (hashes_succ _ _ Hh) in Hk. injection Hk as Hk. exists x. split; [|done].
  rewrite Hk. eapply chain_from_lookup; [exact Hc|]. by eapply list_elem_of_lookup_2.
Qed.

(** The headers above it are not. *)
Lemma on_best_fresh j h :
  (m <= j)%nat -> best !! j = Some h -> headers t !! block_hash h = None.
Proof.
  intros Hmj. revert h. induction (Nat.lt_wf_0 j) as [j _ IH]. intros h Hh.
  destruct (headers t !! block_hash h) as [x|] eqn:Hx; [exfalso|done].
  assert (header x = h) as Hxh.
  { eapply (ob_collision _ _ _ _ Ht); [|done]. by eapply list_elem_of_lookup_2. }
  pose proof (hc_linked Hbest _ _ Hh) as Hp. destruct on_best_tip as [_ Htip].
  assert (node_prev x = prev_blockhash h) as Hprev by (unfold node_prev; by rewrite Hxh).
  destruct (decide (j = m)) as [->|Hne].
  - apply (wt_leaf _ _ _ (ob_wf _ _ _ _ Ht) _ _ Hx). congruence.
  - destruct j as [|j]; [lia|].
    destruct (lookup_lt_is_Some_2 best j) as [g Hg];
      [pose proof (lookup_lt_Some _ _ _ Hh); lia|].
    pose proof (IH j ltac:(lia) ltac:(lia) _ Hg) as Hnone.
    rewrite (hashes_succ _ _ Hg) in Hp. injection Hp as Hp.
    assert (headers t !! node_prev x = None) as Hnp by congruence.
    destruct (wf_bottom (wt_headers _ _ _ (ob_wf _ _ _ _ Ht)) _ _ Hx Hnp) as [Ha _].
    apply (best_not_anchor g); [by eapply list_elem_of_lookup_2|congruence].
Qed.

Lemma on_best_contains j h :
  best !! j = Some h -> contains t (block_hash h) = bool_decide (j < m)%nat.
Proof.
  intros Hj. unfold contains. destruct on_best_tip as [_ Htip].
  destruct (decide (j < m)%nat) as [Hlt|Hge].
  - destruct (on_best_known j h) as (x & Hx & _); [done..|].
    rewrite (bool_decide_true (j < m)%nat), (bool_decide_true (is_Some _)) by eauto. done.
  - rewrite (on_best_fresh j h) by (done || lia). rewrite (bool_decide_false (j < m)%nat) by done.
    apply bool_decide_false. intros Heq. rewrite Heq in Htip.
    pose proof (hashes_inj _ _ _ Htip (hashes_succ _ _ Hj)). lia.
Qed.

(** A header already known changes nothing. *)
Lemma accept_known j h :
  (j < m)%nat -> best !! j = Some h -> accept_header t h = (Duplicate, t).
Proof.
  intros Hj Hh. destruct (on_best_known _ _ Hj Hh) as (x & Hx & Hxh). unfold accept_header.
  rewrite decide_False; [by rewrite decide_True by (by eexists)|].
  intros Heq. apply (wt_leaf _ _ _ (ob_wf _ _ _ _ Ht) _ _ Hx). unfold node_prev. congruence.
Qed.

Lemma pow_rejected_bits required h e :
  pow_rejected required h = Some e -> exists w, e = InvalidPow w (bits h).
Proof. unfold pow_rejected. destruct required; [case_decide|]; intros [= <-]; eauto. Qed.

(** The next one is accepted, and the tree is one further. *)
Lemma accept_next h :
  best !! m = Some h ->
  exists t', accept_header t h = (Accepted (mkIndexedHeader (b + 1 + Z.of_nat m) h), t') /\
    on_best p q (S m) t'.
Proof.
  intros Hh. destruct on_best_tip as [Hth Htip].
  assert (h ∈ best) as Hin by (by eapply list_elem_of_lookup_2).
  pose proof (lookup_lt_Some _ _ _ Hh) as Hlt.
  destruct (hc_height Hbest) as [Hlow Hhigh].
  assert (is_u32 (tip_height (active_tip t) + 1)) as Hu.
  { unfold is_u32 in *. lia. }
  assert (th (active_tip t) = prev_blockhash h) as Hprev.
  { pose proof (hc_linked Hbest _ _ Hh). congruence. }
  pose proof (ob_audited _ _ _ _ Ht) as Haud. rewrite (drop_S _ _ _ Hh) in Haud.
  destruct Haud as [Hbits Haud].
  assert (pow_rejected (next_work t (increment (tip_height (active_tip t)))
            (next_work_required (active_tip t))) h = None) as Hpow.
  { destruct (pow_rejected _ h) as [e|] eqn:He; [exfalso|done].
    destruct (pow_rejected_bits _ _ _ He) as [w ->]. apply (Hbits w (bits h)).
    unfold accept_header. rewrite decide_True by done. unfold extend_tip. by rewrite He. }
  assert (header_ok a t h) as Hok.
  { split.
    - intros x. by apply (ob_collision _ _ _ _ Ht).
    - by apply best_not_anchor.
    - by apply best_acyclic.
    - done.
    - intros x Hx. rewrite <- Hprev in Hx. pose proof (wt_tip _ _ _ (ob_wf _ _ _ _ Ht)) as Hw.
      rewrite Hx in Hw. by rewrite Hw. }
  pose proof (accept_header_spec _ _ _ _ (ob_wf _ _ _ _ Ht) Hok) as Hspec.
  assert (exists t', accept_header t h = (Accepted (mkIndexedHeader (b + 1 + Z.of_nat m) h), t') /\
      tip_height (active_tip t) <= tip_height (active_tip t') /\
      forall k x, headers t' !! k = Some x ->
        (k = block_hash h /\ header x = h /\ filter_commitment x = None /\ filter_checked x = false) \/
        headers t !! k = Some x)
    as (t' & Hacc & Hle & Hins).
  { unfold accept_header. rewrite decide_True by done. unfold extend_tip. rewrite Hpow.
    rewrite increment_small by done. eexists. split; [do 3 f_equal; lia|].
    split; [cbn; lia|].
    cbn. intros k x [[-> <-]|[_ Hx]]%lookup_insert_Some; [by left|by right]. }
  exists t'. split; [done|]. rewrite Hacc in Hspec, Haud. cbn [fst snd] in Hspec, Haud.
  pose proof (accept_spec_wf _ _ _ _ _ _ (ob_wf _ _ _ _ Ht) Hok Hspec) as Hwf'.
  destruct (accept_spec_chain _ _ _ _ _ _ (ob_wf _ _ _ _ Ht) Hok Hspec) as [_ Hch].
  split; try done.
  - eapply accept_spec_canonical; [apply (ob_wf _ _ _ _ Ht)|done|apply (ob_canonical _ _ _ _ Ht)|done|done].
  - rewrite Hch, fmap_cons, (ob_chain _ _ _ _ Ht), (take_S_r _ _ _ Hh), reverse_app. done.
  - intros g x Hg Hx. destruct (Hins _ _ Hx) as [(Heq & Hxh & _)|Hx'].
    + by rewrite (best_hash_inj _ _ Hg Hin Heq).
    + by eapply (ob_collision _ _ _ _ Ht).
  - pose proof (ob_marks_length _ _ _ _ Ht). lia.
  - pose proof (ob_marks_length _ _ _ _ Ht) as Hpq.
    intros j g x Hj Hg Hx. destruct (Hins _ _ Hx) as [(Heq & _ & Hc & Hck)|Hx'].
    + assert (j = m) as ->.
      { apply hashes_succ in Hg. rewrite Heq in Hg.
        pose proof (hashes_inj _ _ _ Hg (hashes_succ _ _ Hh)). lia. }
      by rewrite Hc, Hck, decide_False, bool_decide_false by lia.
    + destruct (decide (j = m)) as [->|Hne].
      * rewrite Hg in Hh. injection Hh as ->. rewrite (on_best_fresh m h) in Hx' by (done || lia). done.
      * apply (ob_marks _ _ _ _ Ht j g x); (done || lia).
Qed.

(** The first locator names a block of the active chain at depth at most 1024. *)
Lemma locators_first :
  exists k rest j, locators t = k :: rest /\ hashes_from !! j = Some k /\ (j <= m)%nat /\
    (m <= j + 1024)%nat.
Proof.
  destruct on_best_tip as [Hth Htip].
  assert (forall index acc,
    Forall (fun d => 0 <= d <= 1024) index ->
    (exists k acc' j, acc = acc' ++ [k] /\ hashes_from !! j = Some k /\ (j <= m <= j + 1024)%nat) ->
    exists k acc' j, locators_loop t index acc = acc' ++ [k] /\ hashes_from !! j = Some k /\
      (j <= m <= j + 1024)%nat) as Hloop.
  { induction index as [|d index IH]; intros acc Hall Hacc; [done|]. cbn [locators_loop].
    inversion_clear Hall as [|? ? Hd Hall'].
    destruct (u32_checked_sub _ d) as [g|] eqn:Hg; [|done].
    apply u32_checked_sub_Some in Hg as [_ ->].
    destruct (block_hash_at_height t _) as [k|] eqn:Hk; [|done].
    apply IH; [done|]. unfold block_hash_at_height in Hk. case_decide as Heq.
    - exists k, acc, m. injection Hk as <-. split; [done|]. split; [done|lia].
    - destruct (can_sound _ _ (ob_canonical _ _ _ _ Ht) _ _ Hk) as (x & (l & Hc & Hin) & Hx).
      apply list_elem_of_lookup in Hin as [i Hi].
      destruct (on_best_walk _ Hc) as [Hlen Hl]. destruct (Hl _ _ _ Hi) as [_ Hki].
      exists k, acc, (m - i)%nat. split; [done|]. split; [done|].
      assert (exists y, headers t !! th (active_tip t) = Some y) as [y Hy].
      { inversion Hc; subst; [done|]. eauto. }
      destruct (walk_heights _ _ _ _ _ _ (wt_headers _ _ _ (ob_wf _ _ _ _ Ht)) Hc Hy) as [_ Hh].
      pose proof (Hh _ _ Hi) as Hxi. cbn in Hxi. pose proof (wt_tip _ _ _ (ob_wf _ _ _ _ Ht)) as Hw.
      rewrite Hy in Hw. lia. }
  destruct (Hloop LOCATOR_INDEX [th (active_tip t)]) as (k & acc & j & Hlk & Hj & Hjm).
  - repeat constructor; lia.
  - exists (th (active_tip t)), [], m. split; [done|]. split; [done|lia].
  - exists k, (reverse acc), j. unfold locators. rewrite Hlk, reverse_app. repeat split; (done || lia).
Qed.
End OnBest.
End Honest.

(** ** Messages *)

Section Messages.
Context `{Bitcoin} {D : Type} `{HeaderStore D}.
Context (a : BlockHash) (b lo : Height) (n : Network) (best : list Header).
Context (commits : list FilterCommitment) (contents : list bytes) (Hbest : honest_chain a b n best).
Implicit Types c : Chain D.

(** A chain that is behind an honest peer: its tree is on the peer's chain,
    the checkpoints ahead are on it too, the peer's height is the highest that
    was advertised, one peer makes the quorum and none is being counted, and the
    filters of the peer can be read. *)
Record following (p q m : nat) (c : Chain D) : Prop := {
  fo_tree : on_best a b lo best commits p q m (header_chain c);
  fo_network : ch_network c = n;
  fo_checkpoints cp j h : cp ∈ checkpoints (ch_checkpoints c) -> best !! j = Some h ->
    cp_height cp = b + 1 + Z.of_nat j -> block_hash h = cp_hash cp;
  fo_heights : hm_max (heights c) = Some (b + Z.of_nat (length best));
  fo_agreements : current (agreement_state (request_state c)) = 0 /\
                  required (agreement_state (request_state c)) <= 1;
  fo_pending : pending_batch (request_state c) = None;
  fo_readable j h content : best !! j = Some h -> contents !! j = Some content ->
    match_any content (block_hash h) (elements (scripts c)) <> None;
}.

Lemma following_set_tree p q m p' q' m' t c :
  following p q m c -> on_best a b lo best commits p' q' m' t -> following p' q' m' (set_tree t c).
Proof. intros [] Ht. by split. Qed.

Lemma following_advance p q m c :
  following p q m c -> following p q m (set_checkpoints (checkpoints_advance (ch_checkpoints c)) c).
Proof.
  intros [Ht Hn Hcp]. split; try done. cbn. intros cp j h Hin. apply Hcp.
  destruct (checkpoints _); [done|by right].
Qed.

(** One header of a message: [j] is its place in the peer's chain. *)
Lemma sync_one_follows p q m j h ncp c :
  following p q m c -> best !! j = Some h -> (j <= m)%nat ->
  (forall cp, ncp = Some cp -> cp_height cp = b + 1 + Z.of_nat j -> block_hash h = cp_hash cp) ->
  exists c', sync_one ncp h c = (inr false, c') /\ following p q (m `max` S j) c'.
Proof.
  intros Hf Hj Hjm Hncp. unfold sync_one, accept.
  destruct (decide (j < m)%nat) as [Hlt|Hge].
  - exists (set_tree (header_chain c) c). split.
    + unfold mbind, ST_bind, st_run. by rewrite (accept_known _ _ _ _ _ (fo_tree _ _ _ _ Hf) _ _ Hlt Hj).
    + rewrite Nat.max_l by lia. by eapply following_set_tree; [|apply (fo_tree _ _ _ _ Hf)].
  - assert (j = m) as -> by lia. rewrite Nat.max_r by lia.
    destruct (accept_next _ _ _ _ _ _ Hbest (fo_tree _ _ _ _ Hf) _ Hj) as (t' & Hacc & Ht').
    pose proof (following_set_tree _ _ _ _ _ _ _ _ Hf Ht') as Hf'.
    assert (following p q (S m) (stage (Connected (mkIndexedHeader (b + 1 + Z.of_nat m) h))
              (set_tree t' c))) as Hf2 by (destruct Hf'; by split).
    unfold mbind, ST_bind, st_run. rewrite Hacc. cbn [st_modify].
    destruct ncp as [cp|]; [|by eexists]. cbn [ih_height ih_header].
    destruct (Z.eqb_spec (b + 1 + Z.of_nat m) (cp_height cp)) as [Heq|]; [|by eexists].
    rewrite (Hncp cp eq_refl (eq_sym Heq)), Z.eqb_refl. eexists. split; [done|].
    by apply following_advance.
Qed.

Lemma sync_loop_follows p q ncp flag k : forall m j c,
  following p q m c -> (j <= m)%nat ->
  (forall cp i h, ncp = Some cp -> best !! i = Some h ->
     cp_height cp = b + 1 + Z.of_nat i -> block_hash h = cp_hash cp) ->
  exists c', sync_loop ncp (take k (drop j best)) flag c = (inr flag, c') /\
    following p q (m `max` ((j + k) `min` length best)) c'.
Proof.
  induction k as [|k IH]; intros m j c Hf Hjm Hncp.
  - cbn. eexists. split; [done|]. rewrite Nat.max_l; [done|].
    pose proof (ob_length _ _ _ _ _ _ _ _ _ (fo_tree _ _ _ _ Hf)). lia.
  - destruct (best !! j) as [h|] eqn:Hj.
    + rewrite (drop_S _ _ _ Hj). cbn [take sync_loop].
      destruct (sync_one_follows p q m j h ncp c Hf Hj Hjm) as (c1 & Hone & Hf1).
      { intros cp Hcp. by eapply Hncp. }
      rewrite (st_bind_ok _ _ _ _ _ Hone), orb_false_r.
      destruct (IH _ (S j) c1 Hf1 ltac:(lia) Hncp) as (c2 & Hloop & Hf2).
      exists c2. split; [done|]. apply lookup_lt_Some in Hj.
      by replace (m `max` ((j + S k) `min` length best))%nat
        with ((m `max` S j) `max` ((S j + k) `min` length best))%nat by lia.
    + apply lookup_ge_None in Hj. rewrite drop_ge by done. cbn. eexists. split; [done|].
      pose proof (ob_length _ _ _ _ _ _ _ _ _ (fo_tree _ _ _ _ Hf)).
      by replace (m `max` ((j + S k) `min` length best))%nat with m by lia.
Qed.

Lemma segment_lookup j k i h :
  take k (drop j best) !! i = Some h <-> (i < k)%nat /\ best !! (j + i)%nat = Some h.
Proof. rewrite lookup_take_Some, lookup_drop. naive_solver. Qed.

Lemma segment_last j k :
  (0 < k)%nat -> (j < length best)%nat ->
  last (take k (drop j best)) = best !! ((j + k) `min` length best - 1)%nat.
Proof.
  intros Hk Hj. rewrite last_lookup, length_take, length_drop.
  rewrite lookup_take_lt, lookup_drop by lia. f_equal. lia.
Qed.

(** A segment of the peer's chain passes the checks of a message. *)
Lemma segment_sane j k c :
  ch_network c = n -> sanity_check (mkHeadersBatch (take k (drop j best))) c = (inr (), c).
Proof.
  intros Hn. set (msg := take k (drop j best)).
  destruct msg as [|h l] eqn:Hmsg; [|rewrite <- Hmsg].
  - unfold sanity_check. rewrite st_get_ok.
    unfold bits_adhere_transition. cbn. by destruct (allow_min_difficulty_blocks _).
  - destruct (headers_batch_checks n msg (mkHeadersBatch msg)) as (_ & _ & Hc & Hp & Hb);
      [by rewrite Hmsg|].
    unfold sanity_check. rewrite st_get_ok, Hn.
    rewrite !st_guard_ok; unfold st_guard.
    + rewrite (proj2 Hb); [done|]. destruct (hc_bits _ _ _ _ Hbest) as [Hm|Hall]; [by left|right].
      intros i x y [_ Hx]%segment_lookup [_ Hy]%segment_lookup.
      apply (Hall (j + i)%nat); [done|]. by rewrite <- Nat.add_succ_r.
    + apply Hp. intros x [i [_ Hx]%segment_lookup]%list_elem_of_lookup.
      apply (hc_pow _ _ _ _ Hbest). by eapply list_elem_of_lookup_2.
    + apply Hc. intros i x y [_ Hx]%segment_lookup [_ Hy]%segment_lookup.
      pose proof (hashes_succ a best _ _ Hx) as Hs. rewrite Nat.add_succ_r in Hy.
      pose proof (hc_linked _ _ _ _ Hbest _ _ Hy). congruence.
Qed.

Lemma write_headers_follows p q m c : following p q m c -> following p q m (write_headers c).
Proof.
  intros []. unfold write_headers. destruct (store_write _) as [[e|[]] d]; by split.
Qed.

(** A message of the peer that starts at or below the tip is accepted, and the
    chain then reaches its end. *)
Lemma sync_chain_follows p q m j k c :
  following p q m c -> (j <= m)%nat -> (m < length best)%nat -> (m < j + k)%nat ->
  exists c', sync_chain (take k (drop j best)) c = (inr (), c') /\
    following p q ((j + k) `min` length best) c'.
Proof.
  intros Hf Hjm Hlen Hk. unfold sync_chain.
  assert (headers_batch_new (take k (drop j best)) = inr (mkHeadersBatch (take k (drop j best))))
    as ->.
  { destruct (lookup_lt_is_Some_2 (take k (drop j best)) 0) as [h Hh];
      [rewrite length_take, length_drop; lia|]. by destruct (take k (drop j best)). }
  rewrite st_get_ok.
  unfold headers_batch_last. cbn [hb_batch].
  destruct (lookup_lt_is_Some_2 best ((j + k) `min` length best - 1)) as [h Hh]; [lia|].
  rewrite segment_last, Hh by lia. cbn [fmap option_fmap option_map from_option id].
  rewrite (on_best_contains _ _ _ _ _ _ Hbest (fo_tree _ _ _ _ Hf) _ _ Hh), bool_decide_false by lia.
  rewrite (st_bind_ok _ _ _ _ _ (segment_sane j k c (fo_network _ _ _ _ Hf))).
  rewrite st_get_ok.
  destruct (sync_loop_follows p q (checkpoints_next (ch_checkpoints c)) false k m j c Hf Hjm)
    as (c1 & Hloop & Hf1).
  { intros cp i g Hcp. apply (fo_checkpoints _ _ _ _ Hf).
    unfold checkpoints_next in Hcp. destruct (checkpoints _); [done|]. injection Hcp as ->. by left. }
  rewrite (st_bind_ok _ _ _ _ _ Hloop), st_modify_ok.
  eexists. split; [done|]. apply write_headers_follows.
  by replace ((j + k) `min` length best)%nat with (m `max` ((j + k) `min` length best))%nat by lia.
Qed.

(** A message without news changes nothing. *)
Lemma sync_chain_no_news p q j k c :
  following p q (length best) c -> (0 < k)%nat -> (j <= length best)%nat ->
  sync_chain (take k (drop j best)) c =
    (if decide (j = length best) then inl EmptyMessage else inr (), c).
Proof.
  intros Hf Hk Hj. unfold sync_chain. case_decide as Heq.
  - rewrite drop_ge by lia. by rewrite take_nil.
  - assert (headers_batch_new (take k (drop j best)) = inr (mkHeadersBatch (take k (drop j best))))
      as ->.
    { destruct (lookup_lt_is_Some_2 (take k (drop j best)) 0) as [h Hh];
        [rewrite length_take, length_drop; lia|]. by destruct (take k (drop j best)). }
    rewrite st_get_ok.
    unfold headers_batch_last. cbn [hb_batch].
    destruct (lookup_lt_is_Some_2 best ((j + k) `min` length best - 1)) as [h Hh]; [lia|].
    rewrite segment_last, Hh by lia. cbn [fmap option_fmap option_map from_option id].
    rewrite (on_best_contains _ _ _ _ _ _ Hbest (fo_tree _ _ _ _ Hf) _ _ Hh).
    by rewrite bool_decide_true by lia.
Qed.

(** The chain is synchronized exactly at the end of the peer's chain. *)
Lemma following_synced p q m c : following p q m c -> is_synced c = bool_decide (m = length best).
Proof.
  intros Hf. unfold is_synced. rewrite (fo_heights _ _ _ _ Hf).
  destruct (on_best_tip _ _ _ _ _ (fo_tree _ _ _ _ Hf)) as [Hh _]. unfold tree_height. rewrite Hh.
  pose proof (ob_length _ _ _ _ _ _ _ _ _ (fo_tree _ _ _ _ Hf)).
  case_bool_decide; [apply Z.leb_le|apply Z.leb_gt]; lia.
Qed.
End Messages.
