(* ===== verification/FilterProgress.v ===== *)
(** * Following an honest peer: filter headers and filters make progress

    With the headers of an honest peer in place, the filter headers of the peer
    are committed 2000 at a time and its filters checked 1000 at a time: the next
    request starts right above what is done, and its answer moves the mark to
    the end of the request.  The marks are counted from the bottom of the chain:
    [on_best p q m t] has [m] headers, [p] commitments and [q] checked filters. *)

From stdpp Require Import base numbers list gmap sorting strings.
From Stdlib Require Import ZArith Lia.
From S2P Require Import Prelude Bitcoin ChainTypes Graph Walk GraphFacts Reorg ActiveChain FilterMarks TreeProperties.
From S2P Require Import Checkpoints Batches BlockQueue Messages HeaderStore Chain ChainFacts FilterSync ChainProperties.
From S2P Require Import HeaderSync.

Section Progress.
Context `{Bitcoin} {D : Type} `{HeaderStore D}.
Context (a : BlockHash) (b lo : Height) (n : Network) (best : list Header).
Context (prev0 : FilterHeader) (contents : list bytes).

(** What an honest peer commits to: the filter headers from the one below its
    chain, in order. *)
Definition peer_commits : list FilterCommitment :=
  commitments_from prev0 (filter_hash_of <$> contents).

Context (Hbest : honest_chain a b n best) (Hcontents : length contents = length best).
Context (Hlo : lo <= b + 2) (Hroom : is_u32 (b + 2000 + Z.of_nat (length best))).

Abbreviation on_best := (on_best a b lo best peer_commits) (only parsing).
Abbreviation following := (following (D := D) a b lo n best peer_commits contents) (only parsing).

Lemma peer_commits_length : length peer_commits = length best.
Proof. unfold peer_commits. by rewrite commitments_length, length_fmap. Qed.

(** ** The active chain as a list of nodes, the newest first *)

Section Data.
Context {p q m : nat} {t : BlockTree} (Ht : on_best p q m t).

Record at_index (j : nat) (x : BlockNode) : Prop := {
  ai_header : best !! j = Some (header x);
  ai_stored : headers t !! block_hash (header x) = Some x;
  ai_height : node_height x = b + 1 + Z.of_nat j;
  ai_commitment : filter_commitment x = if decide (j < p)%nat then peer_commits !! j else None;
  ai_checked : filter_checked x = bool_decide (j < q)%nat;
}.

Lemma data_length : length (iter_data t) = m.
Proof.
  destruct (active_walk _ _ _ (ob_wf _ _ _ _ _ _ _ _ _ Ht)) as [l Hc].
  rewrite (iter_data_chain _ _ _ _ (ob_wf _ _ _ _ _ _ _ _ _ Ht) Hc), length_fmap.
  by apply (on_best_walk _ _ _ _ _ Ht).
Qed.

Lemma data_index d x : iter_data t !! d = Some x -> at_index (m - 1 - d) x.
Proof.
  intros Hx. pose proof (lookup_lt_Some _ _ _ Hx) as Hd. rewrite data_length in Hd.
  pose proof (ob_wf _ _ _ _ _ _ _ _ _ Ht) as Hwf.
  destruct (active_walk _ _ _ Hwf) as [l Hc].
  rewrite (iter_data_chain _ _ _ _ Hwf Hc), list_lookup_fmap in Hx.
  destruct (l !! d) as [[k y]|] eqn:Hl; [|done]. injection Hx as <-.
  destruct (on_best_walk _ _ _ _ _ Ht _ Hc) as [Hlen Hwalk].
  destruct (Hwalk _ _ _ Hl) as [Hh _]. cbn [snd] in *.
  assert ((k, y) ∈ l) as Hin by (by eapply list_elem_of_lookup_2).
  pose proof (chain_from_lookup _ _ _ _ _ Hc Hin) as Hk.
  pose proof (wf_key _ _ _ (wt_headers _ _ _ Hwf) _ _ Hk) as Hkey.
  rewrite <- Hkey in Hk.
  destruct (ob_marks _ _ _ _ _ _ _ _ _ Ht (m - 1 - d)%nat _ _ ltac:(lia) Hh Hk) as [Hcm Hck].
  split; try done.
  assert (exists z, headers t !! th (active_tip t) = Some z) as [z Hz].
  { inversion Hc; subst; [by apply elem_of_nil in Hin|]. eauto. }
  destruct (walk_heights _ _ _ _ _ _ (wt_headers _ _ _ Hwf) Hc Hz) as [Hl1 Hl2].
  pose proof (Hl2 _ _ Hl) as Hyh. cbn in Hyh. lia.
Qed.

Lemma index_data j : (j < m)%nat -> exists x, iter_data t !! (m - 1 - j)%nat = Some x /\ at_index j x.
Proof.
  intros Hj. destruct (lookup_lt_is_Some_2 (iter_data t) (m - 1 - j)) as [x Hx].
  { rewrite data_length. lia. }
  exists x. split; [done|]. pose proof (data_index _ _ Hx) as Hi.
  by replace (m - 1 - (m - 1 - j))%nat with j in Hi by lia.
Qed.

Lemma commitment_at j x : at_index j x -> is_Some (filter_commitment x) <-> (j < p)%nat.
Proof.
  intros Hx. rewrite (ai_commitment _ _ Hx). case_decide as Hj; [|by split; [intros [? ?]|]].
  split; [done|]. intros _. apply lookup_lt_is_Some_2. rewrite peer_commits_length.
  by eapply lookup_lt_Some, ai_header.
Qed.

(** ** What is synchronized *)

Lemma cf_headers_synced_iff : filter_headers_synced t = bool_decide (p = m).
Proof.
  destruct (ob_marks_length _ _ _ _ _ _ _ _ _ Ht) as [Hp _]. unfold filter_headers_synced.
  case_bool_decide as Heq.
  - apply forallb_lookup. intros d x Hd. apply bool_decide_eq_true.
    pose proof (lookup_lt_Some _ _ _ Hd) as Hlt. rewrite data_length in Hlt.
    apply (commitment_at _ _ (data_index _ _ Hd)). lia.
  - apply not_true_iff_false. rewrite forallb_lookup. intros Hall.
    destruct (index_data p) as (x & Hd & Hx); [lia|].
    specialize (Hall _ _ Hd). apply bool_decide_eq_true in Hall.
    apply (commitment_at _ _ Hx) in Hall. lia.
Qed.

Lemma filters_synced_iff : filters_synced t = bool_decide (q = m).
Proof.
  destruct (ob_marks_length _ _ _ _ _ _ _ _ _ Ht) as [_ Hq]. unfold filters_synced.
  case_bool_decide as Heq.
  - apply forallb_lookup. intros d x Hd.
    pose proof (lookup_lt_Some _ _ _ Hd) as Hlt. rewrite data_length in Hlt.
    rewrite (ai_checked _ _ (data_index _ _ Hd)). apply bool_decide_eq_true. lia.
  - apply not_true_iff_false. rewrite forallb_lookup. intros Hall.
    destruct (index_data q) as (x & Hd & Hx); [lia|].
    specialize (Hall _ _ Hd). rewrite (ai_checked _ _ Hx), bool_decide_eq_true in Hall. lia.
Qed.

(** ** The next requests *)

(** The boundary of a mark along the list: [l1] is not marked, and [l2] starts
    with a marked node. *)
Lemma mark_boundary (k : nat) (P : BlockNode -> Prop) l1 l2 :
  (k < m)%nat -> (forall j x, at_index j x -> P x <-> (j < k)%nat) ->
  iter_data t = l1 ++ l2 -> Forall (fun x => ~ P x) l1 ->
  match l2 with [] => True | x :: _ => P x end ->
  exists x, last l1 = Some x /\ at_index k x /\
    match l2 with [] => k = 0%nat | y :: _ => (0 < k)%nat /\ at_index (k - 1) y end.
Proof.
  intros Hk HP Hsplit Hall Hhd. rewrite Forall_lookup in Hall.
  pose proof data_length as Hlen. rewrite Hsplit, length_app in Hlen.
  assert (forall d x, iter_data t !! d = Some x -> (d < length l1)%nat -> (k <= m - 1 - d)%nat) as Hlow.
  { intros d x Hd Hlt. pose proof Hd as Hd'. rewrite Hsplit, lookup_app_l in Hd' by done.
    pose proof (Hall _ _ Hd') as Hn. rewrite (HP _ _ (data_index _ _ Hd)) in Hn. lia. }
  assert (length l1 = m - k)%nat as Hl1.
  { destruct (index_data k Hk) as (x & Hd & Hx).
    destruct (decide (length l1 = 0)%nat) as [Hz|Hz].
    - destruct l1; [|done]. destruct l2 as [|y l2]; [cbn in Hlen; lia|]. exfalso.
      assert (iter_data t !! 0%nat = Some y) as Hy by (by rewrite Hsplit).
      apply (HP _ _ (data_index _ _ Hy)) in Hhd. lia.
    - destruct (lookup_lt_is_Some_2 (iter_data t) (length l1 - 1)) as [z Hzz].
      { rewrite data_length. lia. }
      pose proof (Hlow _ _ Hzz ltac:(lia)).
      destruct l2 as [|y l2]; [|].
      + cbn in Hlen. destruct (lookup_lt_is_Some_2 (iter_data t) (m - 1)) as [w Hw];
          [rewrite data_length; lia|]. pose proof (Hlow _ _ Hw ltac:(lia)). lia.
      + assert (iter_data t !! length l1 = Some y) as Hy.
        { rewrite Hsplit, lookup_app_r, Nat.sub_diag by lia. done. }
        apply (HP _ _ (data_index _ _ Hy)) in Hhd. cbn in Hlen. lia. }
  destruct (index_data k Hk) as (x & Hd & Hx). exists x. split; [|split; [done|]].
  - rewrite last_lookup, Hl1. rewrite Hsplit, lookup_app_l in Hd by lia.
    by replace (pred (m - k)) with (m - 1 - k)%nat by lia.
  - destruct l2 as [|y l2]; [cbn in Hlen; lia|]. cbn in Hlen.
    assert (iter_data t !! length l1 = Some y) as Hy.
    { rewrite Hsplit, lookup_app_r, Nat.sub_diag by lia. done. }
    pose proof (data_index _ _ Hy) as Hi. split; [lia|].
    by replace (m - 1 - length l1)%nat with (k - 1)%nat in Hi by lia.
Qed.

(** The filter header a request at [j] expects. *)
Definition expected_before (j : nat) : option FilterHeader :=
  match j with O => None | S i => fc_header <$> peer_commits !! i end.

Lemma cf_cursor_at :
  (p < m)%nat ->
  cf_cursor (iter_data t) (tree_height t) = (b + 1 + Z.of_nat p, expected_before p) /\
  exists x, x ∈ iter_data t /\ at_index p x.
Proof.
  intros Hp. pose proof (cf_cursor_spec (iter_data t) (tree_height t)) as Hcur.
  destruct (cf_cursor _ _) as [start prev]. destruct Hcur as (l1 & l2 & Hsplit & Hall & -> & Hprev).
  destruct (mark_boundary p (fun x => is_Some (filter_commitment x)) l1 l2 Hp commitment_at Hsplit)
    as (x & Hlast & Hx & Hl2).
  { eapply Forall_impl; [done|]. cbn. by intros y -> [? ?]. }
  { destruct l2 as [|y l2]; [done|]. destruct Hprev as [[v Hv] Hpr]. rewrite Hv in Hpr.
    destruct (filter_commitment y); [by eexists|done]. }
  rewrite Hlast. cbn [fmap option_fmap option_map from_option id]. rewrite (ai_height _ _ Hx). split.
  - f_equal. destruct l2 as [|y l2].
    + by rewrite Hl2, Hprev.
    + destruct Hl2 as [Hpos Hy]. destruct Hprev as [_ ->]. rewrite (ai_commitment _ _ Hy).
      rewrite decide_True by lia. destruct p as [|p']; [lia|]. cbn. by rewrite Nat.sub_0_r.
  - exists x. split; [|done]. rewrite Hsplit. apply elem_of_app. left. by apply last_Some_elem_of.
Qed.

Lemma filter_cursor_at :
  (q < m)%nat ->
  filter_cursor (iter_data t) (tree_height t) = b + 1 + Z.of_nat q /\
  exists x, x ∈ iter_data t /\ at_index q x.
Proof.
  intros Hq. destruct (filter_cursor_spec (iter_data t) (tree_height t))
    as (l1 & l2 & Hsplit & Hall & -> & Hl).
  destruct (mark_boundary q (fun x => filter_checked x = true) l1 l2 Hq) as (x & Hlast & Hx & _).
  { intros j y Hy. by rewrite (ai_checked _ _ Hy), bool_decide_eq_true. }
  { done. }
  { eapply Forall_impl; [done|]. cbn. by intros y ->. }
  { by destruct l2. }
  rewrite Hlast. cbn [fmap option_fmap option_map from_option id]. rewrite (ai_height _ _ Hx). split; [done|].
  exists x. split; [|done]. rewrite Hsplit. apply elem_of_app. left. by apply last_Some_elem_of.
Qed.

(** The stop hash of a request that starts at [j]: the block [size] higher, or
    the tip. *)
Lemma stop_at j x size :
  x ∈ iter_data t -> at_index j x -> 999 <= size <= 1999 ->
  exists h, best !! ((j + Z.to_nat size) `min` (m - 1))%nat = Some h /\
    default (tip_hash t) (block_hash_at_height t (u32_add (b + 1 + Z.of_nat j) size)) = block_hash h.
Proof.
  intros Hin Hx Hsize. pose proof (ob_wf _ _ _ _ _ _ _ _ _ Ht) as Hwf.
  pose proof (ob_canonical _ _ _ _ _ _ _ _ _ Ht) as Hcan.
  pose proof (ob_length _ _ _ _ _ _ _ _ _ Ht) as Hml.
  pose proof (lookup_lt_Some _ _ _ (ai_header _ _ Hx)) as Hjl.
  destruct (on_best_tip _ _ _ _ _ Ht) as [Htip _]. destruct (hc_height _ _ _ _ Hbest) as [Hlow _].
  destruct (stop_hash_spec a b lo t _ size x Hwf Hcan Hin (ai_height _ _ Hx)) as (s & Hs & Hh & Hsh).
  { lia. } { lia. } { unfold is_u32 in *. lia. }
  apply list_elem_of_lookup in Hs as [d Hd]. pose proof (lookup_lt_Some _ _ _ Hd) as Hlt.
  rewrite data_length in Hlt. pose proof (data_index _ _ Hd) as Hs'.
  pose proof (ai_height _ _ Hs') as Hsi. unfold tree_height in Hsh. rewrite Htip in Hsh.
  exists (header s). rewrite Hh. split; [|done]. rewrite <- (ai_header _ _ Hs'). f_equal. lia.
Qed.
End Data.

(** ** Changing marks *)

Lemma on_best_remark p q p' q' t hs :
  on_best p q (length best) t -> same_skeleton hs (headers t) ->
  (p' <= length best)%nat -> (q' <= length best)%nat ->
  (forall j x y, at_index (p := p) (q := q) (t := t) j x -> hs !! block_hash (header x) = Some y ->
     filter_commitment y = (if decide (j < p')%nat then peer_commits !! j else None) /\
     filter_checked y = bool_decide (j < q')%nat) ->
  on_best p' q' (length best) (with_headers hs t).
Proof.
  intros Ht Hs Hp Hq Hm. pose proof (ob_wf _ _ _ _ _ _ _ _ _ Ht) as Hwf. split; try done.
  - by apply wf_tree_skeleton.
  - apply canonical_ok_skeleton; [done|]. apply (ob_canonical _ _ _ _ _ _ _ _ _ Ht).
  - rewrite (iter_headers_skeleton _ _ _ _ Hwf Hs). apply (ob_chain _ _ _ _ _ _ _ _ _ Ht).
  - intros h x Hh Hx. destruct (same_skeleton_Some _ _ _ _ Hs Hx) as (y & Hy & [= _ -> _]).
    by apply (ob_collision _ _ _ _ _ _ _ _ _ Ht).
  - by rewrite drop_ge.
  - intros j h y Hj Hh Hy. destruct (index_data Ht j Hj) as (x & _ & Hx).
    apply (Hm j x y Hx). pose proof (ai_header _ _ Hx). by replace (header x) with h by congruence.
Qed.

(** Two blocks of the chain have the same hash only at the same place. *)
Lemma at_index_inj p q t j k x y :
  at_index (p := p) (q := q) (t := t) j x -> at_index (p := p) (q := q) (t := t) k y ->
  block_hash (header x) = block_hash (header y) -> j = k.
Proof.
  intros Hx Hy Heq. pose proof (hashes_succ a best _ _ (ai_header _ _ Hx)) as Hj.
  rewrite Heq in Hj.
  pose proof (hashes_inj _ _ _ _ Hbest _ _ _ Hj (hashes_succ a best _ _ (ai_header _ _ Hy))). lia.
Qed.

(** The blocks below a block of the chain are on the path from it. *)
Lemma at_index_on_chain p q m t j k x y :
  on_best p q m t -> (k < m)%nat ->
  at_index (p := p) (q := q) (t := t) j x -> at_index (p := p) (q := q) (t := t) k y ->
  on_chain (headers t) (block_hash (header y)) (block_hash (header x)) x <-> (j <= k)%nat.
Proof.
  intros Ht Hkm Hx Hy. pose proof (ob_wf _ _ _ _ _ _ _ _ _ Ht) as Hwf.
  pose proof (wt_headers _ _ _ Hwf) as Hw. split.
  - intros (l & Hc & Hin). apply list_elem_of_lookup in Hin as [d Hd].
    destruct (walk_heights _ _ _ _ _ _ Hw Hc (ai_stored _ _ Hy)) as [_ Hh].
    pose proof (Hh _ _ Hd) as Hxh. cbn in Hxh. rewrite (ai_height _ _ Hx), (ai_height _ _ Hy) in Hxh. lia.
  - intros Hjk. destruct (active_walk _ _ _ Hwf) as [l Hc].
    assert (forall i z, (i < m)%nat -> at_index (p := p) (q := q) (t := t) i z ->
      l !! (m - 1 - i)%nat = Some (block_hash (header z), z)) as Hwalk.
    { intros i z Hi Hz. destruct (index_data Ht i Hi) as (z' & Hd & Hz').
      assert (z' = z) as ->.
      { pose proof (ai_stored _ _ Hz') as Hs. pose proof (ai_header _ _ Hz') as Hh'.
        replace (header z') with (header z) in Hs by (pose proof (ai_header _ _ Hz); congruence).
        pose proof (ai_stored _ _ Hz). congruence. }
      rewrite (iter_data_chain _ _ _ _ Hwf Hc), list_lookup_fmap in Hd.
      destruct (l !! _) as [[w z'']|] eqn:Hl; [|done]. injection Hd as <-. f_equal. f_equal.
      symmetry. eapply (wf_key _ _ _ Hw), chain_from_lookup; [exact Hc|].
      by eapply list_elem_of_lookup_2. }
    pose proof (Hwalk k y Hkm Hy) as Hly. pose proof (Hwalk j x ltac:(lia) Hx) as Hlx.
    rewrite <- (take_drop_middle _ _ _ Hly) in Hc. pose proof (chain_from_suffix _ _ _ _ _ _ Hc) as Hc'.
    eexists. split; [exact Hc'|].
    rewrite <- (drop_S _ _ _ Hly). apply list_elem_of_lookup. exists (k - j)%nat.
    rewrite lookup_drop. rewrite <- Hlx. f_equal. lia.
Qed.

(** ** Filter headers *)

Lemma commitments_take prev l k :
  commitments_from prev (take k l) = take k (commitments_from prev l).
Proof.
  revert prev k. induction l as [|h l IH]; intros prev [|k]; [done..|]. cbn. by rewrite IH.
Qed.

Definition before_in (prev : FilterHeader) (l : list FilterCommitment) (j : nat) : FilterHeader :=
  match j with O => prev | S i => default prev (fc_header <$> l !! i) end.

Lemma commitments_drop l : forall prev j,
  (j <= length l)%nat ->
  commitments_from (before_in prev (commitments_from prev l) j) (drop j l) =
    drop j (commitments_from prev l).
Proof.
  induction l as [|h l IH]; intros prev [|j] Hj; cbn in Hj; [done|lia|done|]. cbn [drop commitments_from].
  rewrite <- IH by lia. destruct j as [|j]; [done|]. cbn [before_in lookup list_lookup].
  destruct (lookup_lt_is_Some_2 (commitments_from (filter_header_of h prev) l) j) as [cm Hcm].
  { rewrite commitments_length. lia. }
  f_equal. trans (fc_header cm).
  - exact (f_equal (fun o => default prev (fc_header <$> o)) Hcm).
  - symmetry. exact (f_equal (fun o => default (filter_header_of h prev) (fc_header <$> o)) Hcm).
Qed.

(** The peer's filter header below the block [j]. *)
Definition header_below (j : nat) : FilterHeader := before_in prev0 peer_commits j.

(** The peer's answer to a request from [j] to [s]. *)
Definition cf_answer (j s : nat) (stop : BlockHash) : CFHeaders :=
  mkCFHeaders stop (header_below j) (take (s + 1 - j) (drop j (filter_hash_of <$> contents))).

Lemma cf_answer_inner j s stop :
  (j <= length best)%nat ->
  inner (cfheader_batch_new (cf_answer j s stop)) = take (s + 1 - j) (drop j peer_commits).
Proof.
  intros Hj. cbn. rewrite commitments_take. f_equal. apply commitments_drop.
  rewrite length_fmap. lia.
Qed.

Lemma push_loop_with_headers l : forall k t, push_loop l k t = with_headers (headers (push_loop l k t)) t.
Proof.
  induction l as [|cm l IH]; intros k t; cbn [push_loop]; [by destruct t|].
  destruct (header_at_hash _ _); [|done]. rewrite IH. done.
Qed.

(** Committing the peer's answer moves the mark to its end. *)
Lemma commit_progress p q t s y :
  on_best p q (length best) t -> (p <= s)%nat -> (s < length best)%nat ->
  at_index (p := p) (q := q) (t := t) s y ->
  on_best (s + 1) q (length best)
    (push_loop (reverse (take (s + 1 - p) (drop p peer_commits))) (block_hash (header y)) t).
Proof.
  intros Ht Hps Hs Hy. rewrite push_loop_with_headers. apply (on_best_remark p q); [done|..].
  { apply push_loop_skeleton. }
  { lia. } { apply (ob_marks_length _ _ _ _ _ _ _ _ _ Ht). }
  intros j x z Hx Hz. pose proof (ob_wf _ _ _ _ _ _ _ _ _ Ht) as Hwf.
  set (l := take (s + 1 - p) (drop p peer_commits)) in *.
  assert (length l = s + 1 - p)%nat as Hlen.
  { unfold l. rewrite length_take, length_drop, peer_commits_length. lia. }
  destruct (push_aligned a b t (block_hash (header y)) y (b + 1 + Z.of_nat p) l Hwf
    (ai_stored _ _ Hy)) as [Hset Hother]; [lia|rewrite (ai_height _ _ Hy); lia|].
  pose proof (at_index_on_chain _ _ _ _ _ _ _ _ Ht Hs Hx Hy) as Hon.
  destruct (decide (p <= j <= s)%nat) as [Hj|Hj].
  - destruct (Hset (block_hash (header x)) x) as (cm & Hcm & Hnew).
    { apply Hon. lia. } { rewrite (ai_height _ _ Hx). lia. }
    rewrite Hz in Hnew. injection Hnew as ->. cbn. rewrite (ai_checked _ _ Hx), decide_True by lia.
    split; [|done]. rewrite <- Hcm. unfold l. rewrite (ai_height _ _ Hx).
    replace (Z.to_nat (b + 1 + Z.of_nat j - (b + 1 + Z.of_nat p))) with (j - p)%nat by lia.
    rewrite lookup_take_lt, lookup_drop by lia. f_equal. lia.
  - assert (z = x) as ->.
    { rewrite (Hother (block_hash (header x))) in Hz; [by rewrite (ai_stored _ _ Hx) in Hz; injection Hz|].
      intros (x' & Hx' & Hh). pose proof (on_chain_lookup _ _ _ _ Hx') as Hst.
      rewrite (ai_stored _ _ Hx) in Hst. injection Hst as <-. rewrite (ai_height _ _ Hx) in Hh.
      apply Hon in Hx'. lia. }
    rewrite (ai_commitment _ _ Hx), (ai_checked _ _ Hx). split; [|done].
    destruct (decide (j < p)%nat), (decide (j < s + 1)%nat); (done || lia).
Qed.

(** Checking the filter of the next block moves the mark by one. *)
Lemma check_progress p q t x :
  on_best p q (length best) t -> (q < length best)%nat -> at_index (p := p) (q := q) (t := t) q x ->
  on_best p (S q) (length best) (check_filter t (block_hash (header x))).
Proof.
  intros Ht Hq Hx. apply (on_best_remark p q); [done|..].
  { by apply same_skeleton_alter. }
  { apply (ob_marks_length _ _ _ _ _ _ _ _ _ Ht). } { lia. }
  intros j y z Hy. rewrite lookup_alter. case_decide as Heq.
  - pose proof (at_index_inj _ _ _ _ _ _ _ Hx Hy Heq) as <-. rewrite Heq, (ai_stored _ _ Hy).
    intros [= <-]. cbn. rewrite (ai_commitment _ _ Hy), bool_decide_true by lia. done.
  - rewrite (ai_stored _ _ Hy). intros [= <-]. rewrite (ai_commitment _ _ Hy), (ai_checked _ _ Hy).
    split; [done|]. apply bool_decide_ext. assert (j <> q); [|lia]. intros ->. apply Heq.
    pose proof (ai_header _ _ Hx). pose proof (ai_header _ _ Hy). congruence.
Qed.

(** ** The chain *)

Lemma following_requests p q m c f :
  following p q m c ->
  agreement_state (f (request_state c)) = agreement_state (request_state c) ->
  pending_batch (f (request_state c)) = None ->
  following p q m (update_request f c).
Proof. intros [] Ha Hp. split; try done. cbn. by rewrite Ha. Qed.

Definition stop_index (j : nat) (size : Height) : nat := ((j + Z.to_nat size) `min` (length best - 1))%nat.

(** The next filter-header request. *)
Lemma next_cf_follows p q c :
  following p q (length best) c -> (p < length best)%nat ->
  exists h c', best !! stop_index p CF_HEADER_BATCH_SIZE = Some h /\
    next_cf_header_message c = (mkGetCFHeaders FILTER_BASIC (b + 1 + Z.of_nat p) (block_hash h), c') /\
    following p q (length best) c' /\
    last_filter_header_request (request_state c') =
      Some (mkFilterHeaderRequest (b + 1 + Z.of_nat p) (block_hash h) (expected_before p)).
Proof.
  intros Hf Hp. pose proof (fo_tree _ _ _ _ _ _ _ _ _ _ _ Hf) as Ht.
  destruct (cf_cursor_at Ht Hp) as (Hcur & x & Hin & Hx).
  destruct (stop_at Ht p x CF_HEADER_BATCH_SIZE Hin Hx ltac:(unfold CF_HEADER_BATCH_SIZE; lia))
    as (h & Hh & Hstop).
  exists h. eexists. split; [exact Hh|]. unfold next_cf_header_message. rewrite Hcur, Hstop.
  split; [done|]. split; [|done].
  apply following_requests; [done..|]. apply (fo_pending _ _ _ _ _ _ _ _ _ _ _ Hf).
Qed.

(** The next filter request. *)
Lemma next_filter_follows p q c :
  following p q (length best) c -> (q < length best)%nat ->
  exists h c', best !! stop_index q FILTER_BATCH_SIZE = Some h /\
    next_filter_message c = (mkGetCFilters FILTER_BASIC (b + 1 + Z.of_nat q) (block_hash h), c') /\
    following p q (length best) c' /\
    last_filter_request (request_state c') =
      Some (mkFilterRequest (b + 1 + Z.of_nat q) (block_hash h)).
Proof.
  intros Hf Hq. pose proof (fo_tree _ _ _ _ _ _ _ _ _ _ _ Hf) as Ht.
  destruct (filter_cursor_at Ht Hq) as (Hcur & x & Hin & Hx).
  destruct (stop_at Ht q x FILTER_BATCH_SIZE Hin Hx ltac:(unfold FILTER_BATCH_SIZE; lia))
    as (h & Hh & Hstop).
  exists h. eexists. split; [exact Hh|]. unfold next_filter_message. rewrite Hcur, Hstop.
  split; [done|]. split; [|done].
  apply following_requests; [done..|]. apply (fo_pending _ _ _ _ _ _ _ _ _ _ _ Hf).
Qed.

(** Without a pending batch, and with one peer as quorum, an aligned batch is
    committed at once. *)
Lemma queue_batch_at_once p batch stop (c : Chain D) :
  pending_batch (request_state c) = None ->
  current (agreement_state (request_state c)) = 0 /\ required (agreement_state (request_state c)) <= 1 ->
  exists c', queue_batch p batch stop c = (inr Extended, push_cf_header_batch batch stop c') /\
    header_chain c' = header_chain c /\
    c' = update_request disagree (update_request agree (update_request (with_pending None) c)).
Proof.
  intros Hp [Hcur Hreq]. eexists. split; [|split; [|reflexivity]; done].
  unfold queue_batch, mbind, ST_bind, st_run, take_pending. rewrite Hp.
  unfold count_agreement, mbind, ST_bind, st_modify, st_get, enough_agree.
  cbn [agreement_state request_state update_request set_request_state agree with_agreements
       with_pending got_agreement required current]. rewrite Hcur.
  change ((0 + 1) mod 256) with 1. by rewrite (proj2 (Z.leb_le _ _) Hreq).
Qed.

(** The peer's answer to the filter-header request extends the chain of filter
    headers to the stop block. *)
Lemma sync_cf_follows peer p q c h :
  following p q (length best) c -> (p < length best)%nat ->
  best !! stop_index p CF_HEADER_BATCH_SIZE = Some h ->
  last_filter_header_request (request_state c) =
    Some (mkFilterHeaderRequest (b + 1 + Z.of_nat p) (block_hash h) (expected_before p)) ->
  exists c', sync_cf_headers peer (cf_answer p (stop_index p CF_HEADER_BATCH_SIZE) (block_hash h)) c =
      (inr Extended, c') /\
    following (stop_index p CF_HEADER_BATCH_SIZE + 1) q (length best) c'.
Proof.
  intros Hf Hp Hh Hreq. set (s := stop_index p CF_HEADER_BATCH_SIZE) in *.
  pose proof (fo_tree _ _ _ _ _ _ _ _ _ _ _ Hf) as Ht.
  assert (p <= s < length best)%nat as Hs by (unfold s, stop_index, CF_HEADER_BATCH_SIZE; lia).
  destruct (index_data Ht s ltac:(lia)) as (y & _ & Hy).
  assert (header y = h) as Hyh by (pose proof (ai_header _ _ Hy); congruence).
  set (batch := cfheader_batch_new (cf_answer p s (block_hash h))).
  assert (check_alignment (mkFilterHeaderRequest (b + 1 + Z.of_nat p) (block_hash h) (expected_before p))
            batch c = (inr (), c)) as Hal.
  { unfold check_alignment. cbn [fhr_stop_hash fhr_start_height stop_hash batch cfheader_batch_new
      cf_answer cfh_stop_hash]. rewrite Z.eqb_refl, st_guard_ok by done.
    rewrite st_get_ok. unfold height_of_hash.
    rewrite <- Hyh, (ai_stored _ _ Hy). cbn [fmap option_fmap option_map].
    rewrite st_ok_or_ok.
    unfold batch. rewrite batch_len. cbn [filter_hashes cf_answer].
    rewrite length_take, length_drop, length_fmap, Hcontents.
    unfold as_u32. rewrite Z.mod_small by (unfold is_u32 in Hroom; destruct (hc_height _ _ _ _ Hbest); lia).
    rewrite (proj2 (u32_checked_sub_Some _ 1 (Z.of_nat (s - p)))) by lia.
    rewrite st_ok_or_ok, (ai_height _ _ Hy).
    destruct (hc_height _ _ _ _ Hbest).
    rewrite (proj2 (u32_checked_sub_Some _ _ (b + 1 + Z.of_nat p))) by lia.
    rewrite st_ok_or_ok. by rewrite Z.eqb_refl. }
  destruct (queue_batch_at_once peer batch (block_hash h) c
    (fo_pending _ _ _ _ _ _ _ _ _ _ _ Hf) (fo_agreements _ _ _ _ _ _ _ _ _ _ _ Hf))
    as (c1 & Hq & Hc1 & Hc1').
  exists (push_cf_header_batch batch (block_hash h) c1). split.
  - unfold sync_cf_headers. fold batch.
    rewrite st_get_ok, Hreq.
    rewrite st_ok_or_ok.
    rewrite st_get_ok. cbn [expected_prev_filter_header fhr_stop_hash].
    assert (expected_before p = None \/
      expected_before p = Some (cfheader_batch_prev_header batch)) as [Hexp|Hexp].
    { unfold expected_before. destruct p as [|i]; [by left|right].
      unfold cfheader_batch_prev_header, batch. cbn [prev_filter_header cfheader_batch_new
        cf_answer previous_filter_header header_below before_in].
      destruct (lookup_lt_is_Some_2 peer_commits i) as [cm Hcm]; [rewrite peer_commits_length; lia|].
      by rewrite Hcm. }
    + by rewrite Hexp, (st_bind_ok _ _ _ _ _ Hal).
    + rewrite Hexp, decide_False by (intros Hne; by apply Hne). by rewrite (st_bind_ok _ _ _ _ _ Hal).
  - pose proof (commit_progress p q _ s y Ht ltac:(lia) ltac:(lia) Hy) as Ht'.
    rewrite Hyh in Ht'. assert (following p q (length best) c1) as Hf1.
    { subst c1. destruct Hf as [? ? ? ? [? ?] ? ?]. split; try done. }
    unfold push_cf_header_batch. eapply following_set_tree; [exact Hf1|].
    rewrite Hc1. unfold take_inner. cbn [fst]. unfold batch. rewrite cf_answer_inner by lia. exact Ht'.
Qed.

(** ** Filters *)

(** Both variants of the filter handling succeed on a readable filter and leave
    the tree and the requests alone. *)
Lemma handle_filter_follows (filter_control : bool) p q c h content :
  following p q (length best) c -> (exists j, best !! j = Some h /\ contents !! j = Some content) ->
  is_Some (headers (header_chain c) !! block_hash h) ->
  exists c', (if filter_control then report_filter (block_hash h) (filter_new content (block_hash h))
              else match_filter (block_hash h) (filter_new content (block_hash h))) c = (inr (), c') /\
    following p q (length best) c' /\ header_chain c' = header_chain c /\
    request_state c' = request_state c.
Proof.
  intros Hf (j & Hj & Hjc) [x Hx]. destruct filter_control.
  - unfold report_filter. rewrite st_get_ok.
    destruct (negb _); [|by exists c]. rewrite st_get_ok.
    unfold height_of_hash. rewrite Hx. cbn [fmap option_fmap option_map].
    rewrite st_ok_or_ok. eexists. split; [done|].
    split; [by destruct Hf|done].
  - unfold match_filter. rewrite st_get_ok.
    destruct (_ || _); [by exists c|]. rewrite st_get_ok.
    pose proof (fo_readable _ _ _ _ _ _ _ _ _ _ _ Hf _ _ _ Hj Hjc) as Hr.
    unfold contains_any. cbn [block_filter filter_block_hash filter_new].
    destruct (match_any _ _ _) as [found|]; [|done].
    rewrite st_ok_or_ok.
    destruct found; [|by exists c]. eexists. split; [done|]. split; [by destruct Hf|done].
Qed.

(** The next filter of the answer is checked; at the stop block the next request
    is sent, unless all filters are checked. *)
Lemma sync_filter_follows (filter_control : bool) q s c h g content start :
  following (length best) q (length best) c -> (q <= s < length best)%nat ->
  best !! q = Some h -> contents !! q = Some content -> best !! s = Some g ->
  last_filter_request (request_state c) = Some (mkFilterRequest start (block_hash g)) ->
  exists r c', sync_filter filter_control (mkCFilter FILTER_BASIC (block_hash h) content) c = (inr r, c') /\
    following (length best) (S q) (length best) c' /\
    ((q < s)%nat -> r = None /\ last_filter_request (request_state c') =
       Some (mkFilterRequest start (block_hash g))) /\
    (q = s -> S q = length best -> r = None) /\
    (q = s -> (S q < length best)%nat ->
       exists k, best !! stop_index (S q) FILTER_BATCH_SIZE = Some k /\
         r = Some (mkGetCFilters FILTER_BASIC (b + 1 + Z.of_nat (S q)) (block_hash k)) /\
         last_filter_request (request_state c') =
           Some (mkFilterRequest (b + 1 + Z.of_nat (S q)) (block_hash k))).
Proof.
  intros Hf Hqs Hh Hcontent Hg Hreq. pose proof (fo_tree _ _ _ _ _ _ _ _ _ _ _ Hf) as Ht.
  destruct (index_data Ht q ltac:(lia)) as (x & _ & Hx).
  assert (header x = h) as Hxh by (pose proof (ai_header _ _ Hx); congruence).
  pose proof (ai_stored _ _ Hx) as Hst. rewrite Hxh in Hst.
  unfold sync_filter. rewrite st_get_ok.
  unfold is_filters_synced at 1. rewrite (filters_synced_iff Ht), bool_decide_false by lia.
  rewrite st_get_ok. cbn [cf_block_hash cf_filter].
  unfold tree_filter_commitment. rewrite Hst. cbn [mbind option_bind].
  rewrite (ai_commitment _ _ Hx), decide_True by lia.
  destruct (lookup_lt_is_Some_2 peer_commits q) as [cm Hcm]; [rewrite peer_commits_length; lia|].
  rewrite Hcm. assert (fc_filter_hash cm = filter_hash_of content) as Hhash.
  { pose proof (commitments_hashes prev0 (filter_hash_of <$> contents)) as Hch.
    apply (f_equal (.!! q)) in Hch. rewrite !list_lookup_fmap, Hcontent in Hch.
    change (fc_filter_hash <$> peer_commits !! q = filter_hash_of <$> Some content) in Hch.
    rewrite Hcm in Hch. by injection Hch. }
  rewrite st_guard_ok by (cbn; rewrite Hhash; apply Z.eqb_refl).
  destruct (handle_filter_follows filter_control (length best) q c h content Hf)
    as (c1 & Hc1 & Hf1 & Ht1 & Hr1); [by exists q|by eexists|].
  rewrite (st_bind_ok _ _ _ _ _ Hc1), st_modify_ok.
  set (c2 := set_tree (check_filter (header_chain c1) (block_hash h)) c1).
  assert (following (length best) (S q) (length best) c2) as Hf2.
  { eapply following_set_tree; [exact Hf1|]. rewrite Ht1, <- Hxh.
    apply check_progress; [done|lia|done]. }
  rewrite st_get_ok. cbn [request_state set_tree c2].
  rewrite Hr1, Hreq, st_ok_or_ok. cbn [fr_stop_hash].
  destruct (Z.eqb_spec (block_hash h) (block_hash g)) as [Heq|Hne].
  - assert (q = s) as <-.
    { pose proof (hashes_succ a best _ _ Hh) as Hi. rewrite Heq in Hi.
      pose proof (hashes_inj _ _ _ _ Hbest _ _ _ Hi (hashes_succ a best _ _ Hg)). lia. }
    rewrite st_get_ok. fold c2.
    pose proof (fo_tree _ _ _ _ _ _ _ _ _ _ _ Hf2) as Ht2.
    unfold is_filters_synced. rewrite (filters_synced_iff Ht2).
    destruct (decide (S q = length best)) as [Hend|Hmore].
    + rewrite bool_decide_true by done. exists None, c2. split_and!; [done|done|lia|done|lia].
    + rewrite bool_decide_false by done. cbn [negb].
      destruct (next_filter_follows (length best) (S q) c2 Hf2 ltac:(lia)) as (k & c3 & Hk & Hn & Hf3 & Hl3).
      exists (Some (mkGetCFilters FILTER_BASIC (b + 1 + Z.of_nat (S q)) (block_hash k))), c3.
      split; [unfold mbind, ST_bind, st_run; by rewrite Hn|].
      split_and!; [done|lia|lia|]. intros _ _. by exists k.
  - assert (q <> s) by (intros ->; apply Hne; congruence).
    exists None, c2. split_and!; [done|done| |done|lia].
    intros _. split; [done|]. cbn. by rewrite Hr1.
Qed.
End Progress.
