(* ===== verification/PeerStore.v ===== *)
(** * The peer store: [src/db/mod.rs], [src/db/traits.rs] and [src/db/sqlite/peers.rs]

    [PeerStore] is the trait as a class; [PeerStoreLaws] is the contract the
    peer manager relies on, stated on a view of the store: what it records of
    each address.  [SqlitePeerDb] is the implementation over the statements it
    sends to SQLite ([SqlPeers], whose documented behaviour is
    [SqlPeersLaws]); its operations satisfy the contract. *)

From stdpp Require Import base numbers list gmap.
From Stdlib Require Import ZArith Lia.
From S2P Require Import Prelude Bitcoin ChainTypes Checkpoints Batches Messages.

Inductive PeerStatus :=
  | Gossiped
  | Tried
  | Ban.

#[global] Instance PeerStatus_eq_dec : EqDecision PeerStatus.
Proof. solve_decision. Defined.

Record PersistedPeer := mkPersistedPeer {
  pp_addr : AddrV2;
  pp_port : Z;
  pp_services : ServiceFlags;
  pp_status : PeerStatus;
}.

Class PeerStore (P : Type) := {
  peer_store_error : Type;
  store_update : PersistedPeer -> P -> (peer_store_error + ()) * P;
  store_random : P -> (peer_store_error + PersistedPeer) * P;
  store_num_unbanned : P -> (peer_store_error + Z) * P;
}.

(** ** The contract *)

(** What a store records of an address. *)
Record PeerEntry := mkPeerEntry {
  pe_port : Z;
  pe_services : ServiceFlags;
  pe_tried : bool;
  pe_banned : bool;
}.

(** A gossiped peer keeps the status on record; any other replaces it. *)
Definition merge_entry (p : PersistedPeer) (old : option PeerEntry) : PeerEntry :=
  match pp_status p, old with
  | Gossiped, Some e => mkPeerEntry (pp_port p) (pp_services p) (pe_tried e) (pe_banned e)
  | Gossiped, None => mkPeerEntry (pp_port p) (pp_services p) false false
  | Tried, _ => mkPeerEntry (pp_port p) (pp_services p) true false
  | Ban, _ => mkPeerEntry (pp_port p) (pp_services p) true true
  end.

(** [ServiceFlags] wraps a u64. *)
Definition is_services (f : ServiceFlags) : Prop := 0 <= f < 2 ^ 64.

Definition entry_status (e : PeerEntry) : PeerStatus := if pe_tried e then Tried else Gossiped.

Class PeerStoreLaws (P : Type) `{PeerStore P} := {
  peer_view : P -> AddrV2 -> option PeerEntry;
  peer_store_ok : P -> Prop;
  (** the addresses that can be persisted *)
  persistable : AddrV2 -> Prop;
  store_update_law p s s' : peer_store_ok s -> persistable (pp_addr p) ->
    is_services (pp_services p) -> store_update p s = (inr (), s') ->
    peer_store_ok s' /\
    peer_view s' (pp_addr p) = Some (merge_entry p (peer_view s (pp_addr p))) /\
    forall a, persistable a -> a <> pp_addr p -> peer_view s' a = peer_view s a;
  store_update_error_law p s e s' : peer_store_ok s -> store_update p s = (inl e, s') ->
    peer_store_ok s' /\ forall a, peer_view s' a = peer_view s a;
  store_random_law s p s' : peer_store_ok s -> store_random s = (inr p, s') ->
    persistable (pp_addr p) /\
    exists e, peer_view s (pp_addr p) = Some e /\ pe_banned e = false /\
      pp_port p = pe_port e /\ pp_services p = pe_services e /\ pp_status p = entry_status e;
  store_random_keeps s r s' : peer_store_ok s -> store_random s = (r, s') ->
    peer_store_ok s' /\ forall a, peer_view s' a = peer_view s a;
  store_num_unbanned_law s n s' : peer_store_ok s -> store_num_unbanned s = (inr n, s') ->
    0 <= n /\ (n = 0 -> forall a e, persistable a -> peer_view s a = Some e -> pe_banned e = true);
  store_num_unbanned_keeps s r s' : peer_store_ok s -> store_num_unbanned s = (r, s') ->
    peer_store_ok s' /\ forall a, peer_view s' a = peer_view s a;
}.

(** ** SQLite *)

(** A row of the table [peers]; the address and the services are blobs. *)
Record PeerRow := mkPeerRow {
  row_ip_addr : bytes;
  row_port : Z;
  row_service_flags : bytes;
  row_tried : bool;
  row_banned : bool;
}.

Inductive PeerStatement :=
  (** [INSERT .. ON CONFLICT(ip_addr) DO UPDATE SET port, service_flags] *)
  | InsertOnConflictUpdate (r : PeerRow)
  (** [INSERT OR REPLACE ..] *)
  | InsertOrReplacePeer (r : PeerRow).

(** The statements the program sends, and the consensus encoding of addresses.
    A row is read at the types of its columns. *)
Class SqlPeers (T : Type) := {
  peer_sql_error : Type;
  peer_decode_error : Type;
  sql_execute_peer : PeerStatement -> T -> peer_sql_error + T;
  (** [SELECT * FROM peers WHERE banned = false ORDER BY RANDOM() LIMIT 1] *)
  sql_random_unbanned : T -> (peer_sql_error + option PeerRow) * T;
  (** [SELECT COUNT( * ) FROM peers WHERE banned = false] *)
  sql_count_unbanned : T -> (peer_sql_error + Z) * T;
  serialize_addr : AddrV2 -> bytes;
  deserialize_addr : bytes -> peer_decode_error + AddrV2;
}.

Class SqlPeersLaws (T : Type) `{SqlPeers T} := {
  peer_rows : T -> gmap bytes PeerRow;
  sql_upsert_law r t t' : sql_execute_peer (InsertOnConflictUpdate r) t = inr t' ->
    peer_rows t' = <[row_ip_addr r :=
      match peer_rows t !! row_ip_addr r with
      | Some old => mkPeerRow (row_ip_addr r) (row_port r) (row_service_flags r)
                      (row_tried old) (row_banned old)
      | None => r
      end]> (peer_rows t);
  sql_replace_law r t t' : sql_execute_peer (InsertOrReplacePeer r) t = inr t' ->
    peer_rows t' = <[row_ip_addr r := r]> (peer_rows t);
  sql_random_law t r t' : sql_random_unbanned t = (inr (Some r), t') ->
    peer_rows t !! row_ip_addr r = Some r /\ row_banned r = false;
  sql_random_keeps t x t' : sql_random_unbanned t = (x, t') -> peer_rows t' = peer_rows t;
  sql_count_law t n t' : sql_count_unbanned t = (inr n, t') ->
    n = Z.of_nat (size (filter (fun kv => row_banned kv.2 = false) (peer_rows t)));
  sql_count_keeps t x t' : sql_count_unbanned t = (x, t') -> peer_rows t' = peer_rows t;
  (** the encoding can be read back *)
  encodable : AddrV2 -> Prop;
  deserialize_serialize a : encodable a -> deserialize_addr (serialize_addr a) = inr a;
}.

Section SqlitePeers.
Context {T : Type} `{SqlPeers T}.

Inductive SqlPeerStoreError :=
  | PeerDeserialize (e : peer_decode_error)
  | EmptyPeers
  | PeerSQL (e : peer_sql_error).

Record SqlitePeerDb := mkSqlitePeerDb { peer_conn : T }.

Definition peer_flags (s : PeerStatus) : bool * bool :=
  match s with
  | Gossiped => (false, false)
  | Tried => (true, false)
  | Ban => (true, true)
  end.

Definition peer_statement (peer : PersistedPeer) : PeerStatement :=
  let '(tried, banned) := peer_flags (pp_status peer) in
  let row := mkPeerRow (serialize_addr (pp_addr peer)) (pp_port peer)
               (le_bytes 8 (pp_services peer)) tried banned in
  match pp_status peer with
  | Gossiped => InsertOnConflictUpdate row
  | _ => InsertOrReplacePeer row
  end.

Definition db_update (peer : PersistedPeer) (s : SqlitePeerDb)
  : (SqlPeerStoreError + ()) * SqlitePeerDb :=
  match sql_execute_peer (peer_statement peer) (peer_conn s) with
  | inl e => (inl (PeerSQL e), s)
  | inr t => (inr (), {| peer_conn := t |})
  end.

Definition db_random (s : SqlitePeerDb) : (SqlPeerStoreError + PersistedPeer) * SqlitePeerDb :=
  let '(r, t) := sql_random_unbanned (peer_conn s) in
  let s' := {| peer_conn := t |} in
  match r with
  | inl e => (inl (PeerSQL e), s')
  | inr None => (inl EmptyPeers, s')
  | inr (Some row) =>
      let status := if row_tried row then Tried else Gossiped in
      match deserialize_addr (row_ip_addr row) with
      | inl e => (inl (PeerDeserialize e), s')
      | inr ip =>
          (inr (mkPersistedPeer ip (row_port row) (from_le_bytes (row_service_flags row)) status), s')
      end
  end.

Definition db_num_unbanned (s : SqlitePeerDb) : (SqlPeerStoreError + Z) * SqlitePeerDb :=
  let '(r, t) := sql_count_unbanned (peer_conn s) in
  (match r with inl e => inl (PeerSQL e) | inr n => inr n end, {| peer_conn := t |}).

#[export] Instance sqlite_peer_store : PeerStore SqlitePeerDb := {
  peer_store_error := SqlPeerStoreError;
  store_update := db_update;
  store_random := db_random;
  store_num_unbanned := db_num_unbanned;
}.
End SqlitePeers.

Arguments SqlitePeerDb T : clear implicits.

(** ** The SQLite store satisfies the contract *)

Section SqlitePeerFacts.
Context {T : Type} `{SqlPeersLaws T}.

Definition row_entry (r : PeerRow) : PeerEntry :=
  mkPeerEntry (row_port r) (from_le_bytes (row_service_flags r)) (row_tried r) (row_banned r).

Definition db_peer_view (s : SqlitePeerDb T) (a : AddrV2) : option PeerEntry :=
  row_entry <$> peer_rows (peer_conn s) !! serialize_addr a.

(** Every key is the encoding of an address. *)
Definition db_peers_ok (s : SqlitePeerDb T) : Prop :=
  forall k, is_Some (peer_rows (peer_conn s) !! k) -> exists a, encodable a /\ serialize_addr a = k.

Lemma serialize_inj a b :
  encodable a -> encodable b -> serialize_addr a = serialize_addr b -> a = b.
Proof.
  intros Ha Hb Heq. pose proof (deserialize_serialize a Ha) as Hda.
  rewrite Heq, (deserialize_serialize b Hb) in Hda. by injection Hda.
Qed.

(** The row an update leaves at the peer's address. *)
Definition updated_row (p : PersistedPeer) (old : option PeerRow) : PeerRow :=
  match pp_status p, old with
  | Gossiped, Some r =>
      mkPeerRow (serialize_addr (pp_addr p)) (pp_port p) (le_bytes 8 (pp_services p))
        (row_tried r) (row_banned r)
  | status, _ =>
      mkPeerRow (serialize_addr (pp_addr p)) (pp_port p) (le_bytes 8 (pp_services p))
        (peer_flags status).1 (peer_flags status).2
  end.

Lemma execute_statement p t t' :
  sql_execute_peer (peer_statement p) t = inr t' ->
  peer_rows t' =
    <[serialize_addr (pp_addr p) :=
      updated_row p (peer_rows t !! serialize_addr (pp_addr p))]> (peer_rows t).
Proof.
  unfold peer_statement, updated_row. destruct (pp_status p); cbn; intros Ht.
  - rewrite (sql_upsert_law _ _ _ Ht). cbn. by destruct (_ !! _).
  - by rewrite (sql_replace_law _ _ _ Ht).
  - by rewrite (sql_replace_law _ _ _ Ht).
Qed.

Lemma updated_row_entry p old :
  is_services (pp_services p) -> row_entry (updated_row p old) = merge_entry p (row_entry <$> old).
Proof.
  intros Hs. unfold updated_row, merge_entry, row_entry.
  destruct (pp_status p), old as [r|]; cbn -[from_le_bytes le_bytes];
    by rewrite from_le_bytes_le_bytes.
Qed.

Lemma db_update_spec p s s' :
  db_peers_ok s -> encodable (pp_addr p) -> is_services (pp_services p) ->
  db_update p s = (inr (), s') ->
  db_peers_ok s' /\
  db_peer_view s' (pp_addr p) = Some (merge_entry p (db_peer_view s (pp_addr p))) /\
  forall a, encodable a -> a <> pp_addr p -> db_peer_view s' a = db_peer_view s a.
Proof.
  intros Hok Ha Hs. unfold db_update.
  destruct (sql_execute_peer _ _) as [e|t] eqn:Ht; [done|]. intros [= <-].
  apply execute_statement in Ht. unfold db_peer_view, db_peers_ok. cbn [peer_conn].
  rewrite Ht. split_and!.
  - intros k Hk. destruct (decide (k = serialize_addr (pp_addr p))) as [->|Hne]; [eauto|].
    rewrite lookup_insert_ne in Hk by done. by apply Hok.
  - rewrite lookup_insert_eq. cbn. by rewrite updated_row_entry.
  - intros a Hea Hne. rewrite lookup_insert_ne; [done|].
    intros Heq. apply Hne. symmetry. by apply serialize_inj.
Qed.

Lemma db_random_spec s p s' :
  db_peers_ok s -> db_random s = (inr p, s') ->
  encodable (pp_addr p) /\
  exists e, db_peer_view s (pp_addr p) = Some e /\ pe_banned e = false /\
    pp_port p = pe_port e /\ pp_services p = pe_services e /\ pp_status p = entry_status e.
Proof.
  intros Hok. unfold db_random.
  destruct (sql_random_unbanned _) as [[e|[row|]] t] eqn:Ht; [done| |done].
  apply sql_random_law in Ht as [Hrow Hb].
  destruct (Hok (row_ip_addr row) ltac:(by eexists)) as (a & Ha & Hk).
  rewrite <- Hk, (deserialize_serialize a Ha). intros [= <- _]. cbn [pp_addr].
  split; [done|]. exists (row_entry row). unfold db_peer_view. by rewrite Hk, Hrow.
Qed.

Lemma db_num_unbanned_spec s n s' :
  db_num_unbanned s = (inr n, s') ->
  0 <= n /\ (n = 0 -> forall a e, db_peer_view s a = Some e -> pe_banned e = true).
Proof.
  unfold db_num_unbanned. destruct (sql_count_unbanned _) as [[e|m] t] eqn:Ht; [done|].
  intros [= <- _]. apply sql_count_law in Ht as ->. split; [lia|].
  intros Hz a e. unfold db_peer_view. rewrite fmap_Some. intros (r & Hr & ->). cbn.
  destruct (row_banned r) eqn:Hb; [done|]. exfalso.
  assert (filter (fun kv => row_banned kv.2 = false) (peer_rows (peer_conn s)) = ∅) as He
    by (apply map_size_empty_iff; lia).
  assert (filter (fun kv => row_banned kv.2 = false) (peer_rows (peer_conn s))
            !! serialize_addr a = Some r) as Hf by by apply map_lookup_filter_Some.
  by rewrite He, lookup_empty in Hf.
Qed.

Lemma db_view_keeps s t :
  peer_rows t = peer_rows (peer_conn s) -> db_peers_ok s ->
  db_peers_ok {| peer_conn := t |} /\ forall a, db_peer_view {| peer_conn := t |} a = db_peer_view s a.
Proof. unfold db_peers_ok, db_peer_view. cbn. by intros ->. Qed.

#[export] Program Instance sqlite_peer_laws : PeerStoreLaws (SqlitePeerDb T) := {
  peer_view := db_peer_view;
  peer_store_ok := db_peers_ok;
  persistable := encodable;
}.
Next Obligation. by apply db_update_spec. Qed.
Next Obligation.
  intros p s e s' Hok. cbn. unfold db_update. destruct (sql_execute_peer _ _); [|done].
  by intros [= _ <-].
Qed.
Next Obligation. intros s p s' Hok Hr. eapply db_random_spec; eauto. Qed.
Next Obligation.
  intros s r s' Hok. cbn. unfold db_random. destruct (sql_random_unbanned _) as [x t] eqn:Ht.
  apply sql_random_keeps in Ht. repeat case_match; intros [= _ <-]; by apply db_view_keeps.
Qed.
Next Obligation.
  intros s n s' _ Hn. destruct (db_num_unbanned_spec _ _ _ Hn) as [? Hz].
  split; [done|]. intros ? a e _. by apply Hz.
Qed.
Next Obligation.
  intros s r s' Hok. cbn. unfold db_num_unbanned.
  destruct (sql_count_unbanned _) as [x t] eqn:Ht. apply sql_count_keeps in Ht.
  intros [= _ <-]. by apply db_view_keeps.
Qed.
End SqlitePeerFacts.

(** ** What the peer manager can rely on *)

Section PeerStoreClient.
Context {P : Type} `{PeerStoreLaws P}.

(** A run of updates whose errors are only warned about. *)
Definition run_updates (l : list PersistedPeer) (s : P) : P :=
  foldl (fun s p => (store_update p s).2) s l.

Definition is_banned (s : P) (a : AddrV2) : Prop :=
  exists e, peer_view s a = Some e /\ pe_banned e = true.

Definition storable (p : PersistedPeer) : Prop :=
  persistable (pp_addr p) /\ is_services (pp_services p).

Lemma update_keeps_ban a p s :
  peer_store_ok s -> persistable a -> storable p ->
  (pp_addr p = a -> pp_status p <> Tried) -> is_banned s a ->
  peer_store_ok (store_update p s).2 /\ is_banned (store_update p s).2 a.
Proof.
  intros Hok Ha [Hp Hs] Htried (e & He & Hb).
  destruct (store_update p s) as [[err|[]] s'] eqn:Hu; cbn.
  - destruct (store_update_error_law p s err s' Hok Hu) as [? Hv]. split; [done|].
    exists e. by rewrite Hv.
  - destruct (store_update_law p s s' Hok Hp Hs Hu) as (? & Hself & Hother). split; [done|].
    destruct (decide (pp_addr p = a)) as [<-|Hne].
    + rewrite He in Hself. eexists. split; [exact Hself|]. unfold merge_entry.
      by destruct (pp_status p); [|destruct (Htried eq_refl)|].
    + exists e. rewrite Hother by done. done.
Qed.

Lemma run_updates_keeps_ban a l s :
  peer_store_ok s -> persistable a -> Forall storable l ->
  Forall (fun p => pp_addr p = a -> pp_status p <> Tried) l -> is_banned s a ->
  peer_store_ok (run_updates l s) /\ is_banned (run_updates l s) a.
Proof.
  revert s. induction l as [|p l IH]; intros s Hok Ha Hl Ht Hb; [done|].
  inversion Hl; subst. inversion Ht; subst.
  destruct (update_keeps_ban a p s) as [? ?]; [done..|]. by apply IH.
Qed.

(** A banned address is not handed out again, unless it was tried in between. *)
Lemma banned_never_returned a l s p s' :
  peer_store_ok s -> persistable a -> is_banned s a -> Forall storable l ->
  Forall (fun p => pp_addr p = a -> pp_status p <> Tried) l ->
  store_random (run_updates l s) = (inr p, s') ->
  pp_addr p <> a.
Proof.
  intros Hok Ha Hb Hl Ht Hr <-.
  destruct (run_updates_keeps_ban (pp_addr p) l s) as [Hok' (e & He & Hbe)]; [done..|].
  destruct (store_random_law _ _ _ Hok' Hr) as (_ & e' & He' & Hfalse & _). congruence.
Qed.
End PeerStoreClient.

Section SqlitePeerProperties.
Context {T : Type} `{SqlPeersLaws T}.

End SqlitePeerProperties.

(** ** A concrete table for the witnesses

    A port above the u16 range is refused; the random row is chosen by a
    counter. *)
Module ToyPeers.

Record peer_table := mkPeerTable { draws : nat; table : gmap bytes PeerRow }.

Definition encode_addr (a : AddrV2) : bytes :=
  match a with
  | Ipv4 l => 1 :: l | Ipv6 l => 2 :: l | TorV2 l => 3 :: l | TorV3 l => 4 :: l
  | I2p l => 5 :: l | Cjdns l => 6 :: l | Unknown k l => 7 :: k :: l
  end.

Definition decode_addr (l : bytes) : () + AddrV2 :=
  match l with
  | 1 :: l => inr (Ipv4 l) | 2 :: l => inr (Ipv6 l) | 3 :: l => inr (TorV2 l)
  | 4 :: l => inr (TorV3 l) | 5 :: l => inr (I2p l) | 6 :: l => inr (Cjdns l)
  | 7 :: k :: l => inr (Unknown k l)
  | _ => inl ()
  end.

Definition row_of (stmt : PeerStatement) : PeerRow :=
  match stmt with InsertOnConflictUpdate r | InsertOrReplacePeer r => r end.

Definition toy_execute (stmt : PeerStatement) (t : peer_table) : () + peer_table :=
  if 65535 <? row_port (row_of stmt) then inl ()
  else inr (mkPeerTable (draws t)
    match stmt with
    | InsertOnConflictUpdate r => <[row_ip_addr r :=
        match table t !! row_ip_addr r with
        | Some old => mkPeerRow (row_ip_addr r) (row_port r) (row_service_flags r)
                        (row_tried old) (row_banned old)
        | None => r
        end]> (table t)
    | InsertOrReplacePeer r => <[row_ip_addr r := r]> (table t)
    end).

Definition unbanned (t : peer_table) : list (bytes * PeerRow) :=
  filter (fun kv => row_banned kv.2 = false /\ row_ip_addr kv.2 = kv.1) (map_to_list (table t)).

Definition toy_random (t : peer_table) : (() + option PeerRow) * peer_table :=
  (inr (snd <$> unbanned t !! (draws t mod length (unbanned t))%nat),
   mkPeerTable (S (draws t)) (table t)).

#[export] Instance toy_peers : SqlPeers peer_table := {
  peer_sql_error := ();
  peer_decode_error := ();
  sql_execute_peer := toy_execute;
  sql_random_unbanned := toy_random;
  sql_count_unbanned t :=
    (inr (Z.of_nat (size (filter (fun kv => row_banned kv.2 = false) (table t)))), t);
  serialize_addr := encode_addr;
  deserialize_addr := decode_addr;
}.

#[export] Program Instance toy_peers_laws : SqlPeersLaws peer_table := {
  peer_rows := table;
  encodable _ := True;
}.
Next Obligation. intros r t t'. cbn. unfold toy_execute. case_match; [done|]. by intros [= <-]. Qed.
Next Obligation. intros r t t'. cbn. unfold toy_execute. case_match; [done|]. by intros [= <-]. Qed.
Next Obligation.
  intros t r t'. cbn. intros [= Hr _]. apply fmap_Some in Hr as ([k r'] & Hl & ->).
  apply list_elem_of_lookup_2 in Hl. unfold unbanned in Hl.
  apply list_elem_of_filter in Hl as [[Hb Hk] Hin]. cbn in *. subst k.
  by apply elem_of_map_to_list in Hin.
Qed.
Next Obligation. by intros t x t' [= _ <-]. Qed.
Next Obligation. by intros t n t' [= <- _]. Qed.
Next Obligation. by intros t x t' [= _ <-]. Qed.
Next Obligation. by intros [] _. Qed.

Definition addr_a : AddrV2 := Ipv4 [10; 0; 0; 1].
Definition addr_b : AddrV2 := Ipv4 [10; 0; 0; 2].

Definition empty_store : SqlitePeerDb peer_table := {| peer_conn := mkPeerTable 0 ∅ |}.

Definition gossip_a : PersistedPeer := mkPersistedPeer addr_a 8333 64 Gossiped.
Definition try_b : PersistedPeer := mkPersistedPeer addr_b 8333 65 Tried.
Definition ban_a : PersistedPeer := mkPersistedPeer addr_a 8333 64 Ban.

Definition gossiped_store : SqlitePeerDb peer_table := (db_update gossip_a empty_store).2.
Definition tried_store : SqlitePeerDb peer_table := (db_update try_b gossiped_store).2.
Definition banned_store : SqlitePeerDb peer_table := (db_update ban_a tried_store).2.

Lemma empty_store_ok : db_peers_ok empty_store.
Proof. intros k Hk. unfold empty_store in Hk. cbn in Hk. rewrite lookup_empty in Hk. by destruct Hk. Qed.

Lemma tried_store_ok : db_peers_ok tried_store.
Proof.
  assert (db_peers_ok gossiped_store) as Hg
    by by apply (db_update_spec gossip_a empty_store gossiped_store empty_store_ok I).
  by apply (db_update_spec try_b gossiped_store tried_store Hg I).
Qed.

Lemma banned_store_ok : db_peers_ok banned_store.
Proof. by apply (db_update_spec ban_a tried_store banned_store tried_store_ok I). Qed.

End ToyPeers.
