(* ===== verification/Network.v ===== *)
(** * Network basics: [src/prelude.rs], [src/network/mod.rs], [src/network/counter.rs], [src/network/error.rs], [src/broadcaster.rs]

    Medians, netgroups and ports, connection types, the timers, the message
    counter that protects a peer's thread against unsolicited messages, and the
    queue of transactions to broadcast.  An instant and a duration are numbers
    of nanoseconds; operations that read the clock take the instant. *)

From stdpp Require Import base numbers list gmap strings pretty sorting.
From Stdlib Require Import ZArith Lia Ascii.
From S2P Require Import Prelude Bitcoin ChainTypes Checkpoints Batches BlockQueue Messages.

(** ** [src/prelude.rs] *)

Definition MAX_FUTURE_BLOCK_TIME : Z := 60 * 60 * 2.
Definition MEDIAN_TIME_PAST : nat := 11.

(** [Median::median] on a slice of [w]-bit signed integers: the sum of the two
    middle values wraps, the quotient truncates. *)
Definition median (w : Z) (l : list Z) : Z :=
  let sorted := merge_sort Z.le l in
  let len := length sorted in
  if decide (len = 0%nat) then 0
  else if decide (len mod 2 = 1)%nat then nth (len / 2) sorted 0
  else let mid := (len / 2)%nat in
       Z.quot (wrap_signed w (nth (mid - 1) sorted 0 + nth mid sorted 0)) 2.

(** [Work::from_be_bytes([0; 32])] *)
Definition work_zero : Work := 0.

Definition default_port_from_network (n : Network) : Z :=
  match n with
  | Mainnet => 8333
  | Testnet => 18333
  | Testnet4 => 48333
  | Signet => 38333
  | Regtest => 18444
  end.

(** *** Strings: [str::split], [str::replace] and [join] *)

Fixpoint split_on (c : Ascii.ascii) (acc s : string) : list string :=
  match s with
  | EmptyString => [acc]
  | String a s' =>
      if decide (a = c) then acc :: split_on c "" s' else split_on c (acc +:+ String a "") s'
  end.

Fixpoint join (sep : string) (l : list string) : string :=
  match l with
  | [] => ""
  | [s] => s
  | s :: l' => s +:+ sep +:+ join sep l'
  end.

(** [s.replace("::", ".")], from the left, without overlaps. *)
Fixpoint replace_double_colon (s : string) : string :=
  match s with
  | String ":"%char (String ":"%char s') => String "."%char (replace_double_colon s')
  | String a s' => String a (replace_double_colon s')
  | EmptyString => ""
  end.

(** [DisplayHex::to_lower_hex_string]: two digits for each byte. *)
Definition hex_char (d : Z) : Ascii.ascii :=
  Ascii.ascii_of_nat (Z.to_nat (if d <? 10 then 48 + d else 87 + d)).

Fixpoint to_lower_hex (l : bytes) : string :=
  match l with
  | [] => ""
  | b :: l' => String (hex_char (b / 16)) (String (hex_char (b mod 16)) (to_lower_hex l'))
  end.

(** [{:x}] of a u16: no leading zeros. *)
Definition hex_segment (v : Z) : string :=
  if v <? 16 then String (hex_char v) ""
  else if v <? 256 then String (hex_char (v / 16)) (String (hex_char (v mod 16)) "")
  else if v <? 4096 then String (hex_char (v / 256)) (to_lower_hex [v mod 256])
  else to_lower_hex [v / 256; v mod 256].

(** *** The [Display] of addresses in the standard library *)

Definition ipv4_to_string (octets : list Z) : string := join "." (pretty <$> octets).

(** The first longest run of zero segments: its start and length. *)
Fixpoint longest_zeros (l : list Z) (i : nat) (cur best : nat * nat) : nat * nat :=
  match l with
  | [] => best
  | v :: l' =>
      if v =? 0 then
        let cur' := (if decide (cur.2 = 0%nat) then i else cur.1, S cur.2) in
        longest_zeros l' (S i) cur' (if decide (best.2 < cur'.2)%nat then cur' else best)
      else longest_zeros l' (S i) (0%nat, 0%nat) best
  end.

Definition ipv6_to_string (segments : list Z) : string :=
  match segments with
  | [0; 0; 0; 0; 0; 65535; a; b] =>
      "::ffff:" +:+ ipv4_to_string [a / 256; a mod 256; b / 256; b mod 256]
  | _ =>
      let '(start, len) := longest_zeros segments 0 (0, 0)%nat (0, 0)%nat in
      if decide (1 < len)%nat then
        join ":" (hex_segment <$> take start segments) +:+ "::" +:+
        join ":" (hex_segment <$> drop (start + len) segments)
      else join ":" (hex_segment <$> segments)
  end.

Definition netgroup (a : AddrV2) : string :=
  match a with
  | Ipv4 ip => join "." (take 2 (split_on "."%char "" (ipv4_to_string ip)))
  | Ipv6 ip => join "::" (take 4 (split_on "."%char "" (replace_double_colon (ipv6_to_string ip))))
  | TorV2 t => to_lower_hex t
  | TorV3 t => to_lower_hex t
  | I2p t => to_lower_hex t
  | Cjdns cj => join "::" (take 4 (split_on "."%char "" (replace_double_colon (ipv6_to_string cj))))
  | Unknown _ _ => "UNKNOWN"
  end.

(** The bytes of a string. *)
Fixpoint as_bytes (s : string) : bytes :=
  match s with
  | EmptyString => []
  | String a s' => Z.of_nat (Ascii.nat_of_ascii a) :: as_bytes s'
  end.

(** [label.len() as u8] and the label. *)
Definition encode_label (s : string) : bytes := Z.of_nat (String.length s) mod 256 :: as_bytes s.

Definition encode_qname (domain filter : string) : bytes :=
  encode_label filter ++ concat (encode_label <$> split_on "."%char "" domain) ++ [0].

(** ** [src/network/error.rs] *)

Inductive PeerReadError :=
  | ReadBuffer
  | Deserialization
  | DecryptionFailed
  | TooManyMessages
  | PeerTimeout
  | MpscChannel.

Inductive Socks5Error :=
  | WrongVersion
  | AuthRequired
  | ConnectionTimeout
  | Socks5ConnectionFailed
  | IO.

Inductive PeerError :=
  | ConnectionFailed
  | MessageEncryption
  | MessageSerialization
  | HandshakeFailed
  | BufferWrite
  | ThreadChannel
  | DisconnectCommand
  | ReaderError
  | UnreachableSocketAddr
  | Socks5 (e : Socks5Error).

Inductive DNSQueryError :=
  | MessageID
  | Question
  | ConnectionDenied
  | Udp
  | MalformedHeader
  | UnexpectedEOF.

(** ** [src/network/mod.rs] *)

Definition PROTOCOL_VERSION : Z := 70016.
Definition THIRTY_MINS : Z := 60 * 30.
Definition MESSAGE_TIMEOUT_SECS : Z := 5.
Definition TWO_HOUR : Z := 60 * 60 * 2.
Definition TCP_CONNECTION_TIMEOUT : Z := 2.

(** [Duration::from_secs] *)
Definition from_secs (s : Z) : Duration := s * 1000000000.

(** [now.duration_since(then)] saturates at zero. *)
Definition duration_since (now then_ : Instant) : Duration := Z.max 0 (now - then_).

(** [self.0.wrapping_add(1)] *)
Definition peer_id_increment (p : PeerId) : PeerId := u32_add p 1.

Record PeerTimeoutConfig := mkPeerTimeoutConfig {
  response_timeout : Duration;
  max_connection_time : Duration;
  handshake_timeout : Duration;
}.

Definition peer_timeout_default : PeerTimeoutConfig :=
  {| response_timeout := from_secs MESSAGE_TIMEOUT_SECS;
     max_connection_time := from_secs TWO_HOUR;
     handshake_timeout := from_secs TCP_CONNECTION_TIMEOUT |}.

Record LastBlockMonitor := mkLastBlockMonitor { last_block : option Instant }.

Definition last_block_new : LastBlockMonitor := {| last_block := None |}.

Definition last_block_reset (now : Instant) : LastBlockMonitor := {| last_block := Some now |}.

Definition last_block_stale (now : Instant) (m : LastBlockMonitor) : bool :=
  match last_block m with
  | Some t => from_secs THIRTY_MINS <? duration_since now t
  | None => false
  end.

(** [IpAddr] and [SocketAddr] of the standard library. *)
Inductive IpAddr :=
  | V4 (octets : list Z)
  | V6 (segments : list Z).

Record SocketAddr := mkSocketAddr { sock_ip : IpAddr; sock_port : Z }.

(** The [match] that turns an [IpAddr] into an [AddrV2]. *)
Definition addr_of_ip (ip : IpAddr) : AddrV2 :=
  match ip with V4 o => Ipv4 o | V6 s => Ipv6 s end.

Inductive ConnectionType :=
  | ClearNet
  | Socks5Proxy (proxy : SocketAddr).

Definition can_connect (c : ConnectionType) (a : AddrV2) : bool :=
  match c with
  | ClearNet => match a with Ipv4 _ | Ipv6 _ => true | _ => false end
  | Socks5Proxy _ => match a with Ipv4 _ | Ipv6 _ => true | _ => false end
  end.

(** [ConnectionType::connect], the way to the peer: what is dialled.  The
    outcome of dialling, with its timeouts, is the argument [dial]. *)
Inductive Route :=
  | Direct (ip : IpAddr) (port : Z)
  | ViaProxy (proxy : SocketAddr) (ip : IpAddr) (port : Z).

Section Connect.
Context {Stream : Type}.
(** [inl None] is an elapsed timeout, [inl (Some e)] the error of the attempt. *)
Context (dial : Route -> option Socks5Error + Stream).

Definition connect (c : ConnectionType) (a : AddrV2) (port : Z) : PeerError + Stream :=
  match match a with Ipv4 o => Some (V4 o) | Ipv6 s => Some (V6 s) | _ => None end with
  | None => inl UnreachableSocketAddr
  | Some ip =>
      match c with
      | ClearNet =>
          match dial (Direct ip port) with
          | inl _ => inl ConnectionFailed
          | inr tcp_stream => inr tcp_stream
          end
      | Socks5Proxy proxy =>
          match dial (ViaProxy proxy ip port) with
          | inl None => inl ConnectionFailed
          | inl (Some e) => inl (Socks5 e)
          | inr tcp_stream => inr tcp_stream
          end
      end
  end.
End Connect.

(** ** [src/broadcaster.rs] *)
Section Broadcaster.
Context `{Bitcoin}.

Record Broadcaster := mkBroadcaster { bc_queue : list TxBroadcast }.

Definition broadcaster_new : Broadcaster := {| bc_queue := [] |}.

Definition broadcaster_add (tx : TxBroadcast) (b : Broadcaster) : Broadcaster :=
  {| bc_queue := bc_queue b ++ [tx] |}.

Definition broadcaster_is_empty (b : Broadcaster) : bool :=
  match bc_queue b with [] => true | _ => false end.

(** [core::mem::take] *)
Definition broadcaster_queue (b : Broadcaster) : list TxBroadcast * Broadcaster :=
  (bc_queue b, broadcaster_new).

(** [Vec::pop] *)
Definition broadcaster_next (b : Broadcaster) : option TxBroadcast * Broadcaster :=
  let '(tx, rest) := pop_back (bc_queue b) in (tx, {| bc_queue := rest |}).
End Broadcaster.
