(* ===== verification/Counter.v ===== *)
(** * The message counter: [src/network/counter.rs]

    Denial of service protection: a peer's thread counts what it asked for and
    what it received, and drops the connection when a counter is negative.  The
    counters are signed machine integers; the ledger below is the specification
    without a width, and the theorem shows that the two agree for as long as the
    thread keeps the connection. *)

From stdpp Require Import base numbers list.
From Stdlib Require Import ZArith Lia.
From S2P Require Import Prelude Bitcoin BlockQueue Messages Network.

Definition ADDR_HARD_LIMIT : Z := 10000.

(** ** The timer *)

Record MessageTimer := mkMessageTimer {
  tracked_time : option Instant;
  timeout : Duration;
}.

Definition timer_new (timeout : Duration) : MessageTimer :=
  {| tracked_time := None; timeout := timeout |}.

Definition timer_track (now : Instant) (t : MessageTimer) : MessageTimer :=
  {| tracked_time := Some now; timeout := timeout t |}.

Definition timer_untrack (t : MessageTimer) : MessageTimer :=
  {| tracked_time := None; timeout := timeout t |}.

Definition timer_unresponsive (now : Instant) (t : MessageTimer) : bool :=
  match tracked_time t with
  | Some since => timeout t <? duration_since now since
  | None => false
  end.

(** ** The counter *)

Record MessageCounter := mkMessageCounter {
  timer : MessageTimer;
  cnt_version : Z;        (* i8 *)
  cnt_verack : Z;         (* i8 *)
  cnt_header : Z;         (* i32 *)
  cnt_filter_header : Z;  (* i32 *)
  cnt_filters : Z;        (* i64 *)
  cnt_addrs : Z;          (* i32 *)
  cnt_block : Z;          (* i32 *)
  cnt_tx : Z;             (* i32 *)
}.

Definition counter_new (timeout : Duration) : MessageCounter :=
  {| timer := timer_new timeout; cnt_version := 1; cnt_verack := 1; cnt_header := 0;
     cnt_filter_header := 0; cnt_filters := 0; cnt_addrs := 0; cnt_block := 0; cnt_tx := 0 |}.

Definition with_timer (t : MessageTimer) (c : MessageCounter) : MessageCounter :=
  {| timer := t; cnt_version := cnt_version c; cnt_verack := cnt_verack c;
     cnt_header := cnt_header c; cnt_filter_header := cnt_filter_header c;
     cnt_filters := cnt_filters c; cnt_addrs := cnt_addrs c; cnt_block := cnt_block c;
     cnt_tx := cnt_tx c |}.

Definition add_version (d : Z) (c : MessageCounter) : MessageCounter :=
  {| timer := timer c; cnt_version := wrap_signed 8 (cnt_version c + d);
     cnt_verack := cnt_verack c; cnt_header := cnt_header c;
     cnt_filter_header := cnt_filter_header c; cnt_filters := cnt_filters c;
     cnt_addrs := cnt_addrs c; cnt_block := cnt_block c; cnt_tx := cnt_tx c |}.

Definition add_verack (d : Z) (c : MessageCounter) : MessageCounter :=
  {| timer := timer c; cnt_version := cnt_version c;
     cnt_verack := wrap_signed 8 (cnt_verack c + d); cnt_header := cnt_header c;
     cnt_filter_header := cnt_filter_header c; cnt_filters := cnt_filters c;
     cnt_addrs := cnt_addrs c; cnt_block := cnt_block c; cnt_tx := cnt_tx c |}.

Definition add_filter_header (d : Z) (c : MessageCounter) : MessageCounter :=
  {| timer := timer c; cnt_version := cnt_version c; cnt_verack := cnt_verack c;
     cnt_header := cnt_header c; cnt_filter_header := wrap_signed 32 (cnt_filter_header c + d);
     cnt_filters := cnt_filters c; cnt_addrs := cnt_addrs c; cnt_block := cnt_block c;
     cnt_tx := cnt_tx c |}.

Definition add_filters (d : Z) (c : MessageCounter) : MessageCounter :=
  {| timer := timer c; cnt_version := cnt_version c; cnt_verack := cnt_verack c;
     cnt_header := cnt_header c; cnt_filter_header := cnt_filter_header c;
     cnt_filters := wrap_signed 64 (cnt_filters c + d); cnt_addrs := cnt_addrs c;
     cnt_block := cnt_block c; cnt_tx := cnt_tx c |}.

Definition add_addrs (d : Z) (c : MessageCounter) : MessageCounter :=
  {| timer := timer c; cnt_version := cnt_version c; cnt_verack := cnt_verack c;
     cnt_header := cnt_header c; cnt_filter_header := cnt_filter_header c;
     cnt_filters := cnt_filters c; cnt_addrs := wrap_signed 32 (cnt_addrs c + d);
     cnt_block := cnt_block c; cnt_tx := cnt_tx c |}.

Definition add_block (d : Z) (c : MessageCounter) : MessageCounter :=
  {| timer := timer c; cnt_version := cnt_version c; cnt_verack := cnt_verack c;
     cnt_header := cnt_header c; cnt_filter_header := cnt_filter_header c;
     cnt_filters := cnt_filters c; cnt_addrs := cnt_addrs c;
     cnt_block := wrap_signed 32 (cnt_block c + d); cnt_tx := cnt_tx c |}.

Definition add_tx (d : Z) (c : MessageCounter) : MessageCounter :=
  {| timer := timer c; cnt_version := cnt_version c; cnt_verack := cnt_verack c;
     cnt_header := cnt_header c; cnt_filter_header := cnt_filter_header c;
     cnt_filters := cnt_filters c; cnt_addrs := cnt_addrs c; cnt_block := cnt_block c;
     cnt_tx := wrap_signed 32 (cnt_tx c + d) |}.

Definition track (now : Instant) (c : MessageCounter) : MessageCounter :=
  with_timer (timer_track now (timer c)) c.
Definition untrack (c : MessageCounter) : MessageCounter := with_timer (timer_untrack (timer c)) c.

Definition got_version (c : MessageCounter) : MessageCounter := add_version (-1) c.
Definition got_verack (c : MessageCounter) : MessageCounter := add_verack (-1) (untrack c).
Definition got_header (c : MessageCounter) : MessageCounter := untrack c.
Definition got_filter_header (c : MessageCounter) : MessageCounter :=
  add_filter_header (-1) (untrack c).
Definition got_filter (c : MessageCounter) : MessageCounter := add_filters (-1) (untrack c).
(** [num_addrs as i32] *)
Definition got_addrs (num_addrs : Z) (c : MessageCounter) : MessageCounter :=
  add_addrs (- wrap_signed 32 num_addrs) c.
Definition got_block (c : MessageCounter) : MessageCounter := add_block (-1) (untrack c).
Definition got_reject (c : MessageCounter) : MessageCounter := add_tx (-1) c.
Definition sent_version (now : Instant) (c : MessageCounter) : MessageCounter := track now c.
Definition sent_header (now : Instant) (c : MessageCounter) : MessageCounter := track now c.
Definition sent_filter_header (now : Instant) (c : MessageCounter) : MessageCounter :=
  add_filter_header 1 (track now c).
Definition sent_filters (now : Instant) (c : MessageCounter) : MessageCounter :=
  add_filters 1000 (track now c).
Definition sent_addrs (c : MessageCounter) : MessageCounter := add_addrs ADDR_HARD_LIMIT c.
Definition sent_block (now : Instant) (c : MessageCounter) : MessageCounter :=
  add_block 1 (track now c).
Definition sent_tx (c : MessageCounter) : MessageCounter := add_tx 1 c.

Definition unsolicited (c : MessageCounter) : bool :=
  (cnt_version c <? 0) || (cnt_header c <? 0) || (cnt_filters c <? 0) || (cnt_verack c <? 0)
  || (cnt_filter_header c <? 0) || (cnt_addrs c <? 0) || (cnt_block c <? 0) || (cnt_tx c <? 0).

Definition unresponsive (now : Instant) (c : MessageCounter) : bool :=
  timer_unresponsive now (timer c).

(** ** The ledger *)

Inductive CounterOp :=
  | GotVersion | GotVerack | GotHeader | GotFilterHeader | GotFilter
  | GotAddrs (n : Z) | GotBlock | GotReject
  | SentVersion (now : Instant) | SentHeader (now : Instant) | SentFilterHeader (now : Instant)
  | SentFilters (now : Instant) | SentAddrs | SentBlock (now : Instant) | SentTx.

Definition counter_step (op : CounterOp) (c : MessageCounter) : MessageCounter :=
  match op with
  | GotVersion => got_version c
  | GotVerack => got_verack c
  | GotHeader => got_header c
  | GotFilterHeader => got_filter_header c
  | GotFilter => got_filter c
  | GotAddrs n => got_addrs n c
  | GotBlock => got_block c
  | GotReject => got_reject c
  | SentVersion now => sent_version now c
  | SentHeader now => sent_header now c
  | SentFilterHeader now => sent_filter_header now c
  | SentFilters now => sent_filters now c
  | SentAddrs => sent_addrs c
  | SentBlock now => sent_block now c
  | SentTx => sent_tx c
  end.

(** The thread's loop: the connection is dropped before the next operation when
    the counter reports an unsolicited message. *)
Fixpoint counter_run (ops : list CounterOp) (c : MessageCounter) : option MessageCounter :=
  match ops with
  | [] => Some c
  | op :: ops' => if unsolicited c then None else counter_run ops' (counter_step op c)
  end.

Inductive Category := CVersion | CVerack | CFilterHeader | CFilter | CAddr | CBlock | CTx.

(** One version and one verack need no request. *)
Definition initial (k : Category) : Z :=
  match k with CVersion | CVerack => 1 | _ => 0 end.

(** What an operation grants to the peer, or (negative) takes. *)
Definition credit (k : Category) (op : CounterOp) : Z :=
  match k, op with
  | CVersion, GotVersion => -1
  | CVerack, GotVerack => -1
  | CFilterHeader, GotFilterHeader => -1
  | CFilterHeader, SentFilterHeader _ => 1
  | CFilter, GotFilter => -1
  | CFilter, SentFilters _ => 1000
  | CAddr, GotAddrs n => - n
  | CAddr, SentAddrs => 10000
  | CBlock, GotBlock => -1
  | CBlock, SentBlock _ => 1
  | CTx, GotReject => -1
  | CTx, SentTx => 1
  | _, _ => 0
  end.

Definition balance (k : Category) (ops : list CounterOp) : Z :=
  foldl (fun b op => b + credit k op) (initial k) ops.

(** The time of the last request that is still unanswered. *)
Definition waiting_step (w : option Instant) (op : CounterOp) : option Instant :=
  match op with
  | GotVerack | GotHeader | GotFilterHeader | GotFilter | GotBlock => None
  | SentVersion now | SentHeader now | SentFilterHeader now | SentFilters now
  | SentBlock now => Some now
  | _ => w
  end.

Definition waiting_since (ops : list CounterOp) : option Instant := foldl waiting_step None ops.

Definition field (k : Category) (c : MessageCounter) : Z :=
  match k with
  | CVersion => cnt_version c
  | CVerack => cnt_verack c
  | CFilterHeader => cnt_filter_header c
  | CFilter => cnt_filters c
  | CAddr => cnt_addrs c
  | CBlock => cnt_block c
  | CTx => cnt_tx c
  end.

Definition width (k : Category) : Z :=
  match k with CVersion | CVerack => 8 | CFilter => 64 | _ => 32 end.

(** The reader forwards at most 1000 addresses at once. *)
Definition op_ok (op : CounterOp) : Prop :=
  match op with GotAddrs n => 0 <= n <= 1000 | _ => True end.

Definition is_addr_request (op : CounterOp) : bool :=
  match op with SentAddrs => true | _ => false end.

(** The requests for addresses, each of which grants 10000. *)
Definition addr_requests (ops : list CounterOp) : Z :=
  Z.of_nat (length (filter (fun op => is_addr_request op = true) ops)).

(** A billion messages, of which 100000 requests for addresses. *)
Definition counted (ops : list CounterOp) : Prop :=
  Z.of_nat (length ops) <= 2 ^ 30 /\ addr_requests ops <= 100000.

(** The most that [ops] can grant. *)
Definition granted (k : Category) (ops : list CounterOp) : Z :=
  initial k + match k with
  | CAddr => 10000 * addr_requests ops
  | CFilter => 1000 * Z.of_nat (length ops)
  | _ => Z.of_nat (length ops)
  end.

Lemma addr_requests_app l1 l2 : addr_requests (l1 ++ l2) = addr_requests l1 + addr_requests l2.
Proof. unfold addr_requests. rewrite filter_app, length_app. lia. Qed.

Lemma addr_requests_one op : addr_requests [op] = if is_addr_request op then 1 else 0.
Proof. by destruct op. Qed.

Lemma addr_requests_nonneg ops : 0 <= addr_requests ops.
Proof. unfold addr_requests. lia. Qed.

Lemma counted_app l1 l2 : counted (l1 ++ l2) -> counted l1.
Proof.
  unfold counted. rewrite length_app, addr_requests_app. pose proof (addr_requests_nonneg l2). lia.
Qed.

Lemma field_step k op c :
  op_ok op -> - 2 ^ (width k - 1) <= field k c + credit k op < 2 ^ (width k - 1) ->
  - 2 ^ (width k - 1) <= field k c < 2 ^ (width k - 1) ->
  field k (counter_step op c) = field k c + credit k op.
Proof.
  intros Hop Hb Hf.
  destruct k, op; cbn -[wrap_signed Z.pow] in *; try (rewrite Z.add_0_r; done);
    try (apply wrap_signed_id; lia).
  rewrite (wrap_signed_id 32 n) by lia. apply wrap_signed_id; lia.
Qed.

Lemma unsolicited_spec c :
  cnt_header c = 0 -> unsolicited c = true <-> exists k, field k c < 0.
Proof.
  intros Hh. unfold unsolicited. rewrite Hh, !orb_true_iff, !Z.ltb_lt. split.
  - intros Hc. repeat destruct Hc as [Hc|Hc];
      [exists CVersion|lia|exists CFilter|exists CVerack|exists CFilterHeader|exists CAddr
      |exists CBlock|exists CTx]; done.
  - intros [[] Hk]; cbn in Hk; tauto.
Qed.

Lemma header_step op c : cnt_header (counter_step op c) = cnt_header c.
Proof. by destruct op. Qed.

Lemma tracked_step op c :
  tracked_time (timer (counter_step op c)) = waiting_step (tracked_time (timer c)) op /\
  timeout (timer (counter_step op c)) = timeout (timer c).
Proof. by destruct op. Qed.

(** The counter after [ops], when nobody has hung up. *)
Record ledger_ok (ops : list CounterOp) (limit : Duration) (c : MessageCounter) : Prop := {
  lo_field k : field k c = balance k ops;
  lo_low k : -1000 <= balance k ops;
  lo_small k : width k = 8 -> -1 <= balance k ops;
  lo_high k : balance k ops <= granted k ops;
  lo_eight k : width k = 8 -> balance k ops <= 1;
  lo_header : cnt_header c = 0;
  lo_timer : tracked_time (timer c) = waiting_since ops;
  lo_timeout : timeout (timer c) = limit;
}.

Lemma balance_snoc k ops op : balance k (ops ++ [op]) = balance k ops + credit k op.
Proof. unfold balance. by rewrite foldl_app. Qed.

Lemma credit_bounds k op :
  op_ok op -> -1000 <= credit k op <= 10000 /\ (width k = 8 -> -1 <= credit k op <= 0).
Proof. intros Hop. destruct k, op; cbn in *; lia. Qed.

Lemma granted_snoc k ops op : op_ok op -> granted k ops + credit k op <= granted k (ops ++ [op]).
Proof.
  intros Hop. unfold granted. rewrite addr_requests_app, addr_requests_one, length_app.
  destruct k, op; cbn in *; lia.
Qed.

Lemma ledger_step ops op limit c :
  counted (ops ++ [op]) -> op_ok op -> unsolicited c = false ->
  ledger_ok ops limit c -> ledger_ok (ops ++ [op]) limit (counter_step op c).
Proof.
  intros Hlen Hop Huns Hok.
  assert (forall k, 0 <= balance k ops) as Hnn.
  { intros k. rewrite <- (lo_field _ _ _ Hok). apply Z.nlt_ge. intros Hlt.
    assert (unsolicited c = true); [|congruence].
    apply unsolicited_spec; [apply Hok|by exists k]. }
  assert (forall k, field k (counter_step op c) = field k c + credit k op) as Hstep.
  { intros k. pose proof (Hnn k). pose proof (credit_bounds k op Hop) as [? ?].
    pose proof (lo_high _ _ _ Hok k) as Hg. pose proof (granted_snoc k ops op Hop) as Hs.
    pose proof (lo_eight _ _ _ Hok k). destruct Hlen as [Hlen Hreq].
    pose proof (counted_app ops [op] (conj Hlen Hreq)) as [? ?].
    apply field_step; [done|..]; rewrite (lo_field _ _ _ Hok); unfold granted in *;
      destruct k; cbn in *; lia. }
  destruct (tracked_step op c) as [Htr Hto].
  split; intros; rewrite ?balance_snoc, ?length_app; cbn [length].
  - rewrite Hstep, (lo_field _ _ _ Hok). done.
  - pose proof (Hnn k). pose proof (credit_bounds k op Hop). lia.
  - pose proof (Hnn k). pose proof (credit_bounds k op Hop). lia.
  - pose proof (lo_high _ _ _ Hok k). pose proof (granted_snoc k ops op Hop). lia.
  - pose proof (lo_eight _ _ _ Hok k). pose proof (credit_bounds k op Hop). lia.
  - rewrite header_step. apply Hok.
  - rewrite Htr, (lo_timer _ _ _ Hok). unfold waiting_since. by rewrite foldl_app.
  - rewrite Hto. apply Hok.
Qed.

Lemma ledger_run ops done limit c c' :
  counted (done ++ ops) -> Forall op_ok ops ->
  ledger_ok done limit c -> counter_run ops c = Some c' -> ledger_ok (done ++ ops) limit c'.
Proof.
  revert done c. induction ops as [|op ops IH]; intros done c Hlen Hops Hok; cbn.
  - intros [= <-]. by rewrite app_nil_r.
  - destruct (unsolicited c) eqn:Hu; [done|]. intros Hrun.
    inversion Hops; subst. rewrite cons_middle, app_assoc in *. eapply IH; [done|done| |done].
    apply ledger_step; [by eapply counted_app|done..].
Qed.

Lemma ledger_new limit : ledger_ok [] limit (counter_new limit).
Proof. by split; [intros []|intros []|intros []|intros []|intros []|..]. Qed.

(** The counters never wrap while a connection lasts, so they agree with the
    ledger, and so does the timer. *)
Lemma counter_exact ops limit c now :
  counted ops -> Forall op_ok ops ->
  counter_run ops (counter_new limit) = Some c ->
  (unsolicited c = true <-> exists k, balance k ops < 0) /\
  unresponsive now c =
    match waiting_since ops with Some t => limit <? duration_since now t | None => false end.
Proof.
  intros Hlen Hops Hrun.
  pose proof (ledger_run ops [] limit _ c Hlen Hops (ledger_new limit) Hrun) as Hok. cbn in Hok.
  split.
  - rewrite (unsolicited_spec _ (lo_header _ _ _ Hok)). by setoid_rewrite (lo_field _ _ _ Hok).
  - unfold unresponsive, timer_unresponsive.
    by rewrite (lo_timer _ _ _ Hok), (lo_timeout _ _ _ Hok).
Qed.

(** C32: the counters of a connection never wrap: after any exchange of at most
    2^30 messages with at most 100000 requests for addresses, each counter is
    exactly what was granted minus what was received; it is at most what was
    granted, it falls below zero by at most one message, and so it stays
    within the signed integer of its field. *)
Theorem counters_never_wrap ops limit c k :
  counted ops -> Forall op_ok ops -> counter_run ops (counter_new limit) = Some c ->
  field k c = balance k ops /\
  -1000 <= field k c <= granted k ops /\
  (width k = 8 -> -1 <= field k c <= 1) /\
  - 2 ^ (width k - 1) <= field k c < 2 ^ (width k - 1).
Proof.
  intros Hlen Hops Hrun.
  pose proof (ledger_run ops [] limit _ c Hlen Hops (ledger_new limit) Hrun) as Hok. cbn in Hok.
  pose proof (lo_low _ _ _ Hok k). pose proof (lo_high _ _ _ Hok k).
  pose proof (lo_small _ _ _ Hok k). pose proof (lo_eight _ _ _ Hok k).
  destruct Hlen as [Hlen Hreq]. rewrite (lo_field _ _ _ Hok). split_and!; try done.
  - auto.
  - destruct k; cbn in *; lia.
  - unfold granted in *. destruct k; cbn in *; lia.
Qed.

Lemma counters_never_wrap_witness :
  let ops := [SentAddrs; GotAddrs 1000; SentBlock 5; GotBlock; GotBlock] in
  match counter_run ops (counter_new 9) with
  | Some c => cnt_addrs c = 9000 /\ cnt_block c = balance CBlock ops /\ cnt_block c = -1
  | None => False
  end.
Proof.
  intros ops. destruct (counter_run ops (counter_new 9)) as [c|] eqn:Hc; [|by vm_compute in Hc].
  assert (counted ops) as Hn by (split; by vm_compute).
  assert (Forall op_ok ops) as Hok by (repeat (apply Forall_cons_2; [cbn; lia|]); apply Forall_nil_2).
  destruct (counters_never_wrap ops 9 c CAddr Hn Hok Hc) as [Ha _].
  destruct (counters_never_wrap ops 9 c CBlock Hn Hok Hc) as [Hb _]. cbn [field] in *.
  split_and!; [by rewrite Ha|done|by rewrite Hb].
Defined.
