(* ===== verification/Wire.v ===== *)
(** * The wire: [src/network/outbound_messages.rs] and [src/network/parsers.rs]

    [MessageGenerator] turns messages into bytes, [MessageParser] bytes into
    messages, in plaintext (V1) or encrypted (V2).  The encodings of the
    [bitcoin] and [bip324] crates are the class [Wire]; their documented
    behaviour is [WireLaws].  A stream is the list of the bytes that are still to
    arrive; reading past its end is an error. *)

From stdpp Require Import base numbers list strings.
From Stdlib Require Import ZArith Lia.
From S2P Require Import Prelude Bitcoin ChainTypes Checkpoints Batches BlockQueue Messages Network.

Definition MAX_MESSAGE_BYTES : Z := 1024 * 1024 * 32.

(** ** Messages of the [bitcoin] crate *)

Inductive Inventory :=
  | InvError
  | InvTransaction (h : Txid)
  | InvBlock (h : BlockHash)
  | InvCompactBlock (h : BlockHash)
  | InvWTx (h : Wtxid)
  | InvWitnessTransaction (h : Txid)
  | InvWitnessBlock (h : BlockHash)
  | InvUnknown (kind hash : Z).

(** [AddrV2Message] *)
Record AddrV2Message := mkAddrV2Message {
  av2_time : Z;
  av2_services : ServiceFlags;
  av2_addr : AddrV2;
  av2_port : Z;
}.

(** The payloads that the program never looks at are bytes. *)
Inductive NetworkMessage `{Bitcoin} :=
  | NmVersion (v : VersionMessage)
  | NmVerack
  | NmAddr (l : list (Z * NetAddress))
  | NmInv (l : list Inventory)
  | NmGetData (l : list Inventory)
  | NmNotFound (l : list Inventory)
  | NmGetBlocks (payload : bytes)
  | NmGetHeaders (locators : list BlockHash) (stop_hash : BlockHash)
  | NmMemPool
  | NmTx (tx : Transaction)
  | NmBlock (b : Block)
  | NmHeaders (l : list Header)
  | NmSendHeaders
  | NmGetAddr
  | NmPing (nonce : Z)
  | NmPong (nonce : Z)
  | NmMerkleBlock (payload : bytes)
  | NmFilterLoad (payload : bytes)
  | NmFilterAdd (payload : bytes)
  | NmFilterClear
  | NmGetCFilters (m : GetCFilters)
  | NmCFilter (m : CFilter)
  | NmGetCFHeaders (m : GetCFHeaders)
  | NmCFHeaders (m : CFHeaders)
  | NmGetCFCheckpt (payload : bytes)
  | NmCFCheckpt (payload : bytes)
  | NmSendCmpct (payload : bytes)
  | NmCmpctBlock (payload : bytes)
  | NmGetBlockTxn (payload : bytes)
  | NmBlockTxn (payload : bytes)
  | NmAlert (payload : bytes)
  | NmReject (ccode : Z) (hash : Z)
  | NmFeeFilter (i : Z)
  | NmWtxidRelay
  | NmAddrV2 (l : list AddrV2Message)
  | NmSendAddrV2
  | NmUnknown (command : string) (payload : bytes).

Inductive PacketType := Genuine | Decoy.

(** ** The encodings *)
Class Wire `{Bitcoin} := {
  (** [Network::magic], [RawNetworkMessage]'s encoding and decoding *)
  magic : Network -> bytes;
  raw_serialize : Network -> NetworkMessage -> bytes;
  raw_deserialize : bytes -> option NetworkMessage;
  (** [CommandString::consensus_decode] of its twelve bytes succeeds *)
  command_ok : bytes -> bool;
  (** [bip324::serde] *)
  v2_serialize : NetworkMessage -> option bytes;
  v2_deserialize : bytes -> option NetworkMessage;
  (** [PacketWriter], [PacketReader]: the ciphers of the two directions *)
  Encryptor : Type;
  Decryptor : Type;
  encrypt_packet : Encryptor -> bytes -> option bytes * Encryptor;
  decypt_len : Decryptor -> bytes -> Z * Decryptor;
  decrypt_payload : Decryptor -> bytes -> option (PacketType * bytes) * Decryptor;
  (** [Address::new], [Address::socket_addr] *)
  address_new : SocketAddr -> ServiceFlags -> NetAddress;
  socket_addr : NetAddress -> option SocketAddr;
}.

Section Generator.
Context `{Wire}.

(** ** [MessageGenerator] *)

Inductive Transport :=
  | TransportV1
  | TransportV2 (encryptor : Encryptor).

Record MessageGenerator := mkMessageGenerator {
  gen_network : Network;
  gen_transport : Transport;
}.

Definition serialize_network_message (m : NetworkMessage) : PeerError + bytes :=
  match v2_serialize m with Some b => inr b | None => inl MessageSerialization end.

Definition encrypt_plaintext (e : Encryptor) (plaintext : bytes) : (PeerError + bytes) * Encryptor :=
  let '(r, e') := encrypt_packet e plaintext in
  (match r with Some b => inr b | None => inl MessageEncryption end, e').

Definition serialize (m : NetworkMessage) : ST MessageGenerator PeerError bytes := fun g =>
  match gen_transport g with
  | TransportV1 => (inr (raw_serialize (gen_network g) m), g)
  | TransportV2 e =>
      match serialize_network_message m with
      | inl err => (inl err, g)
      | inr plaintext =>
          let '(r, e') := encrypt_plaintext e plaintext in
          (r, mkMessageGenerator (gen_network g) (TransportV2 e'))
      end
  end.

(** [format!("Kyoto Light Client / {KYOTO_VERSION} / rust-bitcoin ..")] *)
Definition KYOTO_VERSION : string := "0.11.0".
Definition RUST_BITCOIN_VERSION : string := "0.32.4".

(** [unix_time] is the seconds since the epoch. *)
Definition make_version (unix_time : Z) (port : option Z) (n : Network) : VersionMessage :=
  let ip := mkSocketAddr (V4 [127; 0; 0; 1]) (default (default_port_from_network n) port) in
  let from_and_recv := address_new ip NO_SERVICES in
  {| ver_version := PROTOCOL_VERSION; ver_services := NO_SERVICES;
     ver_timestamp := unix_time; ver_receiver := from_and_recv; ver_sender := from_and_recv;
     ver_nonce := 1;
     ver_user_agent := "Kyoto Light Client / " +:+ KYOTO_VERSION +:+ " / rust-bitcoin "
                       +:+ RUST_BITCOIN_VERSION;
     ver_start_height := 0; ver_relay := false |}.

Definition get_block_from_cfg (filter_control : bool) (locator : BlockHash) : Inventory :=
  if filter_control then InvWitnessBlock locator else InvBlock locator.

Definition version_message (unix_time : Z) (port : option Z) : ST MessageGenerator PeerError bytes :=
  fun g => serialize (NmVersion (make_version unix_time port (gen_network g))) g.
Definition gen_verack : ST MessageGenerator PeerError bytes := serialize NmVerack.
Definition gen_addr : ST MessageGenerator PeerError bytes := serialize NmGetAddr.
Definition gen_addrv2 : ST MessageGenerator PeerError bytes := serialize NmSendAddrV2.
Definition gen_wtxid_relay : ST MessageGenerator PeerError bytes := serialize NmWtxidRelay.
(** [BlockHash::all_zeros] *)
Definition gen_headers (locators : list BlockHash) (stop_hash : option BlockHash)
  : ST MessageGenerator PeerError bytes :=
  serialize (NmGetHeaders locators (default 0 stop_hash)).
Definition gen_cf_headers (m : GetCFHeaders) : ST MessageGenerator PeerError bytes :=
  serialize (NmGetCFHeaders m).
Definition gen_filters (m : GetCFilters) : ST MessageGenerator PeerError bytes :=
  serialize (NmGetCFilters m).
Definition gen_block (filter_control : bool) (locator : BlockHash)
  : ST MessageGenerator PeerError bytes :=
  serialize (NmGetData [get_block_from_cfg filter_control locator]).
Definition gen_pong (nonce : Z) : ST MessageGenerator PeerError bytes := serialize (NmPong nonce).
Definition gen_announce_transaction (w : Wtxid) : ST MessageGenerator PeerError bytes :=
  serialize (NmInv [InvWTx w]).
Definition gen_broadcast_transaction (tx : Transaction) : ST MessageGenerator PeerError bytes :=
  serialize (NmTx tx).

(** ** [MessageParser] *)

(** [V1Header] of [src/network/mod.rs] and its decoding. *)
Record V1Header := mkV1Header {
  vh_magic : bytes;
  vh_command : bytes;
  vh_length : Z;
  vh_checksum : Z;
}.

(** [read_exact] *)
Definition read_exact (n : nat) (stream : bytes) : option (bytes * bytes) :=
  if decide (n <= length stream)%nat then Some (take n stream, drop n stream) else None.

Definition v1_header_decode (buf : bytes) : option (V1Header * bytes) :=
  '(m, buf) ← read_exact 4 buf;
  '(command, buf) ← read_exact 12 buf;
  if negb (command_ok command) then None
  else
    '(len, buf) ← read_exact 4 buf;
    '(checksum, buf) ← read_exact 4 buf;
    Some (mkV1Header m command (from_le_bytes len) (from_le_bytes checksum), buf).

Inductive MessageParser :=
  | ParserV2 (stream : bytes) (decryptor : Decryptor)
  | ParserV1 (stream : bytes) (network : Network).

Definition read_message_v2 (stream : bytes) (decryptor : Decryptor)
  : (PeerReadError + option NetworkMessage) * MessageParser :=
  match read_exact 3 stream with
  | None => (inl ReadBuffer, ParserV2 [] decryptor)
  | Some (len_buf, stream) =>
      let '(message_len, decryptor) := decypt_len decryptor len_buf in
      if MAX_MESSAGE_BYTES <? message_len then (inl TooManyMessages, ParserV2 stream decryptor)
      else
        match read_exact (Z.to_nat message_len) stream with
        | None => (inl ReadBuffer, ParserV2 [] decryptor)
        | Some (response_message, stream) =>
            let '(msg, decryptor) := decrypt_payload decryptor response_message in
            match msg with
            | None => (inl DecryptionFailed, ParserV2 stream decryptor)
            | Some (Decoy, _) => (inr None, ParserV2 stream decryptor)
            | Some (Genuine, contents) =>
                match v2_deserialize contents with
                | None => (inl Deserialization, ParserV2 stream decryptor)
                | Some parsed => (inr (Some parsed), ParserV2 stream decryptor)
                end
            end
        end
  end.

Definition read_message_v1 (stream : bytes) (network : Network)
  : (PeerReadError + option NetworkMessage) * MessageParser :=
  match read_exact 24 stream with
  | None => (inl ReadBuffer, ParserV1 [] network)
  | Some (message_buf, stream) =>
      match v1_header_decode message_buf with
      | None => (inl Deserialization, ParserV1 stream network)
      | Some (header, _) =>
          if decide (vh_magic header ≠ magic network) then
            (inl Deserialization, ParserV1 stream network)
          else if MAX_MESSAGE_BYTES <? vh_length header then
            (inl Deserialization, ParserV1 stream network)
          else
            match read_exact (Z.to_nat (vh_length header)) stream with
            | None => (inl ReadBuffer, ParserV1 [] network)
            | Some (contents_buf, stream) =>
                match raw_deserialize (message_buf ++ contents_buf) with
                | None => (inl Deserialization, ParserV1 stream network)
                | Some message => (inr (Some message), ParserV1 stream network)
                end
            end
      end
  end.

Definition read_message : ST MessageParser PeerReadError (option NetworkMessage) := fun p =>
  match p with
  | ParserV2 stream decryptor => read_message_v2 stream decryptor
  | ParserV1 stream network => read_message_v1 stream network
  end.

(** ** Documented behaviour of the encodings

    A raw message is a header of 24 bytes and its payload; a packet is its
    encrypted length, header byte, contents and tag; what one cipher writes the
    other reads, in order. *)
Class WireLaws := {
  (** the messages whose encoding can be decoded *)
  sendable : NetworkMessage -> Prop;
  raw_payload : NetworkMessage -> bytes;
  raw_layout n m : exists command checksum,
    raw_serialize n m = magic n ++ command ++ le_bytes 4 (Z.of_nat (length (raw_payload m)))
                        ++ checksum ++ raw_payload m /\
    length command = 12%nat /\ length checksum = 4%nat /\ command_ok command = true;
  magic_length n : length (magic n) = 4%nat;
  raw_round_trip n m : sendable m -> raw_deserialize (raw_serialize n m) = Some m;
  v2_round_trip m b : sendable m -> v2_serialize m = Some b -> v2_deserialize b = Some m;
  paired : Encryptor -> Decryptor -> Prop;
  packet_round_trip e d b c e' : paired e d -> encrypt_packet e b = (Some c, e') ->
    exists len body d1 d2, c = len ++ body /\ length len = 3%nat /\
      length body = (length b + 17)%nat /\
      decypt_len d len = (Z.of_nat (length body), d1) /\
      decrypt_payload d1 body = (Some (Genuine, b), d2) /\ paired e' d2;
}.
End Generator.

(** ** Reading back what was written *)

Section Transport.
Context `{WireLaws}.

Lemma read_exact_app n (l1 l2 : bytes) : length l1 = n -> read_exact n (l1 ++ l2) = Some (l1, l2).
Proof.
  intros <-. unfold read_exact. rewrite length_app, decide_True by lia.
  by rewrite take_app_length, drop_app_length.
Qed.

Lemma read_exact_shorter n (l l1 l2 : bytes) :
  read_exact n l = Some (l1, l2) -> length l = (n + length l2)%nat.
Proof.
  unfold read_exact. case_decide; [|done]. intros [= <- <-]. rewrite length_drop. lia.
Qed.

(** A message the other side accepts. *)
Definition small (m : NetworkMessage) : Prop :=
  sendable m /\ Z.of_nat (length (raw_payload m)) <= MAX_MESSAGE_BYTES /\
  forall b, v2_serialize m = Some b -> Z.of_nat (length b) + 17 <= MAX_MESSAGE_BYTES.

(** The parser at the other end of the generator's stream. *)
Definition matched (g : MessageGenerator) (p : MessageParser) : Prop :=
  match gen_transport g, p with
  | TransportV1, ParserV1 _ network => network = gen_network g
  | TransportV2 e, ParserV2 _ d => paired e d
  | _, _ => False
  end.

Definition stream_of (p : MessageParser) : bytes :=
  match p with ParserV2 s _ => s | ParserV1 s _ => s end.

Lemma read_v1 n m rest :
  small m -> read_message_v1 (raw_serialize n m ++ rest) n = (inr (Some m), ParserV1 rest n).
Proof.
  intros (Hs & Hlen & _). destruct (raw_layout n m) as (command & checksum & Hr & Hc & Hk & Hok).
  pose proof (magic_length n) as Hm. set (payload := raw_payload m) in *.
  set (len := le_bytes 4 (Z.of_nat (length payload))) in *.
  assert (length len = 4%nat) as Hl by apply le_bytes_length.
  unfold read_message_v1. rewrite Hr.
  assert ((magic n ++ command ++ len ++ checksum ++ payload) ++ rest =
          (magic n ++ command ++ len ++ checksum) ++ payload ++ rest) as Hassoc
    by by rewrite <- !(assoc_L (++)).
  rewrite Hassoc, read_exact_app by (rewrite !length_app; lia).
  unfold v1_header_decode. rewrite read_exact_app by done. cbn [mbind option_bind].
  rewrite read_exact_app by done. cbn [mbind option_bind]. rewrite Hok. cbn [negb].
  rewrite read_exact_app by done. cbn [mbind option_bind].
  replace checksum with (checksum ++ []) at 1 by apply app_nil_r.
  rewrite read_exact_app by done. cbn [mbind option_bind vh_magic vh_length].
  unfold len. rewrite from_le_bytes_le_bytes by (unfold MAX_MESSAGE_BYTES in Hlen; lia).
  rewrite decide_False by (intros Hn; by apply Hn).
  destruct (Z.ltb_spec MAX_MESSAGE_BYTES (Z.of_nat (length payload))); [lia|].
  rewrite read_exact_app by lia. fold len.
  replace ((magic n ++ command ++ len ++ checksum) ++ payload) with (raw_serialize n m)
    by (rewrite Hr; by rewrite <- !(assoc_L (++))).
  by rewrite raw_round_trip.
Qed.

Lemma read_v2 e d m b c e' rest :
  small m -> paired e d -> v2_serialize m = Some b -> encrypt_packet e b = (Some c, e') ->
  exists d', read_message_v2 (c ++ rest) d = (inr (Some m), ParserV2 rest d') /\ paired e' d'.
Proof.
  intros (Hs & _ & Hlen) Hp Hb Hc.
  destruct (packet_round_trip _ _ _ _ _ Hp Hc) as (len & body & d1 & d2 & -> & Hl & Hbody & Hd & Hpl & Hp').
  exists d2. split; [|done]. specialize (Hlen b Hb). unfold read_message_v2.
  rewrite <- (assoc_L (++)), read_exact_app by done. rewrite Hd.
  destruct (Z.ltb_spec MAX_MESSAGE_BYTES (Z.of_nat (length body))); [lia|].
  rewrite read_exact_app by lia. rewrite Hpl. by rewrite (v2_round_trip _ _ Hs Hb).
Qed.

Lemma read_written m g b g' p rest :
  small m -> matched g p -> serialize m g = (inr b, g') -> stream_of p = b ++ rest ->
  exists p', read_message p = (inr (Some m), p') /\ matched g' p' /\ stream_of p' = rest.
Proof.
  intros Hm. unfold matched, serialize. destruct (gen_transport g) as [|e] eqn:Hg.
  - destruct p as [|s n]; [done|]. intros -> [= <- <-]. cbn. intros ->.
    rewrite read_v1 by done. eexists. split; [done|]. by rewrite Hg.
  - destruct p as [s d|]; [|done]. intros Hp. unfold serialize_network_message, encrypt_plaintext.
    destruct (v2_serialize m) as [pl|] eqn:Hpl; [|done].
    destruct (encrypt_packet e pl) as [[c|] e'] eqn:He; [|done]. intros [= <- <-]. cbn. intros ->.
    destruct (read_v2 e d m pl c e' rest Hm Hp Hpl He) as (d' & Hr & Hp').
    exists (ParserV2 rest d'). by rewrite Hr.
Qed.

(** Several messages, one after the other. *)
Fixpoint serialize_all (l : list NetworkMessage) : ST MessageGenerator PeerError bytes :=
  match l with
  | [] => mret []
  | m :: l' => b ← serialize m; bs ← serialize_all l'; mret (b ++ bs)
  end.

(** Reading always consumes at least three bytes or fails. *)
Lemma read_message_shorter p o p' :
  read_message p = (inr o, p') -> (length (stream_of p') + 3 <= length (stream_of p))%nat.
Proof.
  destruct p as [s d|s n]; cbn.
  - unfold read_message_v2. destruct (read_exact 3 s) as [[len s1]|] eqn:Hr1; [|done].
    apply read_exact_shorter in Hr1. destruct (decypt_len d len) as [l d1].
    destruct (_ <? _); [done|]. destruct (read_exact _ s1) as [[body s2]|] eqn:Hr2; [|done].
    apply read_exact_shorter in Hr2. repeat case_match; intros [= <- <-]; cbn; lia.
  - unfold read_message_v1. destruct (read_exact 24 s) as [[buf s1]|] eqn:Hr1; [|done].
    apply read_exact_shorter in Hr1. destruct (v1_header_decode buf) as [[h ?]|]; [|done].
    case_decide; [done|]. destruct (_ <? _); [done|].
    destruct (read_exact _ s1) as [[body s2]|] eqn:Hr2; [|done].
    apply read_exact_shorter in Hr2. repeat case_match; intros [= <- <-]; cbn; lia.
Qed.

Lemma read_message_empty p : stream_of p = [] -> exists p', read_message p = (inl ReadBuffer, p').
Proof. destruct p as [s d|s n]; cbn; intros ->; eauto. Qed.
End Transport.
