(* ===== verification/Reader.v ===== *)
(** * The reader: [src/network/reader.rs]

    The reading half of a connection: it filters what a peer sends into the
    messages the node understands and forwards them to the peer's thread.  The
    thread's end of the channel can be gone ([receiver_open]). *)

From stdpp Require Import base numbers list strings.
From Stdlib Require Import ZArith Lia.
From S2P Require Import Prelude Bitcoin ChainTypes Checkpoints Batches BlockQueue Messages Network Wire.

Definition MAX_ADDR : nat := 1000.
Definition MAX_INV : nat := 50000.
Definition MAX_HEADERS : nat := 2000.

(** [bitcoin::Txid::from], [FeeRate::from_sat_per_kwu] wrap their argument. *)

Section Reader.
Context `{Wire}.

(** A full node that serves filters. *)
Definition serves_filters (s : ServiceFlags) : bool :=
  services_has s COMPACT_FILTERS && services_has s NETWORK_SERVICE.

(** The chain of adapters of the [Addr] branch.  The address that is built
    shadows the one that was received, so its services are its own. *)
Definition addr_v1 (entry : Z * NetAddress) : option CombinedAddr :=
  let addr := entry.2 in
  if serves_filters (na_services addr) then
    match socket_addr addr with
    | Some sock =>
        let port := na_port addr in
        let ip := addr_of_ip (sock_ip sock) in
        let addr := combined_addr_new ip port in
        Some (combined_addr_services (ca_services addr) addr)
    | None => None
    end
  else None.

Definition addr_v2 (entry : AddrV2Message) : option CombinedAddr :=
  if serves_filters (av2_services entry) then
    Some (combined_addr_services (av2_services entry)
            (combined_addr_new (av2_addr entry) (av2_port entry)))
  else None.

Definition block_of_inventory (i : Inventory) : option BlockHash :=
  match i with
  | InvBlock hash | InvCompactBlock hash | InvWitnessBlock hash => Some hash
  | _ => None
  end.

Definition wtx_of_inventory (i : Inventory) : option Wtxid :=
  match i with InvWTx wtxid => Some wtxid | _ => None end.

Definition addr_message (l : list CombinedAddr) : option ReaderMessage :=
  match l with [] => None | _ => Some (RdAddr l) end.

Definition parse_message (message : NetworkMessage) : option ReaderMessage :=
  match message with
  | NmVersion v => Some (RdVersion v)
  | NmVerack => Some RdVerack
  | NmAddr addresses =>
      if decide (MAX_ADDR < length addresses)%nat then Some RdDisconnect
      else addr_message (omap addr_v1 addresses)
  | NmInv inventory =>
      if decide (MAX_INV < length inventory)%nat then Some RdDisconnect
      else match omap block_of_inventory inventory with
           | [] => None
           | hashes => Some (RdNewBlocks hashes)
           end
  | NmGetData inventory => Some (RdTxRequests (omap wtx_of_inventory inventory))
  | NmNotFound _ => None
  | NmGetBlocks _ => None
  | NmGetHeaders _ _ => None
  | NmMemPool => None
  | NmTx _ => None
  | NmBlock block => Some (RdBlock block)
  | NmHeaders headers =>
      if decide (MAX_HEADERS < length headers)%nat then Some RdDisconnect
      else Some (RdHeaders headers)
  | NmSendHeaders => None
  | NmGetAddr => None
  | NmPing nonce => Some (RdPing nonce)
  | NmPong nonce => Some (RdPong nonce)
  | NmMerkleBlock _ => None
  | NmFilterLoad _ => None
  | NmFilterAdd _ => None
  | NmFilterClear => None
  | NmGetCFilters _ => None
  | NmCFilter filter => Some (RdFilter filter)
  | NmGetCFHeaders _ => None
  | NmCFHeaders cf_headers => Some (RdFilterHeaders cf_headers)
  | NmGetCFCheckpt _ => None
  | NmCFCheckpt _ => None
  | NmSendCmpct _ => None
  | NmCmpctBlock _ => None
  | NmGetBlockTxn _ => None
  | NmBlockTxn _ => None
  | NmAlert _ => None
  | NmReject ccode hash => Some (RdReject (mkRejectPayload (Some ccode) hash))
  | NmFeeFilter i => if i <? 0 then Some RdDisconnect else Some (RdFeeFilter (i / 4))
  | NmWtxidRelay => None
  | NmAddrV2 addresses =>
      if decide (MAX_ADDR < length addresses)%nat then Some RdDisconnect
      else addr_message (omap addr_v2 addresses)
  | NmSendAddrV2 => None
  | NmUnknown _ _ => Some RdDisconnect
  end.

(** The loop of [read_from_remote]: the error it ends with and what it
    forwarded.  [None] is out of fuel; every message takes at least three bytes
    off the stream, so the length of the stream is enough. *)
Fixpoint read_loop (receiver_open : nat -> bool) (fuel : nat) (p : MessageParser)
    (sent : list ReaderMessage) : option (PeerReadError * list ReaderMessage) :=
  match fuel with
  | O => None
  | S fuel' =>
      match read_message p with
      | (inl e, _) => Some (e, sent)
      | (inr None, p') => read_loop receiver_open fuel' p' sent
      | (inr (Some message), p') =>
          match parse_message message with
          | Some cleaned =>
              if receiver_open (length sent)
              then read_loop receiver_open fuel' p' (sent ++ [cleaned])
              else Some (MpscChannel, sent)
          | None => read_loop receiver_open fuel' p' sent
          end
      end
  end.

Definition read_from_remote (receiver_open : nat -> bool) (p : MessageParser)
  : option (PeerReadError * list ReaderMessage) :=
  read_loop receiver_open (S (length (stream_of p))) p [].

(** ** Termination *)

Lemma read_loop_total receiver_open fuel : forall p sent,
  (length (stream_of p) < fuel)%nat -> is_Some (read_loop receiver_open fuel p sent).
Proof.
  induction fuel as [|fuel IH]; intros p sent Hlen; [lia|]. cbn.
  destruct (read_message p) as [[e|[m|]] p'] eqn:Hr; [by eexists| |];
    apply read_message_shorter in Hr.
  - destruct (parse_message m); [destruct (receiver_open _); [|by eexists]|]; apply IH; lia.
  - apply IH. lia.
Qed.

(** Every forwarded message took at least three bytes. *)
Lemma read_loop_sent receiver_open fuel : forall p sent e sent',
  read_loop receiver_open fuel p sent = Some (e, sent') ->
  (3 * length sent' <= 3 * length sent + length (stream_of p))%nat.
Proof.
  induction fuel as [|fuel IH]; intros p sent e sent' Hr; [done|]. cbn [read_loop] in Hr.
  destruct (read_message p) as [[e'|[m|]] p'] eqn:Hm; [injection Hr as <- <-; lia|..];
    apply read_message_shorter in Hm.
  - destruct (parse_message m); [destruct (receiver_open _)|]; [..|apply IH in Hr; lia].
    + apply IH in Hr. rewrite length_app in Hr. cbn in Hr. lia.
    + injection Hr as <- <-. lia.
  - apply IH in Hr. lia.
Qed.

Lemma read_loop_fuel receiver_open f1 : forall f2 p sent r,
  read_loop receiver_open f1 p sent = Some r -> (f1 <= f2)%nat ->
  read_loop receiver_open f2 p sent = Some r.
Proof.
  induction f1 as [|f1 IH]; intros [|f2] p sent r Hr Hle; [done|done|lia|].
  cbn in *. destruct (read_message p) as [[e|[m|]] p']; [done| |].
  - destruct (parse_message m); [destruct (receiver_open _); [|done]|]; apply IH; (done || lia).
  - apply IH; (done || lia).
Qed.

(** C30: the reader ends on every stream: whatever bytes a peer sends, plaintext
    or encrypted, well formed or not, and whenever its receiver is dropped, the
    reading loop reaches an error after finitely many messages, having
    forwarded at most one message for every three bytes; more fuel than the
    length of the stream does not change the outcome. *)
Theorem reader_always_ends receiver_open p :
  exists e sent, read_from_remote receiver_open p = Some (e, sent) /\
    (3 * length sent <= length (stream_of p))%nat /\
    forall fuel, (length (stream_of p) < fuel)%nat ->
      read_loop receiver_open fuel p [] = Some (e, sent).
Proof.
  unfold read_from_remote.
  destruct (read_loop_total receiver_open (S (length (stream_of p))) p []) as [[e sent] Hr]; [lia|].
  exists e, sent. split_and!; [done|by apply read_loop_sent in Hr|].
  intros fuel Hf. by apply (read_loop_fuel _ _ _ _ _ _ Hr).
Qed.
End Reader.

(** ** A session *)

Section Session.
Context `{WireLaws}.

Lemma read_session l : forall g bs g' p rest fuel sent,
  Forall small l -> matched g p -> serialize_all l g = (inr bs, g') ->
  stream_of p = bs ++ rest -> exists p',
    read_loop (fun _ => true) (length l + fuel) p sent =
      read_loop (fun _ => true) fuel p' (sent ++ omap parse_message l) /\
    matched g' p' /\ stream_of p' = rest.
Proof.
  induction l as [|m l IH]; intros g bs g' p rest fuel sent Hl Hg Hser Hp.
  - injection Hser as <- <-. exists p. by rewrite app_nil_r.
  - cbn [serialize_all] in Hser. st_cases Hser; [done|]. st_cases Hser; [done|].
    injection Hser as <- <-. inversion Hl; subst. rewrite <- (assoc_L (++)) in Hp.
    destruct (read_written m g a s p _ ltac:(done) Hg Hstep Hp) as (p1 & Hr & Hg1 & Hp1).
    cbn [length Nat.add read_loop]. rewrite Hr. cbn [omap list_omap].
    destruct (parse_message m) as [cleaned|].
    + destruct (IH _ _ _ _ _ fuel (sent ++ [cleaned]) ltac:(done) Hg1 Hstep0 Hp1) as (p' & Hrl & ?).
      exists p'. by rewrite Hrl, <- (assoc_L (++)).
    + destruct (IH _ _ _ _ _ fuel sent ltac:(done) Hg1 Hstep0 Hp1) as (p' & Hrl & ?). by exists p'.
Qed.

(** C29: the two ends of a connection agree: when one side writes messages with a
    [MessageGenerator], in plaintext or encrypted, and the stream then ends, the
    reader at the other end terminates with a read error after forwarding
    exactly what [parse_message] keeps of each message, in order. *)
Theorem session_round_trip l g bs g' p :
  Forall small l -> matched g p -> serialize_all l g = (inr bs, g') -> stream_of p = bs ->
  read_from_remote (fun _ => true) p = Some (ReadBuffer, omap parse_message l).
Proof.
  intros Hl Hg Hser Hp. unfold read_from_remote.
  destruct (read_session l g bs g' p [] 1 [] Hl Hg Hser) as (p' & Hr & _ & Hp');
    [by rewrite app_nil_r|].
  destruct (read_loop_total (fun _ => true) (S (length (stream_of p))) p []) as [r Hrl]; [lia|].
  rewrite Hrl. apply (read_loop_fuel _ _ (length l + S (length (stream_of p)))) in Hrl; [|lia].
  destruct (read_message_empty p' Hp') as [p'' He].
  assert (read_loop (fun _ => true) (length l + 1) p [] =
            Some (ReadBuffer, omap parse_message l)) as Hone by (rewrite Hr; cbn; by rewrite He).
  apply (read_loop_fuel _ _ (length l + S (length (stream_of p)))) in Hone; [|lia]. congruence.
Qed.
End Session.

(** ** What is let through *)

Section Guards.
Context `{Wire}.

Lemma omap_length_le {A B} (f : A -> option B) l : (length (omap f l) <= length l)%nat.
Proof. induction l as [|x l IH]; cbn; [lia|]. destruct (f x); cbn; lia. Qed.

Lemma addr_message_Some l r :
  addr_message l = Some r -> r = RdAddr l /\ l <> [].
Proof. destruct l; [done|]. by intros [= <-]. Qed.


(** Addresses gossiped in the older [addr] message lose their services:
    only peers that announce filters pass, and every one is forwarded with no
    services at all. *)
Theorem v1_gossip_loses_services l out :
  parse_message (NmAddr l) = Some (RdAddr out) ->
  Forall (fun c => ca_services c = NO_SERVICES) out.
Proof.
  cbn. case_decide; [done|]. intros [[= ->] _]%addr_message_Some.
  apply Forall_forall. intros c (e & _ & Hc)%list_elem_of_omap.
  unfold addr_v1 in Hc. destruct (serves_filters _); [|done].
  destruct (socket_addr e.2); [|done]. by injection Hc as <-.
Qed.
End Guards.

(** ** A concrete encoding for the witnesses *)
Module ToyWire.
Export Toy.

Definition encode (m : NetworkMessage) : bytes :=
  match m with
  | NmVerack => [0]
  | NmPing n => [1; n]
  | NmPong n => [2; n]
  | _ => [3]
  end.

Definition decode (l : bytes) : option NetworkMessage :=
  match l with
  | [0] => Some NmVerack
  | [1; n] => Some (NmPing n)
  | [2; n] => Some (NmPong n)
  | _ => None
  end.

Definition toy_sendable (m : NetworkMessage) : Prop :=
  match m with NmVerack | NmPing _ | NmPong _ => True | _ => False end.

(** A cipher is the number of the next packet. *)
#[export] Instance toy_wire : Wire := {
  magic n := match n with Mainnet => [249; 190; 180; 217] | _ => [10; 3; 207; 64] end;
  raw_serialize n m := match n with Mainnet => [249; 190; 180; 217] | _ => [10; 3; 207; 64] end
    ++ replicate 12 0 ++ le_bytes 4 (Z.of_nat (length (encode m))) ++ replicate 4 0 ++ encode m;
  raw_deserialize l := decode (drop 24 l);
  command_ok l := bool_decide (l = replicate 12 0);
  v2_serialize m := Some (encode m);
  v2_deserialize := decode;
  Encryptor := Z;
  Decryptor := Z;
  encrypt_packet e b :=
    if decide (length b < 1000)%nat then
      (Some (le_bytes 3 (Z.of_nat (length b + 17)) ++ (e :: b ++ replicate 16 0)), e + 1)
    else (None, e);
  decypt_len d l := (from_le_bytes l, d);
  decrypt_payload d l :=
    match l with
    | k :: l' => if k =? d then (Some (Genuine, take (length l' - 16) l'), d + 1) else (None, d)
    | [] => (None, d)
    end;
  address_new s f := mkNetAddress f (match sock_ip s with V4 l | V6 l => l end) (sock_port s);
  socket_addr a := Some (mkSocketAddr (V4 (na_address a)) (na_port a));
}.

#[export] Program Instance toy_wire_laws : WireLaws := {
  sendable := toy_sendable;
  raw_payload := encode;
  paired := eq;
}.
Next Obligation. intros n m. by exists (replicate 12 0), (replicate 4 0). Qed.
Next Obligation. by intros []. Qed.
Next Obligation. by intros [] []. Qed.
Next Obligation. by intros [] ? ? [= <-]. Qed.
Next Obligation.
  intros e d b c e' -> He. cbn in He. case_decide as Hlen; [|done]. injection He as <- <-.
  assert (length (b ++ replicate 16 0) = (length b + 16)%nat) as Hb
    by by rewrite length_app, length_replicate.
  exists (le_bytes 3 (Z.of_nat (length b + 17))), (d :: b ++ replicate 16 0), d, (d + 1).
  split_and!; [done|done| | | |done].
  - change (S (length (b ++ replicate 16 0)) = (length b + 17)%nat). lia.
  - change ((from_le_bytes (le_bytes 3 (Z.of_nat (length b + 17))), d) =
            (Z.of_nat (S (length (b ++ replicate 16 0))), d)).
    rewrite from_le_bytes_le_bytes by lia. f_equal. lia.
  - change ((if d =? d then (Some (Genuine, take (length (b ++ replicate 16 0) - 16)
              (b ++ replicate 16 0)), d + 1) else (None, d)) = (Some (Genuine, b), d + 1)).
    rewrite Z.eqb_refl, Hb. replace (length b + 16 - 16)%nat with (length b) by lia.
    by rewrite take_app_length.
Qed.

Definition messages : list NetworkMessage := [NmPing 7; NmVerack; NmPong 9].

Lemma toy_small m : toy_sendable m -> small m.
Proof.
  intros Hm. split_and!; [done|by destruct m|]. intros b Hb.
  injection Hb as <-. by destruct m.
Qed.

Lemma messages_small : Forall small messages.
Proof. repeat (apply Forall_cons_2; [by apply toy_small|]). apply Forall_nil_2. Qed.

Definition generator_v2 : MessageGenerator := mkMessageGenerator Mainnet (TransportV2 5).
Definition parser_v2 : MessageParser :=
  ParserV2 (match (serialize_all messages generator_v2).1 with inr b => b | _ => [] end) 5.

Lemma session_round_trip_witness :
  read_from_remote (fun _ => true) parser_v2 = Some (ReadBuffer, [RdPing 7; RdVerack; RdPong 9]).
Proof.
  exact (session_round_trip messages generator_v2 _ _ parser_v2 messages_small eq_refl
           eq_refl eq_refl).
Defined.

Definition gossip : list (Z * NetAddress) :=
  [(0, mkNetAddress 65 [1; 2; 3; 4] 8333); (0, mkNetAddress 1 [1; 2; 3; 5] 8333)].

Lemma v1_gossip_loses_services_witness :
  exists c, parse_message (NmAddr gossip) = Some (RdAddr [c]) /\ ca_services c = 0.
Proof.
  eexists. split; [reflexivity|].
  pose proof (v1_gossip_loses_services gossip _ eq_refl) as Hall.
  by inversion Hall.
Defined.

End ToyWire.
