(* ===== verification/Dns.v ===== *)
(** * Finding peers: [src/network/dns.rs] and [src/network/socks.rs]

    The DNS query of the seeds and the SOCKS5 handshake, as byte protocols.
    What the network answers is an argument. *)

From stdpp Require Import base numbers list strings.
From Stdlib Require Import ZArith Lia Ascii.
From S2P Require Import Prelude Bitcoin ChainTypes Checkpoints Batches BlockQueue Messages Network Wire.

(** ** DNS *)

Definition SIGNET_SEEDS : list string := ["seed.dlsouza.lol"; "seed.signet.bitcoin.sprovoost.nl"].

Definition TESTNET_SEEDS : list string :=
  ["testnet-seed.bitcoin.jonasschnelli.ch"; "seed.tbtc.petertodd.org";
   "seed.testnet.bitcoin.sprovoost.nl"; "testnet-seed.bluematt.me"].

Definition MAINNET_SEEDS : list string :=
  ["seed.bitcoin.sipa.be"; "dnsseed.bluematt.me"; "dnsseed.bitcoin.dashjr.org";
   "seed.bitcoinstats.com"; "seed.bitcoin.jonasschnelli.ch"; "seed.btc.petertodd.org";
   "seed.bitcoin.sprovoost.nl"; "dnsseed.emzy.de"; "seed.bitcoin.wiz.biz"].

Definition TESTNET4_SEEDS : list string :=
  ["seed.testnet4.bitcoin.sprovoost.nl"; "seed.testnet4.wiz.biz"].

Definition SERVICE_BITS_PREFIX : list string := ["x49"; "x849"].

Definition DNS_RESOLVER_PORT : Z := 53.
Definition HEADER_BYTES : nat := 12.
Definition RECURSIVE_FLAGS : bytes := [1; 0].
Definition QTYPE : bytes := [0; 1; 0; 1].
Definition COUNTS : bytes := [0; 0; 0; 0; 0; 0].
Definition A_RECORD : Z := 1.
Definition A_CLASS : Z := 1.
Definition EXPECTED_RDATA_LEN : Z := 4.

Record DnsResolver := mkDnsResolver { resolver_addr : SocketAddr }.

Definition dns_resolver_default : DnsResolver :=
  {| resolver_addr := mkSocketAddr (V4 [1; 1; 1; 1]) DNS_RESOLVER_PORT |}.

Record Dns := mkDns { seeds : list string; dns_resolver : DnsResolver }.

Definition dns_new (n : Network) (resolver : DnsResolver) : Dns :=
  {| seeds := match n with
              | Mainnet => MAINNET_SEEDS
              | Testnet => TESTNET_SEEDS
              | Signet => SIGNET_SEEDS
              | Regtest => []
              | Testnet4 => TESTNET4_SEEDS
              end;
     dns_resolver := resolver |}.

Record DNSQuery := mkDNSQuery {
  message_id : bytes;
  message : bytes;
  question : bytes;
}.

(** [message_id] is two random bytes. *)
Definition dns_query_new (message_id : bytes) (seed service_bit_prefix : string) : DNSQuery :=
  let question := encode_qname seed service_bit_prefix ++ QTYPE in
  {| message_id := message_id;
     message := message_id ++ RECURSIVE_FLAGS ++ [0; 1] ++ COUNTS ++ question;
     question := question |}.

Definition read_eof (n : nat) (l : bytes) : DNSQueryError + (bytes * bytes) :=
  match read_exact n l with Some r => inr r | None => inl UnexpectedEOF end.

#[local] Notation "'let?' p := e 'in' k" :=
  (match e with inl err => inl err | inr p => k end)
  (at level 200, p pattern, e at level 100, k at level 200).

(** One record of the answer: its address, if it is an A record. *)
Definition read_record (response : bytes) : DNSQueryError + (option IpAddr * bytes) :=
  let? (name, response) := read_eof 2 response in
  let? (atype, response) := read_eof 2 response in
  let? (aclass, response) := read_eof 2 response in
  let? (ttl, response) := read_eof 4 response in
  let? (len, response) := read_eof 2 response in
  let rdlength := from_be_bytes len in
  let? (rdata, response) := read_eof (Z.to_nat rdlength) response in
  inr (if (from_be_bytes atype =? A_RECORD) && (from_be_bytes aclass =? A_CLASS)
          && (rdlength =? EXPECTED_RDATA_LEN)
       then Some (V4 rdata) else None, response).

Fixpoint read_records (ancount : nat) (response : bytes) : DNSQueryError + list IpAddr :=
  match ancount with
  | O => inr []
  | S ancount' =>
      let? (ip, response) := read_record response in
      let? ips := read_records ancount' response in
      inr (option_list ip ++ ips)
  end.

Definition dns_parse_message (q : DNSQuery) (response : bytes) : DNSQueryError + list IpAddr :=
  let? (id, response) := read_eof 2 response in
  if decide (message_id q ≠ id) then inl MessageID
  else
    let? (flags, response) := read_eof 2 response in
    let? (qdcount, response) := read_eof 2 response in
    let? (ancount, response) := read_eof 2 response in
    let? (nscount, response) := read_eof 2 response in
    let? (arcount, response) := read_eof 2 response in
    let? (repeated, response) := read_eof (length (question q)) response in
    if decide (question q ≠ repeated) then inl Question
    else read_records (Z.to_nat (from_be_bytes ancount)) response.

(** [exchange] sends the message to the resolver and receives at most 512 bytes. *)
Definition lookup (exchange : SocketAddr -> bytes -> DNSQueryError + bytes)
    (q : DNSQuery) (resolver : SocketAddr) : DNSQueryError + list IpAddr :=
  let? response := exchange resolver (message q) in
  if decide (length response < HEADER_BYTES)%nat then inl MalformedHeader
  else dns_parse_message q response.

(** The two loops of [bootstrap]; [ids host filter] are the random bytes. *)
Definition dns_bootstrap (exchange : SocketAddr -> bytes -> DNSQueryError + bytes)
    (ids : string -> string -> bytes) (d : Dns) : list IpAddr :=
  foldl (fun ip_addrs host =>
    foldl (fun ip_addrs filter =>
      match lookup exchange (dns_query_new (ids host filter) host filter)
              (resolver_addr (dns_resolver d)) with
      | inr addrs => ip_addrs ++ addrs
      | inl _ => ip_addrs
      end) ip_addrs SERVICE_BITS_PREFIX) [] (seeds d).

(** ** The format of an answer

    What a resolver that follows the protocol sends: the header with the
    identifier of the query and the number of records, the question, the
    records with compressed names. *)
Record DnsRecord := mkDnsRecord {
  dr_name : bytes;
  dr_type : Z;
  dr_class : Z;
  dr_ttl : bytes;
  dr_data : bytes;
}.

Definition record_ok (r : DnsRecord) : Prop :=
  length (dr_name r) = 2%nat /\ length (dr_ttl r) = 4%nat /\ 0 <= dr_type r < 65536 /\
  0 <= dr_class r < 65536 /\ Z.of_nat (length (dr_data r)) < 65536.

Definition encode_record (r : DnsRecord) : bytes :=
  dr_name r ++ be_bytes 2 (dr_type r) ++ be_bytes 2 (dr_class r) ++ dr_ttl r ++
  be_bytes 2 (Z.of_nat (length (dr_data r))) ++ dr_data r.

Definition encode_answer (q : DNSQuery) (flags nscount arcount : bytes) (l : list DnsRecord)
    (extra : bytes) : bytes :=
  message_id q ++ flags ++ [0; 1] ++ be_bytes 2 (Z.of_nat (length l)) ++ nscount ++ arcount ++
  question q ++ concat (encode_record <$> l) ++ extra.

(** The IPv4 addresses among the records. *)
Definition a_record (r : DnsRecord) : option IpAddr :=
  if (dr_type r =? 1) && (dr_class r =? 1) && (Z.of_nat (length (dr_data r)) =? 4)
  then Some (V4 (dr_data r)) else None.

Lemma read_eof_app n l1 l2 : length l1 = n -> read_eof n (l1 ++ l2) = inr (l1, l2).
Proof. intros Hl. unfold read_eof. by rewrite read_exact_app. Qed.

Lemma from_be_bytes_two v : 0 <= v < 65536 -> from_be_bytes (be_bytes 2 v) = v.
Proof. intros Hv. apply from_be_bytes_be_bytes. lia. Qed.

Lemma read_record_encoded r rest :
  record_ok r -> read_record (encode_record r ++ rest) = inr (a_record r, rest).
Proof.
  intros (Hn & Ht & Hty & Hcl & Hd). unfold read_record, encode_record.
  rewrite <- !(assoc_L (++)).
  do 5 (rewrite read_eof_app by (done || apply be_bytes_length)).
  rewrite !from_be_bytes_two by lia. rewrite read_eof_app by lia. done.
Qed.

Lemma read_records_encoded l extra :
  Forall record_ok l ->
  read_records (length l) (concat (encode_record <$> l) ++ extra) = inr (omap a_record l).
Proof.
  induction 1 as [|r l Hr _ IH]; [done|]. cbn [length fmap list_fmap concat read_records].
  rewrite <- (assoc_L (++)), read_record_encoded by done. rewrite IH.
  cbn. by destruct (a_record r).
Qed.

(** C39: reading the answer of a resolver gives exactly the addresses of its A
    records, in order, whatever other records it has and whatever follows them;
    an answer to another query or to another question is refused. *)
Theorem dns_answer_round_trip id seed prefix flags nscount arcount l extra :
  length id = 2%nat -> length flags = 2%nat -> length nscount = 2%nat -> length arcount = 2%nat ->
  Forall record_ok l -> Z.of_nat (length l) < 65536 ->
  let q := dns_query_new id seed prefix in
  dns_parse_message q (encode_answer q flags nscount arcount l extra) = inr (omap a_record l) /\
  (forall id' rest, length id' = 2%nat -> id' <> id ->
     dns_parse_message q (id' ++ rest) = inl MessageID) /\
  (forall other rest, length other = length (question q) -> other <> question q ->
     dns_parse_message q (id ++ flags ++ [0; 1] ++ be_bytes 2 (Z.of_nat (length l)) ++ nscount ++
       arcount ++ other ++ rest) = inl Question).
Proof.
  intros Hid Hf Hns Har Hl Hlen q. unfold dns_parse_message. split_and!.
  - unfold encode_answer. do 1 rewrite read_eof_app by done. rewrite decide_False by tauto.
    do 6 (rewrite read_eof_app by (done || apply be_bytes_length)). rewrite decide_False by tauto.
    rewrite from_be_bytes_two, Nat2Z.id by lia. by apply read_records_encoded.
  - intros id' rest Hid' Hne. rewrite read_eof_app by done. by rewrite decide_True by (cbn; congruence).
  - intros other rest Hlo Hne. rewrite read_eof_app by done. rewrite decide_False by (cbn; tauto).
    do 6 (rewrite read_eof_app by (done || apply be_bytes_length)).
    by rewrite decide_True by congruence.
Qed.

Definition sample_records : list DnsRecord :=
  [mkDnsRecord [192; 12] 5 1 [0; 0; 0; 1] [1; 97; 0]; mkDnsRecord [192; 12] 1 1 [0; 0; 0; 1] [9; 8; 7; 6]].

Lemma dns_answer_round_trip_witness :
  let q := dns_query_new [7; 9] "seed.bitcoin.sipa.be" "x49" in
  dns_parse_message q (encode_answer q [129; 128] [0; 0] [0; 0] sample_records []) =
    inr [V4 [9; 8; 7; 6]].
Proof.
  refine (proj1 (dns_answer_round_trip [7; 9] "seed.bitcoin.sipa.be" "x49" [129; 128] [0; 0] [0; 0]
    sample_records [] eq_refl eq_refl eq_refl eq_refl _ _)); [|by vm_compute].
  repeat constructor; cbn; lia.
Defined.

(** ** SOCKS5 *)

Definition SOCKS_VERSION : Z := 5.
Definition NOAUTH : Z := 0.
Definition METHODS : Z := 1.
Definition CMD_CONNECT : Z := 1.
Definition RESPONSE_SUCCESS : Z := 0.
Definition RSV : Z := 0.
Definition ADDR_TYPE_IPV4 : Z := 1.
Definition ADDR_TYPE_IPV6 : Z := 4.

(** The connection to the proxy: what it will still send, what was written to
    it, and how many more writes it takes. *)
Record ProxyStream := mkProxyStream {
  ps_incoming : bytes;
  ps_written : bytes;
  ps_writable : nat;
}.

Definition ps_write (b : bytes) : ST ProxyStream Socks5Error () := fun s =>
  match ps_writable s with
  | O => (inl IO, s)
  | S n => (inr (), mkProxyStream (ps_incoming s) (ps_written s ++ b) n)
  end.

Definition ps_read (n : nat) : ST ProxyStream Socks5Error bytes := fun s =>
  match read_exact n (ps_incoming s) with
  | Some (b, rest) => (inr b, mkProxyStream rest (ps_written s) (ps_writable s))
  | None => (inl IO, mkProxyStream [] (ps_written s) (ps_writable s))
  end.

(** The octets of an IPv6 address. *)
Definition dest_ip_bytes (ip : IpAddr) : bytes :=
  match ip with
  | V4 octets => octets
  | V6 segments => concat ((fun s => be_bytes 2 s) <$> segments)
  end.

(** The handshake after the connection is made. *)
Definition socks5_handshake (ip : IpAddr) (port : Z) : ST ProxyStream Socks5Error () :=
  let ip_type_byte := match ip with V4 _ => ADDR_TYPE_IPV4 | V6 _ => ADDR_TYPE_IPV6 end in
  ps_write [SOCKS_VERSION; METHODS; NOAUTH];;
  buf ← ps_read 2;
  st_guard (nth 0 buf 0 =? SOCKS_VERSION) WrongVersion;;
  st_guard (nth 1 buf 0 =? NOAUTH) AuthRequired;;
  ps_write [SOCKS_VERSION; CMD_CONNECT; RSV; ip_type_byte];;
  ps_write (dest_ip_bytes ip);;
  ps_write (be_bytes 2 port);;
  buf ← ps_read 4;
  st_guard (nth 0 buf 0 =? SOCKS_VERSION) WrongVersion;;
  st_guard (nth 1 buf 0 =? RESPONSE_SUCCESS) Socks5ConnectionFailed;;
  let kind := nth 3 buf 0 in
  if kind =? ADDR_TYPE_IPV4 then ps_read 6;; mret ()
  else if kind =? ADDR_TYPE_IPV6 then ps_read 18;; mret ()
  else st_fail Socks5ConnectionFailed.

(** [tcp] is the outcome of connecting to the proxy. *)
Definition create_socks5 (tcp : Socks5Error + ProxyStream) (ip : IpAddr) (port : Z)
  : Socks5Error + ProxyStream :=
  match tcp with
  | inl e => inl e
  | inr stream =>
      match socks5_handshake ip port stream with
      | (inl e, _) => inl e
      | (inr _, stream') => inr stream'
      end
  end.

(** A proxy that follows the protocol and connects. *)
Definition socks5_replies (bound : IpAddr) (bound_port : Z) : bytes :=
  [5; 0] ++ [5; 0; 0; match bound with V4 _ => 1 | V6 _ => 4 end]
  ++ dest_ip_bytes bound ++ be_bytes 2 bound_port.

Definition ip_ok (ip : IpAddr) : Prop :=
  match ip with V4 l => length l = 4%nat | V6 l => length l = 8%nat end.

Lemma segments_length l : length (concat ((fun s => be_bytes 2 s) <$> l)) = (2 * length l)%nat.
Proof.
  induction l as [|x l IH]; [done|]. cbn [fmap list_fmap concat length].
  rewrite length_app, be_bytes_length, IH. lia.
Qed.

Lemma dest_ip_bytes_length ip :
  ip_ok ip -> length (dest_ip_bytes ip) = match ip with V4 _ => 4%nat | V6 _ => 16%nat end.
Proof.
  destruct ip as [l|l]; unfold dest_ip_bytes, ip_ok; [done|]. rewrite segments_length. lia.
Qed.

Lemma ps_write_ok b inc w n :
  ps_write b (mkProxyStream inc w (S n)) = (inr (), mkProxyStream inc (w ++ b) n).
Proof. done. Qed.

Lemma ps_read_app n l rest w k : length l = n ->
  ps_read n (mkProxyStream (l ++ rest) w k) = (inr l, mkProxyStream rest w k).
Proof. intros Hl. unfold ps_read. cbn. by rewrite read_exact_app. Qed.

(** The handshake with such a proxy succeeds, leaves what the destination sends
    afterwards unread, and has written the greeting and the request of the RFC. *)
Theorem socks5_handshake_correct ip port bound bound_port rest n :
  ip_ok bound -> (4 <= n)%nat ->
  create_socks5 (inr (mkProxyStream (socks5_replies bound bound_port ++ rest) [] n)) ip port =
    inr (mkProxyStream rest
      ([5; 1; 0; 5; 1; 0; match ip with V4 _ => 1 | V6 _ => 4 end]
       ++ dest_ip_bytes ip ++ be_bytes 2 port) (n - 4)).
Proof.
  intros Hb Hn. destruct n as [|[|[|[|n]]]]; [lia..|].
  replace (S (S (S (S n))) - 4)%nat with n by lia.
  pose proof (dest_ip_bytes_length bound Hb) as Hd.
  unfold create_socks5, socks5_handshake, socks5_replies. rewrite <- !(assoc_L (++)).
  rewrite (st_bind_ok _ _ _ _ _ (ps_write_ok _ _ _ _)).
  rewrite (st_bind_ok _ _ _ _ _ (ps_read_app 2 [5; 0] _ _ _ eq_refl)). cbn [nth].
  do 2 rewrite st_guard_ok by done.
  do 3 rewrite (st_bind_ok _ _ _ _ _ (ps_write_ok _ _ _ _)).
  rewrite (st_bind_ok _ _ _ _ _ (ps_read_app 4 [5; 0; 0; _] _ _ _ eq_refl)). cbn [nth].
  do 2 rewrite st_guard_ok by done. rewrite (assoc_L (++) (dest_ip_bytes bound)).
  destruct bound as [lb|lb].
  - cbv zeta. change (1 =? ADDR_TYPE_IPV4) with true. cbv iota.
    rewrite (st_bind_ok _ _ _ _ _ (ps_read_app 6 (dest_ip_bytes (V4 lb) ++ be_bytes 2 bound_port) rest _ _
      ltac:(rewrite length_app, be_bytes_length; lia))).
    cbn -[be_bytes dest_ip_bytes]. by rewrite <- ?(assoc_L (++)).
  - cbv zeta. change (4 =? ADDR_TYPE_IPV4) with false. change (4 =? ADDR_TYPE_IPV6) with true.
    cbv iota. rewrite (st_bind_ok _ _ _ _ _ (ps_read_app 18 (dest_ip_bytes (V6 lb) ++ be_bytes 2 bound_port) rest _ _
      ltac:(rewrite length_app, be_bytes_length; lia))).
    cbn -[be_bytes dest_ip_bytes]. by rewrite <- ?(assoc_L (++)).
Qed.
