(* ===== verification/Peer.v ===== *)
(** * A peer's thread: [src/network/peer.rs]

    One thread for each connection.  It counts what it sends and receives,
    writes requests of the node to the socket, forwards what the reader parsed
    to the node, and answers requests for the transactions it announced.

    The socket is the list of the writes; it can be closed ([wr_open]), and so
    can the channel to the node ([main_open]).  One turn of the loop has the
    clock, whether the reading task ended, and what [select!] chose as its
    input. *)

From stdpp Require Import base numbers list gmap strings.
From Stdlib Require Import ZArith Lia.
From S2P Require Import Prelude Bitcoin ChainTypes Checkpoints Batches BlockQueue Messages Network Counter Wire Reader.

Definition MESSAGE_TIMEOUT : Z := 2.
Definition HANDSHAKE_TIMEOUT : Z := 4.

Section Peer.
Context `{Wire}.
Context (filter_control : bool).

Record Writer := mkWriter {
  wr_open : bool;
  wr_bytes : list bytes;
}.

Record Peer := mkPeer {
  p_nonce : PeerId;
  p_network : Network;
  message_counter : MessageCounter;
  p_services : ServiceFlags;
  p_timeout_config : PeerTimeoutConfig;
  tx_queue : gmap Wtxid Transaction;
  main_open : bool;
  to_main : list PeerThreadMessage;
  writer : Writer;
  generator : MessageGenerator;
  p_dialog : list Output;
}.

(** [Peer::new]; the socket and the generator are those of [run]. *)
Definition peer_new (nonce : PeerId) (network : Network) (services : ServiceFlags)
    (config : PeerTimeoutConfig) (w : Writer) (g : MessageGenerator) : Peer :=
  {| p_nonce := nonce; p_network := network;
     message_counter := counter_new (response_timeout config); p_services := services;
     p_timeout_config := config; tx_queue := ∅; main_open := true; to_main := [];
     writer := w; generator := g; p_dialog := [] |}.

Definition set_counter (f : MessageCounter -> MessageCounter) (p : Peer) : Peer :=
  {| p_nonce := p_nonce p; p_network := p_network p; message_counter := f (message_counter p);
     p_services := p_services p; p_timeout_config := p_timeout_config p; tx_queue := tx_queue p;
     main_open := main_open p; to_main := to_main p; writer := writer p;
     generator := generator p; p_dialog := p_dialog p |}.

Definition set_tx_queue (q : gmap Wtxid Transaction) (p : Peer) : Peer :=
  {| p_nonce := p_nonce p; p_network := p_network p; message_counter := message_counter p;
     p_services := p_services p; p_timeout_config := p_timeout_config p; tx_queue := q;
     main_open := main_open p; to_main := to_main p; writer := writer p;
     generator := generator p; p_dialog := p_dialog p |}.

Definition peer_say (o : Output) (p : Peer) : Peer :=
  {| p_nonce := p_nonce p; p_network := p_network p; message_counter := message_counter p;
     p_services := p_services p; p_timeout_config := p_timeout_config p; tx_queue := tx_queue p;
     main_open := main_open p; to_main := to_main p; writer := writer p;
     generator := generator p; p_dialog := p_dialog p ++ [o] |}.

(** [write_bytes]: the write and the flush. *)
Definition write_bytes (message : bytes) : ST Peer PeerError () := fun p =>
  if wr_open (writer p) then
    (inr (), {| p_nonce := p_nonce p; p_network := p_network p;
       message_counter := message_counter p; p_services := p_services p;
       p_timeout_config := p_timeout_config p; tx_queue := tx_queue p; main_open := main_open p;
       to_main := to_main p; writer := mkWriter true (wr_bytes (writer p) ++ [message]);
       generator := generator p; p_dialog := p_dialog p |})
  else (inl BufferWrite, p).

(** A call of [message_generator]. *)
Definition generate (m : ST MessageGenerator PeerError bytes) : ST Peer PeerError bytes := fun p =>
  let '(r, g) := m (generator p) in
  (r, {| p_nonce := p_nonce p; p_network := p_network p; message_counter := message_counter p;
         p_services := p_services p; p_timeout_config := p_timeout_config p;
         tx_queue := tx_queue p; main_open := main_open p; to_main := to_main p;
         writer := writer p; generator := g; p_dialog := p_dialog p |}).

(** [self.main_thread_sender.send(..)] *)
Definition send_main (message : PeerMessage) : ST Peer PeerError () := fun p =>
  if main_open p then
    (inr (), {| p_nonce := p_nonce p; p_network := p_network p;
       message_counter := message_counter p; p_services := p_services p;
       p_timeout_config := p_timeout_config p; tx_queue := tx_queue p; main_open := true;
       to_main := to_main p ++ [mkPeerThreadMessage (p_nonce p) message]; writer := writer p;
       generator := generator p; p_dialog := p_dialog p |})
  else (inl ThreadChannel, p).

(** The loop over the requested transactions. *)
Fixpoint serve_txs (requests : list Wtxid) : ST Peer PeerError () :=
  match requests with
  | [] => mret ()
  | wtxid :: requests' =>
      transaction ← st_get (fun p => tx_queue p !! wtxid);
      match transaction with
      | Some tx =>
          st_modify (fun p => set_tx_queue (delete wtxid (tx_queue p)) p);;
          msg ← generate (gen_broadcast_transaction tx);
          write_bytes msg;;
          st_modify (peer_say (SendInfo (TxGossiped wtxid)));;
          serve_txs requests'
      | None => serve_txs requests'
      end
  end.

Definition handle_peer_message (message : ReaderMessage) : ST Peer PeerError () :=
  match message with
  | RdVersion version =>
      st_modify (set_counter got_version);; send_main (PeerVersion version)
  | RdAddr addrs =>
      st_modify (set_counter (got_addrs (Z.of_nat (length addrs))));; send_main (PeerAddr addrs)
  | RdHeaders headers => st_modify (set_counter got_header);; send_main (PeerHeaders headers)
  | RdFilterHeaders cf_headers =>
      st_modify (set_counter got_filter_header);; send_main (PeerFilterHeaders cf_headers)
  | RdFilter filter => st_modify (set_counter got_filter);; send_main (PeerFilter filter)
  | RdBlock block => st_modify (set_counter got_block);; send_main (PeerBlock block)
  | RdNewBlocks block_hashes => send_main (PeerNewBlocks block_hashes)
  | RdTxRequests requests => serve_txs requests
  | RdVerack => st_modify (set_counter got_verack)
  | RdPing nonce => message ← generate (gen_pong nonce); write_bytes message
  | RdPong _ => mret ()
  | RdFeeFilter fee => send_main (PeerFeeFilter fee)
  | RdReject payload =>
      st_modify (set_counter got_reject);;
      st_modify (peer_say (SendWarning (TransactionRejected payload)))
  | RdDisconnect => st_fail DisconnectCommand
  end.

Definition main_thread_request (now : Instant) (request : MainThreadMessage)
  : ST Peer PeerError () :=
  match request with
  | GetAddr => st_modify (set_counter sent_addrs);; m ← generate gen_addr; write_bytes m
  | GetAddrV2 => m ← generate gen_addrv2; write_bytes m
  | WtxidRelay => m ← generate gen_wtxid_relay; write_bytes m
  | GetHeaders config =>
      st_modify (set_counter (sent_header now));;
      m ← generate (gen_headers (ghc_locators config) (ghc_stop_hash config)); write_bytes m
  | GetFilterHeaders config =>
      st_modify (set_counter (sent_filter_header now));;
      m ← generate (gen_cf_headers config); write_bytes m
  | GetFilters config =>
      st_modify (set_counter (sent_filters now));;
      m ← generate (gen_filters config); write_bytes m
  | GetBlock locator =>
      st_modify (set_counter (sent_block now));;
      m ← generate (gen_block filter_control locator); write_bytes m
  | BroadcastTx transaction =>
      st_modify (set_counter sent_tx);;
      let wtxid := compute_wtxid transaction in
      m ← generate (gen_announce_transaction wtxid);
      st_modify (fun p => set_tx_queue (<[wtxid := transaction]> (tx_queue p)) p);;
      write_bytes m
  | SendVerack => m ← generate gen_verack; write_bytes m
  | DisconnectPeer => st_fail DisconnectCommand
  end.

(** ** The loop *)

(** What [select!] chose; [None] is a closed channel. *)
Inductive PeerInput :=
  | FromReader (m : option ReaderMessage)
  | ReaderTimeout
  | FromMain (m : option MainThreadMessage).

Record PeerTurn := mkPeerTurn {
  turn_now : Instant;
  read_finished : bool;
  turn_input : PeerInput;
}.

(** The checks at the head of the loop: does [run] return? *)
Definition peer_checks (start : Instant) (t : PeerTurn) (p : Peer) : bool * Peer :=
  if read_finished t then (true, p)
  else if unsolicited (message_counter p) then (true, peer_say (SendWarning UnsolicitedMessage) p)
  else if unresponsive (turn_now t) (message_counter p) then
    (true, peer_say (SendWarning WarnPeerTimedOut) p)
  else (max_connection_time (p_timeout_config p) <? duration_since (turn_now t) start, p).

(** Only the command to disconnect ends the loop; other errors continue it. *)
Definition ends_loop (r : PeerError + ()) : bool :=
  match r with inl DisconnectCommand => true | _ => false end.

Definition peer_turn (start : Instant) (t : PeerTurn) (p : Peer) : bool * Peer :=
  let '(stop, p) := peer_checks start t p in
  if stop then (true, p)
  else
    match turn_input t with
    | FromReader (Some message) =>
        let '(r, p) := handle_peer_message message p in (ends_loop r, p)
    | FromMain (Some message) =>
        let '(r, p) := main_thread_request (turn_now t) message p in (ends_loop r, p)
    | FromReader None | ReaderTimeout | FromMain None => (false, p)
    end.

Fixpoint peer_loop (start : Instant) (turns : list PeerTurn) (p : Peer) : bool * Peer :=
  match turns with
  | [] => (false, p)
  | t :: turns' =>
      let '(stop, p) := peer_turn start t p in
      if stop then (true, p) else peer_loop start turns' p
  end.

(** The head of [run]: the optional handshake, whose outcome is [handshake]
    ([None] when it took too long), and the version message. *)
Definition peer_start (now unix_time : Z) (handshake : option (PeerError + Encryptor))
  : ST Peer PeerError () :=
  services ← st_get p_services;
  (if services_has services P2P_V2 then
     match handshake with
     | None => st_fail HandshakeFailed
     | Some (inl e) => st_modify (peer_say (SendWarning CouldNotConnect));; st_fail e
     | Some (inr encryptor) =>
         st_modify (fun p => {| p_nonce := p_nonce p; p_network := p_network p;
           message_counter := message_counter p; p_services := p_services p;
           p_timeout_config := p_timeout_config p; tx_queue := tx_queue p;
           main_open := main_open p; to_main := to_main p; writer := writer p;
           generator := mkMessageGenerator (p_network p) (TransportV2 encryptor);
           p_dialog := p_dialog p |})
     end
   else
     st_modify (fun p => {| p_nonce := p_nonce p; p_network := p_network p;
       message_counter := message_counter p; p_services := p_services p;
       p_timeout_config := p_timeout_config p; tx_queue := tx_queue p;
       main_open := main_open p; to_main := to_main p; writer := writer p;
       generator := mkMessageGenerator (p_network p) TransportV1; p_dialog := p_dialog p |}));;
  message ← generate (version_message unix_time None);
  write_bytes message;;
  st_modify (set_counter (sent_version now)).

Definition peer_run (start unix_time : Z) (handshake : option (PeerError + Encryptor))
    (turns : list PeerTurn) (p : Peer) : (PeerError + bool) * Peer :=
  match peer_start start unix_time handshake p with
  | (inl e, p') => (inl e, p')
  | (inr (), p') => let '(stop, p'') := peer_loop start turns p' in (inr stop, p'')
  end.
End Peer.

(** ** The counter of a connection is the ledger of what was exchanged *)

Section PeerFacts.
Context `{Wire}.
Context (filter_control : bool).
Implicit Types (p q : Peer).

(** What a message counts as. *)
Definition op_of_reader (m : ReaderMessage) : list CounterOp :=
  match m with
  | RdVersion _ => [GotVersion]
  | RdAddr l => [GotAddrs (Z.of_nat (length l))]
  | RdHeaders _ => [GotHeader]
  | RdFilterHeaders _ => [GotFilterHeader]
  | RdFilter _ => [GotFilter]
  | RdBlock _ => [GotBlock]
  | RdVerack => [GotVerack]
  | RdReject _ => [GotReject]
  | _ => []
  end.

Definition op_of_main (now : Instant) (m : MainThreadMessage) : list CounterOp :=
  match m with
  | GetAddr => [SentAddrs]
  | GetHeaders _ => [SentHeader now]
  | GetFilterHeaders _ => [SentFilterHeader now]
  | GetFilters _ => [SentFilters now]
  | GetBlock _ => [SentBlock now]
  | BroadcastTx _ => [SentTx]
  | _ => []
  end.

Definition op_of_turn (t : PeerTurn) : list CounterOp :=
  match turn_input t with
  | FromReader (Some m) => op_of_reader m
  | FromMain (Some m) => op_of_main (turn_now t) m
  | _ => []
  end.

Definition apply_ops (ops : list CounterOp) (c : MessageCounter) : MessageCounter :=
  foldl (fun c op => counter_step op c) c ops.

(** A computation that leaves the counter alone. *)
Definition same_counter : relation Peer := fun p q => message_counter q = message_counter p.

#[local] Instance same_counter_preorder : PreOrder same_counter.
Proof. split; [done|]. unfold same_counter. intros ? ? ? <- <-. done. Qed.

Abbreviation quiet := (st_keeps same_counter) (only parsing).

Lemma quiet_write b : quiet (write_bytes b).
Proof. intros p r q. unfold write_bytes. by case_match; intros [= _ <-]. Qed.

Lemma quiet_generate m : quiet (generate m).
Proof. intros p r q. unfold generate. destruct (m _). by intros [= _ <-]. Qed.

Lemma quiet_send m : quiet (send_main m).
Proof. intros p r q. unfold send_main. by case_match; intros [= _ <-]. Qed.

#[local] Hint Resolve quiet_write quiet_generate quiet_send : kyoto.

Lemma quiet_serve l : quiet (serve_txs l).
Proof.
  induction l as [|w l IH]; cbn [serve_txs]; st_keeps.
Qed.

(** Counting first, then a quiet computation. *)
Lemma counted_bind {A} (f : MessageCounter -> MessageCounter) (m : () -> ST Peer PeerError A) p r q :
  (forall a, quiet (m a)) -> (st_modify (set_counter f) ≫= m) p = (r, q) ->
  message_counter q = f (message_counter p).
Proof.
  intros Hm Hrun. apply st_bind_inv in Hrun as [(e & _ & [=])|(a & s & [= <- <-] & Hb)].
  by rewrite (Hm _ _ _ _ Hb).
Qed.

Lemma quiet_generate_write m : quiet (b ← generate m; write_bytes b).
Proof. st_keeps. Qed.

Lemma reader_counted m p r q :
  handle_peer_message m p = (r, q) ->
  message_counter q = apply_ops (op_of_reader m) (message_counter p).
Proof.
  destruct m; cbn [handle_peer_message op_of_reader apply_ops foldl counter_step]; intros Hrun;
    try (eapply counted_bind in Hrun; [done|intros; apply quiet_send]).
  - by eapply quiet_send.
  - eapply counted_bind in Hrun; [done|]. intros. by apply st_keeps_modify.
  - by injection Hrun as _ <-.
  - by injection Hrun as _ <-.
  - by eapply quiet_generate_write.
  - by injection Hrun as _ <-.
  - by eapply quiet_send.
  - by eapply quiet_serve.
Qed.

Lemma main_counted now m p r q :
  main_thread_request filter_control now m p = (r, q) ->
  message_counter q = apply_ops (op_of_main now m) (message_counter p).
Proof.
  destruct m; cbn [main_thread_request op_of_main apply_ops foldl counter_step]; intros Hrun;
    try (eapply counted_bind in Hrun; [done|intros; apply quiet_generate_write]);
    try (by eapply quiet_generate_write).
  - by injection Hrun as _ <-.
  - eapply counted_bind in Hrun; [done|]. intros _.
    st_keeps.
Qed.

Lemma counter_run_app ops1 ops2 c c1 :
  counter_run ops1 c = Some c1 -> counter_run (ops1 ++ ops2) c = counter_run ops2 c1.
Proof.
  revert c. induction ops1 as [|op ops1 IH]; intros c; cbn; [by intros [= ->]|].
  destruct (unsolicited c); [done|]. apply IH.
Qed.

Lemma counter_run_small ops c :
  (length ops <= 1)%nat -> unsolicited c = false -> counter_run ops c = Some (apply_ops ops c).
Proof. destruct ops as [|op [|]]; cbn; [done|by intros _ ->|lia]. Qed.

Lemma op_of_turn_small t : (length (op_of_turn t) <= 1)%nat.
Proof. unfold op_of_turn. by destruct (turn_input t) as [[[]|]| |[[]|]]; cbn; lia. Qed.

Lemma checks_pass start t p q :
  peer_checks start t p = (false, q) -> q = p /\ unsolicited (message_counter p) = false.
Proof. unfold peer_checks. repeat case_match; naive_solver. Qed.

Lemma turn_counted start t p q :
  peer_turn filter_control start t p = (false, q) ->
  counter_run (op_of_turn t) (message_counter p) = Some (message_counter q).
Proof.
  unfold peer_turn. destruct (peer_checks start t p) as [[] p'] eqn:Hc; [done|].
  apply checks_pass in Hc as [-> Hu]. intros Hrun.
  rewrite counter_run_small by (done || apply op_of_turn_small). f_equal. symmetry. revert Hrun.
  unfold op_of_turn. destruct (turn_input t) as [[m|]| |[m|]]; cbn; try (by intros [= <-]).
  - destruct (handle_peer_message m p) as [r p'] eqn:Hm. intros [= _ <-]. by eapply reader_counted.
  - destruct (main_thread_request _ _ m p) as [r p'] eqn:Hm. intros [= _ <-].
    by eapply main_counted.
Qed.

Lemma loop_counted start turns : forall p q,
  peer_loop filter_control start turns p = (false, q) ->
  counter_run (concat (op_of_turn <$> turns)) (message_counter p) = Some (message_counter q).
Proof.
  induction turns as [|t turns IH]; intros p q; cbn; [by intros [= <-]|].
  destruct (peer_turn filter_control start t p) as [[] p'] eqn:Ht; [done|]. intros Hrun.
  rewrite (counter_run_app _ _ _ (message_counter p')) by by eapply turn_counted. by apply IH.
Qed.

(** The reader forwards at most 1000 addresses at once. *)
Definition turn_ok (t : PeerTurn) : Prop :=
  match turn_input t with
  | FromReader (Some (RdAddr l)) => (length l <= 1000)%nat
  | _ => True
  end.

Lemma turns_ok turns : Forall turn_ok turns -> Forall op_ok (concat (op_of_turn <$> turns)).
Proof.
  induction 1 as [|t turns Ht _ IH]; cbn; [done|]. apply Forall_app. split; [|done].
  unfold turn_ok, op_of_turn in *.
  destruct (turn_input t) as [[[]|]| |[[]|]]; cbn;
    solve [apply Forall_nil_2 | apply Forall_singleton; cbn; lia].
Qed.

End PeerFacts.

(** ** A connection for the witnesses *)
Module ToyPeer.
Import Toy Reader.ToyWire.

Definition toy_turns : list PeerTurn :=
  [mkPeerTurn 5 false (FromReader (Some RdVerack));
   mkPeerTurn 6 false (FromMain (Some (GetBlock 77)));
   mkPeerTurn 7 false (FromReader (Some (RdBlock (77, true))));
   mkPeerTurn 8 false (FromReader (Some (RdBlock (78, true))))].

Definition toy_peer : Peer :=
  peer_new 1 Mainnet 0 peer_timeout_default (mkWriter true [])
    (mkMessageGenerator Mainnet TransportV1).

Definition toy_peer_after : Peer := (peer_loop false 0 toy_turns toy_peer).2.

Lemma toy_loop : peer_loop false 0 toy_turns toy_peer = (false, toy_peer_after).
Proof.
  unfold toy_peer_after. rewrite (surjective_pairing (peer_loop false 0 toy_turns toy_peer)) at 1.
  f_equal.
Qed.

Lemma toy_turns_ok : Forall turn_ok toy_turns.
Proof. repeat (apply Forall_cons_2; [exact I|]). apply Forall_nil_2. Qed.

End ToyPeer.
