(* ===== verification/Relay.v ===== *)
(** * Relaying transactions to a peer

    The connection of [src/network/peer.rs] announces a transaction by its
    wtxid, keeps it in [tx_queue], and sends it when the peer asks for it.  Here
    the announcement, the request and the delivery are put together, and over
    whole runs of the loop deliveries are counted against broadcasts. *)

From stdpp Require Import base numbers list gmap sorting strings.
From Stdlib Require Import ZArith Lia.
From S2P Require Import Prelude Bitcoin ChainTypes Graph Checkpoints Batches BlockQueue.
From S2P Require Import Messages Network Counter Wire Reader Peer.

Section Relay.
Context `{Wire}.
Context (filter_control : bool).

Definition is_gossip (w : Wtxid) (o : Output) : bool :=
  match o with SendInfo (TxGossiped v) => v =? w | _ => false end.

(** How often [w] was delivered to this peer. *)
Definition gossiped (w : Wtxid) (p : Peer) : nat :=
  length (filter (fun o => is_gossip w o = true) (p_dialog p)).

Definition queued (w : Wtxid) (p : Peer) : nat :=
  match tx_queue p !! w with Some _ => 1 | None => 0 end.

Definition relayed (w : Wtxid) (p : Peer) : nat := (gossiped w p + queued w p)%nat.

(** Messages that neither queue nor deliver. *)
Definition idle_relay : relation Peer := fun p q =>
  tx_queue q = tx_queue p /\ forall w, gossiped w q = gossiped w p.

#[local] Instance idle_relay_preorder : PreOrder idle_relay.
Proof.
  split; [done|]. intros p q r [Hq Hg] [Hq' Hg']. split; [by rewrite Hq'|].
  intros w. by rewrite Hg'.
Qed.

Lemma gossiped_say w o p :
  gossiped w (peer_say o p) = (gossiped w p + if is_gossip w o then 1 else 0)%nat.
Proof.
  unfold gossiped. cbn [p_dialog peer_say]. rewrite filter_app, length_app. f_equal.
  cbn. by destruct (is_gossip w o).
Qed.

Lemma idle_write b : st_keeps idle_relay (write_bytes b).
Proof. intros p r q. unfold write_bytes. by case_match; intros [= _ <-]. Qed.

Lemma idle_generate m : st_keeps idle_relay (generate m).
Proof. intros p r q. unfold generate. destruct (m _). by intros [= _ <-]. Qed.

Lemma idle_send m : st_keeps idle_relay (send_main m).
Proof. intros p r q. unfold send_main. by case_match; intros [= _ <-]. Qed.

Lemma idle_count f p : idle_relay p (set_counter f p).
Proof. done. Qed.

Lemma idle_say o p : (forall w, is_gossip w o = false) -> idle_relay p (peer_say o p).
Proof.
  intros Ho. split; [done|]. intros w. rewrite gossiped_say, Ho. lia.
Qed.

#[local] Hint Resolve idle_write idle_generate idle_send idle_count : kyoto.

(** ** One step *)

(** Deliveries take from the queue; nothing else is gained. *)
Record relay_spent (p q : Peer) : Prop := {
  rs_relayed w : (relayed w q <= relayed w p)%nat;
  rs_gossiped w : (gossiped w p <= gossiped w q)%nat;
  rs_queue : tx_queue q ⊆ tx_queue p;
}.

#[local] Instance relay_spent_preorder : PreOrder relay_spent.
Proof.
  split; [intros p; by split|]. intros p q r [H1 H2 H3] [H1' H2' H3'].
  split; [intros w; specialize (H1 w); specialize (H1' w); lia
         |intros w; specialize (H2 w); specialize (H2' w); lia|by transitivity (tx_queue q)].
Qed.

Lemma idle_spent p q : idle_relay p q -> relay_spent p q.
Proof.
  intros [Hq Hg]. split; [|intros w; by rewrite Hg|by rewrite Hq].
  intros w. unfold relayed, queued. by rewrite Hg, Hq.
Qed.

Lemma serve_spent l : st_keeps relay_spent (serve_txs l).
Proof.
  induction l as [|w l IH]; cbn [serve_txs]; intros p r q Hrun; [by injection Hrun as _ <-|].
  rewrite (st_bind_ok (st_get _) _ _ _ _ eq_refl) in Hrun.
  destruct (tx_queue p !! w) as [tx|] eqn:Htx; [|by apply IH in Hrun].
  rewrite (st_bind_ok (st_modify _) _ _ _ _ eq_refl) in Hrun.
  set (p1 := set_tx_queue (delete w (tx_queue p)) p) in *.
  assert (forall p2, idle_relay p1 p2 -> relay_spent p p2) as Hdrop.
  { intros p2 [Hq Hg]. split; [|intros v; by rewrite Hg|rewrite Hq; apply delete_subseteq].
    intros v. unfold relayed, queued. rewrite Hg, Hq. cbn [p1 tx_queue set_tx_queue].
    destruct (decide (v = w)) as [->|Hne]; [rewrite lookup_delete_eq|rewrite lookup_delete_ne by done];
      unfold gossiped; cbn; lia. }
  apply st_bind_inv in Hrun as [(e & _ & Hgen)|(msg & p2 & Hgen & Hrun)].
  { by apply Hdrop, (idle_generate _ _ _ _ Hgen). }
  apply st_bind_inv in Hrun as [(e & _ & Hw)|([] & p3 & Hw & Hrun)].
  { apply Hdrop. etransitivity; [by eapply idle_generate|by eapply idle_write]. }
  rewrite (st_bind_ok (st_modify _) _ _ _ _ eq_refl) in Hrun.
  transitivity (peer_say (SendInfo (TxGossiped w)) p3); [|by apply IH in Hrun].
  assert (idle_relay p1 p3) as [Hq Hg]
    by (etransitivity; [by eapply idle_generate|by eapply idle_write]).
  split.
  - intros v. unfold relayed, queued. rewrite gossiped_say, Hg. cbn [is_gossip tx_queue peer_say].
    rewrite Hq. cbn [p1 tx_queue set_tx_queue]. change (gossiped v p1) with (gossiped v p).
    destruct (Z.eqb_spec w v) as [->|Hne].
    + rewrite lookup_delete_eq, Htx. lia.
    + rewrite lookup_delete_ne by done. lia.
  - intros v. rewrite gossiped_say, Hg. change (gossiped v p1) with (gossiped v p). lia.
  - cbn [tx_queue peer_say]. rewrite Hq. apply delete_subseteq.
Qed.

#[local] Hint Extern 1 (idle_relay _ (peer_say _ _)) => by apply idle_say : kyoto.

Lemma reader_spent m : st_keeps relay_spent (handle_peer_message m).
Proof.
  assert (forall E A (f : ST Peer E A), st_keeps idle_relay f -> st_keeps relay_spent f) as Hidle
    by (intros E A f Hf p r q Hr; by eapply idle_spent, Hf).
  destruct m; cbn [handle_peer_message]; try apply serve_spent; apply Hidle; st_keeps.
Qed.

(** A broadcast queues its own transaction, and nothing is delivered. *)
Lemma announce_relay now tx p r q :
  main_thread_request filter_control now (BroadcastTx tx) p = (r, q) ->
  (forall w, gossiped w q = gossiped w p) /\
  (tx_queue q = tx_queue p \/ tx_queue q = <[compute_wtxid tx := tx]> (tx_queue p)).
Proof.
  cbn [main_thread_request]. rewrite (st_bind_ok (st_modify _) _ _ _ _ eq_refl). intros Hrun.
  apply st_bind_inv in Hrun as [(e & _ & Hg)|(m & p1 & Hg & Hrun)].
  - destruct (idle_generate _ _ _ _ Hg) as [Hq Hs]. split; [apply Hs|by left].
  - destruct (idle_generate _ _ _ _ Hg) as [Hq Hs].
    rewrite (st_bind_ok (st_modify _) _ _ _ _ eq_refl) in Hrun.
    destruct (idle_write _ _ _ _ Hrun) as [Hq' Hs']. split.
    + intros w. rewrite Hs'. exact (Hs w).
    + right. rewrite Hq'. cbn [tx_queue set_tx_queue]. by rewrite Hq.
Qed.

Lemma main_spent now m : (forall tx, m <> BroadcastTx tx) ->
  st_keeps relay_spent (main_thread_request filter_control now m).
Proof.
  intros Hm p r q Hr. apply idle_spent. revert p r q Hr. fold (st_keeps idle_relay (main_thread_request filter_control now m)).
  destruct m; cbn [main_thread_request]; try (by destruct (Hm tx)); st_keeps.
Qed.

(** ** Runs of the loop *)

Definition broadcast_of (t : PeerTurn) : option Transaction :=
  match turn_input t with FromMain (Some (BroadcastTx tx)) => Some tx | _ => None end.

(** How often [w] was broadcast to this peer. *)
Definition broadcasts (w : Wtxid) (turns : list PeerTurn) : nat :=
  length (filter (fun tx => compute_wtxid tx = w) (omap broadcast_of turns)).

Record relay_turn (l : list Transaction) (p q : Peer) : Prop := {
  rt_relayed w : (relayed w q <= relayed w p + length (filter (fun tx => compute_wtxid tx = w) l))%nat;
  rt_queue w tx : tx_queue q !! w = Some tx ->
    tx_queue p !! w = Some tx \/ (compute_wtxid tx = w /\ tx ∈ l);
}.

Lemma spent_turn l p q : relay_spent p q -> relay_turn l p q.
Proof.
  intros [Hr _ Hq]. split; [intros w; specialize (Hr w); lia|].
  intros w tx Htx. left. by eapply lookup_weaken.
Qed.

Lemma relay_turn_trans l1 l2 p q r :
  relay_turn l1 p q -> relay_turn l2 q r -> relay_turn (l1 ++ l2) p r.
Proof.
  intros [Hr1 Hq1] [Hr2 Hq2]. split.
  - intros w. specialize (Hr1 w). specialize (Hr2 w). rewrite filter_app, length_app. lia.
  - intros w tx Htx. destruct (Hq2 w tx Htx) as [Hp|[Hw Hin]]; [|right; set_solver].
    destruct (Hq1 w tx Hp) as [|[Hw Hin]]; [by left|right; set_solver].
Qed.

Lemma checks_spent start t p stop q :
  peer_checks start t p = (stop, q) -> relay_spent p q.
Proof.
  unfold peer_checks. repeat case_match; intros [= _ <-]; try done; by apply idle_spent, idle_say.
Qed.

Lemma announce_turn now tx p r q :
  main_thread_request filter_control now (BroadcastTx tx) p = (r, q) -> relay_turn [tx] p q.
Proof.
  intros Hr. destruct (announce_relay _ _ _ _ _ Hr) as [Hg Hq]. split.
  - intros w. unfold relayed, queued. rewrite Hg, filter_cons, filter_nil.
    destruct Hq as [-> | ->]; [lia|]. destruct (decide (compute_wtxid tx = w)) as [->|Hne].
    + rewrite lookup_insert_eq. cbn. lia.
    + rewrite lookup_insert_ne by done. lia.
  - intros w tx'. destruct Hq as [-> | ->]; [by left|].
    intros [(<- & <-)|[_ Hp]]%lookup_insert_Some; [right; set_solver|by left].
Qed.

Lemma turn_relay start t p stop q :
  peer_turn filter_control start t p = (stop, q) ->
  relay_turn (option_list (broadcast_of t)) p q.
Proof.
  unfold peer_turn. destruct (peer_checks start t p) as [stop1 p1] eqn:Hc.
  apply checks_spent in Hc. destruct stop1; [by intros [= _ <-]; apply spent_turn|].
  rewrite <- (app_nil_l (option_list _)). intros Hrun.
  eapply relay_turn_trans; [by apply spent_turn|]. revert Hrun. unfold broadcast_of.
  destruct (turn_input t) as [[m|]| |[m|]]; try (by intros [= _ <-]; apply spent_turn).
  - destruct (handle_peer_message m p1) as [r p2] eqn:Hm. intros [= _ <-].
    by eapply spent_turn, reader_spent.
  - destruct (main_thread_request _ _ m p1) as [r p2] eqn:Hm. intros [= _ <-].
    destruct m; try (by apply spent_turn; eapply main_spent; [|exact Hm]).
    by eapply announce_turn.
Qed.

Lemma loop_relay start turns : forall p stop q,
  peer_loop filter_control start turns p = (stop, q) ->
  relay_turn (omap broadcast_of turns) p q.
Proof.
  induction turns as [|t turns IH]; intros p stop q; cbn [peer_loop].
  - intros [= _ <-]. by apply spent_turn.
  - destruct (peer_turn filter_control start t p) as [stop1 p1] eqn:Ht. apply turn_relay in Ht.
    assert (omap broadcast_of (t :: turns) = option_list (broadcast_of t) ++ omap broadcast_of turns)
      as -> by (cbn; by destruct (broadcast_of t)).
    intros Hrun. eapply relay_turn_trans; [done|].
    destruct stop1; [injection Hrun as _ <-; by apply spent_turn|by eapply IH].
Qed.

(** Nothing is sent that was not broadcast: along every run of a
    connection, errors and early ends included, a transaction is delivered to
    the peer at most as often as the node broadcast it to this peer, however
    often the peer asks; what still waits for a request is a transaction that
    was broadcast, under its own wtxid, and was not delivered yet. *)
Theorem deliveries_follow_broadcasts start turns p stop q w :
  tx_queue p = ∅ -> p_dialog p = [] ->
  peer_loop filter_control start turns p = (stop, q) ->
  (gossiped w q + queued w q <= broadcasts w turns)%nat /\
  forall tx, tx_queue q !! w = Some tx ->
    compute_wtxid tx = w /\ tx ∈ omap broadcast_of turns.
Proof.
  intros Hq Hd Hrun. destruct (loop_relay _ _ _ _ _ Hrun) as [Hr Hqueue]. split.
  - specialize (Hr w). unfold relayed at 2, gossiped, queued in Hr.
    rewrite Hq, Hd, lookup_empty in Hr. exact Hr.
  - intros tx Htx. destruct (Hqueue w tx Htx) as [Hp|]; [|done]. by rewrite Hq, lookup_empty in Hp.
Qed.

(** C35: a broadcast reaches the peer: the node's order writes the announcement
    of the wtxid and nothing else; when the peer then asks for that wtxid, even
    twice in one request, exactly the transaction is written, once, and it is
    no longer kept. *)
Theorem broadcast_then_served now tx p p1 p2 :
  main_thread_request filter_control now (BroadcastTx tx) p = (inr (), p1) ->
  handle_peer_message (RdTxRequests [compute_wtxid tx; compute_wtxid tx]) p1 = (inr (), p2) ->
  exists inv msg g1,
    serialize (NmInv [InvWTx (compute_wtxid tx)]) (generator p) = (inr inv, g1) /\
    serialize (NmTx tx) g1 = (inr msg, generator p2) /\
    wr_bytes (writer p1) = wr_bytes (writer p) ++ [inv] /\
    wr_bytes (writer p2) = wr_bytes (writer p) ++ [inv; msg] /\
    tx_queue p2 = delete (compute_wtxid tx) (tx_queue p) /\
    gossiped (compute_wtxid tx) p2 = S (gossiped (compute_wtxid tx) p).
Proof.
  cbn [main_thread_request handle_peer_message serve_txs].
  rewrite (st_bind_ok (st_modify _) _ _ _ _ eq_refl). intros Hann Hserve.
  unfold mbind, ST_bind, generate, write_bytes, st_modify, st_get in Hann. cbn in Hann.
  destruct (gen_announce_transaction (compute_wtxid tx) (generator p)) as [[e|inv] g1] eqn:Hinv;
    [done|]. cbn in Hann. destruct (wr_open (writer p)) eqn:Hopen; [|done]. injection Hann as <-.
  rewrite (st_bind_ok (st_get _) _ _ _ _ eq_refl) in Hserve. cbn in Hserve.
  rewrite lookup_insert_eq in Hserve.
  unfold mbind, ST_bind, generate, write_bytes, st_modify, st_get in Hserve. cbn in Hserve.
  destruct (gen_broadcast_transaction tx g1) as [[e|msg] g2] eqn:Htx; [done|]. cbn in Hserve.
  rewrite lookup_delete_eq in Hserve. injection Hserve as <-.
  exists inv, msg, g1. split_and!; try done.
  - cbn. by rewrite <- (assoc_L (++)).
  - cbn. by rewrite delete_insert_eq.
  - rewrite gossiped_say. cbn [is_gossip]. rewrite Z.eqb_refl. unfold gossiped. cbn. lia.
Qed.
End Relay.

(** ** A connection that relays *)

Module ToyRelay.
Import Toy Reader.ToyWire ToyPeer.

Definition announced : Peer := (main_thread_request false 5 (BroadcastTx 70) toy_peer).2.
Definition delivered : Peer := (handle_peer_message (RdTxRequests [71; 71]) announced).2.

Definition relay_turns : list PeerTurn :=
  [mkPeerTurn 5 false (FromMain (Some (BroadcastTx 70)));
   mkPeerTurn 6 false (FromReader (Some (RdTxRequests [71; 72])));
   mkPeerTurn 7 false (FromReader (Some (RdTxRequests [71])))].

Lemma deliveries_follow_broadcasts_witness :
  let q := (peer_loop false 0 relay_turns toy_peer).2 in
  gossiped 71 q = 1%nat /\ (gossiped 72 q + queued 72 q <= 0)%nat.
Proof.
  intros q. split; [by vm_compute|].
  exact (proj1 (deliveries_follow_broadcasts false 0 relay_turns toy_peer _ q 72 eq_refl eq_refl
    (surjective_pairing _))).
Defined.

Lemma broadcast_then_served_witness :
  length (wr_bytes (writer delivered)) = 2%nat /\ tx_queue delivered = ∅.
Proof.
  destruct (broadcast_then_served false 5 (70 : @Transaction toy) toy_peer announced delivered)
    as (inv & msg & g1 & _ & _ & _ & Hw & Hq & _).
  - rewrite (surjective_pairing (main_thread_request _ _ _ _)). by apply (f_equal (fun r => (r, announced))).
  - rewrite (surjective_pairing (handle_peer_message _ _)). by apply (f_equal (fun r => (r, delivered))).
  - split; [by rewrite Hw|]. by rewrite Hq.
Defined.
End ToyRelay.
