(* ===== verification/PeerMap.v ===== *)
(** * The peer manager: [src/network/peer_map.rs]

    [PeerMap] holds the connections, the whitelist and the peer database.  A
    connection's channel is the list of the messages put on it; its task has
    finished or not ([mp_finished], set by the environment), and a message can
    be sent as long as it has not.  [heights] and [dialog] are shared with the
    chain; the node passes them in and takes them back (see [Node.v]).

    The environment is in arguments: the clock, the random choices, the outcome
    of dialling a peer and of asking the DNS resolver. *)

From stdpp Require Import base numbers list gmap strings.
From Stdlib Require Import ZArith Lia.
From S2P Require Import Prelude Bitcoin ChainTypes Checkpoints Batches BlockQueue Messages PeerStore Network Wire Dns.

Definition MAX_TRIES : nat := 50.

Inductive PeerStoreSizeConfig :=
  | UnboundedSize
  | Limit (n : Z).

Section PeerMap.
Context `{Bitcoin} {P : Type} `{PeerStore P}.
(** [FeeRate::BROADCAST_MIN] of the [bitcoin] crate. *)
Context (BROADCAST_MIN : FeeRate).

Record ManagedPeer := mkManagedPeer {
  net_time : Z;
  mp_address : AddrV2;
  mp_port : Z;
  service_flags : ServiceFlags;
  mp_broadcast_min : FeeRate;
  ptx : list MainThreadMessage;
  mp_finished : bool;
}.

Record PeerMap := mkPeerMap {
  current_id : PeerId;
  pm_heights : HeightMonitor;
  pm_network : Network;
  pm_map : gmap PeerId ManagedPeer;
  pm_db : P;
  connector : ConnectionType;
  whitelist : list TrustedPeer;
  pm_dialog : list Output;
  target_db_size : PeerStoreSizeConfig;
  net_groups : gset string;
  timeout_config : PeerTimeoutConfig;
  pm_dns_resolver : DnsResolver;
}.

Definition peer_map_new (n : Network) (store : P) (w : list TrustedPeer) (d : list Output)
    (c : ConnectionType) (size : PeerStoreSizeConfig) (t : PeerTimeoutConfig)
    (monitor : HeightMonitor) (resolver : DnsResolver) : PeerMap :=
  {| current_id := 0; pm_heights := monitor; pm_network := n; pm_map := ∅; pm_db := store;
     connector := c; whitelist := w; pm_dialog := d; target_db_size := size; net_groups := ∅;
     timeout_config := t; pm_dns_resolver := resolver |}.

(** ** Field updates *)

Definition set_map (f : gmap PeerId ManagedPeer -> gmap PeerId ManagedPeer) (m : PeerMap) : PeerMap :=
  {| current_id := current_id m; pm_heights := pm_heights m; pm_network := pm_network m;
     pm_map := f (pm_map m); pm_db := pm_db m; connector := connector m;
     whitelist := whitelist m; pm_dialog := pm_dialog m; target_db_size := target_db_size m;
     net_groups := net_groups m; timeout_config := timeout_config m;
     pm_dns_resolver := pm_dns_resolver m |}.

Definition set_heights (f : HeightMonitor -> HeightMonitor) (m : PeerMap) : PeerMap :=
  {| current_id := current_id m; pm_heights := f (pm_heights m); pm_network := pm_network m;
     pm_map := pm_map m; pm_db := pm_db m; connector := connector m;
     whitelist := whitelist m; pm_dialog := pm_dialog m; target_db_size := target_db_size m;
     net_groups := net_groups m; timeout_config := timeout_config m;
     pm_dns_resolver := pm_dns_resolver m |}.

Definition set_peer_db (d : P) (m : PeerMap) : PeerMap :=
  {| current_id := current_id m; pm_heights := pm_heights m; pm_network := pm_network m;
     pm_map := pm_map m; pm_db := d; connector := connector m;
     whitelist := whitelist m; pm_dialog := pm_dialog m; target_db_size := target_db_size m;
     net_groups := net_groups m; timeout_config := timeout_config m;
     pm_dns_resolver := pm_dns_resolver m |}.

Definition set_whitelist (w : list TrustedPeer) (m : PeerMap) : PeerMap :=
  {| current_id := current_id m; pm_heights := pm_heights m; pm_network := pm_network m;
     pm_map := pm_map m; pm_db := pm_db m; connector := connector m;
     whitelist := w; pm_dialog := pm_dialog m; target_db_size := target_db_size m;
     net_groups := net_groups m; timeout_config := timeout_config m;
     pm_dns_resolver := pm_dns_resolver m |}.

Definition pm_say (o : Output) (m : PeerMap) : PeerMap :=
  {| current_id := current_id m; pm_heights := pm_heights m; pm_network := pm_network m;
     pm_map := pm_map m; pm_db := pm_db m; connector := connector m;
     whitelist := whitelist m; pm_dialog := pm_dialog m ++ [o];
     target_db_size := target_db_size m; net_groups := net_groups m;
     timeout_config := timeout_config m; pm_dns_resolver := pm_dns_resolver m |}.

Definition next_id (m : PeerMap) : PeerMap :=
  {| current_id := peer_id_increment (current_id m); pm_heights := pm_heights m;
     pm_network := pm_network m; pm_map := pm_map m; pm_db := pm_db m; connector := connector m;
     whitelist := whitelist m; pm_dialog := pm_dialog m; target_db_size := target_db_size m;
     net_groups := net_groups m; timeout_config := timeout_config m;
     pm_dns_resolver := pm_dns_resolver m |}.

Definition with_peer (f : ManagedPeer -> ManagedPeer) (nonce : PeerId) (m : PeerMap) : PeerMap :=
  set_map (alter f nonce) m.

(** ** Connections *)

Definition clean (m : PeerMap) : PeerMap :=
  let m := set_map (filter (fun kv => mp_finished kv.2 = false)) m in
  set_heights (hm_retain (map_to_list (pm_map m)).*1) m.

Definition live_peers (m : PeerMap) : list (PeerId * ManagedPeer) :=
  filter (fun kv => mp_finished kv.2 = false) (map_to_list (pm_map m)).

Definition live (m : PeerMap) : nat := length (live_peers m).

Definition num_cpf_peers (m : PeerMap) : nat :=
  length (filter (fun kv => services_has (service_flags kv.2) COMPACT_FILTERS = true)
    (live_peers m)).

Definition median_time_adjustment (m : PeerMap) : Z :=
  median 64 (net_time <$> (map_to_list (pm_map m)).*2).

(** [unix_time] is the seconds since the epoch. *)
Definition set_offset (unix_time : Z) (peer : PeerId) (t : Z) (m : PeerMap) : PeerMap :=
  with_peer (fun p => mkManagedPeer (wrap_signed 64 (t - unix_time)) (mp_address p) (mp_port p)
    (service_flags p) (mp_broadcast_min p) (ptx p) (mp_finished p)) peer m.

Definition set_duration (d : Duration) (m : PeerMap) : PeerMap :=
  {| current_id := current_id m; pm_heights := pm_heights m; pm_network := pm_network m;
     pm_map := pm_map m; pm_db := pm_db m; connector := connector m;
     whitelist := whitelist m; pm_dialog := pm_dialog m; target_db_size := target_db_size m;
     net_groups := net_groups m;
     timeout_config := mkPeerTimeoutConfig d (max_connection_time (timeout_config m))
                         (handshake_timeout (timeout_config m));
     pm_dns_resolver := pm_dns_resolver m |}.

Definition add_trusted_peer (p : TrustedPeer) (m : PeerMap) : PeerMap :=
  set_whitelist (whitelist m ++ [p]) m.

(** [dispatch] returns whether the connection was made; [dial] makes it. *)
Definition pm_dispatch (dial : Route -> option Socks5Error + ()) (loaded_peer : PersistedPeer)
    (m : PeerMap) : (PeerError + ()) * PeerMap :=
  let m := next_id m in
  if negb (can_connect (connector m) (pp_addr loaded_peer)) then (inl UnreachableSocketAddr, m)
  else
    match connect dial (connector m) (pp_addr loaded_peer) (pp_port loaded_peer) with
    | inl e => (inl e, m)
    | inr _ =>
        (inr (), set_map (insert (current_id m)
          (mkManagedPeer 0 (pp_addr loaded_peer) (pp_port loaded_peer) (pp_services loaded_peer)
             BROADCAST_MIN [] false)) m)
    end.

Definition set_broadcast_min (nonce : PeerId) (fee_rate : FeeRate) (m : PeerMap) : PeerMap :=
  with_peer (fun p => mkManagedPeer (net_time p) (mp_address p) (mp_port p)
    (service_flags p) fee_rate (ptx p) (mp_finished p)) nonce m.

Definition set_services (nonce : PeerId) (flags : ServiceFlags) (m : PeerMap) : PeerMap :=
  with_peer (fun p => mkManagedPeer (net_time p) (mp_address p) (mp_port p)
    flags (mp_broadcast_min p) (ptx p) (mp_finished p)) nonce m.

Definition set_height (nonce : PeerId) (height : Height) (m : PeerMap) : PeerMap :=
  set_heights (hm_insert nonce height) m.

Definition increment_height (nonce : PeerId) (m : PeerMap) : PeerMap :=
  set_heights (hm_increment nonce) m.

(** The maximum over the map, if it has peers. *)
Definition broadcast_min (m : PeerMap) : FeeRate :=
  match (map_to_list (pm_map m)).*2 with
  | [] => BROADCAST_MIN
  | p :: l => foldl (fun fee q => Z.max fee (mp_broadcast_min q)) (mp_broadcast_min p) l
  end.

(** [peer.ptx.send(message)] on a peer's channel. *)
Definition channel_send (message : MainThreadMessage) (p : ManagedPeer) : ManagedPeer :=
  if mp_finished p then p
  else mkManagedPeer (net_time p) (mp_address p) (mp_port p) (service_flags p)
         (mp_broadcast_min p) (ptx p ++ [message]) (mp_finished p).

Definition send_message (nonce : PeerId) (message : MainThreadMessage) (m : PeerMap) : PeerMap :=
  with_peer (channel_send message) nonce m.

Definition broadcast (message : MainThreadMessage) (m : PeerMap) : bool * PeerMap :=
  (negb (bool_decide (live_peers m = [])), set_map (fmap (channel_send message)) m).

(** [iter().choose(..)]: [pick] is the random index. *)
Definition send_random (pick : nat) (message : MainThreadMessage) (m : PeerMap) : bool * PeerMap :=
  let l := map_to_list (pm_map m) in
  match l !! (pick mod length l)%nat with
  | Some (nonce, peer) => (negb (mp_finished peer), send_message nonce message m)
  | None => (false, m)
  end.

(** ** The peer database *)

Definition db_call {E A} (f : P -> (peer_store_error + A) * P) (wrap : peer_store_error -> E)
  : ST PeerMap E A := fun m =>
  let '(r, d) := f (pm_db m) in
  (match r with inl e => inl (wrap e) | inr a => inr a end, set_peer_db d m).

(** The update of [add_gossiped_peers], [tried] and [ban]: a failure is a warning. *)
Definition update_or_warn (p : PersistedPeer) (m : PeerMap) : PeerMap :=
  let '(r, d) := store_update p (pm_db m) in
  match r with
  | inl _ => pm_say (SendWarning FailedPersistence) (set_peer_db d m)
  | inr _ => set_peer_db d m
  end.

Fixpoint store_bootstrap (l : list AddrV2) : ST PeerMap (PeerManagerError peer_store_error) () :=
  match l with
  | [] => mret ()
  | peer :: l' =>
      network ← st_get pm_network;
      db_call (store_update (mkPersistedPeer peer (default_port_from_network network)
        NO_SERVICES Gossiped)) PeerStoreError;;
      store_bootstrap l'
  end.

(** [resolve] is [Dns::bootstrap]. *)
Definition bootstrap (resolve : Dns -> list IpAddr)
  : ST PeerMap (PeerManagerError peer_store_error) () :=
  new_peers ← st_get (fun m => addr_of_ip <$> resolve (dns_new (pm_network m) (pm_dns_resolver m)));
  store_bootstrap new_peers.

(** The loop of [next_peer]. *)
Fixpoint next_peer_loop (desired_status : PeerStatus) (tries : nat)
  : ST PeerMap (PeerManagerError peer_store_error) PersistedPeer :=
  match tries with
  | O => db_call store_random PeerStoreError
  | S tries' =>
      peer ← db_call store_random PeerStoreError;
      groups ← st_get net_groups;
      if bool_decide (netgroup (pp_addr peer) ∈ groups)
         || bool_decide (desired_status ≠ pp_status peer)
         || negb (services_has (pp_services peer) COMPACT_FILTERS)
      then next_peer_loop desired_status tries'
      else mret peer
  end.

(** [Vec::pop] of the whitelist. *)
Definition next_peer (resolve : Dns -> list IpAddr) (desired_status : PeerStatus)
  : ST PeerMap (PeerManagerError peer_store_error) PersistedPeer :=
  popped ← st_get (fun m => pop_back (whitelist m));
  match popped with
  | (Some peer, rest) =>
      st_modify (set_whitelist rest);;
      network ← st_get pm_network;
      let port := default (default_port_from_network network) (tp_port peer) in
      mret (mkPersistedPeer (tp_address peer) port (tp_known_services peer) Tried)
  | (None, _) =>
      current_count ← db_call store_num_unbanned PeerStoreError;
      (if current_count <? 1 then
         st_modify (pm_say (SendWarning EmptyPeerDatabase));; bootstrap resolve
       else mret ());;
      next_peer_loop desired_status MAX_TRIES
  end.

Definition need_peers : ST PeerMap (PeerManagerError peer_store_error) bool :=
  target ← st_get target_db_size;
  match target with
  | UnboundedSize => mret true
  | Limit limit =>
      num_unbanned ← db_call store_num_unbanned PeerStoreError;
      mret (num_unbanned <? limit)
  end.

Definition add_gossiped_peers (peers : list CombinedAddr) (m : PeerMap) : PeerMap :=
  foldl (fun m peer => update_or_warn
    (mkPersistedPeer (ca_addr peer) (ca_port peer) (ca_services peer) Gossiped) m) m peers.

Definition record_status (status : PeerStatus) (nonce : PeerId) (m : PeerMap) : PeerMap :=
  match pm_map m !! nonce with
  | Some peer =>
      update_or_warn (mkPersistedPeer (mp_address peer) (mp_port peer) (service_flags peer) status) m
  | None => m
  end.

Definition tried (nonce : PeerId) (m : PeerMap) : PeerMap := record_status Tried nonce m.
Definition ban (nonce : PeerId) (m : PeerMap) : PeerMap := record_status Ban nonce m.

(** The environment ends the task of a peer. *)
Definition finish_peer (nonce : PeerId) (m : PeerMap) : PeerMap :=
  with_peer (fun p => mkManagedPeer (net_time p) (mp_address p) (mp_port p)
    (service_flags p) (mp_broadcast_min p) (ptx p) true) nonce m.
End PeerMap.

Arguments PeerMap {_} P.

(** ** Choosing a peer *)

Section NextPeer.
Context `{Bitcoin} {P : Type} `{PeerStoreLaws P}.
Implicit Types (m : PeerMap P).

Lemma db_call_inv {E A} (f : P -> (peer_store_error + A) * P) (wrap : peer_store_error -> E) m r m' :
  db_call f wrap m = (r, m') ->
  exists x d, f (pm_db m) = (x, d) /\ m' = set_peer_db d m /\
    r = match x with inl e => inl (wrap e) | inr a => inr a end.
Proof. unfold db_call. destruct (f (pm_db m)) as [x d]. intros [= <- <-]. by exists x, d. Qed.

(** What choosing a peer keeps: the store stays well-formed and its bans. *)
Definition bans_kept m m' : Prop :=
  peer_store_ok (pm_db m) -> peer_store_ok (pm_db m') /\
  forall a, persistable a -> is_banned (pm_db m) a -> is_banned (pm_db m') a.

Lemma bans_kept_trans m1 m2 m3 : bans_kept m1 m2 -> bans_kept m2 m3 -> bans_kept m1 m3.
Proof. unfold bans_kept. naive_solver. Qed.

Lemma bans_kept_same m m' : pm_db m' = pm_db m -> bans_kept m m'.
Proof. unfold bans_kept. intros ->. naive_solver. Qed.

Lemma is_banned_view (s s' : P) a :
  (forall a, peer_view s' a = peer_view s a) -> is_banned s a -> is_banned s' a.
Proof. intros Hv (e & He & Hb). exists e. by rewrite Hv. Qed.

Lemma random_keeps {E} (wrap : peer_store_error -> E) m r m' :
  db_call store_random wrap m = (r, m') -> bans_kept m m'.
Proof.
  intros (x & d & Hf & -> & _)%db_call_inv Hok.
  destruct (store_random_keeps _ _ _ Hok Hf) as [? Hv]. split; [done|].
  intros a _. by apply is_banned_view.
Qed.

Lemma count_keeps {E} (wrap : peer_store_error -> E) m r m' :
  db_call store_num_unbanned wrap m = (r, m') -> bans_kept m m'.
Proof.
  intros (x & d & Hf & -> & _)%db_call_inv Hok.
  destruct (store_num_unbanned_keeps _ _ _ Hok Hf) as [? Hv]. split; [done|].
  intros a _. by apply is_banned_view.
Qed.

Lemma gossip_keeps {E} (wrap : peer_store_error -> E) p m r m' :
  storable p -> pp_status p = Gossiped -> db_call (store_update p) wrap m = (r, m') -> bans_kept m m'.
Proof.
  intros Hp Hs (x & d & Hf & -> & _)%db_call_inv Hok. cbn [pm_db set_peer_db].
  replace d with (store_update p (pm_db m)).2 by (by rewrite Hf).
  split.
  - destruct Hp as [Hp Hsv]. rewrite Hf. destruct x as [e|[]].
    + by eapply store_update_error_law.
    + by eapply store_update_law.
  - intros a Ha Hb. apply update_keeps_ban; [done..| |done]. intros _. by rewrite Hs.
Qed.

Lemma gossip_storable a port :
  persistable a -> storable (mkPersistedPeer a port NO_SERVICES Gossiped).
Proof. split; [done|]. by vm_compute. Qed.

Lemma bootstrap_keeps l : forall m r m',
  Forall persistable l -> store_bootstrap l m = (r, m') -> bans_kept m m'.
Proof.
  induction l as [|a l IH]; intros m r m' Hl Hrun; cbn [store_bootstrap] in Hrun.
  - injection Hrun as _ <-. by apply bans_kept_same.
  - inversion Hl; subst. st_reads Hrun. st_cases Hrun.
    + exact (gossip_keeps _ _ _ _ _ (gossip_storable _ _ ltac:(done)) eq_refl Hstep).
    + eapply bans_kept_trans; [|by eapply IH].
      exact (gossip_keeps _ _ _ _ _ (gossip_storable _ _ ltac:(done)) eq_refl Hstep).
Qed.

Lemma next_peer_loop_spec status n : forall m p m',
  peer_store_ok (pm_db m) -> next_peer_loop status n m = (inr p, m') ->
  exists e, peer_view (pm_db m') (pp_addr p) = Some e /\ pe_banned e = false /\
    persistable (pp_addr p) /\ pp_port p = pe_port e /\ pp_services p = pe_services e /\
    bans_kept m m'.
Proof.
  assert (forall m p m', peer_store_ok (pm_db m) ->
    db_call store_random (PeerStoreError (P := peer_store_error)) m = (inr p, m') ->
    exists e, peer_view (pm_db m') (pp_addr p) = Some e /\ pe_banned e = false /\
    persistable (pp_addr p) /\ pp_port p = pe_port e /\ pp_services p = pe_services e /\
    bans_kept m m') as Hrandom.
  { intros m p m' Hok Hrun. pose proof (random_keeps _ _ _ _ Hrun) as Hk.
    apply db_call_inv in Hrun as ([err|q] & d & Hf & -> & Hr); [done|]. injection Hr as <-.
    destruct (store_random_law _ _ _ Hok Hf) as (Ha & e & He & ? & ? & ? & _).
    exists e. cbn [pm_db set_peer_db].
    destruct (store_random_keeps _ _ _ Hok Hf) as [_ Hv]. by rewrite Hv. }
  induction n as [|n IH]; intros m p m' Hok Hrun; cbn [next_peer_loop] in Hrun; [by apply Hrandom|].
  st_cases Hrun; [done|]. destruct (Hrandom _ _ _ Hok Hstep) as (e & He & Hb & Ha & Hp & Hs & Hk).
  st_reads Hrun. destruct (_ || _).
  - destruct (IH _ _ _ (proj1 (Hk Hok)) Hrun) as (e' & ? & ? & ? & ? & ? & Hk').
    exists e'. split_and!; try done. by eapply bans_kept_trans.
  - injection Hrun as <- <-. by exists e.
Qed.

End NextPeer.

(** ** Reachable states *)

Section Reachable.
Context `{Bitcoin} {P : Type} `{PeerStore P}.
Context (BROADCAST_MIN : FeeRate).
Implicit Types (m : PeerMap P).

(** The operations of the manager and the end of a connection; [dispatch] while
    identifiers are left. *)
Inductive pm_step : PeerMap P -> PeerMap P -> Prop :=
  | step_clean m : pm_step m (clean m)
  | step_offset t k v m : pm_step m (set_offset t k v m)
  | step_duration d m : pm_step m (set_duration d m)
  | step_trusted w m : pm_step m (add_trusted_peer w m)
  | step_dispatch dial p m :
      current_id m < u32_modulus - 1 -> pm_step m (pm_dispatch BROADCAST_MIN dial p m).2
  | step_broadcast_min k f m : pm_step m (set_broadcast_min k f m)
  | step_services k f m : pm_step m (set_services k f m)
  | step_height k h m : pm_step m (set_height k h m)
  | step_increment k m : pm_step m (increment_height k m)
  | step_send k msg m : pm_step m (send_message k msg m)
  | step_broadcast msg m : pm_step m (broadcast msg m).2
  | step_random i msg m : pm_step m (send_random i msg m).2
  | step_next resolve status m : pm_step m (next_peer resolve status m).2
  | step_need m : pm_step m (need_peers m).2
  | step_gossip l m : pm_step m (add_gossiped_peers l m)
  | step_tried k m : pm_step m (tried k m)
  | step_ban k m : pm_step m (ban k m)
  | step_finish k m : pm_step m (finish_peer k m).

Inductive pm_reachable (m0 : PeerMap P) : PeerMap P -> Prop :=
  | reach_start : pm_reachable m0 m0
  | reach_step m m' : pm_reachable m0 m -> pm_step m m' -> pm_reachable m0 m'.

(** What the operations on the database leave alone. *)
Definition pm_frame : relation (PeerMap P) := fun m m' =>
  pm_map m' = pm_map m /\ current_id m' = current_id m /\ net_groups m' = net_groups m.

#[local] Instance pm_frame_preorder : PreOrder pm_frame.
Proof. split; [done|]. unfold pm_frame. intros ???. intuition congruence. Qed.

Lemma db_call_frame {E A} (f : P -> (peer_store_error + A) * P) (w : peer_store_error -> E) :
  st_keeps pm_frame (db_call f w).
Proof. intros m r m'. unfold db_call. destruct (f (pm_db m)). by intros [= _ <-]. Qed.

#[local] Hint Resolve db_call_frame : kyoto.
#[local] Hint Extern 1 (pm_frame _ _) => (unfold pm_frame; by split_and!) : kyoto.

Lemma store_bootstrap_frame l : st_keeps pm_frame (store_bootstrap l).
Proof. induction l as [|a l IH]; cbn [store_bootstrap]; st_keeps. Qed.

Lemma next_peer_loop_frame status n : st_keeps pm_frame (next_peer_loop status n).
Proof. induction n as [|n IH]; cbn [next_peer_loop]; st_keeps. Qed.

#[local] Hint Resolve store_bootstrap_frame next_peer_loop_frame : kyoto.

Lemma next_peer_frame resolve status : st_keeps pm_frame (next_peer resolve status).
Proof.
  unfold next_peer, bootstrap. apply st_keeps_bind; [apply _|apply st_keeps_get; apply _|].
  intros [[peer|] rest]; st_keeps.
Qed.

Lemma need_peers_frame : st_keeps pm_frame need_peers.
Proof.
  unfold need_peers. apply st_keeps_bind; [apply _|apply st_keeps_get; apply _|].
  intros []; st_keeps.
Qed.

Lemma update_or_warn_frame p m : pm_frame m (update_or_warn p m).
Proof. unfold update_or_warn. destruct (store_update p (pm_db m)) as [[]]; done. Qed.

Lemma gossip_frame l : forall m, pm_frame m (add_gossiped_peers l m).
Proof.
  unfold add_gossiped_peers. induction l as [|c l IH]; intros m; [done|]. cbn [foldl].
  etrans; [apply update_or_warn_frame|apply IH].
Qed.

Lemma record_frame s k m : pm_frame m (record_status s k m).
Proof. unfold record_status. destruct (pm_map m !! k); [apply update_or_warn_frame|done]. Qed.

(** Identifiers in use were handed out, and no netgroup was ever recorded. *)
Record pm_inv m : Prop := {
  pi_id : 0 <= current_id m < u32_modulus;
  pi_used k : is_Some (pm_map m !! k) -> 0 < k <= current_id m;
  pi_groups : net_groups m = ∅;
}.

Lemma inv_frame m m' : pm_frame m m' -> pm_inv m -> pm_inv m'.
Proof. intros (Hm & Hi & Hg) []. split; [by rewrite Hi|by rewrite Hm, Hi|by rewrite Hg]. Qed.

(** Changing entries, or removing some, keeps it. *)
Lemma inv_map f m :
  (forall k, is_Some (f (pm_map m) !! k) -> is_Some (pm_map m !! k)) -> pm_inv m -> pm_inv (set_map f m).
Proof. intros Hf []. split; cbn; [done| |done]. intros k Hk. auto. Qed.

Lemma inv_with_peer f k m : pm_inv m -> pm_inv (with_peer f k m).
Proof.
  apply inv_map. intros j. destruct (decide (k = j)) as [<-|Hne].
  - by rewrite lookup_alter_eq, fmap_is_Some.
  - by rewrite lookup_alter_ne.
Qed.

Lemma inv_heights f m : pm_inv m -> pm_inv (set_heights f m).
Proof. by apply inv_frame. Qed.

Lemma pm_step_inv m m' : pm_step m m' -> pm_inv m -> pm_inv m'.
Proof.
  destruct 1; try (by apply inv_with_peer); try (by apply inv_heights); try (by apply inv_frame).
  - intros Hinv. apply inv_heights, inv_map; [|done].
    intros k [q Hq]. apply map_lookup_filter_Some in Hq as [Hq _]. by eexists.
  - intros [Hid Hused Hg]. unfold pm_dispatch.
    assert (peer_id_increment (current_id m) = current_id m + 1) as Hinc
      by (apply u32_add_small; unfold is_u32; lia).
    assert (pm_inv (next_id m)) as Hnext.
    { split; cbn; rewrite ?Hinc; [lia| |done]. intros k Hk. specialize (Hused k Hk). lia. }
    destruct (can_connect _ _); cbn -[next_id]; [|done].
    destruct (connect _ _ _ _); cbn -[next_id]; [done|].
    split; cbn; rewrite ?Hinc; [lia| |done]. intros k Hk.
    destruct (decide (k = current_id m + 1)) as [->|Hne]; [lia|].
    rewrite lookup_insert_ne in Hk by done. specialize (Hused k Hk). lia.
  - intros Hinv. apply inv_map; [|done]. intros k. by rewrite lookup_fmap, fmap_is_Some.
  - intros Hinv. unfold send_random. destruct (_ !! _) as [[k q]|]; [|done]. by apply inv_with_peer.
  - apply inv_frame. destruct (next_peer resolve status m) as [r m'] eqn:Hr. by eapply next_peer_frame.
  - apply inv_frame. destruct (need_peers m) as [r m'] eqn:Hr. by eapply need_peers_frame.
  - apply inv_frame, gossip_frame.
  - apply inv_frame, record_frame.
  - apply inv_frame, record_frame.
Qed.

Lemma pm_reachable_inv m0 m : pm_inv m0 -> pm_reachable m0 m -> pm_inv m.
Proof. intros Hinv. induction 1; [done|]. by eapply pm_step_inv. Qed.

Lemma new_inv n store w d c size t monitor resolver :
  pm_inv (peer_map_new n store w d c size t monitor resolver).
Proof. split; cbn; [by split| |done]. intros k. by rewrite lookup_empty; intros [? ?]. Qed.


(** No netgroup is ever recorded, so the test of [next_peer] for the netgroup of
    a candidate never rejects one. *)
Theorem netgroups_never_recorded n store w d c size t monitor resolver m a :
  pm_reachable (peer_map_new n store w d c size t monitor resolver) m ->
  bool_decide (netgroup a ∈ net_groups m) = false.
Proof.
  intros Hr. destruct (pm_reachable_inv _ _ (new_inv _ _ _ _ _ _ _ _ _) Hr) as [_ _ ->].
  apply bool_decide_eq_false. set_solver.
Qed.

(** Broadcasting puts the message, once and last, on the channel of every
    live connection, leaves the others alone, and reports whether there was a
    live connection. *)
Theorem broadcast_reaches_live msg m k q :
  pm_map m !! k = Some q ->
  let '(sent, m') := broadcast msg m in
  (sent = true <-> exists j p, pm_map m !! j = Some p /\ mp_finished p = false) /\
  exists q', pm_map m' !! k = Some q' /\ mp_finished q' = mp_finished q /\
    ptx q' = if mp_finished q then ptx q else ptx q ++ [msg].
Proof.
  intros Hk. unfold broadcast. split.
  - rewrite negb_true_iff, bool_decide_eq_false. unfold live_peers. split.
    + destruct (filter _ _) as [|[j p] l] eqn:Hf; [done|]. intros _.
      assert ((j, p) ∈ filter (fun kv => mp_finished kv.2 = false) (map_to_list (pm_map m))) as Hin
        by (rewrite Hf; by left).
      apply list_elem_of_filter in Hin as [Hp Hin]. apply elem_of_map_to_list in Hin. eauto.
    + intros (j & p & Hj & Hp) Hnil. apply elem_of_map_to_list in Hj.
      assert ((j, p) ∈ filter (fun kv => mp_finished kv.2 = false) (map_to_list (pm_map m))) as Hin
        by by apply list_elem_of_filter.
      rewrite Hnil in Hin. by apply elem_of_nil in Hin.
  - cbn. rewrite lookup_fmap, Hk. eexists. split; [done|]. unfold channel_send.
    by destruct (mp_finished q) eqn:Hq.
Qed.
End Reachable.

(** ** A manager for the witnesses *)
Module ToyPeerMap.
Import Toy ToyPeers.

Definition toy_manager : PeerMap (SqlitePeerDb peer_table) :=
  peer_map_new Mainnet banned_store [] [] ClearNet UnboundedSize peer_timeout_default
    height_monitor_new dns_resolver_default.

Definition toy_dial (r : Route) : option Socks5Error + () := inr ().

Definition toy_connected : PeerMap (SqlitePeerDb peer_table) :=
  (pm_dispatch 250 toy_dial try_b toy_manager).2.

Lemma toy_reachable : pm_reachable 250 toy_manager toy_connected.
Proof. eapply reach_step; [apply reach_start|]. by apply step_dispatch. Qed.

Lemma toy_store_ok : peer_store_ok (P := SqlitePeerDb peer_table) (pm_db toy_manager).
Proof. exact banned_store_ok. Qed.



Lemma broadcast_reaches_live_witness :
  exists q', pm_map (broadcast GetAddr toy_connected).2 !! 1 = Some q' /\ ptx q' = [GetAddr].
Proof.
  destruct (proj2 (broadcast_reaches_live GetAddr toy_connected 1 _ eq_refl)) as (q' & Hq & _ & Hp).
  exists q'. split; [exact Hq|exact Hp].
Defined.
End ToyPeerMap.
