(* ===== verification/Node.v ===== *)
(** * The node: [src/node.rs]

    [Node] joins the chain, the peer manager and the transaction broadcaster,
    and moves through the states of a synchronization.  The height monitor and
    the dialog are shared ([Arc]) between the chain and the peer manager: the
    chain's copy is the value, lent to the manager by [on_peer_map].

    [node_turn] is one turn of the loop of [run]: advance the state, find peers,
    request blocks, broadcast transactions, then handle one message of a peer
    or of the client, or none when the wait timed out.  [Env] is what the
    environment decides in a turn. *)

From stdpp Require Import base numbers list gmap strings.
From Stdlib Require Import ZArith Lia.
From S2P Require Import Prelude Bitcoin ChainTypes Graph Checkpoints Batches BlockQueue Messages.
From S2P Require Import HeaderStore PeerStore Chain Network Wire Dns PeerMap.

Definition WTXID_VERSION : Z := 70016.

Section Node.
Context `{Bitcoin} {D : Type} `{HeaderStore D} {P : Type} `{PeerStore P}.
Context (filter_control : bool) (BROADCAST_MIN : FeeRate).

Record Node := mkNode {
  state : NodeState;
  chain : Chain D;
  peer_map : PeerMap P;
  tx_broadcaster : Broadcaster;
  required_peers : nat;
  last_block_monitor : LastBlockMonitor; (* the local [last_block] of [run] *)
}.

(** What the environment decides in one turn: the clock, the outcome of
    dialling and resolving, the random choices, the live one-shot receivers. *)
Record Env := mkEnv {
  env_now : Instant;
  env_unix : Z;
  env_dial : Route -> option Socks5Error + ();
  env_resolve : Dns -> list IpAddr;
  env_status : PeerStatus;
  env_pick_block : nat;
  env_pick_tx : nat -> nat;
  env_alive : ChannelId -> bool;
}.

Abbreviation node_error := (NodeError store_error peer_store_error) (only parsing).

(** ** Access to the parts *)

Definition set_state (s : NodeState) (n : Node) : Node :=
  {| state := s; chain := chain n; peer_map := peer_map n; tx_broadcaster := tx_broadcaster n;
     required_peers := required_peers n; last_block_monitor := last_block_monitor n |}.

Definition set_chain (c : Chain D) (n : Node) : Node :=
  {| state := state n; chain := c; peer_map := peer_map n; tx_broadcaster := tx_broadcaster n;
     required_peers := required_peers n; last_block_monitor := last_block_monitor n |}.

Definition set_broadcaster (b : Broadcaster) (n : Node) : Node :=
  {| state := state n; chain := chain n; peer_map := peer_map n; tx_broadcaster := b;
     required_peers := required_peers n; last_block_monitor := last_block_monitor n |}.

Definition reset_last_block (now : Instant) (n : Node) : Node :=
  {| state := state n; chain := chain n; peer_map := peer_map n;
     tx_broadcaster := tx_broadcaster n; required_peers := required_peers n;
     last_block_monitor := last_block_reset now |}.

(** Lend the shared values to the manager, and take them back. *)
Definition lend (c : Chain D) (m : PeerMap P) : PeerMap P :=
  {| current_id := current_id m; pm_heights := heights c; pm_network := pm_network m;
     pm_map := pm_map m; pm_db := pm_db m; connector := connector m; whitelist := whitelist m;
     pm_dialog := dialog c; target_db_size := target_db_size m; net_groups := net_groups m;
     timeout_config := timeout_config m; pm_dns_resolver := pm_dns_resolver m |}.

Definition take_back (m : PeerMap P) (c : Chain D) : Chain D :=
  {| header_chain := header_chain c; request_state := request_state c;
     ch_checkpoints := ch_checkpoints c; ch_network := ch_network c; db := db c;
     heights := pm_heights m; scripts := scripts c; block_queue := block_queue c;
     dialog := pm_dialog m |}.

Definition on_peer_map {E A} (f : ST (PeerMap P) E A) : ST Node E A := fun n =>
  let '(r, m) := f (lend (chain n) (peer_map n)) in
  (r, {| state := state n; chain := take_back m (chain n); peer_map := m;
         tx_broadcaster := tx_broadcaster n; required_peers := required_peers n;
         last_block_monitor := last_block_monitor n |}).

Definition on_chain {E A} (f : ST (Chain D) E A) : ST Node E A := fun n =>
  let '(r, c) := f (chain n) in (r, set_chain c n).

(** A method of the manager that cannot fail, with or without a result. *)
Definition peer_map_do {E} (f : PeerMap P -> PeerMap P) : ST Node E () :=
  on_peer_map (st_modify f).
Definition peer_map_run {E A} (f : PeerMap P -> A * PeerMap P) : ST Node E A :=
  on_peer_map (fun m => let '(a, m') := f m in (inr a, m')).
Definition chain_do {E} (f : Chain D -> Chain D) : ST Node E () := on_chain (st_modify f).
Definition chain_run {E A} (f : Chain D -> A * Chain D) : ST Node E A := on_chain (st_run f).

(** [.await?] of a manager's or the chain's method: the error is wrapped. *)
Definition peer_map_try {A} (f : ST (PeerMap P) (PeerManagerError peer_store_error) A)
  : ST Node node_error A := fun n =>
  let '(r, n') := on_peer_map f n in
  (match r with inl e => inl (PeerDatabase e) | inr a => inr a end, n').

(** [match chain.method().await { Ok(..) => .., Err(..) => .. }]: the result as
    a value. *)
Definition chain_result {E X A} (f : ST (Chain D) X A) : ST Node E (X + A) := fun n =>
  let '(r, c) := f (chain n) in (inr r, set_chain c n).

Definition node_say {E} (o : Output) : ST Node E () := chain_do (say o).

(** ** Creation *)

(** [Node::new] with the fields of the configuration it uses; [None] is the
    panic of [HeaderCheckpoints::new] on a network without checkpoints. *)
Definition node_new (n : Network) (required : Z) (white_list : list TrustedPeer)
    (resolver : DnsResolver) (addresses : gset ScriptBuf) (header_checkpoint : option HeaderCheckpoint)
    (connection : ConnectionType) (target : PeerStoreSizeConfig) (timeouts : PeerTimeoutConfig)
    (now : Instant) (peer_store : P) (header_store : D) : option Node :=
  checkpoints ← checkpoints_new n;
  let checkpoint := default (last_checkpoint checkpoints) header_checkpoint in
  let checkpoints := prune_up_to checkpoint checkpoints in
  Some {| state := Behind;
     chain := chain_new n addresses checkpoint checkpoints [] height_monitor_new header_store
                required now;
     peer_map := peer_map_new n peer_store white_list [] connection target timeouts
                   height_monitor_new resolver;
     tx_broadcaster := broadcaster_new;
     required_peers := Z.to_nat required;
     last_block_monitor := last_block_new |}.

(** ** The state of the synchronization *)

(** [info!(StateChange(..))] and [*state = ..] *)
Definition enter {E} (s : NodeState) : ST Node E () :=
  node_say (SendInfo (StateChange s));; st_modify (set_state s).

Definition sync_update (c : Chain D) : SyncUpdate :=
  mkSyncUpdate (mkCheckpoint (tree_height (header_chain c)) (tip_hash (header_chain c))) (last_ten c).

Definition advance_state {E} (now : Instant) : ST Node E () :=
  st ← st_get state;
  c ← st_get chain;
  match st with
  | Behind => if is_synced c then enter HeadersSynced else mret ()
  | HeadersSynced => if is_cf_headers_synced c then enter FilterHeadersSynced else mret ()
  | FilterHeadersSynced => if is_filters_synced c then enter FiltersSynced else mret ()
  | FiltersSynced =>
      if block_queue_empty c then
        enter TransactionsSynced;; node_say (SendEvent (Synced (sync_update c)))
      else mret ()
  | TransactionsSynced =>
      last_block ← st_get last_block_monitor;
      if last_block_stale now last_block then
        node_say (SendWarning PotentialStaleTip);;
        peer_map_run (broadcast DisconnectPeer);;
        st_modify (reset_last_block now)
      else mret ()
  end.

Definition next_required_peers (n : Node) : nat :=
  match state n with Behind => 1%nat | _ => required_peers n end.

Definition get_headers_message (c : Chain D) : MainThreadMessage :=
  GetHeaders (mkGetHeaderConfig (locators (header_chain c)) None).

Definition next_stateful_message (c : Chain D) : option MainThreadMessage * Chain D :=
  if negb (is_synced c) then (Some (get_headers_message c), c)
  else if negb (is_cf_headers_synced c) then
    let '(m, c') := next_cf_header_message c in (Some (GetFilterHeaders m), c')
  else if negb (is_filters_synced c) then
    let '(m, c') := next_filter_message c in (Some (GetFilters m), c')
  else (None, c).

(** ** Sending *)

Definition node_send_message {E} (nonce : PeerId) (m : MainThreadMessage) : ST Node E () :=
  peer_map_do (send_message nonce m).
Definition node_broadcast {E} (m : MainThreadMessage) : ST Node E () :=
  peer_map_run (broadcast m);; mret ().
Definition node_send_random {E} (pick : nat) (m : MainThreadMessage) : ST Node E () :=
  peer_map_run (send_random pick m);; mret ().

Definition dispatch (env : Env) : ST Node node_error () :=
  peer_map_do clean;;
  live ← st_get (fun n => live (peer_map n));
  required ← st_get next_required_peers;
  if decide (live < required)%nat then
    node_say (SendWarning (NeedConnections (Z.of_nat live) (Z.of_nat required)));;
    address ← peer_map_try (next_peer (env_resolve env) (env_status env));
    result ← peer_map_run (pm_dispatch BROADCAST_MIN (env_dial env) address);
    match result with
    | inl _ => node_say (SendWarning CouldNotConnect)
    | inr _ => mret ()
    end
  else mret ().

Definition pop_block_queue {E} (now : Instant) : ST Node E (option MainThreadMessage) :=
  st ← st_get state;
  match st with
  | FilterHeadersSynced | FiltersSynced =>
      next_block_hash ← chain_run (next_block now);
      mret (GetBlock <$> next_block_hash)
  | _ => mret None
  end.

Definition get_blocks {E} (env : Env) : ST Node E () :=
  block_request ← pop_block_queue (env_now env);
  match block_request with
  | Some m => node_send_random (env_pick_block env) m
  | None => mret ()
  end.

(** The loop over the queue; [k] counts the transactions for the random picks. *)
Fixpoint broadcast_loop {E} (env : Env) (k : nat) (l : list TxBroadcast) : ST Node E () :=
  match l with
  | [] => mret ()
  | transaction :: l' =>
      let txid := compute_txid (tb_tx transaction) in
      did_broadcast ← (match tb_broadcast_policy transaction with
        | AllPeers => peer_map_run (broadcast (BroadcastTx (tb_tx transaction)))
        | RandomPeer =>
            peer_map_run (send_random (env_pick_tx env k) (BroadcastTx (tb_tx transaction)))
        end);
      (if did_broadcast : bool then mret ()
       else node_say (SendWarning (TransactionRejected (reject_from_txid txid))));;
      broadcast_loop env (S k) l'
  end.

Definition broadcast_transactions {E} (env : Env) : ST Node E () :=
  b ← st_get tx_broadcaster;
  if broadcaster_is_empty b then mret ()
  else
    live ← st_get (fun n => live (peer_map n));
    required ← st_get required_peers;
    if decide (required <= live)%nat then
      let '(l, b') := broadcaster_queue b in
      st_modify (set_broadcaster b');;
      broadcast_loop env 0 l
    else mret ().

(** ** Messages of the peers *)

Definition lacks_filters (s : ServiceFlags) : bool :=
  negb (services_has s COMPACT_FILTERS) || negb (services_has s NETWORK_SERVICE).

Definition handle_version (nonce : PeerId) (v : VersionMessage)
  : ST Node node_error MainThreadMessage :=
  if ver_version v <? WTXID_VERSION then mret DisconnectPeer
  else
    st ← st_get state;
    if bool_decide (st ≠ Behind) && lacks_filters (ver_services v) then
      node_say (SendWarning NoCompactFilters);; mret DisconnectPeer
    else
      peer_map_do (tried nonce);;
      needs_peers ← peer_map_try need_peers;
      node_send_message nonce GetAddrV2;;
      node_send_message nonce WtxidRelay;;
      node_send_message nonce SendVerack;;
      (if needs_peers : bool then node_send_message nonce GetAddr else mret ());;
      live ← st_get (fun n => live (peer_map n));
      required ← st_get required_peers;
      (if decide (live = required) then node_say (SendInfo ConnectionsMet) else mret ());;
      st_get (fun n => get_headers_message (chain n)).

Definition handle_new_addrs {E} (l : list CombinedAddr) : ST Node E () :=
  peer_map_do (add_gossiped_peers l).

(** A warning, the ban of the peer, and the order to disconnect. *)
Definition warn_ban_disconnect {E} (peer_id : PeerId) (warning : string)
  : ST Node E (option MainThreadMessage) :=
  node_say (SendWarning (UnexpectedSyncError warning));;
  peer_map_do (ban peer_id);;
  mret (Some DisconnectPeer).

Definition handle_headers {E} (peer_id : PeerId) (l : list Header)
  : ST Node E (option MainThreadMessage) :=
  result ← chain_result (sync_chain l);
  match result with
  | inl EmptyMessage =>
      synced ← st_get (fun n => is_synced (chain n));
      if negb synced then mret (Some DisconnectPeer) else chain_run next_stateful_message
  | inl e =>
      warn_ban_disconnect peer_id ("Unexpected header syncing error: " +:+ header_sync_error_text e)
  | inr _ => chain_run next_stateful_message
  end.

Definition handle_cf_headers {E} (peer_id : PeerId) (cf_headers : CFHeaders)
  : ST Node E (option MainThreadMessage) :=
  chain_do send_chain_update;;
  result ← chain_result (sync_cf_headers peer_id cf_headers);
  match result with
  | inr AddedToQueue => mret None
  | inr Extended => chain_run next_stateful_message
  | inr Conflict =>
      node_say (SendWarning (UnexpectedSyncError
        "Found a conflict while peers are sending filter headers"));;
      mret (Some DisconnectPeer)
  | inl e =>
      warn_ban_disconnect peer_id
        ("Compact filter header syncing encountered an error: " +:+ cf_header_sync_error_text e)
  end.

Definition handle_filter {E} (peer_id : PeerId) (filter : CFilter)
  : ST Node E (option MainThreadMessage) :=
  result ← chain_result (sync_filter filter_control filter);
  match result with
  | inr (Some m) => chain_do send_chain_update;; mret (Some (GetFilters m))
  | inr None => mret None
  | inl e =>
      node_say (SendWarning (UnexpectedSyncError
        ("Compact filter syncing encountered an error: " +:+ cfilter_sync_error_text e)));;
      match e with
      | FilterErr _ => mret (Some DisconnectPeer)
      | _ => peer_map_do (ban peer_id);; mret (Some DisconnectPeer)
      end
  end.

Definition handle_block {E} (env : Env) (peer_id : PeerId) (block : Block)
  : ST Node E (option MainThreadMessage) :=
  result ← chain_result (check_send_block (env_alive env) block);
  match result with
  | inl e =>
      warn_ban_disconnect peer_id ("Unexpected block scanning error: " +:+ block_scan_error_text e)
  | inr _ => mret None
  end.

Definition handle_inventory_blocks {E} (nonce : PeerId) (blocks : list BlockHash)
  : ST Node E (option MainThreadMessage) :=
  peer_map_do (fun m => foldl (fun m _ => increment_height nonce m) m blocks);;
  st ← st_get state;
  c ← st_get chain;
  match st with
  | Behind => mret None
  | _ =>
      if existsb (fun block => negb (contains (header_chain c) block)) blocks then
        enter Behind;;
        chain_do clear_compact_filter_queue;;
        mret (Some (get_headers_message c))
      else mret None
  end.

(** ** Messages of the client *)

Definition add_script {E} (script : ScriptBuf) : ST Node E () := chain_do (put_script script).

Definition rescan {E} : ST Node E (option MainThreadMessage) :=
  st ← st_get state;
  match st with
  | Behind | HeadersSynced => mret None
  | _ =>
      chain_do clear_filters;;
      enter FilterHeadersSynced;;
      m ← chain_run next_filter_message;
      mret (Some (GetFilters m))
  end.

Definition fetch_headers : ST Node node_error () := fun n =>
  let '(r, n') := on_chain load_headers n in
  (match r with inl e => inl (HeaderDatabase e) | inr a => inr a end, n').

(** [oneshot.send(..)], with a warning when the receiver is gone. *)
Definition answer {E} (alive : bool) (o : Output) : ST Node E () :=
  node_say (if alive then o else SendWarning ChannelDropped).

(** The arm of a client's message; the result says whether to shut down. *)
Definition handle_client (env : Env) (message : ClientMessage) : ST Node node_error bool :=
  match message with
  | Shutdown => mret true
  | Broadcast transaction =>
      st_modify (fun n => set_broadcaster (broadcaster_add transaction (tx_broadcaster n)) n);;
      mret false
  | AddScript script => add_script script;; mret false
  | Rescan =>
      response ← rescan;
      match response with
      | Some m => node_broadcast m;; mret false
      | None => mret false
      end
  | ClientGetBlock hash oneshot =>
      st_modify (fun n => match state n with
                          | TransactionsSynced => set_state FiltersSynced n
                          | _ => n
                          end);;
      chain_do (get_block (env_alive env) hash oneshot);;
      mret false
  | SetDuration duration => peer_map_do (set_duration duration);; mret false
  | AddPeer peer => peer_map_do (add_trusted_peer peer);; mret false
  | GetHeader oneshot height =>
      result ← chain_result (fetch_header height);
      answer (env_alive env oneshot) (HeaderToChannel oneshot
        match result with
        | inl _ => inl FetchHeaderDatabaseOptFailed
        | inr None => inl UnknownHeight
        | inr (Some hdr) => inr hdr
        end);;
      mret false
  | GetHeaderBatch oneshot start stop =>
      result ← chain_result (fetch_header_range start stop);
      answer (env_alive env oneshot) (HeadersToChannel oneshot
        match result with
        | inl _ => inl FetchHeaderDatabaseOptFailed
        | inr l => inr l
        end);;
      mret false
  | GetBroadcastMinFeeRate oneshot =>
      fee_rate ← st_get (fun n => broadcast_min BROADCAST_MIN (peer_map n));
      answer (env_alive env oneshot) (FeeRateToChannel oneshot fee_rate);;
      mret false
  | NoOp => mret false
  end.

(** The arm of a peer's message. *)
Definition respond {E} (nonce : PeerId) (response : option MainThreadMessage) : ST Node E () :=
  match response with Some m => node_send_message nonce m | None => mret () end.

Definition respond_all {E} (response : option MainThreadMessage) : ST Node E () :=
  match response with Some m => node_broadcast m | None => mret () end.

Definition handle_peer (env : Env) (peer_thread : PeerThreadMessage) : ST Node node_error () :=
  let nonce := ptm_nonce peer_thread in
  match ptm_message peer_thread with
  | PeerVersion v =>
      peer_map_do (set_offset (env_unix env) nonce (ver_timestamp v));;
      peer_map_do (set_services nonce (ver_services v));;
      peer_map_do (set_height nonce (as_u32 (ver_start_height v)));;
      response ← handle_version nonce v;
      node_send_message nonce response
  | PeerAddr l => handle_new_addrs l
  | PeerHeaders l =>
      st_modify (reset_last_block (env_now env));;
      handle_headers nonce l ≫= respond nonce
  | PeerFilterHeaders cf_headers => handle_cf_headers nonce cf_headers ≫= respond_all
  | PeerFilter filter => handle_filter nonce filter ≫= respond nonce
  | PeerBlock block => handle_block env nonce block ≫= respond nonce
  | PeerNewBlocks blocks => handle_inventory_blocks nonce blocks ≫= respond_all
  | PeerFeeFilter feerate => peer_map_do (set_broadcast_min nonce feerate)
  end.

(** ** The loop *)

(** What [select!] chose: a peer's message ([None]: the wait timed out, or the
    channel is closed) or the client's. *)
Inductive NodeInput :=
  | FromPeer (m : option PeerThreadMessage)
  | FromClient (m : option ClientMessage).

(** What [run] does in every turn before it waits for a message. *)
Definition maintain (env : Env) : ST Node node_error () :=
  dispatch env;;
  get_blocks env;;
  broadcast_transactions env.

Definition handle_input (env : Env) (input : NodeInput) : ST Node node_error bool :=
  match input with
  | FromPeer (Some m) => handle_peer env m;; mret false
  | FromClient (Some m) => handle_client env m
  | FromPeer None | FromClient None => mret false
  end.

(** One turn of [run]; the result says whether the node was shut down. *)
Definition node_turn (env : Env) (input : NodeInput) : ST Node node_error bool :=
  advance_state (env_now env);;
  maintain env;;
  handle_input env input.

Fixpoint node_loop (l : list (Env * NodeInput)) : ST Node node_error bool :=
  match l with
  | [] => mret false
  | (env, input) :: l' =>
      stop ← node_turn env input;
      if (stop : bool) then mret true else node_loop l'
  end.

Definition node_run (l : list (Env * NodeInput)) : ST Node node_error bool :=
  fetch_headers;; node_loop l.
End Node.

Arguments Node {_} D P.
