(* ===== verification/NodeFacts.v ===== *)
(** * What the handlers keep

    Frame conditions of the node's operations, by the rules of [st_keeps]: what
    an operation may do to the block tree is a run of the tree's own
    operations; the dialog only grows; only a few operations change the state
    of the synchronization, or announce that it is complete. *)

From stdpp Require Import base numbers list gmap strings.
From Stdlib Require Import ZArith Lia.
From S2P Require Import Prelude Bitcoin ChainTypes Graph Walk GraphFacts Reorg FilterMarks TreeProperties.
From S2P Require Import Checkpoints Batches BlockQueue Messages HeaderStore PeerStore Chain Network Wire Dns PeerMap Node.

Section Frames.
Context `{Bitcoin} {D : Type} `{HeaderStore D} {P : Type} `{PeerStore P}.
Context (filter_control : bool) (BROADCAST_MIN : FeeRate).
Implicit Types (c : Chain D) (m : PeerMap P) (n : Node D P) (t : BlockTree).

(** ** The dialog and the tree *)

Definition not_synced (o : Output) : Prop :=
  match o with SendEvent (Synced _) => False | _ => True end.

(** Warnings and infos. *)
Definition notice (o : Output) : Prop :=
  match o with SendWarning _ | SendInfo _ => True | _ => False end.

(** The dialog grows by outputs of a kind. *)
Definition grows (Q : Output -> Prop) : relation (list Output) := fun l l' => exists k, l' = l ++ k /\ Forall Q k.

#[export] Instance grows_preorder Q : PreOrder (grows Q).
Proof.
  split.
  - intros l. exists []. by rewrite app_nil_r.
  - intros l1 l2 l3 (k1 & -> & H1') (k2 & -> & H2'). exists (k1 ++ k2).
    by rewrite <- (assoc_L (++)), Forall_app.
Qed.

Lemma grows_one Q l o : Q o -> grows Q l (l ++ [o]).
Proof. intros Ho. exists [o]. split; [done|by apply Forall_singleton]. Qed.

Lemma grows_mono (Q1 Q2 : Output -> Prop) l l' : (forall o, Q1 o -> Q2 o) -> grows Q1 l l' -> grows Q2 l l'.
Proof. intros HQ (k & -> & Hk). exists k. split; [done|]. by eapply Forall_impl. Qed.

(** Without the event of a completed synchronization. *)
Definition says : relation (list Output) := grows not_synced.

#[export] Instance says_preorder : PreOrder says := grows_preorder _.

Lemma says_one l o : not_synced o -> says l (l ++ [o]).
Proof. apply grows_one. Qed.

Lemma notice_not_synced o : notice o -> not_synced o.
Proof. by destruct o. Qed.

Definition mark_op (o : TreeOp) : Prop := match o with OpAccept _ => False | _ => True end.

(** A run of the tree's operations that accepts no header. *)
Definition marked : relation BlockTree := fun t t' => exists os, Forall mark_op os /\ t' = tree_run t os.

Lemma tree_run_app t os1 os2 : tree_run t (os1 ++ os2) = tree_run (tree_run t os1) os2.
Proof. unfold tree_run. by rewrite foldl_app. Qed.

#[export] Instance marked_preorder : PreOrder marked.
Proof.
  split.
  - intros t. by exists [].
  - intros t1 t2 t3 (o1 & H1' & ->) (o2 & H2' & ->). exists (o1 ++ o2).
    by rewrite Forall_app, tree_run_app.
Qed.

Lemma marked_one t o : mark_op o -> marked t (tree_op t o).
Proof. intros Ho. exists [o]. split; [by apply Forall_singleton|done]. Qed.

Definition chain_frame : relation (Chain D) := fun c c' =>
  marked (header_chain c) (header_chain c') /\ says (dialog c) (dialog c').

#[export] Instance chain_frame_preorder : PreOrder chain_frame.
Proof.
  split; [by split|]. intros c1 c2 c3 [] []. split; by etransitivity.
Qed.

Lemma frame_same c c' : header_chain c' = header_chain c -> dialog c' = dialog c -> chain_frame c c'.
Proof. intros Ht Hd. split; [by rewrite Ht|by rewrite Hd]. Qed.

Lemma frame_say o c : not_synced o -> chain_frame c (say o c).
Proof. intros Ho. split; [done|]. by apply says_one. Qed.

Lemma frame_mark o c : mark_op o -> chain_frame c (set_tree (tree_op (header_chain c) o) c).
Proof. intros Ho. split; [by apply marked_one|done]. Qed.

#[local] Hint Extern 1 (chain_frame _ (say _ _)) => (by apply frame_say) : kyoto.
#[local] Hint Extern 2 (chain_frame _ _) => (by apply frame_same) : kyoto.

(** ** Methods of the chain *)

Lemma clear_filters_frame c : chain_frame c (clear_filters c).
Proof. by apply (frame_mark OpResetFilters). Qed.

Lemma push_loop_marked l : forall k t, marked t (push_loop l k t).
Proof.
  induction l as [|cm l IH]; intros k t; [done|]. cbn [push_loop].
  etransitivity; [by apply (marked_one t (OpSetCommitment cm k))|]. cbn [tree_op].
  by destruct (header_at_hash _ _).
Qed.

Lemma push_frame batch stop c : chain_frame c (push_cf_header_batch batch stop c).
Proof. split; [apply push_loop_marked|done]. Qed.

Lemma next_cf_frame c : chain_frame c (next_cf_header_message c).2.
Proof. unfold next_cf_header_message. destruct (cf_cursor _ _). by apply frame_same. Qed.

Lemma next_filter_frame c : chain_frame c (next_filter_message c).2.
Proof. by apply frame_same. Qed.

Lemma next_stateful_frame c : chain_frame c (next_stateful_message c).2.
Proof.
  unfold next_stateful_message. destruct (negb _); [done|]. destruct (negb _).
  { pose proof (next_cf_frame c) as Hf. by destruct (next_cf_header_message c). }
  destruct (negb _); [|done].
  pose proof (next_filter_frame c) as Hf. by destruct (next_filter_message c).
Qed.

#[local] Hint Resolve push_frame : kyoto.

Lemma count_agreement_frame id batch stop : st_keeps chain_frame (count_agreement id batch stop).
Proof. unfold count_agreement. st_keeps. Qed.

#[local] Hint Resolve count_agreement_frame : kyoto.

Lemma sync_cf_headers_frame p msg : st_keeps chain_frame (sync_cf_headers p msg).
Proof. unfold sync_cf_headers, check_alignment, queue_batch. st_keeps. Qed.

Lemma check_filter_frame block c : chain_frame c (set_tree (check_filter (header_chain c) block) c).
Proof. by apply (frame_mark (OpCheckFilter block)). Qed.

#[local] Hint Resolve check_filter_frame next_filter_frame : kyoto.

Lemma sync_filter_frame msg : st_keeps chain_frame (sync_filter filter_control msg).
Proof. unfold sync_filter, report_filter, match_filter. st_keeps. Qed.

Lemma answer_block_frame alive ch r c : chain_frame c (answer_block alive ch r c).
Proof. unfold answer_block. destruct (alive ch); by apply frame_say. Qed.

#[local] Hint Resolve answer_block_frame : kyoto.

Lemma receive_frame hash c :
  chain_frame c (let '(s, q) := queue_receive hash (block_queue c) in (s, set_block_queue q c)).2.
Proof. destruct (queue_receive hash (block_queue c)). by apply frame_same. Qed.

#[local] Hint Resolve receive_frame : kyoto.

Lemma check_send_block_frame alive block : st_keeps chain_frame (check_send_block alive block).
Proof. unfold check_send_block. st_keeps. Qed.

Lemma next_block_frame now c : chain_frame c (next_block now c).2.
Proof. unfold next_block. destruct (queue_pop now (block_queue c)). by apply frame_same. Qed.

Lemma get_block_frame alive hash ch c : chain_frame c (get_block alive hash ch c).
Proof.
  unfold get_block. destruct (height_of_hash _ _); [by apply frame_same|apply answer_block_frame].
Qed.

Lemma store_header_frame height c :
  chain_frame c (let '(r, d) := store_header_at height (db c) in (r, set_db d c)).2.
Proof. destruct (store_header_at height (db c)). by apply frame_same. Qed.

Lemma store_load_frame lo hi c :
  chain_frame c (let '(r, d) := store_load lo hi (db c) in (r, set_db d c)).2.
Proof. destruct (store_load lo hi (db c)). by apply frame_same. Qed.

#[local] Hint Resolve store_header_frame store_load_frame : kyoto.

Lemma fetch_header_frame height : st_keeps chain_frame (fetch_header height).
Proof. unfold fetch_header. st_keeps. Qed.

Lemma fetch_header_range_frame lo hi : st_keeps chain_frame (fetch_header_range lo hi).
Proof. unfold fetch_header_range. st_keeps. Qed.

(** ** Header sync is a run of [accept_header] *)

(** The tree after [c'] is that of [c] after accepting a prefix of [l]. *)
Definition accepts (l : list Header) c c' : Prop :=
  (exists k, header_chain c' = tree_run (header_chain c) (OpAccept <$> take k l)) /\
  says (dialog c) (dialog c').

Lemma sync_one_accepts ncp hdr c r c' :
  sync_one ncp hdr c = (r, c') ->
  header_chain c' = tree_op (header_chain c) (OpAccept hdr) /\ says (dialog c) (dialog c').
Proof.
  unfold sync_one, accept, st_run. intros Hs. st_cases Hs.
  { destruct (accept_header _ _); discriminate. }
  cbn [tree_op]. destruct (accept_header (header_chain c) hdr) as [ch t]. injection Hstep as <- <-.
  cbn [snd]. destruct ch as [x| |x|acc dis|[w g|p]].
  - st_reads Hs. destruct ncp as [cp|]; [|by injection Hs as _ <-].
    destruct (ih_height x =? cp_height cp); [|by injection Hs as _ <-].
    destruct (_ =? _); st_reads Hs; injection Hs as _ <-; [done|]. split; [done|by apply says_one].
  - by injection Hs as _ <-.
  - destruct ncp as [cp|]; [st_reads Hs|]; injection Hs as _ <-; [|done].
    split; [done|by apply says_one].
  - do 3 st_reads Hs. injection Hs as _ <-. split; [done|by apply says_one].
  - by injection Hs as _ <-.
  - by injection Hs as _ <-.
Qed.

Lemma sync_loop_accepts ncp l : forall flag c r c',
  sync_loop ncp l flag c = (r, c') -> accepts l c c'.
Proof.
  induction l as [|hdr l IH]; intros flag c r c' Hs; cbn [sync_loop] in Hs.
  - injection Hs as _ <-. split; [by exists 0%nat|done].
  - st_cases Hs; destruct (sync_one_accepts _ _ _ _ _ Hstep) as [Ht Hd].
    + split; [by exists 1%nat|done].
    + destruct (IH _ _ _ _ Hs) as [[k Hk] Hd']. split; [|by etransitivity].
      exists (S k). cbn [take fmap list_fmap]. by rewrite Hk, Ht.
Qed.

Lemma sanity_check_same b c r c' : sanity_check b c = (r, c') -> c' = c.
Proof.
  unfold sanity_check. intros Hs. st_reads Hs.
  do 2 (st_cases Hs; [by apply st_guard_inv in Hstep as [-> _]|];
        apply st_guard_inv in Hstep as [-> _]). by apply st_guard_inv in Hs as [-> _].
Qed.

Lemma write_headers_frame c : chain_frame c (write_headers c).
Proof.
  unfold write_headers. destruct (store_write (db c)) as [[e|[]] d]; [|by apply frame_same].
  split; [done|]. by apply says_one.
Qed.

Lemma write_headers_tree c : header_chain (write_headers c) = header_chain c.
Proof. unfold write_headers. by destruct (store_write (db c)) as [[] ?]. Qed.

Lemma sync_chain_accepts msg c r c' : sync_chain msg c = (r, c') -> accepts msg c c'.
Proof.
  assert (accepts msg c c) as Hnone by (split; [by exists 0%nat|done]).
  unfold sync_chain. destruct (headers_batch_new msg) as [e|hb] eqn:Hb; [by intros [= _ <-]|].
  assert (hb_batch hb = msg) as Hbm
    by (unfold headers_batch_new in Hb; destruct msg; [done|by injection Hb as <-]).
  intros Hs. st_reads Hs. destruct (contains _ _); [by injection Hs as _ <-|].
  st_cases Hs; apply sanity_check_same in Hstep as ->; [done|]. st_reads Hs.
  st_cases Hs; [rewrite <- Hbm; by eapply sync_loop_accepts|].
  apply sync_loop_accepts in Hstep as [[k Hk] Hd]. st_reads Hs. injection Hs as _ <-.
  rewrite Hbm in Hk. split.
  - exists k. rewrite <- Hk, <- (write_headers_tree s). by destruct a0.
  - etransitivity; [exact Hd|]. pose proof (proj2 (write_headers_frame s)) as Hw.
    by destruct a0.
Qed.

(** ** Methods of the peer manager *)

Definition pm_says : relation (PeerMap P) := fun m m' => grows notice (pm_dialog m) (pm_dialog m').

#[export] Instance pm_says_preorder : PreOrder pm_says.
Proof. unfold pm_says. split; [intros m; reflexivity|]. intros ? m2 ? ? ?. by transitivity (pm_dialog m2). Qed.

Lemma pm_says_same m m' : pm_dialog m' = pm_dialog m -> pm_says m m'.
Proof. unfold pm_says. by intros ->. Qed.

#[local] Hint Extern 1 (pm_says _ (pm_say _ _)) => (unfold pm_says; by apply grows_one) : kyoto.
#[local] Hint Extern 2 (pm_says _ _) => (by apply pm_says_same) : kyoto.

Lemma db_call_says {E A} (f : P -> (peer_store_error + A) * P) (w : peer_store_error -> E) :
  st_keeps pm_says (db_call f w).
Proof. intros m r m'. unfold db_call. destruct (f (pm_db m)). intros [= _ <-]. by apply pm_says_same. Qed.

Lemma update_or_warn_says p m : pm_says m (update_or_warn p m).
Proof.
  unfold update_or_warn. destruct (store_update p (pm_db m)) as [[e|[]] d];
    [|by apply pm_says_same]. unfold pm_says. by apply grows_one.
Qed.

#[local] Hint Resolve db_call_says update_or_warn_says : kyoto.

Lemma gossip_says l : forall m, pm_says m (add_gossiped_peers l m).
Proof.
  unfold add_gossiped_peers. induction l as [|x l IH]; intros m; [done|]. cbn [foldl].
  etransitivity; [apply update_or_warn_says|apply IH].
Qed.

Lemma record_says s k m : pm_says m (record_status s k m).
Proof. unfold record_status. destruct (pm_map m !! k); [apply update_or_warn_says|done]. Qed.

Lemma store_bootstrap_says l : st_keeps pm_says (store_bootstrap l).
Proof. induction l as [|x l IH]; cbn [store_bootstrap]; st_keeps. Qed.

Lemma next_peer_loop_says status k : st_keeps pm_says (next_peer_loop status k).
Proof. induction k as [|k IH]; cbn [next_peer_loop]; st_keeps. Qed.

#[local] Hint Resolve store_bootstrap_says next_peer_loop_says : kyoto.

Lemma next_peer_says resolve status : st_keeps pm_says (next_peer resolve status).
Proof. unfold next_peer, bootstrap. st_keeps. Qed.

Lemma need_peers_says : st_keeps pm_says need_peers.
Proof. unfold need_peers. st_keeps. Qed.

Lemma dispatch_says dial p m : pm_says m (pm_dispatch BROADCAST_MIN dial p m).2.
Proof.
  unfold pm_dispatch. destruct (negb _); [by apply pm_says_same|].
  destruct (connect _ _ _ _); by apply pm_says_same.
Qed.

Lemma send_random_says i msg m : pm_says m (send_random i msg m).2.
Proof. unfold send_random. destruct (_ !! _) as [[]|]; by apply pm_says_same. Qed.

Lemma increments_says nonce l : forall m, pm_says m (foldl (fun m (_ : BlockHash) => increment_height nonce m) m l).
Proof.
  induction l as [|x l IH]; intros m; [done|]. cbn [foldl].
  etransitivity; [|apply IH]. by apply pm_says_same.
Qed.

(** ** Operations of the node *)

(** Only notices are added, and only the heights of the peers change. *)
Definition notices_only : relation (Chain D) := fun c c' =>
  header_chain c' = header_chain c /\ request_state c' = request_state c /\
  scripts c' = scripts c /\ block_queue c' = block_queue c /\ grows notice (dialog c) (dialog c').

(** A relation on chains that the notices of the node and the methods of the
    manager do not disturb. *)
Class Undisturbed (R : relation (Chain D)) : Prop := {
  ud_preorder :: PreOrder R;
  ud_notices c c' : notices_only c c' -> R c c';
}.

Lemma notices_say o c : notice o -> notices_only c (say o c).
Proof. intros Ho. unfold notices_only. split_and!; [done..|]. by apply grows_one. Qed.

Lemma notices_manager c m : grows notice (dialog c) (pm_dialog m) -> notices_only c (take_back m c).
Proof. intros Hm. unfold notices_only. by split_and!. Qed.

(** The chain moves by [R]; the state of the synchronization stays. *)
Definition at_chain (R : relation (Chain D)) : relation (Node D P) := fun n n' =>
  R (chain n) (chain n') /\ state n' = state n.

#[export] Instance at_chain_preorder R `{!PreOrder R} : PreOrder (at_chain R).
Proof.
  split; [by split|]. intros n1 n2 n3 [? H1'] [? H2']. split; [by etransitivity|congruence].
Qed.

Section AtChain.
Context (R : relation (Chain D)) `{!Undisturbed R}.

Lemma at_peer_map {E A} (f : ST (PeerMap P) E A) :
  st_keeps pm_says f -> st_keeps (at_chain R) (on_peer_map f).
Proof.
  intros Hf n r n'. unfold on_peer_map. destruct (f _) as [x m] eqn:Hm. intros [= _ <-].
  apply Hf in Hm. split; [|done]. by apply ud_notices, notices_manager.
Qed.

Lemma at_on_chain {E A} (f : ST (Chain D) E A) : st_keeps R f -> st_keeps (at_chain R) (on_chain f).
Proof.
  intros Hf n r n'. unfold on_chain. destruct (f _) as [x c] eqn:Hc. intros [= _ <-].
  apply Hf in Hc. by split.
Qed.

Lemma at_chain_result {E X A} (f : ST (Chain D) X A) :
  st_keeps R f -> st_keeps (at_chain R) (chain_result (E := E) f).
Proof.
  intros Hf n r n'. unfold chain_result. destruct (f _) as [x c] eqn:Hc. intros [= _ <-].
  apply Hf in Hc. by split.
Qed.

Lemma at_chain_do {E} f : (forall c, R c (f c)) -> st_keeps (at_chain R) (chain_do (E := E) f).
Proof. intros Hf. apply at_on_chain. by apply st_keeps_modify. Qed.

Lemma at_chain_run {E A} (f : Chain D -> A * Chain D) :
  (forall c, R c (f c).2) -> st_keeps (at_chain R) (chain_run (E := E) f).
Proof. intros Hf. apply at_on_chain. by apply st_keeps_run. Qed.

Lemma at_peer_map_do {E} f : (forall m, pm_says m (f m)) -> st_keeps (at_chain R) (peer_map_do (E := E) f).
Proof. intros Hf. apply at_peer_map. by apply st_keeps_modify. Qed.

Lemma at_peer_map_run {E A} (f : PeerMap P -> A * PeerMap P) :
  (forall m, pm_says m (f m).2) -> st_keeps (at_chain R) (peer_map_run (E := E) f).
Proof.
  intros Hf. apply at_peer_map. intros m r m'. specialize (Hf m).
  destruct (f m) as [a m1]. by intros [= _ <-].
Qed.

Lemma at_peer_map_try {A} (f : ST (PeerMap P) (PeerManagerError peer_store_error) A) :
  st_keeps pm_says f -> st_keeps (at_chain R) (peer_map_try f).
Proof.
  intros Hf n r n'. unfold peer_map_try. destruct (on_peer_map f n) as [x n1] eqn:Hn.
  intros [= _ <-]. by eapply at_peer_map.
Qed.

Lemma at_say {E} o : notice o -> st_keeps (at_chain R) (node_say (E := E) o).
Proof. intros Ho. apply at_chain_do. intros c. by apply ud_notices, notices_say. Qed.

Lemma at_send {E} k msg : st_keeps (at_chain R) (node_send_message (E := E) k msg).
Proof. apply at_peer_map_do. intros m. by apply pm_says_same. Qed.

Lemma at_broadcast {E} msg : st_keeps (at_chain R) (peer_map_run (E := E) (broadcast msg)).
Proof. apply at_peer_map_run. intros m. by apply pm_says_same. Qed.

Lemma at_random {E} i msg : st_keeps (at_chain R) (peer_map_run (E := E) (send_random i msg)).
Proof. apply at_peer_map_run. intros m. apply send_random_says. Qed.

Lemma at_record {E} s k : st_keeps (at_chain R) (peer_map_do (E := E) (record_status s k)).
Proof. apply at_peer_map_do. intros m. apply record_says. Qed.

Lemma at_gossip {E} l : st_keeps (at_chain R) (peer_map_do (E := E) (add_gossiped_peers l)).
Proof. apply at_peer_map_do. intros m. apply gossip_says. Qed.

#[local] Hint Resolve at_send at_broadcast at_random at_record at_gossip : kyoto.
#[local] Hint Extern 1 (st_keeps (at_chain _) (node_say _)) => (by apply at_say) : kyoto.
#[local] Hint Extern 1 (st_keeps (at_chain _) (peer_map_do _)) =>
  (apply at_peer_map_do; intros; by apply pm_says_same) : kyoto.

Lemma at_node_broadcast {E} msg : st_keeps (at_chain R) (node_broadcast (E := E) msg).
Proof. unfold node_broadcast. st_keeps. Qed.

#[local] Hint Resolve at_node_broadcast : kyoto.

Lemma at_dispatch env : st_keeps (at_chain R) (dispatch BROADCAST_MIN env).
Proof.
  unfold dispatch. st_keeps.
  - apply at_peer_map_try, next_peer_says.
  - apply at_peer_map_run. intros m. apply dispatch_says.
Qed.

Lemma at_get_blocks {E} env :
  (forall now c, R c (next_block now c).2) -> st_keeps (at_chain R) (get_blocks (E := E) env).
Proof.
  intros Hnext. unfold get_blocks, pop_block_queue, node_send_random. st_keeps; by apply at_chain_run.
Qed.

Lemma at_broadcast_loop {E} env l : forall k, st_keeps (at_chain R) (broadcast_loop (E := E) env k l).
Proof. induction l as [|x l IH]; intros k; cbn [broadcast_loop]; st_keeps. Qed.

#[local] Hint Resolve at_broadcast_loop at_dispatch at_get_blocks : kyoto.
#[local] Hint Extern 1 (at_chain _ _ (set_broadcaster _ _)) => (by split) : kyoto.
#[local] Hint Extern 1 (at_chain _ _ (reset_last_block _ _)) => (by split) : kyoto.

Lemma at_broadcast_transactions {E} env :
  st_keeps (at_chain R) (broadcast_transactions (E := E) env).
Proof. unfold broadcast_transactions. st_keeps. Qed.

#[local] Hint Resolve at_broadcast_transactions : kyoto.

Lemma at_maintain env :
  (forall now c, R c (next_block now c).2) -> st_keeps (at_chain R) (maintain BROADCAST_MIN env).
Proof. intros Hnext. unfold maintain. st_keeps. Qed.

Lemma at_need : st_keeps (at_chain R) (peer_map_try (D := D) need_peers).
Proof. apply at_peer_map_try, need_peers_says. Qed.

#[local] Hint Resolve at_need : kyoto.

Lemma at_handle_version k v : st_keeps (at_chain R) (handle_version k v).
Proof. unfold handle_version, tried. st_keeps. Qed.

Lemma at_version env k v :
  st_keeps (at_chain R) (handle_peer filter_control env (mkPeerThreadMessage k (PeerVersion v))).
Proof.
  unfold handle_peer. cbn [ptm_message ptm_nonce].
  repeat (apply st_keeps_bind; [apply _| |intros ?]);
    try (apply at_peer_map_do; intros; by apply pm_says_same).
  apply at_handle_version.
Qed.

Lemma at_warn_ban {E} k w : st_keeps (at_chain R) (warn_ban_disconnect (E := E) k w).
Proof. unfold warn_ban_disconnect, ban. st_keeps. Qed.

Lemma at_chain_update {E} : st_keeps (at_chain R) (chain_do (E := E) send_chain_update).
Proof. apply at_chain_do. intros c. by apply ud_notices, notices_say. Qed.

#[local] Hint Resolve at_warn_ban at_chain_update : kyoto.

Lemma at_handle_headers {E} k l :
  st_keeps R (sync_chain l) -> (forall c, R c (next_stateful_message c).2) ->
  st_keeps (at_chain R) (handle_headers (E := E) k l).
Proof.
  intros Hs Hn. unfold handle_headers. st_keeps; first [by apply at_chain_result | by apply at_chain_run].
Qed.

Lemma at_handle_cf_headers {E} k msg :
  st_keeps R (sync_cf_headers k msg) -> (forall c, R c (next_stateful_message c).2) ->
  st_keeps (at_chain R) (handle_cf_headers (E := E) k msg).
Proof.
  intros Hs Hn. unfold handle_cf_headers. st_keeps; first [by apply at_chain_result | by apply at_chain_run].
Qed.

Lemma at_handle_filter {E} k msg :
  st_keeps R (sync_filter filter_control msg) ->
  st_keeps (at_chain R) (handle_filter filter_control (E := E) k msg).
Proof. intros Hs. unfold handle_filter, ban. st_keeps. by apply at_chain_result. Qed.

Lemma at_handle_block {E} env k b :
  st_keeps R (check_send_block (env_alive env) b) ->
  st_keeps (at_chain R) (handle_block (E := E) env k b).
Proof. intros Hs. unfold handle_block. st_keeps. by apply at_chain_result. Qed.

Lemma at_respond {E} k o : st_keeps (at_chain R) (respond (E := E) k o).
Proof. unfold respond. st_keeps. Qed.

Lemma at_respond_all {E} o : st_keeps (at_chain R) (respond_all (E := E) o).
Proof. unfold respond_all. st_keeps. Qed.
End AtChain.

#[export] Instance chain_frame_undisturbed : Undisturbed chain_frame.
Proof.
  split; [apply _|]. intros c c' (Ht & _ & _ & _ & Hd). split; [by rewrite Ht|].
  eapply grows_mono; [apply notice_not_synced|exact Hd].
Qed.

Definition node_frame : relation (Node D P) := at_chain chain_frame.

#[export] Instance node_frame_preorder : PreOrder node_frame := at_chain_preorder _.

(** Runs of the loop compose, when the first is not stopped. *)
Lemma node_loop_app (l1 l2 : list (Env * NodeInput)) : forall nd nd',
  node_loop filter_control BROADCAST_MIN l1 nd = (inr false, nd') ->
  node_loop filter_control BROADCAST_MIN (l1 ++ l2) nd = node_loop filter_control BROADCAST_MIN l2 nd'.
Proof.
  induction l1 as [|[env input] l1 IH]; intros nd nd' Hrun; cbn [node_loop app] in *.
  - by injection Hrun as <-.
  - apply st_bind_inv in Hrun as [(e & [=] & _)|(stop & n1 & Ht & Hn)].
    rewrite (st_bind_ok _ _ _ _ _ Ht). destruct stop; [done|]. by apply IH.
Qed.
End Frames.
