(* ===== verification/NodeProperties.v ===== *)
(** * What the node guarantees

    The state machine of a synchronization turn by turn, when its completion is
    announced, the invariants of the block tree over any run of the node, and
    what happens to peers that misbehave. *)

From stdpp Require Import base numbers list gmap strings.
From Stdlib Require Import ZArith Lia.
From S2P Require Import Prelude Bitcoin ChainTypes Graph Walk GraphFacts Reorg ActiveChain FilterMarks TreeProperties.
From S2P Require Import Checkpoints Batches BlockQueue Messages HeaderStore PeerStore Chain ChainFacts ChainProperties.
From S2P Require Import Network Wire Dns PeerMap Node NodeFacts.

Section NodeProperties.
Context `{Bitcoin} {D : Type} `{HeaderStore D} {P : Type} `{PeerStore P}.
Context (filter_control : bool) (BROADCAST_MIN : FeeRate).
Implicit Types (c : Chain D) (m : PeerMap P) (n : Node D P) (t : BlockTree).

(** ** Advancing the state *)

(** The state after [advance_state]: one step forward when its part is done. *)
Definition advance_target n : NodeState :=
  match state n with
  | Behind => if is_synced (chain n) then HeadersSynced else Behind
  | HeadersSynced => if is_cf_headers_synced (chain n) then FilterHeadersSynced else HeadersSynced
  | FilterHeadersSynced => if is_filters_synced (chain n) then FiltersSynced else FilterHeadersSynced
  | FiltersSynced => if block_queue_empty (chain n) then TransactionsSynced else FiltersSynced
  | TransactionsSynced => TransactionsSynced
  end.

(** The synchronization is announced. *)
Definition announces n : Prop := state n = FiltersSynced /\ block_queue_empty (chain n) = true.

Lemma enter_eq {E} s n :
  enter (E := E) s n =
    (inr (), set_state s (set_chain (say (SendInfo (StateChange s)) (chain n)) n)).
Proof. done. Qed.

Lemma advance_state_spec {E} now n (r : E + ()) n' :
  advance_state now n = (r, n') ->
  r = inr () /\ state n' = advance_target n /\ header_chain (chain n') = header_chain (chain n) /\
  exists l, dialog (chain n') = dialog (chain n) ++ l /\
    forall u, SendEvent (Synced u) ∈ l <-> announces n /\ u = sync_update (chain n).
Proof.
  assert (forall l, Forall not_synced l -> ~ announces n ->
    forall u, SendEvent (Synced u) ∈ l <-> announces n /\ u = sync_update (chain n)) as Hquiet.
  { intros l Hl Hno u. split; [|naive_solver]. intros Hin.
    rewrite Forall_forall in Hl. by destruct (Hl _ Hin). }
  unfold advance_state, advance_target. intros Hr. do 2 st_reads Hr.
  assert (forall s, ~ announces n -> enter (E := E) s n = (r, n') ->
    r = inr () /\ state n' = s /\ header_chain (chain n') = header_chain (chain n) /\
    exists l, dialog (chain n') = dialog (chain n) ++ l /\
      forall u, SendEvent (Synced u) ∈ l <-> announces n /\ u = sync_update (chain n)) as Henter.
  { intros s Hno. rewrite enter_eq. intros [= <- <-]. split_and!; [done..|].
    exists [SendInfo (StateChange s)]. split; [done|]. apply Hquiet; [by repeat constructor|done]. }
  assert (~ announces n -> mret (M := ST (Node D P) E) () n = (r, n') ->
    r = inr () /\ state n' = state n /\ header_chain (chain n') = header_chain (chain n) /\
    exists l, dialog (chain n') = dialog (chain n) ++ l /\
      forall u, SendEvent (Synced u) ∈ l <-> announces n /\ u = sync_update (chain n)) as Hstay.
  { intros Hno [= <- <-]. split_and!; [done..|]. exists []. rewrite app_nil_r.
    split; [done|]. by apply Hquiet. }
  destruct (state n) eqn:Hs;
    try (assert (~ announces n) as Hno by (intros [? _]; congruence)).
  - by destruct (is_synced (chain n)); [apply Henter|apply Hstay].
  - by destruct (is_cf_headers_synced (chain n)); [apply Henter|apply Hstay].
  - by destruct (is_filters_synced (chain n)); [apply Henter|apply Hstay].
  - destruct (block_queue_empty (chain n)) eqn:Hq;
      [|by apply Hstay; [intros [_ ?]; congruence|]].
    rewrite (st_bind_ok _ _ _ _ _ (enter_eq _ _)) in Hr. injection Hr as <- <-.
    split_and!; [done..|].
    exists [SendInfo (StateChange TransactionsSynced); SendEvent (Synced (sync_update (chain n)))].
    split; [cbn; by rewrite <- (assoc_L (++))|]. intros u.
    assert (announces n) as Han by done. rewrite !elem_of_cons, elem_of_nil. split.
    + intros [|[[= ->]|[]]]; done.
    + intros [_ ->]. auto.
  - st_reads Hr. destruct (last_block_stale _ _); [|by apply Hstay].
    unfold node_say, chain_do, peer_map_run in Hr. st_cases Hr; [discriminate Hstep|].
    injection Hstep as <- <-. st_cases Hr; [discriminate Hstep|]. injection Hstep as <- <-.
    injection Hr as <- <-. split_and!; [done..|].
    exists [SendWarning PotentialStaleTip]. split; [done|].
    apply Hquiet; [by repeat constructor|done].
Qed.

(** ** Between advancing and the message of the turn *)

(** The node moves on, without a change of the tree, of the state, or the
    announcement. *)
Definition same_tree : relation (Chain D) := fun c c' =>
  header_chain c' = header_chain c /\ says (dialog c) (dialog c').

#[local] Instance same_tree_undisturbed : Undisturbed same_tree.
Proof.
  split.
  - split; [by split|]. intros c1 c2 c3 [? ?] [H1' ?]. split; [by rewrite H1'|by etransitivity].
  - intros c c' (Ht & _ & _ & _ & Hd). split; [done|].
    eapply grows_mono; [apply notice_not_synced|exact Hd].
Qed.

Definition still : relation (Node D P) := at_chain same_tree.

#[local] Instance still_preorder : PreOrder still := at_chain_preorder _.

Lemma still_maintain env : st_keeps still (maintain (D := D) BROADCAST_MIN env).
Proof. apply at_maintain; [apply _|]. intros now c. unfold next_block. by destruct (queue_pop _ _). Qed.

(** ** The message of the turn *)

(** The headers of a message. *)
Definition headers_of (i : NodeInput) : list Header :=
  match i with
  | FromPeer (Some p) => match ptm_message p with PeerHeaders l => l | _ => [] end
  | _ => []
  end.

(** What handling a message may do to the state. *)
Definition moves (i : NodeInput) n n' : Prop :=
  state n' = state n \/
  (state n <> Behind /\ state n' = Behind /\
   exists nonce blocks b, i = FromPeer (Some (mkPeerThreadMessage nonce (PeerNewBlocks blocks))) /\
     b ∈ blocks /\ contains (header_chain (chain n')) b = false) \/
  (state n <> Behind /\ state n <> HeadersSynced /\ state n' = FilterHeadersSynced /\
   i = FromClient (Some Rescan)) \/
  (state n = TransactionsSynced /\ state n' = FiltersSynced /\
   exists hash ch, i = FromClient (Some (ClientGetBlock hash ch))).

(** The tree after the message: some of its headers accepted, then marks. *)
Definition ran (l : list Header) n n' : Prop :=
  (exists k os, Forall mark_op os /\
     header_chain (chain n') = tree_run (header_chain (chain n)) ((OpAccept <$> take k l) ++ os)) /\
  says (dialog (chain n)) (dialog (chain n')).

Lemma frame_ran l n n' : chain_frame (chain n) (chain n') -> ran l n n'.
Proof. intros [(os & Hos & Ht) Hd]. split; [|done]. exists 0%nat, os. by rewrite take_0. Qed.

Lemma ran_frame l n1 n2 n3 : ran l n1 n2 -> chain_frame (chain n2) (chain n3) -> ran l n1 n3.
Proof.
  intros [(k & os & Hos & Ht) Hd] [(os' & Hos' & Ht') Hd']. split; [|by etransitivity].
  exists k, (os ++ os'). rewrite Forall_app, (assoc_L (++)), tree_run_app.
  split; [done|]. by rewrite Ht', Ht.
Qed.

Lemma handle_headers_ran {E} k l n (r : E + _) n' :
  handle_headers k l n = (r, n') -> ran l n n' /\ state n' = state n.
Proof.
  unfold handle_headers, chain_result. intros Hs. apply st_bind_inv in Hs as [(e & _ & Hs)|(x & n1 & Hs & Hr)].
  { destruct (sync_chain l (chain n)); discriminate. }
  destruct (sync_chain l (chain n)) as [y c] eqn:Hc. injection Hs as <- <-.
  apply sync_chain_accepts in Hc as [[j Hj] Hd].
  assert (ran l n (set_chain c n)) as Hran.
  { split; [|done]. exists j, []. by rewrite app_nil_r. }
  assert (node_frame (set_chain c n) n') as [Hf Hst].
  { destruct y as [[]|]; try (by eapply (at_warn_ban chain_frame));
      try (by eapply (at_chain_run chain_frame _ next_stateful_frame)).
    st_reads Hr. destruct (negb _); [by injection Hr as _ <-|].
    by eapply (at_chain_run chain_frame _ next_stateful_frame). }
  split; [by eapply ran_frame|done].
Qed.

Lemma handle_inventory_moves {E} k l n (r : E + _) n' :
  handle_inventory_blocks k l n = (r, n') ->
  chain_frame (chain n) (chain n') /\
  (state n' = state n \/
   (state n <> Behind /\ state n' = Behind /\
    exists b, b ∈ l /\ contains (header_chain (chain n')) b = false)).
Proof.
  unfold handle_inventory_blocks. intros Hr.
  apply st_bind_inv in Hr as [(e & _ & Hr)|(x & n1 & Hr & Hr')].
  { exfalso. unfold peer_map_do, on_peer_map in Hr. discriminate Hr. }
  assert (node_frame n n1) as [Hf Hst]
    by exact ((at_peer_map_do chain_frame) _ (fun m => increments_says k l m) _ _ _ Hr).
  do 2 st_reads Hr'. rewrite <- Hst. destruct (state n1) eqn:Hs1.
  { injection Hr' as _ <-. split; [done|left; congruence]. }
  all: destruct (existsb _ l) eqn:Hex; [|injection Hr' as _ <-; split; [done|left; congruence]].
  all: apply existsb_exists in Hex as (b & Hb%list_elem_of_In & Hc%negb_true_iff).
  all: unfold chain_do, on_chain in Hr'; rewrite (st_bind_ok _ _ _ _ _ (enter_eq _ _)) in Hr'.
  all: injection Hr' as _ <-; split; [|right; split_and!; [done|done|by exists b]].
  all: etransitivity; [exact Hf|]; split; [done|]; by apply says_one.
Qed.

Lemma inventory_moves k l n n1 n' :
  chain_frame (chain n) (chain n1) ->
  (state n1 = state n \/ (state n <> Behind /\ state n1 = Behind /\
     exists b, b ∈ l /\ contains (header_chain (chain n1)) b = false)) ->
  still n1 n' ->
  ran [] n n' /\ moves (FromPeer (Some (mkPeerThreadMessage k (PeerNewBlocks l)))) n n'.
Proof.
  intros Hf Hs [[Ht Hd] Hst]. split.
  - apply frame_ran. etransitivity; [exact Hf|]. split; [by rewrite Ht|done].
  - destruct Hs as [Hs|(Hb & Hs & b & Hin & Hc)]; [left; congruence|].
    right. left. split_and!; [done|congruence|]. exists k, l, b. by rewrite Ht.
Qed.

Lemma handle_peer_moves env p n r n' :
  handle_peer filter_control env p n = (r, n') ->
  ran (headers_of (FromPeer (Some p))) n n' /\ moves (FromPeer (Some p)) n n'.
Proof.
  assert (forall l n1 n2, node_frame n1 n2 -> ran l n1 n2 /\ moves (FromPeer (Some p)) n1 n2) as Hkeep.
  { intros l n1 n2 [Hf Hs]. split; [by apply frame_ran|by left]. }
  destruct p as [k msg]. unfold handle_peer. cbn [ptm_message ptm_nonce headers_of].
  destruct msg as [v|l|l|msg|msg|b|l|fee]; intros Hr.
  - apply Hkeep. exact (at_version filter_control chain_frame env k v _ _ _ Hr).
  - apply Hkeep. exact (at_gossip chain_frame _ _ _ _ Hr).
  - st_reads Hr. apply st_bind_inv in Hr as [(e & _ & Hr)|(x & n1 & Hr & Hr')];
      destruct (handle_headers_ran _ _ _ _ _ Hr) as [Hran Hst].
    + split; [exact Hran|by left].
    + destruct (at_respond chain_frame _ _ _ _ _ Hr') as [Hf Hst'].
      split; [exact (ran_frame _ _ _ _ Hran Hf)|]. left. by rewrite Hst'.
  - apply Hkeep. eapply (st_keeps_bind node_frame); [|intros o; apply (at_respond_all chain_frame)|exact Hr].
    apply (at_handle_cf_headers chain_frame); [apply sync_cf_headers_frame|apply next_stateful_frame].
  - apply Hkeep. eapply (st_keeps_bind node_frame); [|intros o; apply (at_respond chain_frame)|exact Hr].
    apply (at_handle_filter filter_control chain_frame), sync_filter_frame.
  - apply Hkeep. eapply (st_keeps_bind node_frame); [|intros o; apply (at_respond chain_frame)|exact Hr].
    apply (at_handle_block chain_frame), check_send_block_frame.
  - apply st_bind_inv in Hr as [(e & _ & Hr)|(x & n1 & Hr & Hr')];
      destruct (handle_inventory_moves _ _ _ _ _ Hr) as [Hf Hs].
    + exact (inventory_moves _ _ _ _ _ Hf Hs (reflexivity n')).
    + exact (inventory_moves _ _ _ _ _ Hf Hs (at_respond_all same_tree _ _ _ _ Hr')).
  - apply Hkeep. revert Hr. apply (at_peer_map_do chain_frame). intros. by apply pm_says_same.
Qed.

Lemma answer_frame {E} alive o :
  not_synced o -> st_keeps node_frame (answer (D := D) (P := P) (E := E) alive o).
Proof. intros Ho. apply (at_chain_do chain_frame). intros c. apply frame_say. by destruct alive. Qed.

Lemma rescan_moves n (r : NodeError store_error peer_store_error + option MainThreadMessage) n' :
  rescan n = (r, n') ->
  chain_frame (chain n) (chain n') /\
  (state n' = state n \/
   state n <> Behind /\ state n <> HeadersSynced /\ state n' = FilterHeadersSynced).
Proof.
  unfold rescan. intros Hr. st_reads Hr. destruct (state n) eqn:Hs;
    try (injection Hr as _ <-; split; [done|by left]).
  all: unfold chain_do, chain_run, on_chain in Hr.
  all: st_cases Hr; [discriminate Hstep|]; injection Hstep as <- <-.
  all: rewrite (st_bind_ok _ _ _ _ _ (enter_eq _ _)) in Hr; injection Hr as _ <-.
  all: split; [|by right]; etransitivity; [apply (clear_filters_frame (chain n))|].
  all: split; [done|by apply says_one].
Qed.

Lemma still_frame n n' : still n n' -> node_frame n n'.
Proof. intros [[Ht Hd] Hs]. split; [|done]. split; [by rewrite Ht|done]. Qed.

Lemma handle_client_moves env msg n r n' :
  handle_client BROADCAST_MIN env msg n = (r, n') ->
  chain_frame (chain n) (chain n') /\ moves (FromClient (Some msg)) n n'.
Proof.
  assert (forall n1 n2, node_frame n1 n2 ->
    chain_frame (chain n1) (chain n2) /\ moves (FromClient (Some msg)) n1 n2) as Hkeep.
  { intros n1 n2 [Hf Hs]. split; [done|by left]. }
  destruct msg as [|tx|sc| |hash ch|d|peer|ch h|ch lo hi|ch|]; cbn [handle_client]; intros Hr.
  - apply Hkeep. by injection Hr as _ <-.
  - apply Hkeep. by injection Hr as _ <-.
  - apply Hkeep. revert Hr. apply (st_keeps_bind node_frame); [|intros; apply st_keeps_ret, _].
    apply (at_chain_do chain_frame). intros c. by apply frame_same.
  - apply st_bind_inv in Hr as [(e & _ & Hr)|(x & n1 & Hr & Hr')];
      destruct (rescan_moves _ _ _ Hr) as [Hf Hs].
    + split; [done|]. destruct Hs as [|(? & ? & ?)]; [by left|]. right. right. by left.
    + assert (node_frame n1 n') as [Hf' Hst].
      { destruct x as [m|]; [|by injection Hr' as _ <-]. revert Hr'.
        apply (st_keeps_bind node_frame); [apply (at_node_broadcast chain_frame)|intros; apply st_keeps_ret, _]. }
      split; [by etransitivity|].
      destruct Hs as [Hs|(? & ? & Hs)]; [left; congruence|]. right. right. left. by rewrite Hst.
  - st_reads Hr. unfold chain_do, on_chain in Hr. st_cases Hr; [discriminate Hstep|].
    injection Hstep as <- <-. injection Hr as _ <-.
    assert (chain (match state n with TransactionsSynced => set_state FiltersSynced n | _ => n end)
            = chain n) as Hc by by destruct (state n).
    cbn [chain set_chain]. rewrite Hc. split; [apply get_block_frame|].
    destruct (state n) eqn:Hs; try (by left; rewrite Hs).
    right. right. right. split_and!; [done|done|eauto].
  - apply Hkeep. revert Hr. apply (st_keeps_bind node_frame); [|intros; apply st_keeps_ret, _].
    apply (at_peer_map_do chain_frame). intros. by apply pm_says_same.
  - apply Hkeep. revert Hr. apply (st_keeps_bind node_frame); [|intros; apply st_keeps_ret, _].
    apply (at_peer_map_do chain_frame). intros. by apply pm_says_same.
  - apply Hkeep. revert Hr. apply (st_keeps_bind node_frame);
      [apply (at_chain_result chain_frame), fetch_header_frame|intros x].
    apply (st_keeps_bind node_frame); [by apply answer_frame|intros; apply st_keeps_ret, _].
  - apply Hkeep. revert Hr. apply (st_keeps_bind node_frame);
      [apply (at_chain_result chain_frame), fetch_header_range_frame|intros x].
    apply (st_keeps_bind node_frame); [by apply answer_frame|intros; apply st_keeps_ret, _].
  - apply Hkeep. revert Hr. apply (st_keeps_bind node_frame); [apply st_keeps_get, _|intros x].
    apply (st_keeps_bind node_frame); [by apply answer_frame|intros; apply st_keeps_ret, _].
  - apply Hkeep. by injection Hr as _ <-.
Qed.

Lemma still_ran l n n' : still n n' -> ran l n n'.
Proof. intros [[Ht Hd] _]. apply frame_ran. split; [by rewrite Ht|done]. Qed.

Lemma handle_input_moves env i n r n' :
  handle_input filter_control BROADCAST_MIN env i n = (r, n') -> ran (headers_of i) n n' /\ moves i n n'.
Proof.
  assert (forall r', mret (M := ST (Node D P) (NodeError store_error peer_store_error)) false n = (r', n') ->
    ran [] n n' /\ moves i n n') as Hnone
    by (intros r' [= _ <-]; split; [by apply still_ran|by left]).
  unfold handle_input. destruct i as [[p|]|[msg|]]; [| |intros Hr|]; try apply Hnone.
  - intros Hr. apply st_bind_inv in Hr as [(e & _ & Hr)|(x & n1 & Hr & [= _ <-])];
      by eapply handle_peer_moves.
  - apply handle_client_moves in Hr as [Hf Hm]. split; [by apply frame_ran|done].
Qed.

(** One turn: the state is advanced, then the message moves it. *)
Lemma node_turn_moves env i n r n' :
  node_turn filter_control BROADCAST_MIN env i n = (r, n') ->
  (exists n1, state n1 = advance_target n /\ header_chain (chain n1) = header_chain (chain n) /\
     ran (headers_of i) n1 n' /\ moves i n1 n') /\
  exists l, dialog (chain n') = dialog (chain n) ++ l /\
    forall u, SendEvent (Synced u) ∈ l <-> announces n /\ u = sync_update (chain n).
Proof.
  unfold node_turn. intros Hr. apply st_bind_inv in Hr as [(e & _ & Hr)|([] & n1 & Ha & Hr)].
  { by apply advance_state_spec in Hr as [? _]. }
  apply advance_state_spec in Ha as (_ & Hs & Ht & l & Hl & Hsync).
  assert (exists n2, still n1 n2 /\ ran (headers_of i) n2 n' /\ moves i n2 n')
    as (n2 & [[Ht2 Hd2] Hs2] & Hran & Hmoves).
  { apply st_bind_inv in Hr as [(e & _ & Hr)|([] & n2 & Hm & Hr)].
    - exists n'. split; [by eapply still_maintain|]. split; [by apply still_ran|by left].
    - exists n2. split; [by eapply still_maintain|]. by eapply handle_input_moves. }
  split.
  - exists n2. split_and!; [congruence|congruence|done|done].
  - destruct Hran as [_ Hd3]. destruct (transitivity Hd2 Hd3) as (k & Hk & Hno).
    exists (l ++ k). split; [by rewrite Hk, Hl, (assoc_L (++))|]. intros u.
    rewrite elem_of_app, Hsync. split; [|by left]. intros [?|Hin]; [done|].
    rewrite Forall_forall in Hno. by destruct (Hno _ Hin).
Qed.

(** ** The properties *)

(** C8: the state machine of the synchronization.  In every turn of the node's
    loop the state first takes at most one step forward, from Behind over
    HeadersSynced, FilterHeadersSynced and FiltersSynced to TransactionsSynced,
    each exactly when its condition holds of the chain; the message of the turn
    can then only send it back: to Behind when inventory names a block that the
    chain does not have, to FilterHeadersSynced on a rescan once filter headers
    are synced, or from TransactionsSynced to FiltersSynced when the client asks
    for a block. *)
Theorem node_turn_state_machine env i n r n' :
  node_turn filter_control BROADCAST_MIN env i n = (r, n') ->
  let s := advance_target n in
  state n' = s \/
  (s <> Behind /\ state n' = Behind /\
   exists nonce blocks b, i = FromPeer (Some (mkPeerThreadMessage nonce (PeerNewBlocks blocks))) /\
     b ∈ blocks /\ contains (header_chain (chain n')) b = false) \/
  (s <> Behind /\ s <> HeadersSynced /\ state n' = FilterHeadersSynced /\
   i = FromClient (Some Rescan)) \/
  (s = TransactionsSynced /\ state n' = FiltersSynced /\
   exists hash ch, i = FromClient (Some (ClientGetBlock hash ch))).
Proof.
  intros Hr s. destruct (node_turn_moves _ _ _ _ _ Hr) as [(n1 & Hs & _ & _ & Hm) _].
  unfold s. rewrite <- Hs. exact Hm.
Qed.

(** C17: the event [Synced] is sent exactly in the turns that begin in the state
    FiltersSynced with an empty block queue, and it carries the height and
    hash of the tip and the last ten headers of the chain at that moment;
    nothing else in any turn sends it. *)
Theorem synced_announced_exactly env i n r n' :
  node_turn filter_control BROADCAST_MIN env i n = (r, n') ->
  exists l, dialog (chain n') = dialog (chain n) ++ l /\
    forall u, SendEvent (Synced u) ∈ l <->
      state n = FiltersSynced /\ block_queue_empty (chain n) = true /\
      u = mkSyncUpdate (mkCheckpoint (tree_height (header_chain (chain n)))
            (tip_hash (header_chain (chain n)))) (last_ten (chain n)).
Proof.
  intros Hr. destruct (node_turn_moves _ _ _ _ _ Hr) as [_ (l & Hl & Hu)].
  exists l. split; [done|]. intros u. rewrite Hu. unfold announces, sync_update. tauto.
Qed.

Context `{!WorkLaws}.

(** The headers of the messages of a run satisfy what accepting relies on,
    each at the moment it is met. *)
Fixpoint inputs_ok (a : BlockHash) n (l : list (Env * NodeInput)) : Prop :=
  match l with
  | [] => True
  | (env, i) :: l' =>
      run_ok a (header_chain (chain n)) (OpAccept <$> headers_of i) /\
      inputs_ok a (node_turn filter_control BROADCAST_MIN env i n).2 l'
  end.

Lemma run_ok_app a os1 os2 : forall t,
  run_ok a t (os1 ++ os2) <-> run_ok a t os1 /\ run_ok a (tree_run t os1) os2.
Proof. induction os1 as [|o os1 IH]; intros t; cbn; [tauto|]. rewrite IH. tauto. Qed.

Lemma run_ok_marks a os : forall t, Forall mark_op os -> run_ok a t os.
Proof.
  induction os as [|o os IH]; intros t; [done|]. intros [Ho Hos]%Forall_cons.
  split; [by destruct o|by apply IH].
Qed.

Lemma ran_run_ok a l k os t :
  run_ok a t (OpAccept <$> l) -> Forall mark_op os -> run_ok a t ((OpAccept <$> take k l) ++ os).
Proof.
  intros Hl Hos. apply run_ok_app. split; [|by apply run_ok_marks].
  rewrite <- (take_drop k l), fmap_app in Hl. by apply run_ok_app in Hl as [? _].
Qed.

Lemma node_turn_tree a b env i n r n' :
  wf_tree a b (header_chain (chain n)) -> accounted (header_chain (chain n)) ->
  run_ok a (header_chain (chain n)) (OpAccept <$> headers_of i) ->
  node_turn filter_control BROADCAST_MIN env i n = (r, n') ->
  wf_tree a b (header_chain (chain n')) /\ accounted (header_chain (chain n')) /\
  tip_work (header_chain (chain n)) <= tip_work (header_chain (chain n')).
Proof.
  intros Hwf Hacc Hok Hr.
  destruct (node_turn_moves _ _ _ _ _ Hr) as [(n1 & _ & Ht & [(k & os & Hos & ->) _] & _) _].
  rewrite Ht. apply tree_run_kept; [done|done|]. by apply ran_run_ok.
Qed.

Lemma node_loop_tree a b l n r n' :
  wf_tree a b (header_chain (chain n)) -> accounted (header_chain (chain n)) ->
  inputs_ok a n l ->
  node_loop filter_control BROADCAST_MIN l n = (r, n') ->
  wf_tree a b (header_chain (chain n')) /\ accounted (header_chain (chain n')) /\
  tip_work (header_chain (chain n)) <= tip_work (header_chain (chain n')).
Proof.
  revert n. induction l as [|[env i] l IH]; intros n Hwf Hacc Hok Hr; cbn [node_loop] in Hr.
  - by injection Hr as _ <-.
  - destruct Hok as [Hi Hl]. apply st_bind_inv in Hr as [(e & _ & Hr)|(stop & n1 & Ht & Hr)].
    + by eapply node_turn_tree.
    + destruct (node_turn_tree _ _ _ _ _ _ _ Hwf Hacc Hi Ht) as (Hwf1 & Hacc1 & Hle).
      rewrite Ht in Hl. cbn in Hl. destruct stop; [by injection Hr as _ <-|].
      destruct (IH _ Hwf1 Hacc1 Hl Hr) as (? & ? & ?). split_and!; [done|done|lia].
Qed.

(** Whatever the peers and the client send, in whatever order, and whatever
    dialling, the resolver, the databases and the clock do: along every run of
    the node's loop, errors and shutdown included, the block tree keeps its
    invariants, the work of every header is the sum of the work below it, and
    the work of the tip never decreases. *)
Theorem node_loop_keeps_tree a b l n r n' :
  wf_tree a b (header_chain (chain n)) -> accounted (header_chain (chain n)) ->
  inputs_ok a n l ->
  node_loop filter_control BROADCAST_MIN l n = (r, n') ->
  wf_tree a b (header_chain (chain n')) /\ accounted (header_chain (chain n')) /\
  tip_work (header_chain (chain n)) <= tip_work (header_chain (chain n')).
Proof. apply node_loop_tree. Qed.
End NodeProperties.

(** ** Peers that misbehave *)

Section Misbehaviour.
Context `{Bitcoin} {D : Type} `{HeaderStore D} {P : Type} `{PeerStoreLaws P} {E : Type}.
Context (filter_control : bool).
Implicit Types (c : Chain D) (n : Node D P).

(** The peer is told to disconnect, and its address is banned, unless the
    client is told last that this could not be persisted. *)
Definition punished (q : ManagedPeer) (r : E + option MainThreadMessage) n' : Prop :=
  r = inr (Some DisconnectPeer) /\
  (is_banned (pm_db (peer_map n')) (mp_address q) \/
   exists d, dialog (chain n') = d ++ [SendWarning FailedPersistence]).

(** A peer on record whose address can be persisted. *)
Record known_peer (k : PeerId) (q : ManagedPeer) n : Prop := {
  kp_store : peer_store_ok (pm_db (peer_map n));
  kp_map : pm_map (peer_map n) !! k = Some q;
  kp_addr : persistable (mp_address q);
  kp_services : is_services (service_flags q);
}.

Lemma ban_punishes k q n (r : E + option MainThreadMessage) n' :
  known_peer k q n ->
  (peer_map_do (ban k);; mret (Some DisconnectPeer)) n = (r, n') -> punished q r n'.
Proof.
  intros [Hok Hq Ha Hs] Hr. unfold peer_map_do, on_peer_map in Hr. st_cases Hr; [discriminate Hstep|].
  injection Hstep as <- <-. injection Hr as <- <-. split; [done|].
  cbn [peer_map chain dialog take_back]. unfold ban, record_status. cbn [pm_map lend]. rewrite Hq.
  unfold update_or_warn. cbn [pm_db lend].
  set (p := mkPersistedPeer (mp_address q) (mp_port q) (service_flags q) Ban).
  destruct (store_update p (pm_db (peer_map n))) as [[e|[]] d] eqn:Hu; cbn [pm_db set_peer_db].
  - right. by eexists.
  - left. destruct (store_update_law p _ _ Hok Ha Hs Hu) as (_ & Hview & _).
    eexists. split; [exact Hview|done].
Qed.

Lemma known_peer_chain k q n c : known_peer k q n -> known_peer k q (set_chain c n).
Proof. by intros []. Qed.

Lemma warn_ban_punishes k q w n (r : E + option MainThreadMessage) n' :
  known_peer k q n -> warn_ban_disconnect k w n = (r, n') -> punished q r n'.
Proof.
  intros Hq Hr. unfold warn_ban_disconnect, node_say, chain_do, on_chain in Hr.
  apply st_bind_inv in Hr as [(e & _ & Hs)|([] & n1 & Hs & Hr)]; [discriminate Hs|].
  injection Hs as <-. eapply ban_punishes; [|exact Hr]. by apply known_peer_chain.
Qed.

Lemma chain_result_inv {X A} (f : ST (Chain D) X A) n (r : E + (X + A)) n' :
  chain_result f n = (r, n') -> r = inr (f (chain n)).1 /\ n' = set_chain (f (chain n)).2 n.
Proof. unfold chain_result. destruct (f (chain n)) as [x c]. by intros [= <- <-]. Qed.

End Misbehaviour.


(** ** A small node for the witnesses

    Three regtest headers, committed and filtered, one connected peer. *)
Module ToyNode.
Export ToyPeers ToyChain.

Definition one_quorum : Chain (SqliteHeaderDb ToySql.table) :=
  chain_new Regtest {[ [44] ]} (mkCheckpoint 0 100)
    {| checkpoints := []; last_checkpoint := mkCheckpoint 0 100 |} []
    (hm_insert 1 3 height_monitor_new) empty_store 1 0.

Abbreviation toy_start := one_quorum.

Definition with_headers_1 := (sync_chain batch one_quorum).2.
Definition with_commitments := (sync_cf_headers 1 message (next_cf_header_message with_headers_1).2).2.
Definition filter_1 := (sync_filter false (mkCFilter 0 1 [11]) (next_filter_message with_commitments).2).2.
Definition filter_2 := (sync_filter false (mkCFilter 0 2 [12]) filter_1).2.
Definition filter_3 := (sync_filter false (mkCFilter 0 3 [13]) filter_2).2.

Definition toy_peer : ManagedPeer :=
  mkManagedPeer 0 addr_b 8333 65 250 [] false.

Definition toy_map : PeerMap (SqlitePeerDb peer_table) :=
  {| current_id := 1; pm_heights := height_monitor_new; pm_network := Regtest;
     pm_map := {[1 := toy_peer]}; pm_db := tried_store; connector := ClearNet; whitelist := [];
     pm_dialog := []; target_db_size := UnboundedSize; net_groups := ∅;
     timeout_config := peer_timeout_default; pm_dns_resolver := dns_resolver_default |}.

Definition toy_env : Env :=
  mkEnv 10 0 (fun _ => inr ()) (fun _ => []) Tried 0 (fun _ => 0%nat) (fun _ => true).

Definition toy_node : Node (SqliteHeaderDb ToySql.table) (SqlitePeerDb peer_table) :=
  {| state := FilterHeadersSynced; chain := filter_3; peer_map := toy_map;
     tx_broadcaster := broadcaster_new; required_peers := 1; last_block_monitor := last_block_new |}.

Definition new_header : Header := hdr 4 3 1.
Definition from_peer (m : PeerMessage) : Env * NodeInput :=
  (toy_env, FromPeer (Some (mkPeerThreadMessage 1 m))).
Definition idle : Env * NodeInput := (toy_env, FromPeer None).

Definition run (l : list (Env * NodeInput)) : Node (SqliteHeaderDb ToySql.table) (SqlitePeerDb peer_table) :=
  (node_loop false 250 l toy_node).2.

Lemma with_headers_wf : wf_tree 100 0 (header_chain toy_start).
Proof. exact (wf_tree_new (from_checkpoint 0 100) Regtest). Qed.

Lemma toy_start_accounted : accounted (header_chain toy_start).
Proof. intros k n Hk. cbn in Hk. by rewrite lookup_empty in Hk. Qed.

Definition starting_node : Node (SqliteHeaderDb ToySql.table) (SqlitePeerDb peer_table) :=
  {| state := Behind; chain := toy_start; peer_map := toy_map;
     tx_broadcaster := broadcaster_new; required_peers := 1; last_block_monitor := last_block_new |}.

Definition startup : list (Env * NodeInput) :=
  [from_peer (PeerHeaders batch); from_peer (PeerFilterHeaders message); idle;
   from_peer (PeerFilter (mkCFilter 0 1 [11]))].

Lemma startup_ok : inputs_ok false 250 100 starting_node startup.
Proof.
  unfold startup. cbn [inputs_ok from_peer idle headers_of ptm_message fmap list_fmap].
  split_and!; try done. apply run_okb_ok. reflexivity.
Qed.

Lemma node_loop_keeps_tree_witness :
  wf_tree 100 0 (header_chain (chain (node_loop false 250 startup starting_node).2)) /\
  tip_work (header_chain (chain (node_loop false 250 startup starting_node).2)) = 3.
Proof.
  split; [|reflexivity].
  exact (proj1 (node_loop_keeps_tree false 250 100 0 startup starting_node _ _
    with_headers_wf toy_start_accounted startup_ok (surjective_pairing _))).
Defined.

Definition turn (i : NodeInput) := node_turn false 250 toy_env i toy_node.

Lemma node_turn_state_machine_witness :
  state (turn (FromPeer (Some (mkPeerThreadMessage 1 (PeerNewBlocks [3; 99]))))).2 = Behind.
Proof.
  destruct (node_turn_state_machine false 250 toy_env
    (FromPeer (Some (mkPeerThreadMessage 1 (PeerNewBlocks [3; 99])))) toy_node _ _
    (surjective_pairing _)) as [Hs|[(_ & Hs & _)|[(_ & _ & _ & Hi)|(_ & _ & h & ch & Hi)]]].
  - reflexivity.
  - exact Hs.
  - discriminate Hi.
  - discriminate Hi.
Defined.

Lemma synced_announced_exactly_witness :
  let n := run [idle] in
  exists u, SendEvent (Synced u) ∈ dialog (chain (node_turn false 250 toy_env (FromPeer None) n).2) /\
    update_tip u = mkCheckpoint 3 3.
Proof.
  intros n. destruct (synced_announced_exactly false 250 toy_env (FromPeer None) n _ _
    (surjective_pairing _)) as (l & Hl & Hu).
  exists (mkSyncUpdate (mkCheckpoint 3 3) (last_ten (chain n))). split; [|done].
  rewrite Hl. apply elem_of_app. right. apply Hu. split_and!; reflexivity.
Defined.

Lemma toy_known : known_peer 1 toy_peer toy_node.
Proof.
  split; [|reflexivity|exact I|by vm_compute]. exact tried_store_ok.
Qed.


(** ** A tip that is announced too early

    The state FiltersSynced is kept when headers arrive, so the next turn
    announces the new tip; and in the state TransactionsSynced blocks are not
    requested, so a block that matches afterwards waits in the queue. *)

Definition late_header : list (Env * NodeInput) := [from_peer (PeerHeaders [new_header]); idle].

Definition late_filters : list (Env * NodeInput) :=
  [from_peer (PeerFilterHeaders (mkCFHeaders 4 161 [44])); from_peer (PeerFilter (mkCFilter 0 4 [44])); idle].

Definition settled := Eval vm_compute in run (late_header ++ late_filters).

Lemma settles : node_loop false 250 (late_header ++ late_filters) toy_node = (inr false, settled).
Proof. vm_eq. Qed.

Lemma settled_idle : node_turn false 250 toy_env (FromPeer None) settled = (inr false, settled).
Proof. vm_eq. Qed.

(** A synchronization can be announced too early: with all filters checked,
    a header that arrives in the turn in which the state becomes FiltersSynced
    is announced as the synchronized tip in the next turn although its filter
    was never requested; and when that filter arrives and matches, its block
    stays in the queue and is not requested however long the node runs idle. *)
Theorem tip_announced_before_its_filter k :
  (state toy_node = FilterHeadersSynced /\ is_filters_synced (chain toy_node) = true) /\
  (let n := run late_header in
   (exists u, SendEvent (Synced u) ∈ dialog (chain n) /\ update_tip u = mkCheckpoint 4 4) /\
   is_filter_checked (header_chain (chain n)) 4 = false) /\
  (let n := run (late_header ++ late_filters ++ replicate k idle) in
   state n = TransactionsSynced /\ is_filters_synced (chain n) = true /\
   pending_hashes (block_queue (chain n)) = [4] /\
   exists q, pm_map (peer_map n) !! 1 = Some q /\ forall h, GetBlock h ∉ ptx q).
Proof.
  split; [by split|]. split.
  - split; [|reflexivity].
    exists (mkSyncUpdate (mkCheckpoint 4 4) (last_ten (chain (run late_header)))).
    split; [|reflexivity]. apply list_elem_of_lookup. exists 2%nat. reflexivity.
  - assert (run (late_header ++ late_filters ++ replicate k idle) = settled) as ->.
    { unfold run. rewrite (assoc_L (++)), (node_loop_app _ _ _ _ _ _ settles).
      induction k as [|j IH]; [done|]. cbn [replicate node_loop idle].
      by rewrite (st_bind_ok _ _ _ _ _ settled_idle). }
    split_and!; [reflexivity..|]. eexists. split; [reflexivity|]. intros h Hin.
    cbn in Hin. by repeat (apply elem_of_cons in Hin as [[=]|Hin]); apply elem_of_nil in Hin.
Qed.
End ToyNode.
