(* ===== verification/Client.v ===== *)
(** * The client: [src/client.rs]

    A [Requester] is the client's end of an unbounded channel to the node: it is
    the list of the messages on the channel and whether the node still listens.
    A request that waits for an answer creates a one-shot channel; what arrives
    there ([None] when the node drops it) is an argument.

    The last part puts the two ends together: the node's answer to a request is
    what the client's call returns. *)

From stdpp Require Import base numbers list gmap sorting strings.
From Stdlib Require Import ZArith Lia.
From S2P Require Import Prelude Bitcoin ChainTypes Graph Walk GraphFacts Reorg ActiveChain TreeProperties.
From S2P Require Import Checkpoints Batches BlockQueue Messages HeaderStore Chain ChainFacts ChainProperties.
From S2P Require Import PeerStore Network Dns Peer PeerMap Node NodeFacts NodeProperties.

(** [ClientError] and [FetchFeeRateError] of [src/error.rs] *)
Inductive ClientError := ClientSendError.

Inductive FetchFeeRateError :=
  | FeeRateSendError
  | FeeRateRecvError.

Section Client.
Context `{Bitcoin}.

Record Requester := mkRequester {
  ntx_listening : bool;
  ntx : list ClientMessage;
}.

(** [self.ntx.send(message).map_err(|_| error)] *)
Definition ntx_send {E} (error : E) (message : ClientMessage) : ST Requester E () := fun r =>
  if ntx_listening r then (inr (), mkRequester true (ntx r ++ [message])) else (inl error, r).

(** [rx.await.map_err(|_| error)?] *)
Definition await {E A} (error : E) (answer : option A) : ST Requester E A := st_ok_or answer error.

Definition shutdown : ST Requester ClientError () := ntx_send ClientSendError Shutdown.

Definition broadcast_tx (tx : TxBroadcast) : ST Requester ClientError () :=
  ntx_send ClientSendError (Broadcast tx).

(** [TxBroadcast::random_broadcast] *)
Definition random_broadcast (tx : Transaction) : TxBroadcast := mkTxBroadcast tx RandomPeer.

Definition broadcast_random (tx : Transaction) : ST Requester ClientError () :=
  let tx_broadcast := random_broadcast tx in
  ntx_send ClientSendError (Broadcast tx_broadcast).

Definition broadcast_min_feerate (oneshot : ChannelId) (answer : option FeeRate)
  : ST Requester FetchFeeRateError FeeRate :=
  ntx_send FeeRateSendError (GetBroadcastMinFeeRate oneshot);;
  await FeeRateRecvError answer.

Definition client_add_script (script : ScriptBuf) : ST Requester ClientError () :=
  ntx_send ClientSendError (AddScript script).

(** The answer is itself a result: [rx.await.map_err(..)?] returns it. *)
Definition flatten {E A} (m : ST Requester E (E + A)) : ST Requester E A := fun r =>
  match m r with
  | (inl e, r') => (inl e, r')
  | (inr v, r') => (v, r')
  end.

Definition get_header (oneshot : ChannelId) (height : Height)
    (answer : option (FetchHeaderError + Header)) : ST Requester FetchHeaderError Header :=
  flatten (ntx_send FetchHeaderSendError (GetHeader oneshot height);;
           await FetchHeaderRecvError answer).

Definition get_header_range (oneshot : ChannelId) (start stop : Height)
    (answer : option (FetchHeaderError + list (Height * Header)))
  : ST Requester FetchHeaderError (list (Height * Header)) :=
  flatten (ntx_send FetchHeaderSendError (GetHeaderBatch oneshot start stop);;
           await FetchHeaderRecvError answer).

(** With the feature [filter-control]. *)
Definition client_get_block (hash : BlockHash) (oneshot : ChannelId)
    (answer : option (FetchBlockError + IndexedBlock)) : ST Requester FetchBlockError IndexedBlock :=
  flatten (ntx_send FetchBlockSendError (ClientGetBlock hash oneshot);;
           await FetchBlockRecvError answer).

(** The receiver is returned to the caller. *)
Definition request_block (hash : BlockHash) (oneshot : ChannelId)
  : ST Requester FetchBlockError ChannelId :=
  ntx_send FetchBlockSendError (ClientGetBlock hash oneshot);;
  mret oneshot.

Definition client_rescan : ST Requester ClientError () := ntx_send ClientSendError Rescan.

Definition set_response_timeout (duration : Duration) : ST Requester ClientError () :=
  ntx_send ClientSendError (SetDuration duration).

Definition client_add_peer (peer : TrustedPeer) : ST Requester ClientError () :=
  ntx_send ClientSendError (AddPeer peer).

Definition is_running (r : Requester) : bool * Requester :=
  match ntx_send () NoOp r with
  | (inr _, r') => (true, r')
  | (inl _, r') => (false, r')
  end.

(** ** A request and its answer *)

(** What is sent on a one-shot channel. *)
Fixpoint header_answer (oneshot : ChannelId) (l : list Output)
  : option (FetchHeaderError + Header) :=
  match l with
  | [] => None
  | HeaderToChannel c r :: l' => if c =? oneshot then Some r else header_answer oneshot l'
  | _ :: l' => header_answer oneshot l'
  end.

Context {D : Type} `{HeaderStore D} {P : Type} `{PeerStore P}.
Context (BROADCAST_MIN : FeeRate).

(** The client's call while the node handles its message: what the node says
    on the channel is the answer awaited. *)
Definition get_header_from (env : Env) (oneshot : ChannelId) (height : Height) (r : Requester)
    (n : Node D P) : (FetchHeaderError + Header) * Requester * Node D P :=
  match ntx_send FetchHeaderSendError (GetHeader oneshot height) r with
  | (inl e, r') => (inl e, r', n)
  | (inr _, r') =>
      let n' := (handle_client BROADCAST_MIN env (GetHeader oneshot height) n).2 in
      let said := drop (length (dialog (chain n))) (dialog (chain n')) in
      let '(result, r'') := get_header oneshot height (header_answer oneshot said) r in
      (result, r'', n')
  end.

(** The header the client is promised. *)
Definition promised_header (height : Height) (n : Node D P) : FetchHeaderError + Header :=
  match header_at_height (header_chain (chain n)) height with
  | Some hdr => inr hdr
  | None =>
      match (store_header_at height (db (chain n))).1 with
      | inl _ => inl FetchHeaderDatabaseOptFailed
      | inr None => inl UnknownHeight
      | inr (Some hdr) => inr hdr
      end
  end.

Lemma get_header_handled env oneshot height n :
  env_alive env oneshot = true ->
  let '(r, n') := handle_client BROADCAST_MIN env (GetHeader oneshot height) n in
  r = inr false /\ header_chain (chain n') = header_chain (chain n) /\
  exists l, dialog (chain n') =
    dialog (chain n) ++ l ++ [HeaderToChannel oneshot (promised_header height n)] /\
    header_answer oneshot l = None.
Proof.
  intros Hal. cbn [handle_client].
  unfold promised_header, answer, node_say, chain_do, on_chain, chain_result, fetch_header,
    mbind, ST_bind, mret, ST_ret, st_get, st_run, st_modify, st_fail.
  destruct (header_at_height _ height) as [hdr|]; cbn.
  { rewrite Hal. split_and!; [done|done|]. by exists []. }
  destruct (store_header_at height (db (chain n))) as [[e|[hdr|]] d]; cbn; rewrite Hal;
    (split_and!; [done|done|]).
  - exists [SendWarning FailedPersistence]. split; [|done]. cbn. by rewrite <- (assoc_L (++)).
  - by exists [].
  - by exists [].
Qed.

Lemma header_answer_app oneshot l1 l2 :
  header_answer oneshot l1 = None -> header_answer oneshot (l1 ++ l2) = header_answer oneshot l2.
Proof.
  induction l1 as [|[] l1 IH]; cbn; try done; try apply IH. by destruct (_ =? _).
Qed.

End Client.

Section ClientWitness.
Import ToyNode.

End ClientWitness.
