(* ===== verification/Config.v ===== *)
(** * Building a node: [src/config.rs], [src/builder.rs] and the options of [src/lib.rs]

    [NodeBuilder] collects a [NodeConfig] by the methods of the builder, one
    [BuilderCall] each; [build_with_databases] takes the configuration and
    creates the node.  Whatever the calls, the node it creates is valid, and
    every run of it keeps the block tree well formed, from the headers loaded at
    the start to any sequence of events.

    The directory of the databases is used by [Open.build], the log level by
    [Texts.deliver]: the outputs here are those of the default level. *)

From stdpp Require Import base numbers list gmap sorting strings.
From Stdlib Require Import ZArith Lia.
From S2P Require Import Prelude Bitcoin ChainTypes Graph Walk GraphFacts TreeProperties.
From S2P Require Import Checkpoints Batches BlockQueue Messages HeaderStore Chain ChainFacts ChainProperties Restart.
From S2P Require Import PeerStore Network Dns Peer PeerMap Node NodeFacts NodeProperties.

(** ** Options *)

Inductive LogLevel := LogDebug | LogInfo | LogWarning.

Definition log_level_default : LogLevel := LogDebug.
Definition peer_store_size_default : PeerStoreSizeConfig := UnboundedSize.
Definition connection_type_default : ConnectionType := ClearNet.

Definition trusted_peer_new (a : AddrV2) (port : option Z) (services : ServiceFlags) : TrustedPeer :=
  mkTrustedPeer a port services.

Definition trusted_peer_from_ip (ip : IpAddr) : TrustedPeer :=
  mkTrustedPeer (addr_of_ip ip) None NO_SERVICES.

Definition trusted_peer_from_socket_addr (s : SocketAddr) : TrustedPeer :=
  mkTrustedPeer (addr_of_ip (sock_ip s)) (Some (sock_port s)) NO_SERVICES.

Definition trusted_peer_set_services (services : ServiceFlags) (p : TrustedPeer) : TrustedPeer :=
  mkTrustedPeer (tp_address p) (tp_port p) services.

(** [From<(IpAddr, Option<u16>)>] *)
Definition trusted_peer_from_pair (v : IpAddr * option Z) : TrustedPeer :=
  trusted_peer_new (addr_of_ip v.1) v.2 NO_SERVICES.

(** ** The configuration *)

Definition REQUIRED_PEERS : Z := 1.
Definition MIN_PEERS : Z := 1.
Definition MAX_PEERS : Z := 15.

Section Config.
Context `{Bitcoin}.

Record NodeConfig := mkNodeConfig {
  cfg_required_peers : Z;
  cfg_white_list : list TrustedPeer;
  cfg_dns_resolver : DnsResolver;
  cfg_addresses : gset ScriptBuf;
  cfg_data_path : option string;
  cfg_header_checkpoint : option HeaderCheckpoint;
  cfg_connection_type : ConnectionType;
  cfg_target_peer_size : PeerStoreSizeConfig;
  cfg_peer_timeout_config : PeerTimeoutConfig;
  cfg_log_level : LogLevel;
}.

Definition config_default : NodeConfig :=
  {| cfg_required_peers := REQUIRED_PEERS; cfg_white_list := [];
     cfg_dns_resolver := dns_resolver_default; cfg_addresses := ∅; cfg_data_path := None;
     cfg_header_checkpoint := None; cfg_connection_type := connection_type_default;
     cfg_target_peer_size := peer_store_size_default;
     cfg_peer_timeout_config := peer_timeout_default; cfg_log_level := log_level_default |}.

Record NodeBuilder := mkNodeBuilder { nb_config : NodeConfig; nb_network : Network }.

Definition builder_new (n : Network) : NodeBuilder := mkNodeBuilder config_default n.

(** [u8::clamp] *)
Definition clamp (v lo hi : Z) : Z := if v <? lo then lo else if hi <? v then hi else v.

(** *** The methods of the builder *)

Definition builder_add_peers (whitelist : list TrustedPeer) (c : NodeConfig) : NodeConfig :=
  mkNodeConfig (cfg_required_peers c) (cfg_white_list c ++ whitelist) (cfg_dns_resolver c)
    (cfg_addresses c) (cfg_data_path c) (cfg_header_checkpoint c) (cfg_connection_type c)
    (cfg_target_peer_size c) (cfg_peer_timeout_config c) (cfg_log_level c).

Definition builder_add_peer (p : TrustedPeer) (c : NodeConfig) : NodeConfig :=
  mkNodeConfig (cfg_required_peers c) (cfg_white_list c ++ [p]) (cfg_dns_resolver c)
    (cfg_addresses c) (cfg_data_path c) (cfg_header_checkpoint c) (cfg_connection_type c)
    (cfg_target_peer_size c) (cfg_peer_timeout_config c) (cfg_log_level c).

Definition builder_add_scripts (l : list ScriptBuf) (c : NodeConfig) : NodeConfig :=
  mkNodeConfig (cfg_required_peers c) (cfg_white_list c) (cfg_dns_resolver c)
    (foldl (fun s script => {[script]} ∪ s) (cfg_addresses c) l) (cfg_data_path c)
    (cfg_header_checkpoint c) (cfg_connection_type c) (cfg_target_peer_size c)
    (cfg_peer_timeout_config c) (cfg_log_level c).

Definition builder_data_dir (path : string) (c : NodeConfig) : NodeConfig :=
  mkNodeConfig (cfg_required_peers c) (cfg_white_list c) (cfg_dns_resolver c) (cfg_addresses c)
    (Some path) (cfg_header_checkpoint c) (cfg_connection_type c) (cfg_target_peer_size c)
    (cfg_peer_timeout_config c) (cfg_log_level c).

Definition builder_required_peers (num_peers : Z) (c : NodeConfig) : NodeConfig :=
  mkNodeConfig (clamp num_peers MIN_PEERS MAX_PEERS) (cfg_white_list c) (cfg_dns_resolver c)
    (cfg_addresses c) (cfg_data_path c) (cfg_header_checkpoint c) (cfg_connection_type c)
    (cfg_target_peer_size c) (cfg_peer_timeout_config c) (cfg_log_level c).

Definition builder_peer_db_size (target : PeerStoreSizeConfig) (c : NodeConfig) : NodeConfig :=
  mkNodeConfig (cfg_required_peers c) (cfg_white_list c) (cfg_dns_resolver c) (cfg_addresses c)
    (cfg_data_path c) (cfg_header_checkpoint c) (cfg_connection_type c) target
    (cfg_peer_timeout_config c) (cfg_log_level c).

Definition builder_after_checkpoint (cp : HeaderCheckpoint) (c : NodeConfig) : NodeConfig :=
  mkNodeConfig (cfg_required_peers c) (cfg_white_list c) (cfg_dns_resolver c) (cfg_addresses c)
    (cfg_data_path c) (Some cp) (cfg_connection_type c) (cfg_target_peer_size c)
    (cfg_peer_timeout_config c) (cfg_log_level c).

Definition builder_log_level (l : LogLevel) (c : NodeConfig) : NodeConfig :=
  mkNodeConfig (cfg_required_peers c) (cfg_white_list c) (cfg_dns_resolver c) (cfg_addresses c)
    (cfg_data_path c) (cfg_header_checkpoint c) (cfg_connection_type c) (cfg_target_peer_size c)
    (cfg_peer_timeout_config c) l.

Definition builder_handshake_timeout (d : Duration) (c : NodeConfig) : NodeConfig :=
  mkNodeConfig (cfg_required_peers c) (cfg_white_list c) (cfg_dns_resolver c) (cfg_addresses c)
    (cfg_data_path c) (cfg_header_checkpoint c) (cfg_connection_type c) (cfg_target_peer_size c)
    (let t := cfg_peer_timeout_config c in mkPeerTimeoutConfig (response_timeout t) (max_connection_time t) d)
    (cfg_log_level c).

Definition builder_response_timeout (d : Duration) (c : NodeConfig) : NodeConfig :=
  mkNodeConfig (cfg_required_peers c) (cfg_white_list c) (cfg_dns_resolver c) (cfg_addresses c)
    (cfg_data_path c) (cfg_header_checkpoint c) (cfg_connection_type c) (cfg_target_peer_size c)
    (let t := cfg_peer_timeout_config c in mkPeerTimeoutConfig d (max_connection_time t) (handshake_timeout t))
    (cfg_log_level c).

Definition builder_maximum_connection_time (d : Duration) (c : NodeConfig) : NodeConfig :=
  mkNodeConfig (cfg_required_peers c) (cfg_white_list c) (cfg_dns_resolver c) (cfg_addresses c)
    (cfg_data_path c) (cfg_header_checkpoint c) (cfg_connection_type c) (cfg_target_peer_size c)
    (let t := cfg_peer_timeout_config c in mkPeerTimeoutConfig (response_timeout t) d (handshake_timeout t))
    (cfg_log_level c).

Definition builder_dns_resolver (ip : IpAddr) (c : NodeConfig) : NodeConfig :=
  mkNodeConfig (cfg_required_peers c) (cfg_white_list c)
    (mkDnsResolver (mkSocketAddr ip DNS_RESOLVER_PORT)) (cfg_addresses c) (cfg_data_path c)
    (cfg_header_checkpoint c) (cfg_connection_type c) (cfg_target_peer_size c)
    (cfg_peer_timeout_config c) (cfg_log_level c).

Definition builder_socks5_proxy (proxy : SocketAddr) (c : NodeConfig) : NodeConfig :=
  mkNodeConfig (cfg_required_peers c) (cfg_white_list c) (cfg_dns_resolver c) (cfg_addresses c)
    (cfg_data_path c) (cfg_header_checkpoint c) (Socks5Proxy proxy) (cfg_target_peer_size c)
    (cfg_peer_timeout_config c) (cfg_log_level c).

Inductive BuilderCall :=
  | AddPeers (whitelist : list TrustedPeer)
  | AddTrustedPeer (p : TrustedPeer)
  | AddScripts (l : list ScriptBuf)
  | DataDir (path : string)
  | RequiredPeers (num_peers : Z)
  | PeerDbSize (target : PeerStoreSizeConfig)
  | AfterCheckpoint (cp : HeaderCheckpoint)
  | SetLogLevel (l : LogLevel)
  | SetHandshakeTimeout (d : Duration)
  | SetResponseTimeout (d : Duration)
  | SetMaximumConnectionTime (d : Duration)
  | SetDnsResolver (ip : IpAddr)
  | SetSocks5Proxy (proxy : SocketAddr).

Definition builder_call (b : NodeBuilder) (call : BuilderCall) : NodeBuilder :=
  let f := match call with
    | AddPeers whitelist => builder_add_peers whitelist
    | AddTrustedPeer p => builder_add_peer p
    | AddScripts l => builder_add_scripts l
    | DataDir path => builder_data_dir path
    | RequiredPeers num_peers => builder_required_peers num_peers
    | PeerDbSize target => builder_peer_db_size target
    | AfterCheckpoint cp => builder_after_checkpoint cp
    | SetLogLevel l => builder_log_level l
    | SetHandshakeTimeout d => builder_handshake_timeout d
    | SetResponseTimeout d => builder_response_timeout d
    | SetMaximumConnectionTime d => builder_maximum_connection_time d
    | SetDnsResolver ip => builder_dns_resolver ip
    | SetSocks5Proxy proxy => builder_socks5_proxy proxy
    end in mkNodeBuilder (f (nb_config b)) (nb_network b).

Definition builder_calls (n : Network) (calls : list BuilderCall) : NodeBuilder :=
  foldl builder_call (builder_new n) calls.

(** *** [build_with_databases]

    The configuration is taken, so the builder starts over with the defaults;
    [None] is a panic of [Node::new] on a network without checkpoints. *)
Section Build.
Context {D : Type} `{HeaderStore D} {P : Type} `{PeerStore P}.

Definition build_with_databases (b : NodeBuilder) (now : Instant) (peer_store : P) (header_store : D)
  : option (Node D P) * NodeBuilder :=
  let c := nb_config b in
  (node_new (nb_network b) (cfg_required_peers c) (cfg_white_list c) (cfg_dns_resolver c)
     (cfg_addresses c) (cfg_header_checkpoint c) (cfg_connection_type c) (cfg_target_peer_size c)
     (cfg_peer_timeout_config c) now peer_store header_store,
   builder_new (nb_network b)).
End Build.
End Config.

(** ** What is built *)

Section Built.
Context `{Bitcoin} `{!WorkLaws} {D : Type} `{HeaderStore D} `{!HeaderStoreReads D}.
Context {P : Type} `{PeerStore P}.
Context (filter_control : bool) (BROADCAST_MIN : FeeRate).

Definition valid_config (c : NodeConfig) : Prop := MIN_PEERS <= cfg_required_peers c <= MAX_PEERS.

(** The options that the calls leave, read off the calls. *)
Definition asked_peers (call : BuilderCall) : option Z :=
  match call with RequiredPeers k => Some k | _ => None end.
Definition asked_checkpoint (call : BuilderCall) : option HeaderCheckpoint :=
  match call with AfterCheckpoint cp => Some cp | _ => None end.
Definition asked_whitelist (call : BuilderCall) : list TrustedPeer :=
  match call with AddPeers l => l | AddTrustedPeer p => [p] | _ => [] end.
Definition asked_scripts (call : BuilderCall) : list ScriptBuf :=
  match call with AddScripts l => l | _ => [] end.

Record configured (calls : list BuilderCall) (c : NodeConfig) : Prop := {
  cd_valid : valid_config c;
  cd_peers : cfg_required_peers c = from_option (fun k => clamp k 1 15) 1 (last (omap asked_peers calls));
  cd_checkpoint : cfg_header_checkpoint c = last (omap asked_checkpoint calls);
  cd_whitelist : cfg_white_list c = concat (asked_whitelist <$> calls);
  cd_scripts : cfg_addresses c = list_to_set (concat (asked_scripts <$> calls));
}.

Lemma clamp_range k lo hi : lo <= hi -> lo <= clamp k lo hi <= hi.
Proof. unfold clamp. destruct (Z.ltb_spec k lo), (Z.ltb_spec hi k); lia. Qed.

Lemma insert_scripts l : forall s : gset ScriptBuf,
  foldl (fun s script => {[script]} ∪ s) s l = s ∪ list_to_set l.
Proof. induction l as [|x l IH]; intros s; cbn; [set_solver|]. rewrite IH. set_solver. Qed.

Lemma calls_configured n calls :
  nb_network (builder_calls n calls) = n /\ configured calls (nb_config (builder_calls n calls)).
Proof.
  induction calls as [|call calls [Hn Hc]] using rev_ind; [by split; [|split]|].
  unfold builder_calls in *. rewrite foldl_app. cbn [foldl].
  set (b := foldl builder_call (builder_new n) calls) in *. split; [done|].
  split; cbn [builder_call nb_config];
    rewrite ?omap_app, ?fmap_app, ?concat_app, ?last_app, ?list_to_set_app_L.
  - destruct call; try apply Hc. by apply clamp_range.
  - destruct call; cbn; (apply Hc || done).
  - destruct call; cbn; (apply Hc || done).
  - destruct call; cbn; rewrite ?app_nil_r; (apply Hc || by rewrite (cd_whitelist _ _ Hc)).
  - destruct call; cbn; rewrite ?app_nil_r, ?insert_scripts, ?(cd_scripts _ _ Hc); set_solver.
Qed.

Definition start_checkpoint (n : Node D P) : HeaderCheckpoint :=
  mkCheckpoint (tree_height (header_chain (chain n))) (tip_hash (header_chain (chain n))).

Lemma built_node n calls now ps hs node b' :
  build_with_databases (builder_calls n calls) now ps hs = (Some node, b') ->
  b' = builder_new n /\ state node = Behind /\
  (1 <= required_peers node <= 15)%nat /\
  (forall c, last (omap asked_checkpoint calls) = Some c -> start_checkpoint node = c) /\
  header_chain (chain node) =
    tree_new (from_checkpoint (cp_height (start_checkpoint node)) (cp_hash (start_checkpoint node)))
      (ch_network (chain node)) /\
  ch_network (chain node) = n /\ db (chain node) = hs /\ pm_db (peer_map node) = ps /\
  scripts (chain node) = list_to_set (concat (asked_scripts <$> calls)) /\
  whitelist (peer_map node) = concat (asked_whitelist <$> calls).
Proof.
  destruct (calls_configured n calls) as [Hn Hc]. unfold build_with_databases, node_new.
  rewrite Hn. destruct (checkpoints_new n) as [cps|]; [|done]. intros [= <- <-].
  cbn. rewrite (cd_checkpoint _ _ Hc). pose proof (cd_valid _ _ Hc) as Hv.
  unfold valid_config, MIN_PEERS, MAX_PEERS in Hv.
  split_and!; try done; try apply Hc; [lia|lia|]. intros c ->. by destruct c.
Qed.

(** C9: a node built by any calls of the builder is valid and stays so: it
    starts [Behind] at the checkpoint asked for last, needs between 1 and 15
    peers, the builder starts over with the defaults; and however the node then
    runs, from loading its stored headers through any sequence of events, it
    either stops because the headers cannot be loaded or keeps a well-formed
    block tree above a stored root or the checkpoint. *)
Theorem built_node_keeps_tree n calls now ps hs node b' l r node' :
  build_with_databases (builder_calls n calls) now ps hs = (Some node, b') ->
  is_u32 (cp_height (start_checkpoint node)) -> is_u32 (cp_height (start_checkpoint node) + 1) ->
  history_ok (start_checkpoint node) (store_rows hs) ->
  (forall root, rooted (start_checkpoint node) n (store_rows hs) root ->
     inputs_ok filter_control BROADCAST_MIN (root_anchor (start_checkpoint node) root)
       (fetch_headers node).2 l) ->
  node_run filter_control BROADCAST_MIN l node = (r, node') ->
  (b' = builder_new n /\ state node = Behind /\ (1 <= required_peers node <= 15)%nat /\
   forall c, last (omap asked_checkpoint calls) = Some c -> start_checkpoint node = c) /\
  ((exists e, r = inl (HeaderDatabase e)) \/
   exists root, rooted (start_checkpoint node) n (store_rows hs) root /\
     wf_tree (root_anchor (start_checkpoint node) root) (root_base (start_checkpoint node) root)
       (header_chain (chain node')) /\
     accounted (header_chain (chain node'))).
Proof.
  intros Hb Hcp Hcp1 Hok Hin Hrun.
  destruct (built_node _ _ _ _ _ _ _ Hb) as (-> & Hst & Hreq & Hck & Ht & Hn & Hdb & _).
  split; [done|]. unfold node_run in Hrun.
  apply st_bind_inv in Hrun as [(e & -> & Hf)|([] & n1 & Hf & Hrun)].
  - left. unfold fetch_headers in Hf. destruct (on_chain _ _) as [[e'|[]] ?]; [|done].
    injection Hf as <- _. eauto.
  - right. rewrite Hf in Hin. unfold fetch_headers, on_chain in Hf.
    destruct (load_headers (chain node)) as [[e|[]] c1] eqn:Hload; [done|]. injection Hf as <-.
    rewrite Hn in Ht. rewrite <- Hdb in Hok.
    destruct (load_headers_spec (start_checkpoint node) Hcp n _ (chain node) c1 Ht Hn eq_refl Hcp1 Hok Hload)
      as (root & _ & _ & t & Hroot & Hld & Ht' & _).
    destruct (assumed_tree _ _ _ (cp_height (start_checkpoint node)) Hld) as (Hwf & Hacc & _).
    rewrite <- Ht' in Hwf, Hacc. rewrite Hdb in Hroot. exists root. split; [done|].
    destruct (node_loop_tree filter_control BROADCAST_MIN (root_anchor (start_checkpoint node) root)
      (root_base (start_checkpoint node) root) l (set_chain c1 node) r node')
      as (? & ? & _); try done.
    by apply Hin.
Qed.
End Built.

(** ** A node that is built, restarted and run *)

Module ToyConfig.
Export ToyNode ToyRestart.

Definition calls : list BuilderCall :=
  [RequiredPeers 40; AddScripts [[44]]; AfterCheckpoint (mkCheckpoint 0 100);
   AfterCheckpoint (mkCheckpoint 8 8)].

Definition built : option (Node (SqliteHeaderDb ToySql.table) (SqlitePeerDb peer_table)) * NodeBuilder :=
  build_with_databases (builder_calls Regtest calls) 0 tried_store (db nine).

Definition toy_built : Node (SqliteHeaderDb ToySql.table) (SqlitePeerDb peer_table) :=
  default toy_node built.1.

Lemma built_ok : built = (Some toy_built, builder_new Regtest).
Proof. reflexivity. Qed.

Definition events : list (Env * NodeInput) := [from_peer (PeerHeaders [hdr 10 9 1])].

Lemma restarts : restart_heights 8 Regtest = [8; 1].
Proof. reflexivity. Qed.

Lemma roots root :
  rooted (mkCheckpoint 8 8) Regtest (store_rows (db nine)) root ->
  root_anchor (mkCheckpoint 8 8) root ∈ [8; 7; 100].
Proof.
  intros Hroot. destruct root as [[i x]|]; [|by left].
  destruct (Hroot i x eq_refl) as [Hx Hi]. cbn [root_anchor cp_height] in *.
  rewrite restarts in Hi. apply elem_of_cons in Hi as [->|Hi%list_elem_of_singleton].
  - vm_compute in Hx. injection Hx as <-. right. by left.
  - subst i. vm_compute in Hx. injection Hx as <-. right. right. by left.
Qed.

Lemma start_ok : start_checkpoint toy_built = mkCheckpoint 8 8.
Proof. reflexivity. Qed.

Lemma events_ok a : a ∈ [8; 7; 100] ->
  inputs_ok false 250 a (fetch_headers toy_built).2 events.
Proof.
  intros Ha. unfold events. cbn [inputs_ok from_peer headers_of ptm_message fmap list_fmap].
  split; [|exact I]. apply run_okb_ok.
  by repeat (apply elem_of_cons in Ha as [->|Ha]; [by vm_compute|]); apply elem_of_nil in Ha.
Qed.

Lemma events_run : (node_run false 250 events toy_built).1 = inr false.
Proof. by vm_compute. Qed.

Lemma built_node_keeps_tree_witness :
  let n := (node_run false 250 events toy_built).2 in
  required_peers toy_built = 15%nat /\ tip_height (active_tip (header_chain (chain n))) = 10 /\
  exists a b, wf_tree a b (header_chain (chain n)).
Proof.
  intros n. split; [by vm_compute|]. split; [by vm_compute|].
  assert (history_ok (start_checkpoint toy_built) (store_rows (db nine))) as Hh
    by (apply history_okb_ok; by vm_compute).
  destruct (built_node_keeps_tree false 250 Regtest calls 0 tried_store (db nine) toy_built
    (builder_new Regtest) events (node_run false 250 events toy_built).1 n built_ok)
    as [_ [[e He]|(root & _ & Hwf & _)]].
  - split; by vm_compute.
  - split; by vm_compute.
  - exact Hh.
  - intros root Hroot. rewrite start_ok in *. by apply events_ok, roots.
  - apply surjective_pairing.
  - by rewrite events_run in He.
  - eauto.
Defined.
End ToyConfig.
