(* ===== verification/Gossip.v ===== *)
(** * Transactions through the node

    From the client's call to the channels of the connections: a request is
    queued by the turn that handles it ([handle_client] of [Node]), and the next
    turn with enough connections puts it on the channel of every live connection,
    or of a single one, as its policy says ([broadcast_transactions]).  No other
    operation puts a transaction on a channel.

    Together with [Relay] this bounds what goes over the wire by what the client
    asked for. *)

From stdpp Require Import base numbers list gmap strings.
From Stdlib Require Import ZArith Lia.
From S2P Require Import Prelude Bitcoin ChainTypes Graph Walk GraphFacts Reorg FilterMarks TreeProperties.
From S2P Require Import Checkpoints Batches BlockQueue Messages HeaderStore PeerStore Chain ChainFacts ChainProperties.
From S2P Require Import Network Counter Wire Reader Dns Peer Relay PeerMap Node NodeFacts NodeProperties Client.

Section Gossip.
Context `{Bitcoin} {D : Type} `{HeaderStore D} {P : Type} `{PeerStore P}.
Context (filter_control : bool) (BROADCAST_MIN : FeeRate).
Implicit Types (m : PeerMap P) (n : Node D P).

(** ** What is on the channels *)

Definition tx_of (msg : MainThreadMessage) : option Transaction :=
  match msg with BroadcastTx tx => Some tx | _ => None end.

(** Whether the task of a connection ended, and the transactions on its channel. *)
Definition view (p : ManagedPeer) : bool * list Transaction := (mp_finished p, omap tx_of (ptx p)).
Definition views m : gmap PeerId (bool * list Transaction) := view <$> pm_map m.
Definition conns n : gmap PeerId (bool * list Transaction) := views (peer_map n).
Definition waiting n : list TxBroadcast := bc_queue (tx_broadcaster n).

Lemma lookup_views m k : views m !! k = view <$> pm_map m !! k.
Proof. apply lookup_fmap. Qed.

Lemma views_alter f k m : (forall p, view (f p) = view p) -> views (with_peer f k m) = views m.
Proof.
  intros Hf. unfold views, with_peer. cbn [pm_map set_map]. apply map_eq. intros i.
  rewrite !lookup_fmap. destruct (decide (i = k)) as [->|Hne].
  - rewrite lookup_alter_eq. destruct (pm_map m !! k); cbn; by rewrite ?Hf.
  - by rewrite lookup_alter_ne by done.
Qed.

Definition pm_same : relation (PeerMap P) := fun m m' => views m' = views m.

#[export] Instance pm_same_preorder : PreOrder pm_same.
Proof. unfold pm_same. split; [done|]. intros ? ? ? H1' H2'. by rewrite H2', H1'. Qed.

Definition same_conns : relation (Node D P) := fun n n' =>
  conns n' = conns n /\ tx_broadcaster n' = tx_broadcaster n /\ required_peers n' = required_peers n.

#[export] Instance same_conns_preorder : PreOrder same_conns.
Proof.
  split; [done|]. intros ? ? ? (H1' & H2' & H3') (H4' & H5' & H6').
  unfold same_conns. by rewrite H4', H5', H6'.
Qed.

(** *** The chain's methods *)

Lemma on_chain_same {E A} (f : ST (Chain D) E A) : st_keeps same_conns (on_chain f).
Proof. intros n r n'. unfold on_chain. destruct (f _). by intros [= _ <-]. Qed.

Lemma chain_result_same {E X A} (f : ST (Chain D) X A) :
  st_keeps same_conns (chain_result (E := E) f).
Proof. intros n r n'. unfold chain_result. destruct (f _). by intros [= _ <-]. Qed.

(** *** The manager's methods *)

Lemma on_peer_map_same {E A} (f : ST (PeerMap P) E A) :
  st_keeps pm_same f -> st_keeps same_conns (on_peer_map f).
Proof.
  intros Hf n r n'. unfold on_peer_map. destruct (f _) as [x m] eqn:Hm. intros [= _ <-].
  apply Hf in Hm. split; [exact Hm|done].
Qed.

Lemma peer_map_do_same {E} f : (forall m, pm_same m (f m)) ->
  st_keeps same_conns (peer_map_do (E := E) f).
Proof. intros Hf. apply on_peer_map_same. by apply st_keeps_modify. Qed.

Lemma peer_map_run_same {E A} (f : PeerMap P -> A * PeerMap P) :
  (forall m, pm_same m (f m).2) -> st_keeps same_conns (peer_map_run (E := E) f).
Proof.
  intros Hf. apply on_peer_map_same. intros m r m'. specialize (Hf m).
  destruct (f m) as [a m1]. by intros [= _ <-].
Qed.

Lemma peer_map_try_same {A} (f : ST (PeerMap P) (PeerManagerError peer_store_error) A) :
  st_keeps pm_same f -> st_keeps same_conns (peer_map_try f).
Proof.
  intros Hf n r n'. unfold peer_map_try. destruct (on_peer_map f n) as [x n1] eqn:Hn.
  intros [= _ <-]. by eapply on_peer_map_same.
Qed.

Lemma channel_send_view msg p : view (channel_send msg p) =
  (mp_finished p, omap tx_of (ptx p) ++ (if mp_finished p then [] else option_list (tx_of msg))).
Proof.
  unfold channel_send, view. destruct (mp_finished p) eqn:Hp; cbn; rewrite ?Hp; [by rewrite app_nil_r|].
  rewrite omap_app. cbn. by destruct (tx_of msg).
Qed.

(** A message that is no transaction. *)
Lemma channel_send_quiet msg p : tx_of msg = None -> view (channel_send msg p) = view p.
Proof. rewrite channel_send_view. intros ->. unfold view. destruct (mp_finished p); by rewrite app_nil_r. Qed.

Lemma send_message_same k msg m : tx_of msg = None -> pm_same m (send_message k msg m).
Proof. intros Hm. apply views_alter. intros p. by apply channel_send_quiet. Qed.

Lemma broadcast_same msg m : tx_of msg = None -> pm_same m (broadcast msg m).2.
Proof.
  intros Hm. unfold pm_same, views. cbn. rewrite <- map_fmap_compose. apply map_fmap_ext.
  intros k p _. by apply channel_send_quiet.
Qed.

Lemma send_random_same i msg m : tx_of msg = None -> pm_same m (send_random i msg m).2.
Proof. intros Hm. unfold send_random. destruct (_ !! _) as [[]|]; [by apply send_message_same|done]. Qed.

Lemma update_or_warn_same p m : pm_same m (update_or_warn p m).
Proof. unfold update_or_warn. by destruct (store_update p (pm_db m)) as [[e|[]] d]. Qed.

Lemma record_same s k m : pm_same m (record_status s k m).
Proof. unfold record_status. destruct (pm_map m !! k); [apply update_or_warn_same|done]. Qed.

Lemma gossip_same l : forall m, pm_same m (add_gossiped_peers l m).
Proof.
  unfold add_gossiped_peers. induction l as [|x l IH]; intros m; [done|]. cbn [foldl].
  etransitivity; [apply update_or_warn_same|apply IH].
Qed.

Lemma increments_same nonce l : forall m,
  pm_same m (foldl (fun m (_ : BlockHash) => increment_height nonce m) m l).
Proof.
  induction l as [|x l IH]; intros m; [done|]. cbn [foldl]. etransitivity; [|apply IH]. done.
Qed.

Lemma db_call_same {E A} (f : P -> (peer_store_error + A) * P) (w : peer_store_error -> E) :
  st_keeps pm_same (db_call f w).
Proof. intros m r m'. unfold db_call. destruct (f (pm_db m)). by intros [= _ <-]. Qed.

#[local] Hint Resolve on_chain_same chain_result_same db_call_same : kyoto.
#[local] Hint Extern 1 (st_keeps same_conns (chain_do _)) => (apply on_chain_same) : kyoto.
#[local] Hint Extern 1 (st_keeps same_conns (chain_run _)) => (apply on_chain_same) : kyoto.
#[local] Hint Extern 1 (st_keeps same_conns (node_say _)) => (apply on_chain_same) : kyoto.
#[local] Hint Extern 1 (pm_same _ (pm_say _ _)) => reflexivity : kyoto.
#[local] Hint Extern 1 (pm_same _ (set_whitelist _ _)) => reflexivity : kyoto.
#[local] Hint Extern 1 (same_conns _ (set_state _ _)) => (by split) : kyoto.
#[local] Hint Extern 1 (same_conns _ (reset_last_block _ _)) => (by split) : kyoto.

Lemma store_bootstrap_same l : st_keeps pm_same (store_bootstrap l).
Proof. induction l as [|x l IH]; cbn [store_bootstrap]; st_keeps. Qed.

Lemma next_peer_loop_same status k : st_keeps pm_same (next_peer_loop status k).
Proof. induction k as [|k IH]; cbn [next_peer_loop]; st_keeps. Qed.

#[local] Hint Resolve store_bootstrap_same next_peer_loop_same : kyoto.

Lemma next_peer_same resolve status : st_keeps pm_same (next_peer resolve status).
Proof. unfold next_peer, bootstrap. st_keeps. Qed.

Lemma need_peers_same : st_keeps pm_same need_peers.
Proof. unfold need_peers. st_keeps. Qed.

(** *** The node's operations *)

Lemma send_same {E} k msg : tx_of msg = None -> st_keeps same_conns (node_send_message (E := E) k msg).
Proof. intros Hm. apply peer_map_do_same. intros m. by apply send_message_same. Qed.

Lemma run_broadcast_same {E} msg : tx_of msg = None ->
  st_keeps same_conns (peer_map_run (E := E) (broadcast msg)).
Proof. intros Hm. apply peer_map_run_same. intros m. by apply broadcast_same. Qed.

Lemma run_random_same {E} i msg : tx_of msg = None ->
  st_keeps same_conns (peer_map_run (E := E) (send_random i msg)).
Proof. intros Hm. apply peer_map_run_same. intros m. by apply send_random_same. Qed.

Lemma record_do_same {E} s k : st_keeps same_conns (peer_map_do (E := E) (record_status s k)).
Proof. apply peer_map_do_same. apply record_same. Qed.

Lemma gossip_do_same {E} l : st_keeps same_conns (peer_map_do (E := E) (add_gossiped_peers l)).
Proof. apply peer_map_do_same. apply gossip_same. Qed.

Lemma try_need_same : st_keeps same_conns (peer_map_try (D := D) need_peers).
Proof. apply peer_map_try_same, need_peers_same. Qed.

#[local] Hint Resolve record_do_same gossip_do_same try_need_same : kyoto.
#[local] Hint Extern 1 (st_keeps same_conns (node_send_message _ _)) => (by apply send_same) : kyoto.
#[local] Hint Extern 1 (st_keeps same_conns (peer_map_run (broadcast _))) =>
  (by apply run_broadcast_same) : kyoto.
#[local] Hint Extern 2 (st_keeps same_conns (peer_map_do _)) =>
  (apply peer_map_do_same; intros; first [reflexivity | by apply views_alter]) : kyoto.

Lemma node_broadcast_same {E} msg : tx_of msg = None -> st_keeps same_conns (node_broadcast (E := E) msg).
Proof. intros Hm. unfold node_broadcast. st_keeps. Qed.

Lemma advance_same {E} now : st_keeps same_conns (advance_state (E := E) now).
Proof. unfold advance_state, enter. st_keeps. Qed.

(** *** The requests of the handlers are no transactions

    [yields Q f]: [f] leaves the connections, and what it returns satisfies [Q]. *)
Definition yields {E A} (Q : A -> Prop) (f : ST (Node D P) E A) : Prop :=
  forall n r n', f n = (r, n') -> same_conns n n' /\ forall a, r = inr a -> Q a.

Definition no_tx (o : option MainThreadMessage) : Prop := o ≫= tx_of = None.

Lemma yields_bind {E A B} (Q : B -> Prop) (f : ST (Node D P) E A) g :
  st_keeps same_conns f -> (forall a, yields Q (g a)) -> yields Q (f ≫= g).
Proof.
  intros Hf Hg n r n' Hr. apply st_bind_inv in Hr as [(e & -> & He)|(a & n1 & Ha & Hr)].
  - split; [by eapply Hf|done].
  - apply Hf in Ha. apply Hg in Hr as [Hs Ho]. split; [by etransitivity|done].
Qed.

Lemma yields_ret {E A} (Q : A -> Prop) a : Q a -> yields (E := E) Q (mret a).
Proof. intros Ha n r n' [= <- <-]. split; [done|]. by intros a' [= <-]. Qed.

Lemma yields_get {E A} (Q : A -> Prop) f : (forall n, Q (f n)) -> yields (E := E) Q (st_get f).
Proof. intros Ha n r n' [= <- <-]. split; [done|]. by intros a' [= <-]. Qed.

Lemma yields_if {E A} (Q : A -> Prop) (b : bool) (f g : ST (Node D P) E A) :
  yields Q f -> yields Q g -> yields Q (if b then f else g).
Proof. by destruct b. Qed.

(** A computation that is followed by sending what it returned. *)
Lemma yields_then {E A B} (Q : A -> Prop) (f : ST (Node D P) E A) (g : A -> ST (Node D P) E B) :
  yields Q f -> (forall a, Q a -> st_keeps same_conns (g a)) -> st_keeps same_conns (f ≫= g).
Proof.
  intros Hf Hg n r n' Hr. apply st_bind_inv in Hr as [(e & _ & He)|(a & n1 & Ha & Hr)].
  - by apply Hf in He as [? _].
  - apply Hf in Ha as [Hs Ha]. etransitivity; [done|]. by apply (Hg a (Ha a eq_refl)) in Hr.
Qed.

Lemma quiet_stateful {E} : yields (E := E) no_tx (chain_run next_stateful_message).
Proof.
  intros n r n' Hr. split; [by apply (on_chain_same _ _ _ _ Hr)|].
  unfold chain_run, on_chain, st_run in Hr. unfold next_stateful_message in Hr.
  destruct (negb _); [injection Hr as <- <-; by intros o [= <-]|].
  destruct (negb _); [destruct (next_cf_header_message _); injection Hr as <- <-; by intros o [= <-]|].
  destruct (negb _); [destruct (next_filter_message _)|]; injection Hr as <- <-; by intros o [= <-].
Qed.

Lemma respond_same {E} k o : no_tx o -> st_keeps same_conns (respond (E := E) k o).
Proof. intros Ho. destruct o; cbn [respond]; [by apply send_same|st_keeps]. Qed.

Lemma respond_all_same {E} o : no_tx o -> st_keeps same_conns (respond_all (E := E) o).
Proof. intros Ho. destruct o; cbn [respond_all]; [by apply node_broadcast_same|st_keeps]. Qed.

(** [quiet]: a handler built from the rules above. *)
Ltac quiet_step :=
  match goal with
  | |- yields _ _ =>
      first
        [ apply yields_ret; done
        | apply yields_get; done
        | apply quiet_stateful
        | apply yields_bind; [solve [st_keeps]|intros ?]
        | apply yields_if
        | match goal with |- yields _ (match ?x with _ => _ end) => destruct x end ]
  end.
Ltac quiet := repeat quiet_step.

Lemma quiet_pop {E} now : yields (E := E) no_tx (pop_block_queue now).
Proof.
  unfold pop_block_queue. quiet;
    apply yields_ret; match goal with |- no_tx (_ <$> ?x) => by destruct x end.
Qed.

Lemma get_blocks_same {E} env : st_keeps same_conns (get_blocks (E := E) env).
Proof.
  apply (yields_then no_tx); [apply quiet_pop|]. intros [msg|] Hm; [|st_keeps].
  unfold node_send_random. st_keeps. by apply run_random_same.
Qed.

Lemma quiet_ban {E} k w : yields (E := E) no_tx (warn_ban_disconnect k w).
Proof. unfold warn_ban_disconnect, ban. quiet. Qed.

Lemma quiet_version k v : yields (fun msg => tx_of msg = None) (handle_version k v).
Proof. unfold handle_version, tried. quiet. Qed.

Lemma quiet_headers {E} k l : yields (E := E) no_tx (handle_headers k l).
Proof. unfold handle_headers. quiet; apply quiet_ban. Qed.

Lemma quiet_cf_headers {E} k msg : yields (E := E) no_tx (handle_cf_headers k msg).
Proof. unfold handle_cf_headers. quiet; apply quiet_ban. Qed.

Lemma quiet_filter {E} k msg : yields (E := E) no_tx (handle_filter filter_control k msg).
Proof. unfold handle_filter, ban. quiet. Qed.

Lemma quiet_block {E} env k b : yields (E := E) no_tx (handle_block env k b).
Proof. unfold handle_block. quiet; apply quiet_ban. Qed.

Lemma quiet_inventory {E} k l : yields (E := E) no_tx (handle_inventory_blocks k l).
Proof.
  unfold handle_inventory_blocks. apply yields_bind; [|intros []].
  - apply peer_map_do_same. intros m. apply increments_same.
  - unfold enter. quiet.
Qed.

Lemma quiet_rescan {E} : yields (E := E) no_tx rescan.
Proof. unfold rescan, enter. quiet. Qed.

(** ** The turn *)

Lemma handle_peer_same env pm : st_keeps same_conns (handle_peer filter_control env pm).
Proof.
  unfold handle_peer. destruct (ptm_message pm).
  - do 3 (apply st_keeps_bind; [apply _|solve [st_keeps]|intros _]).
    apply (yields_then (fun msg => tx_of msg = None)); [apply quiet_version|].
    intros msg Hm. by apply send_same.
  - unfold handle_new_addrs. st_keeps.
  - apply st_keeps_bind; [apply _|solve [st_keeps]|intros _].
    eapply yields_then; [apply quiet_headers|by apply respond_same].
  - eapply yields_then; [apply quiet_cf_headers|by apply respond_all_same].
  - eapply yields_then; [apply quiet_filter|by apply respond_same].
  - eapply yields_then; [apply quiet_block|by apply respond_same].
  - eapply yields_then; [apply quiet_inventory|by apply respond_all_same].
  - st_keeps.
Qed.

(** What a message of the client asks to broadcast. *)
Definition asked (input : NodeInput) : list TxBroadcast :=
  match input with FromClient (Some (Broadcast tb)) => [tb] | _ => [] end.

(** Connections as before, and [l] queued. *)
Definition queues (l : list TxBroadcast) : relation (Node D P) := fun n n' =>
  conns n' = conns n /\ waiting n' = waiting n ++ l /\ required_peers n' = required_peers n.

Lemma same_queues n n' : same_conns n n' -> queues [] n n'.
Proof. intros (Hc & Hb & Hr). unfold queues, waiting. by rewrite Hb, app_nil_r. Qed.

Lemma handle_client_quiet env msg : (forall tb, msg <> Broadcast tb) ->
  st_keeps same_conns (handle_client BROADCAST_MIN env msg).
Proof.
  intros Hm. destruct msg; cbn [handle_client]; unfold add_script, answer; try (by destruct (Hm t));
    try solve [st_keeps].
  - apply (yields_then no_tx); [apply quiet_rescan|]. intros [msg|] Ho; [|st_keeps].
    apply st_keeps_bind; [apply _|by apply node_broadcast_same|intros _; st_keeps].
  - apply st_keeps_bind; [apply _| |intros _; st_keeps].
    apply st_keeps_modify. intros n. by destruct (state n).
Qed.

Lemma handle_input_queues env input n r n' :
  handle_input filter_control BROADCAST_MIN env input n = (r, n') -> queues (asked input) n n'.
Proof.
  destruct input as [[pm|]|[msg|]]; cbn [handle_input asked].
  - intros Hr. apply same_queues. revert n r n' Hr. apply st_keeps_bind; [apply _|apply handle_peer_same|].
    intros []. st_keeps.
  - intros [= _ <-]. by apply same_queues.
  - intros Hr. destruct msg; try (apply same_queues; by eapply handle_client_quiet; [|exact Hr]).
    by injection Hr as _ <-.
  - intros [= _ <-]. by apply same_queues.
Qed.

(** Dispatching removes connections and adds empty ones. *)
Definition arrivals (v v' : gmap PeerId (bool * list Transaction)) : Prop :=
  forall k x, v' !! k = Some x -> v !! k = Some x \/ x = (false, []).

Definition dispatches : relation (Node D P) := fun n n' =>
  arrivals (conns n) (conns n') /\ tx_broadcaster n' = tx_broadcaster n /\
  required_peers n' = required_peers n.

#[export] Instance dispatches_preorder : PreOrder dispatches.
Proof.
  split.
  - intros n. split_and!; try done. intros k x. by left.
  - intros n1 n2 n3 (Ha & Hb & Hc) (Ha' & Hb' & Hc'). split_and!; [|by rewrite Hb'|by rewrite Hc'].
    intros k x Hx. destruct (Ha' k x Hx) as [Hx'| ->]; [by apply Ha|by right].
Qed.

Lemma same_dispatches {E A} (f : ST (Node D P) E A) : st_keeps same_conns f -> st_keeps dispatches f.
Proof.
  intros Hf n r n' Hr. apply Hf in Hr as (Hc & Hb & Hq). split_and!; [|done..].
  intros k x. rewrite Hc. by left.
Qed.

Lemma on_peer_map_arrivals {E A} (f : ST (PeerMap P) E A) :
  st_keeps (fun m m' => arrivals (views m) (views m')) f -> st_keeps dispatches (on_peer_map f).
Proof.
  intros Hf n r n'. unfold on_peer_map. destruct (f _) as [x m] eqn:Hm. intros [= _ <-].
  apply Hf in Hm. split_and!; [exact Hm|done..].
Qed.

Lemma clean_arrivals m : arrivals (views m) (views (clean m)).
Proof.
  intros k x. rewrite !lookup_views. intros (p & [Hp _]%map_lookup_filter_Some & ->)%fmap_Some.
  rewrite Hp. by left.
Qed.

Lemma dial_arrivals dial p m : arrivals (views m) (views (pm_dispatch BROADCAST_MIN dial p m).2).
Proof.
  assert (arrivals (views m) (views m)) as Hsame by (intros k x; by left).
  unfold pm_dispatch. destruct (negb _); [done|]. destruct (connect _ _ _ _); [done|].
  cbn [snd]. intros k x. rewrite lookup_views. cbn [pm_map set_map].
  destruct (decide (k = current_id (next_id m))) as [->|Hne].
  - rewrite lookup_insert_eq. intros [= <-]. by right.
  - rewrite lookup_insert_ne by done. rewrite lookup_views. by left.
Qed.

Lemma dispatch_dispatches env : st_keeps dispatches (dispatch BROADCAST_MIN env).
Proof.
  unfold dispatch. apply st_keeps_bind; [apply _| |intros _].
  { apply on_peer_map_arrivals. apply st_keeps_modify. intros m. apply clean_arrivals. }
  do 2 (apply st_keeps_bind; [apply _|apply st_keeps_get; apply _|intros ?]).
  case_decide; [|apply st_keeps_ret; apply _].
  apply st_keeps_bind; [apply _|apply same_dispatches; st_keeps|intros _].
  apply st_keeps_bind; [apply _| |intros address].
  { apply same_dispatches, peer_map_try_same, next_peer_same. }
  apply st_keeps_bind; [apply _| |intros []; apply same_dispatches; st_keeps].
  apply on_peer_map_arrivals. intros m r m'. pose proof (dial_arrivals (env_dial env) address m) as Hd.
  destruct (pm_dispatch _ _ _ m). by intros [= _ <-].
Qed.

(** ** Broadcasting *)

(** The transactions that connection [k] is sent: [choice i] is the connection
    drawn for the [i]-th. *)
Fixpoint routed (choice : nat -> option PeerId) (k : PeerId) (i : nat) (l : list TxBroadcast)
  : list Transaction :=
  match l with
  | [] => []
  | tb :: l' =>
      (match tb_broadcast_policy tb with
       | AllPeers => [tb_tx tb]
       | RandomPeer => if decide (choice i = Some k) then [tb_tx tb] else []
       end) ++ routed choice k (S i) l'
  end.

(** Every live connection gets what it is sent, after what it had. *)
Definition routes (sent : PeerId -> list Transaction) (v v' : gmap PeerId (bool * list Transaction)) : Prop :=
  forall k, v' !! k = (fun x => (x.1, x.2 ++ if (x.1 : bool) then [] else sent k)) <$> v !! k.

(** Does any connection get it? *)
Definition received (choice : nat -> option PeerId) (i : nat) (tb : TxBroadcast)
    (v : gmap PeerId (bool * list Transaction)) : bool :=
  match tb_broadcast_policy tb with
  | AllPeers => negb (bool_decide (map_Forall (fun _ x => x.1 = true) v))
  | RandomPeer => bool_decide (fst <$> (choice i ≫= (v !!.)) = Some false)
  end.

Definition rejection (tb : TxBroadcast) : Output :=
  SendWarning (TransactionRejected (reject_from_txid (compute_txid (tb_tx tb)))).

Fixpoint rejections choice i l v : list Output :=
  match l with
  | [] => []
  | tb :: l' => (if received choice i tb v then [] else [rejection tb]) ++ rejections choice (S i) l' v
  end.

(** A draw among the connections, if there are any. *)
Definition draws (choice : nat -> option PeerId) (v : gmap PeerId (bool * list Transaction)) : Prop :=
  forall i, match choice i with Some k => is_Some (v !! k) | None => v = ∅ end.

Lemma routes_nil v : routes (fun _ => []) v v.
Proof. intros k. destruct (v !! k) as [[[] l]|]; cbn; by rewrite ?app_nil_r. Qed.

Lemma routes_trans s1 s2 s v1 v2 v3 :
  routes s1 v1 v2 -> routes s2 v2 v3 -> (forall k, s k = s1 k ++ s2 k) -> routes s v1 v3.
Proof.
  intros H1' H2' Hs k. rewrite H2', H1', Hs.
  destruct (v1 !! k) as [[[] l]|]; cbn; by rewrite <- ?(assoc_L (++)), ?app_nil_r.
Qed.

(** Routing keeps who is connected, so what is received does not depend on what
    was sent before. *)
Lemma routes_dom s v v' k : routes s v v' -> is_Some (v' !! k) <-> is_Some (v !! k).
Proof. intros Hr. by rewrite Hr, fmap_is_Some. Qed.

Lemma routes_draws s v v' choice : routes s v v' -> draws choice v' -> draws choice v.
Proof.
  intros Hr Hd i. specialize (Hd i). destruct (choice i) as [k|]; [by apply (routes_dom s v v')|].
  apply map_empty. intros k. specialize (Hr k). rewrite Hd, lookup_empty in Hr. by destruct (v !! k).
Qed.

Lemma routes_received s v v' choice i tb : routes s v v' ->
  received choice i tb v' = received choice i tb v.
Proof.
  intros Hr. unfold received. destruct (tb_broadcast_policy tb).
  - f_equal. apply bool_decide_ext. split; intros Hall k x Hx.
    + by apply (Hall k (x.1, x.2 ++ if (x.1 : bool) then [] else s k)); rewrite Hr, Hx.
    + rewrite Hr in Hx. apply fmap_Some in Hx as (y & Hy & ->). by apply (Hall k y).
  - destruct (choice i) as [k|]; [|done]. cbn. rewrite Hr. by destruct (v !! k).
Qed.

Lemma routes_rejections s v v' choice l : routes s v v' -> forall i,
  rejections choice i l v' = rejections choice i l v.
Proof.
  intros Hr. induction l as [|tb l IH]; intros i; [done|]. cbn [rejections].
  by rewrite (routes_received s v v'), IH.
Qed.

(** Only the draws that are still to come matter. *)
Lemma routed_ext c c' k l : forall i, (forall j, (i <= j)%nat -> c j = c' j) ->
  routed c k i l = routed c' k i l.
Proof.
  induction l as [|tb l IH]; intros i Hc; [done|]. cbn [routed]. rewrite (Hc i), (IH (S i)); try done.
  intros j Hj. apply Hc. lia.
Qed.

Lemma rejections_ext c c' v l : forall i, (forall j, (i <= j)%nat -> c j = c' j) ->
  rejections c i l v = rejections c' i l v.
Proof.
  induction l as [|tb l IH]; intros i Hc; [done|]. cbn [rejections]. unfold received.
  rewrite (Hc i), (IH (S i)); try done. intros j Hj. apply Hc. lia.
Qed.

Lemma channel_send_routed tx p :
  view (channel_send (BroadcastTx tx) p) =
  ((view p).1, (view p).2 ++ if ((view p).1 : bool) then [] else [tx]).
Proof. by rewrite channel_send_view. Qed.

Lemma broadcast_routes tx m :
  routes (fun _ => [tx]) (views m) (views (broadcast (BroadcastTx tx) m).2) /\
  (broadcast (BroadcastTx tx) m).1 = negb (bool_decide (map_Forall (fun _ x => x.1 = true) (views m))).
Proof.
  split.
  - intros k. rewrite !lookup_views. cbn. rewrite lookup_fmap.
    destruct (pm_map m !! k) as [p|]; [|done]. cbn. by rewrite channel_send_routed.
  - cbn. f_equal. apply bool_decide_ext. unfold live_peers. split.
    + intros Hl k x. rewrite lookup_views. intros (p & Hp & ->)%fmap_Some. cbn.
      destruct (mp_finished p) eqn:Hf; [done|].
      assert ((k, p) ∈ live_peers m) as Hin.
      { apply list_elem_of_filter. split; [done|]. by apply elem_of_map_to_list. }
      unfold live_peers in Hin. rewrite Hl in Hin. by apply elem_of_nil in Hin.
    + intros Hall. apply elem_of_nil_inv. intros [k p] [Hf Hin]%list_elem_of_filter.
      apply elem_of_map_to_list in Hin.
      specialize (Hall k (view p)). rewrite lookup_views, Hin in Hall. specialize (Hall eq_refl).
      cbn in *. congruence.
Qed.

Lemma send_random_routes i tx m : exists c : option PeerId,
  match c with Some k => is_Some (views m !! k) | None => views m = ∅ end /\
  routes (fun k => if decide (c = Some k) then [tx] else []) (views m) (views (send_random i (BroadcastTx tx) m).2) /\
  (send_random i (BroadcastTx tx) m).1 = bool_decide (fst <$> (c ≫= (views m !!.)) = Some false).
Proof.
  unfold send_random. destruct (map_to_list (pm_map m) !! _) as [[k p]|] eqn:Hl.
  - exists (Some k). apply list_elem_of_lookup_2, elem_of_map_to_list in Hl.
    rewrite lookup_views, Hl. split_and!; [done| |].
    + intros j. rewrite !lookup_views. cbn [snd send_message with_peer pm_map set_map].
      destruct (decide (Some k = Some j)) as [[= <-]|Hne].
      * rewrite lookup_alter_eq, Hl. cbn. by rewrite channel_send_routed.
      * rewrite lookup_alter_ne by congruence. destruct (pm_map m !! j) as [q|]; [|done].
        cbn. unfold view. cbn. destruct (mp_finished q); by rewrite app_nil_r.
    + cbn. rewrite lookup_views, Hl. cbn. by destruct (mp_finished p).
  - exists None. assert (pm_map m = ∅) as Hm.
    { apply map_to_list_empty_iff. apply lookup_ge_None in Hl.
      destruct (map_to_list (pm_map m)) as [|y l]; [done|].
      pose proof (Nat.mod_upper_bound i (length (y :: l)) ltac:(done)). lia. }
    unfold views. cbn [snd fst]. rewrite Hm, fmap_empty. split_and!; [done| |done].
    intros j. by rewrite !lookup_empty.
Qed.

(** The two ways of sending, on the node. *)
Lemma run_routes {E A} (f : PeerMap P -> A * PeerMap P) s n :
  (forall m, routes s (views m) (views (f m).2) /\ pm_dialog (f m).2 = pm_dialog m) ->
  exists n', peer_map_run (E := E) f n = (inr (f (lend (chain n) (peer_map n))).1, n') /\
    routes s (conns n) (conns n') /\ tx_broadcaster n' = tx_broadcaster n /\
    required_peers n' = required_peers n /\ dialog (chain n') = dialog (chain n).
Proof.
  intros Hf. unfold peer_map_run, on_peer_map. destruct (Hf (lend (chain n) (peer_map n))) as [Hr Hd].
  destruct (f _) as [a m]. eexists. split_and!; [done|exact Hr|done|done|exact Hd].
Qed.

(** One transaction: [c] is the draw, for the random policy. *)
Lemma transaction_routes {E} env i tb n :
  exists c did n',
    (match tb_broadcast_policy tb with
     | AllPeers => peer_map_run (E := E) (broadcast (BroadcastTx (tb_tx tb)))
     | RandomPeer => peer_map_run (send_random (env_pick_tx env i) (BroadcastTx (tb_tx tb)))
     end) n = (inr did, n') /\
    match c with Some k => is_Some (conns n !! k) | None => conns n = ∅ end /\
    routes (fun k => routed (fun _ => c) k i [tb]) (conns n) (conns n') /\
    did = received (fun _ => c) i tb (conns n) /\
    tx_broadcaster n' = tx_broadcaster n /\ required_peers n' = required_peers n /\
    dialog (chain n') = dialog (chain n).
Proof.
  destruct (send_random_routes (env_pick_tx env i) (tb_tx tb) (lend (chain n) (peer_map n)))
    as (c & Hc & Hr & Hb). exists c. unfold received, routed. destruct (tb_broadcast_policy tb).
  - destruct (run_routes (E := E) (broadcast (BroadcastTx (tb_tx tb))) (fun _ => [tb_tx tb]) n)
      as (n' & Hrun & Hro & ? & ? & ?).
    { intros m. split; [apply broadcast_routes|done]. }
    rewrite Hrun. eexists _, n'. split_and!; [done|exact Hc| |apply broadcast_routes|done..].
    intros k. rewrite Hro. by rewrite app_nil_r.
  - unfold peer_map_run, on_peer_map.
    assert (pm_dialog (send_random (env_pick_tx env i) (BroadcastTx (tb_tx tb)) (lend (chain n) (peer_map n))).2
      = dialog (chain n)) as Hd.
    { unfold send_random. by destruct (_ !! _) as [[]|]. }
    destruct (send_random _ _ _) as [a m]. eexists _, _.
    split_and!; [done|exact Hc| |exact Hb|done|done|exact Hd].
    intros k. rewrite Hr. rewrite app_nil_r. done.
Qed.

Lemma a_draw v : exists choice, draws choice v.
Proof.
  destruct (map_to_list v) as [|[k x] l] eqn:Hv.
  - exists (fun _ => None). intros _. by apply map_to_list_empty_iff.
  - exists (fun _ => Some k). intros _. exists x. apply elem_of_map_to_list. rewrite Hv. left.
Qed.

Lemma broadcast_loop_routes {E} env l : forall i n (r : E + ()) n',
  broadcast_loop env i l n = (r, n') ->
  exists choice, draws choice (conns n) /\ r = inr () /\
    routes (fun k => routed choice k i l) (conns n) (conns n') /\
    tx_broadcaster n' = tx_broadcaster n /\ required_peers n' = required_peers n /\
    dialog (chain n') = dialog (chain n) ++ rejections choice i l (conns n).
Proof.
  induction l as [|tb l IH]; intros i n r n' Hr; cbn [broadcast_loop] in Hr.
  { injection Hr as <- <-. destruct (a_draw (conns n)) as [choice Hc]. exists choice.
    split_and!; try done; [apply routes_nil|]. cbn. by rewrite app_nil_r. }
  destruct (transaction_routes (E := E) env i tb n) as (c & did & n1 & Hrun & Hc & Hro & Hdid & Hb & Hq & Hd).
  rewrite (st_bind_ok _ _ _ _ _ Hrun) in Hr.
  set (n2 := set_chain (if did then chain n1 else say (rejection tb) (chain n1)) n1) in *.
  assert (broadcast_loop env (S i) l n2 = (r, n')) as Hr2.
  { rewrite <- Hr. unfold n2. destruct did; [by destruct n1|done]. }
  destruct (IH _ _ _ _ Hr2) as (choice & Hdraw & -> & Hro2 & Hb2 & Hq2 & Hd2).
  change (conns n2) with (conns n1) in *.
  exists (fun j => if decide (j = i) then c else choice j).
  split_and!; [|done| |by rewrite Hb2|by rewrite Hq2|].
  - intros j. case_decide; [done|]. exact (routes_draws _ _ _ _ Hro Hdraw j).
  - eapply routes_trans; [exact Hro|exact Hro2|]. intros k. cbn [routed]. rewrite app_nil_r.
    rewrite (decide_True (P := i = i)) by done. f_equal. apply routed_ext. intros j Hj. by rewrite (decide_False (P := j = i)) by lia.
  - rewrite Hd2, (routes_rejections _ _ _ choice l Hro). cbn [rejections].
    rewrite (rejections_ext (fun j => if decide (j = i) then c else choice j) choice) by
      (intros j Hj; by rewrite (decide_False (P := j = i)) by lia).
    unfold received at 1 in Hdid. unfold received at 1. rewrite (decide_True (P := i = i)) by done. rewrite <- Hdid.
    rewrite (assoc_L (++)). f_equal. unfold n2. destruct did; cbn; rewrite Hd; [by rewrite app_nil_r|done].
Qed.

Lemma broadcast_transactions_spec {E} env n (r : E + ()) n' :
  broadcast_transactions env n = (r, n') ->
  r = inr () /\ required_peers n' = required_peers n /\
  ((waiting n = [] \/ (live (peer_map n) < required_peers n)%nat) /\ n' = n \/
   waiting n <> [] /\ (required_peers n <= live (peer_map n))%nat /\ waiting n' = [] /\
   exists choice, draws choice (conns n) /\
     routes (fun k => routed choice k 0 (waiting n)) (conns n) (conns n') /\
     dialog (chain n') = dialog (chain n) ++ rejections choice 0 (waiting n) (conns n)).
Proof.
  unfold broadcast_transactions. intros Hr. st_reads Hr. unfold waiting.
  unfold broadcaster_is_empty in Hr. destruct (bc_queue (tx_broadcaster n)) as [|tb l] eqn:Hq.
  { injection Hr as <- <-. split_and!; [done..|]. left. auto. }
  do 2 st_reads Hr. case_decide as Hlive; [|injection Hr as <- <-; split_and!; [done..|left; split; [right; lia|done]]].
  unfold broadcaster_queue in Hr. rewrite Hq in Hr. st_reads Hr.
  destruct (broadcast_loop_routes _ _ _ _ _ _ Hr) as (choice & Hd & -> & Hro & Hb & Hreq & Hdia).
  split_and!; [done|done|]. right. split_and!; [done|done|by rewrite Hb|]. by exists choice.
Qed.

(** What broadcasting makes of the node [n1], which has [n2] as the result. *)
Definition broadcasts_to n1 n2 : Prop :=
  if decide (waiting n1 <> [] /\ (required_peers n1 <= live (peer_map n1))%nat) then
    waiting n2 = [] /\
    exists choice, draws choice (conns n1) /\
      routes (fun k => routed choice k 0 (waiting n1)) (conns n1) (conns n2) /\
      dialog (chain n2) = dialog (chain n1) ++ rejections choice 0 (waiting n1) (conns n1)
  else conns n2 = conns n1 /\ waiting n2 = waiting n1 /\ dialog (chain n2) = dialog (chain n1).

Lemma broadcast_transactions_to {E} env n (r : E + ()) n' :
  broadcast_transactions env n = (r, n') -> r = inr () /\ broadcasts_to n n'.
Proof.
  intros Hr. apply broadcast_transactions_spec in Hr as (-> & _ & [(Hno & ->)|(Hw & Hl & Hq & Hc)]);
    (split; [done|]); unfold broadcasts_to.
  - rewrite decide_False; [done|]. intros [Hw Hl]. destruct Hno; [done|lia].
  - by rewrite decide_True.
Qed.

Lemma turn_broadcasts env input n r n' :
  node_turn filter_control BROADCAST_MIN env input n = (r, n') ->
  exists n1, dispatches n n1 /\
    ((exists e, r = inl e) /\ n' = n1 \/
     exists n2, broadcasts_to n1 n2 /\ conns n' = conns n2 /\
       waiting n' = waiting n2 ++ asked input /\
       exists l, dialog (chain n') = dialog (chain n2) ++ l).
Proof.
  unfold node_turn, maintain. intros Hr.
  apply st_bind_inv in Hr as [(e & -> & Hr)|([] & na & Ha & Hr)].
  { exists n'. split; [by eapply same_dispatches, Hr; apply advance_same|]. left. eauto. }
  apply (same_dispatches _ (advance_same _)) in Ha.
  apply st_bind_inv in Hr as [(e & -> & Hm)|([] & n2 & Hm & Hr)].
  - apply st_bind_inv in Hm as [(e' & _ & Hm)|([] & nd & Hd & Hm)].
    { exists n'. split; [etransitivity; [done|by eapply dispatch_dispatches]|]. left. eauto. }
    apply dispatch_dispatches in Hd.
    apply st_bind_inv in Hm as [(e' & _ & Hm)|([] & nb & Hb & Hm)];
      [|by apply broadcast_transactions_to in Hm as [? _]].
    exists n'. split; [|left; eauto]. do 2 (etransitivity; [done|]).
    by eapply same_dispatches, Hm; apply get_blocks_same.
  - apply st_bind_inv in Hm as [(e' & ? & _)|([] & nd & Hd & Hm)]; [done|].
    apply st_bind_inv in Hm as [(e' & ? & _)|([] & nb & Hb & Hm)]; [done|].
    exists nb. split.
    { etransitivity; [done|]. etransitivity; [by eapply dispatch_dispatches|].
      by eapply same_dispatches, Hb; apply get_blocks_same. }
    right. exists n2. apply broadcast_transactions_to in Hm as [_ Hm]. split; [done|].
    destruct (handle_input_queues _ _ _ _ _ Hr) as (Hc & Hw & _). split_and!; [done|done|].
    apply handle_input_moves in Hr as [(_ & l & Hl & _) _]. by exists l.
Qed.

(** ** From the client to the connections *)

Lemma routed_app choice k l1 l2 : forall i,
  routed choice k i (l1 ++ l2) = routed choice k i l1 ++ routed choice k (length l1 + i)%nat l2.
Proof.
  induction l1 as [|tb l1 IH]; intros i; [done|]. cbn [app routed length].
  rewrite IH, (assoc_L (++)). do 2 f_equal. lia.
Qed.

(** C22: a transaction of the client reaches the connections: the call puts it on
    the channel of the node; the turn that handles it queues it last; and the
    next turn, once it has dialled, either still has too few connections and
    keeps it waiting, or empties the queue in order: every live connection is
    sent it after the earlier ones, or, with the policy of a random peer, the one
    connection that was drawn and no other.  Transactions that no live
    connection got are reported to the client. *)
Theorem client_transaction_routed q tb q' env1 n r1 n1 env2 input n2 stop :
  broadcast_tx tb q = (inr (), q') ->
  node_turn filter_control BROADCAST_MIN env1 (FromClient (last (ntx q'))) n = (inr r1, n1) ->
  node_turn filter_control BROADCAST_MIN env2 input n1 = (inr stop, n2) ->
  exists nb l, dispatches n1 nb /\ waiting nb = l ++ [tb] /\
    if decide (required_peers nb <= live (peer_map nb))%nat then
      waiting n2 = asked input /\
      exists choice, draws choice (conns nb) /\
        routes (fun k => routed choice k 0 l ++
                  match tb_broadcast_policy tb with
                  | AllPeers => [tb_tx tb]
                  | RandomPeer => if decide (choice (length l) = Some k) then [tb_tx tb] else []
                  end) (conns nb) (conns n2) /\
        exists d, dialog (chain n2) = dialog (chain nb) ++ rejections choice 0 (l ++ [tb]) (conns nb) ++ d
    else conns n2 = conns nb /\ waiting n2 = l ++ [tb] ++ asked input.
Proof.
  unfold broadcast_tx, ntx_send. destruct (ntx_listening q); [|done]. intros [= <-] Hr1 Hr2.
  cbn [ntx] in Hr1. rewrite last_snoc in Hr1.
  apply turn_broadcasts in Hr1 as (n0 & _ & [[[e [=]] _]|(n0' & _ & _ & Hw & _)]). cbn [asked] in Hw.
  apply turn_broadcasts in Hr2 as (nb & Hd & [[[e [=]] _]|(nb' & Hb & Hc & Hw2 & d & Hdia)]).
  assert (waiting nb = waiting n0' ++ [tb]) as Hwb
    by (rewrite <- Hw; unfold waiting; by rewrite (proj1 (proj2 Hd))).
  exists nb, (waiting n0'). split_and!; [done|done|]. unfold broadcasts_to in Hb. rewrite Hwb in Hb.
  assert (waiting n0' ++ [tb] <> []) as Hne by (by intros [_ [=]]%app_nil).
  destruct (decide (_ <= _)%nat).
  - rewrite decide_True in Hb by done. destruct Hb as (Hnil & choice & Hdr & Hro & Hdb).
    rewrite Hnil in Hw2. split; [done|]. exists choice. split_and!; [done| |].
    + intros k. rewrite Hc, Hro, routed_app. cbn [routed]. rewrite Nat.add_0_r, app_nil_r. done.
    + exists d. by rewrite Hdia, Hdb, <- (assoc_L (++)).
  - rewrite decide_False in Hb by naive_solver. destruct Hb as (Hcb & Hwb' & _).
    by rewrite Hc, Hw2, Hwb', <- (assoc_L (++)).
Qed.

(** ** Counting over whole runs *)

Definition copies (w : Wtxid) (l : list Transaction) : nat :=
  length (filter (fun tx => compute_wtxid tx = w) l).

Lemma copies_app w l1 l2 : copies w (l1 ++ l2) = (copies w l1 + copies w l2)%nat.
Proof. unfold copies. by rewrite filter_app, length_app. Qed.

Lemma copies_routed w choice k l : forall i, (copies w (routed choice k i l) <= copies w (tb_tx <$> l))%nat.
Proof.
  induction l as [|tb l IH]; intros i; [done|]. cbn [routed]. rewrite fmap_cons.
  change (tb_tx tb :: (tb_tx <$> l)) with ([tb_tx tb] ++ (tb_tx <$> l)). rewrite !copies_app.
  specialize (IH (S i)). assert (copies w [] = 0%nat) as Hnil by done.
  destruct (tb_broadcast_policy tb); [lia|]. destruct (decide _); lia.
Qed.

(** What connection [k] was sent or may still be. *)
Definition due (w : Wtxid) (k : PeerId) n : nat :=
  (copies w (from_option snd [] (conns n !! k)) + copies w (tb_tx <$> waiting n))%nat.

Lemma dispatches_due w k n n' : dispatches n n' -> (due w k n' <= due w k n)%nat.
Proof.
  intros (Ha & Hb & _). unfold due, waiting. rewrite Hb.
  destruct (conns n' !! k) as [x|] eqn:Hx; [|cbn; lia].
  destruct (Ha k x Hx) as [-> | ->]; cbn; lia.
Qed.

Lemma broadcasts_due w k n n' : broadcasts_to n n' -> (due w k n' <= due w k n)%nat.
Proof.
  unfold broadcasts_to, due. case_decide; [|by intros (-> & -> & _)].
  intros (-> & choice & _ & Hro & _). rewrite Hro. pose proof (copies_routed w choice k (waiting n) 0).
  assert (copies w [] = 0%nat) as Hnil by done. rewrite (fmap_nil tb_tx).
  destruct (conns n !! k) as [[[] l]|]; cbn [from_option fmap option_fmap option_map fst snd];
    rewrite ?copies_app; lia.
Qed.

Lemma turn_due w k env input n r n' :
  node_turn filter_control BROADCAST_MIN env input n = (r, n') ->
  (due w k n' <= due w k n + copies w (tb_tx <$> asked input))%nat.
Proof.
  intros (n1 & Hd & [[_ ->]|(n2 & Hb & Hc & Hw & _)])%turn_broadcasts.
  - pose proof (dispatches_due w k _ _ Hd). lia.
  - pose proof (dispatches_due w k _ _ Hd). pose proof (broadcasts_due w k _ _ Hb).
    unfold due in *. rewrite Hc, Hw, fmap_app, copies_app. lia.
Qed.

(** Runs of the node in which tasks of connections end between the turns. *)
Definition end_tasks {E} (ended : list PeerId) : ST (Node D P) E () :=
  peer_map_do (fun m => foldr finish_peer m ended).

Fixpoint busy_loop (l : list (list PeerId * (Env * NodeInput)))
  : ST (Node D P) (NodeError store_error peer_store_error) bool :=
  match l with
  | [] => mret false
  | (ended, (env, input)) :: l' =>
      end_tasks ended;;
      stop ← node_turn filter_control BROADCAST_MIN env input;
      if (stop : bool) then mret true else busy_loop l'
  end.

Definition requests (l : list (list PeerId * (Env * NodeInput))) : list Transaction :=
  tb_tx <$> concat ((fun x => asked x.2.2) <$> l).

Lemma finish_txs k m : snd <$> views (finish_peer k m) = snd <$> views m.
Proof.
  unfold views, finish_peer, with_peer. cbn [pm_map set_map]. rewrite <- !map_fmap_compose.
  apply map_eq. intros i. rewrite !lookup_fmap. destruct (decide (i = k)) as [->|Hne].
  - rewrite lookup_alter_eq. by destruct (pm_map m !! k).
  - by rewrite lookup_alter_ne by done.
Qed.

Lemma end_tasks_due {E} w k ended n (r : E + ()) n' :
  end_tasks ended n = (r, n') -> r = inr () /\ due w k n' = due w k n.
Proof.
  intros [= <- <-]. split; [done|]. unfold due, waiting, conns. cbn [peer_map tx_broadcaster].
  assert (snd <$> views (foldr finish_peer (lend (chain n) (peer_map n)) ended) =
    snd <$> views (peer_map n)) as Hv.
  { induction ended as [|x ended IH]; [done|]. cbn [foldr]. by rewrite finish_txs. }
  do 2 f_equal. apply (f_equal (.!! k)) in Hv. rewrite !lookup_fmap in Hv.
  destruct (views _ !! k), (views (peer_map n) !! k); cbn in *; congruence.
Qed.

Lemma loop_due w k l : forall n r n',
  busy_loop l n = (r, n') -> (due w k n' <= due w k n + copies w (requests l))%nat.
Proof.
  induction l as [|[ended [env input]] l IH]; intros n r n' Hr; cbn [busy_loop] in Hr.
  { injection Hr as _ <-. lia. }
  unfold requests. cbn [fmap list_fmap concat snd]. rewrite fmap_app, copies_app.
  fold (requests l).
  apply st_bind_inv in Hr as [(e & _ & He)|([] & n1 & He & Hr)];
    apply (end_tasks_due w k) in He as [? He]; [done|].
  apply st_bind_inv in Hr as [(e & _ & Ht)|(stop & n2 & Ht & Hr)]; apply (turn_due w k) in Ht; [lia|].
  destruct stop; [injection Hr as _ <-; lia|]. apply IH in Hr. lia.
Qed.
End Gossip.

(** ** From the client to the wire *)

Section OnTheWire.
Context `{Wire} {D : Type} `{HeaderStore D} {P : Type} `{PeerStore P}.
Context (filter_control : bool) (BROADCAST_MIN : FeeRate).

(** C21: what goes over the wire was asked for: let a node that starts without
    connections and without waiting transactions run through any turns, with any
    messages of peers and clients, any dials, and any tasks ending in between;
    let the task of one of its connections have read any part of its channel and
    got any messages from the peer.  Then it delivered and keeps for delivery a
    transaction at most as often as the client asked to broadcast it. *)
Theorem wire_follows_requests l (n : Node D P) r n' k ended sent start turns p stop q w :
  conns n = ∅ -> waiting n = [] ->
  busy_loop filter_control BROADCAST_MIN l n = (r, n') -> conns n' !! k = Some (ended, sent) ->
  tx_queue p = ∅ -> p_dialog p = [] ->
  peer_loop filter_control start turns p = (stop, q) -> omap broadcast_of turns `prefix_of` sent ->
  (gossiped w q + queued w q <= copies w (requests l))%nat.
Proof.
  intros Hc Hw Hrun Hk Hq Hd Hloop [rest Hsent].
  apply (loop_due _ _ w k) in Hrun. unfold due in Hrun. rewrite Hc, Hw, Hk in Hrun.
  rewrite lookup_empty in Hrun. cbn [from_option snd fmap list_fmap] in Hrun.
  rewrite Hsent, copies_app in Hrun.
  pose proof (rt_relayed _ _ _ (loop_relay _ _ _ _ _ _ Hloop) w) as Hr.
  unfold relayed at 2, gossiped, queued in Hr. rewrite Hq, Hd, lookup_empty in Hr.
  unfold relayed in Hr. cbn in Hr, Hrun. unfold copies in *. cbn in Hrun. unfold gossiped, queued in *. lia.
Qed.
End OnTheWire.

(** ** A transaction on its way *)

Module ToyGossip.
Export Toy ToyPeers ToyChain ToyNode.
Import Reader.ToyWire ToyPeer ToyRelay.

Lemma pair_snd {A B} (x : A * B) a : x.1 = a -> x = (a, x.2).
Proof. destruct x. by intros <-. Qed.

Definition request : TxBroadcast := mkTxBroadcast (70 : @Transaction toy) AllPeers.
Definition called := (broadcast_tx request (mkRequester true [])).2.
Definition first := (node_turn false 250 toy_env (FromClient (last (ntx called))) toy_node).2.
Definition second := (node_turn false 250 toy_env (FromPeer None) first).2.

Lemma first_turn : (node_turn false 250 toy_env (FromClient (last (ntx called))) toy_node).1 = inr false.
Proof. vm_eq. Qed.

Lemma second_turn : (node_turn false 250 toy_env (FromPeer None) first).1 = inr false.
Proof. vm_eq. Qed.

Lemma second_waits : Gossip.waiting second = [].
Proof. vm_eq. Qed.

Lemma client_transaction_routed_witness :
  conns second !! 1 = Some (false, [70]) /\
  exists nb : Node (SqliteHeaderDb ToySql.table) (SqlitePeerDb peer_table),
    Gossip.waiting nb <> [] /\ (required_peers nb <= live (peer_map nb))%nat.
Proof.
  split; [vm_eq|].
  destruct (client_transaction_routed false 250 (mkRequester true []) request called toy_env toy_node
    false first toy_env (FromPeer None) second false) as (nb & l & _ & Hw & Hd).
  - done.
  - exact (pair_snd _ _ first_turn).
  - exact (pair_snd _ _ second_turn).
  - exists nb. split; [rewrite Hw; by intros [_ [=]]%app_nil|].
    destruct (decide _) as [Hl|]; [done|]. destruct Hd as [_ Hno].
    rewrite second_waits in Hno. by destruct l.
Defined.

(** A node that has to dial first. *)
Definition alone : Node (SqliteHeaderDb ToySql.table) (SqlitePeerDb peer_table) :=
  {| state := FilterHeadersSynced; chain := filter_3;
     peer_map := set_whitelist [mkTrustedPeer addr_b None 65] (set_map (fun _ => ∅) toy_map);
     tx_broadcaster := broadcaster_new; required_peers := 1; last_block_monitor := last_block_new |}.

Definition busy : list (list PeerId * (Env * NodeInput)) :=
  [([], (toy_env, FromClient (Some (Broadcast request)))); ([7], idle)].

Definition served := (peer_loop false 0 relay_turns toy_peer).2.

Lemma wire_follows_requests_witness :
  gossiped 71 served = 1%nat /\ (gossiped 71 served + queued 71 served <= 1)%nat.
Proof.
  split; [vm_eq|].
  apply (wire_follows_requests false 250 busy alone (busy_loop false 250 busy alone).1 (busy_loop false 250 busy alone).2 2 false
    [70 : @Transaction toy] 0 relay_turns toy_peer (peer_loop false 0 relay_turns toy_peer).1 served 71).
  - vm_eq.
  - vm_eq.
  - apply surjective_pairing.
  - vm_eq.
  - done.
  - done.
  - apply surjective_pairing.
  - by exists [].
Defined.
End ToyGossip.
