(* ===== verification/Texts.v ===== *)
(** * What the client reads: [src/messages.rs], [src/error.rs], [src/network/error.rs], [src/db/error.rs], [src/dialog.rs] and the options of [src/lib.rs]

    The texts of messages and errors, the inner errors they expose, the progress
    of a synchronization as a fraction, the levels of the dialog, and the small
    conversions of the public types.

    How the libraries print a hash, a float or one of their own errors is the
    class [Foreign].  The two texts that [Messages] does not keep (the context of
    [FailedPersistence] and of a failed database operation) are arguments. *)

From stdpp Require Import base numbers list gmap sorting strings pretty.
From Stdlib Require Import ZArith Lia.
From S2P Require Import Prelude Bitcoin ChainTypes Graph Walk GraphFacts Reorg ActiveChain FilterMarks TreeProperties.
From S2P Require Import Checkpoints Batches BlockQueue Messages HeaderStore PeerStore Chain ChainFacts ChainProperties.
From S2P Require Import Network Client Config.

Open Scope string_scope.

(** [std::fmt::Display] *)
Class Display (A : Type) := display : A -> string.

(** Printing of the values of the libraries, and the 32-bit floats. *)
Class Foreign := {
  show_txid : Txid -> string;
  show_wtxid : Wtxid -> string;
  f32 : Type;
  u32_as_f32 : Z -> f32;
  f32_div : f32 -> f32 -> f32;
  show_f32 : f32 -> string;
}.

(** ** States and progress *)

#[export] Instance node_state_text : Display NodeState := fun s =>
  match s with
  | Behind => "Requesting block headers."
  | HeadersSynced => "Requesting compact filter headers."
  | FilterHeadersSynced => "Requesting compact block filters."
  | FiltersSynced => "Downloading blocks with relevant transactions."
  | TransactionsSynced => "Fully synced to the highest block."
  end.

(** [filter_headers + filters] and [2 * total_to_check], as u32. *)
Definition progress_parts (p : Progress) : Z * Z :=
  (u32_add (progress_filter_headers p) (progress_filters p), as_u32 (2 * total_to_check p)).

Definition percentage_complete `{Foreign} (p : Progress) : f32 :=
  let '(done, total) := progress_parts p in f32_div (u32_as_f32 done) (u32_as_f32 total).

(** ** Messages *)

#[export] Instance info_text `{Foreign} : Display Info := fun i =>
  match i with
  | StateChange s => display s
  | TxGossiped wtxid => "Transaction gossiped: " +:+ show_wtxid wtxid
  | ConnectionsMet => "Required connections met"
  | InfoProgress p => "Percent complete: " +:+ show_f32 (percentage_complete p)
  end.

(** [context] is the text of [FailedPersistence]. *)
Definition warning_text `{Foreign} (context : string) (w : Warning) : string :=
  match w with
  | NeedConnections connected required =>
      "Looking for connections to peers. Connected: " +:+ pretty connected +:+
      ", Required: " +:+ pretty required
  | InvalidStartHeight => "The provided anchor is deeper than the database history."
  | CouldNotConnect => "An attempted connection failed or timed out."
  | NoCompactFilters => "A connected peer does not serve compact block filters."
  | PotentialStaleTip => "The node has been running for a long duration without receiving new blocks."
  | TransactionRejected payload =>
      "A transaction got rejected: TXID " +:+ show_txid (reject_txid payload)
  | FailedPersistence => "A database failed to persist some data: " +:+ context
  | EvaluatingFork => "Peer sent us a potential fork."
  | EmptyPeerDatabase => "The peer database has no values."
  | UnexpectedSyncError warning => "Error handling a P2P message: " +:+ warning
  | CorruptedHeaders => "The headers in the database do not link together."
  | WarnPeerTimedOut => "A connection to a peer timed out."
  | UnsolicitedMessage => "A peer sent us a peer-to-peer message the node did not request."
  | ChannelDropped => "A channel that was supposed to receive a message was dropped."
  end.

(** [SyncUpdate::tip] and [SyncUpdate::recent_history] *)
Definition sync_update_tip (u : SyncUpdate) : HeaderCheckpoint := update_tip u.
Definition sync_update_recent_history (u : SyncUpdate) : gmap Height Header := recent_history u.

(** ** Errors *)

#[export] Instance filter_error_text : Display FilterError := fun e =>
  match e with IORead => "unable to read from the filter contents buffer." end.

#[export] Instance peer_manager_error_text `{Display P} : Display (PeerManagerError P) := fun e =>
  match e with PeerStoreError e => "database: " +:+ display e end.

#[export] Instance header_persistence_error_text `{Display H} : Display (HeaderPersistenceError H) := fun e =>
  match e with
  | HeadersDoNotLink => "the headers loaded from persistence do not link together."
  | MismatchedCheckpoints => "the headers loaded do not match a known checkpoint."
  | CannotLocateHistory => "the configured checkpoint is too far in the past compared to previous syncs. The database cannot reconstruct the chain."
  | Database e => "database: " +:+ display e
  end.

#[export] Instance node_error_text `{Display H, Display P} : Display (NodeError H P) := fun e =>
  match e with
  | HeaderDatabase e => "block headers: " +:+ display e
  | PeerDatabase e => "peer manager: " +:+ display e
  end.

Definition receiver_dropped : string := "the receiver of this message was dropped from memory.".
Definition channel_closed : string :=
  "the channel to the client was likely closed by the node and dropped from memory.".

#[export] Instance client_error_text : Display ClientError := fun e =>
  match e with ClientSendError => receiver_dropped end.

(** [context] is the text of the database's failure. *)
Definition fetch_header_error_text (context : string) (e : FetchHeaderError) : string :=
  match e with
  | FetchHeaderSendError => receiver_dropped
  | FetchHeaderDatabaseOptFailed =>
      "the database operation failed while attempting to find the header: " +:+ context
  | FetchHeaderRecvError => channel_closed
  | UnknownHeight => "the header at the requested height does not yet exist."
  end.

Definition fetch_block_error_text (context : string) (e : FetchBlockError) : string :=
  match e with
  | FetchBlockSendError => receiver_dropped
  | FetchBlockDatabaseOptFailed =>
      "the database operation failed while attempting to find the header: " +:+ context
  | FetchBlockRecvError => channel_closed
  | UnknownHash => "the hash is not a member of the chain of most work."
  end.

#[export] Instance fetch_fee_rate_error_text : Display FetchFeeRateError := fun e =>
  match e with
  | FeeRateSendError => receiver_dropped
  | FeeRateRecvError => channel_closed
  end.

#[export] Instance peer_read_error_text : Display PeerReadError := fun e =>
  match e with
  | ReadBuffer => "reading bytes off the stream failed."
  | Deserialization => "the message could not be properly deserialized."
  | TooManyMessages => "DOS protection."
  | PeerTimeout => "peer timeout."
  | MpscChannel => "sending over the channel failed."
  | DecryptionFailed => "decrypting a message failed."
  end.

#[export] Instance socks5_error_text : Display Socks5Error := fun e =>
  match e with
  | WrongVersion => "server responded with an unsupported version."
  | AuthRequired => "server requires authentication."
  | ConnectionTimeout => "connection to server timed out."
  | Socks5ConnectionFailed => "the server could not connect to the requested destination."
  | IO => "reading or writing to the TCP stream failed unexpectedly."
  end.

#[export] Instance peer_error_text : Display PeerError := fun e =>
  match e with
  | ConnectionFailed => "the peer's TCP port was closed or we could not connect."
  | BufferWrite => "a message could not be written to the peer."
  | ThreadChannel => "experienced an error sending a message over the channel."
  | DisconnectCommand => "the main thread advised this peer to disconnect."
  | ReaderError => "the reading thread encountered an error."
  | UnreachableSocketAddr => "cannot make use of provided p2p address."
  | MessageSerialization => "serializing a message into bytes failed."
  | HandshakeFailed => "an attempted V2 transport handshake failed."
  | MessageEncryption => "encrypting a serialized message failed."
  | Socks5 err => "could not connect via Socks5 proxy: " +:+ display err
  end.

#[export] Instance dns_query_error_text : Display DNSQueryError := fun e =>
  match e with
  | ConnectionDenied => "the UDP connection failed."
  | MalformedHeader => "the DNS response header was too short."
  | UnexpectedEOF => "the end of the response was reached before we expected."
  | Udp => "reading or writing from the UDP connection failed."
  | MessageID => "mismatch of message ID."
  | Question => "the question of the message does not match."
  end.

(** *** The errors of the stores, with the inner error they expose *)

#[export] Instance sql_header_store_error_text `{SqlHeaders T}
    `{Display decode_error, Display sql_error} : Display SqlHeaderStoreError := fun e =>
  match e with
  | SQL e => "reading or writing from the database failed: " +:+ display e
  | Deserialize e => "consensus decoding failed " +:+ display e
  | Corruption => "a consensus critical data structure is malformed."
  end.

#[export] Instance sql_peer_store_error_text `{SqlPeers T}
    `{Display peer_decode_error, Display peer_sql_error} : Display SqlPeerStoreError := fun e =>
  match e with
  | PeerDeserialize e => "a byte array could not be deserialized into a known datatype: " +:+ display e
  | EmptyPeers => "there are no known peers in the database."
  | PeerSQL e => "reading or writing from the database failed: " +:+ display e
  end.

Definition sql_header_store_error_source `{SqlHeaders T} (e : SqlHeaderStoreError)
  : option (sql_error + decode_error) :=
  match e with
  | Corruption => None
  | SQL e => Some (inl e)
  | Deserialize e => Some (inr e)
  end.

Definition sql_peer_store_error_source `{SqlPeers T} (e : SqlPeerStoreError)
  : option (peer_sql_error + peer_decode_error) :=
  match e with
  | PeerDeserialize e => Some (inr e)
  | EmptyPeers => None
  | PeerSQL e => Some (inl e)
  end.

(** ** The dialog *)

(** The macro [info!]: infos are sent at the levels [Debug] and [Info]. *)
Definition sends_info (level : LogLevel) : bool :=
  match level with LogDebug | LogInfo => true | LogWarning => false end.

(** The macro [log!]: texts for debugging are sent, and made, at [Debug] only. *)
Definition sends_log (level : LogLevel) : bool :=
  match level with LogDebug => true | _ => false end.

Section Dialog.
Context `{Bitcoin}.

(** The four channels of [Dialog]: what was sent, and whether the client still
    listens.  The errors of closed channels are ignored. *)
Record Dialog := mkDialog {
  dlg_log_level : LogLevel;
  log_tx : list string;
  info_tx : list Info;
  warn_tx : list Warning;
  event_tx : list Event;
  dlg_open : bool;
}.

Definition dialog_new (level : LogLevel) : Dialog := mkDialog level [] [] [] [] true.

Definition push {A} (d : Dialog) (x : A) (l : list A) : list A := if dlg_open d then (l ++ [x])%list else l.

Definition send_dialog (text : string) (d : Dialog) : Dialog :=
  mkDialog (dlg_log_level d) (push d text (log_tx d)) (info_tx d) (warn_tx d) (event_tx d) (dlg_open d).
Definition send_warning (w : Warning) (d : Dialog) : Dialog :=
  mkDialog (dlg_log_level d) (log_tx d) (info_tx d) (push d w (warn_tx d)) (event_tx d) (dlg_open d).
Definition send_info (i : Info) (d : Dialog) : Dialog :=
  mkDialog (dlg_log_level d) (log_tx d) (push d i (info_tx d)) (warn_tx d) (event_tx d) (dlg_open d).
Definition send_event (e : Event) (d : Dialog) : Dialog :=
  mkDialog (dlg_log_level d) (log_tx d) (info_tx d) (warn_tx d) (push d e (event_tx d)) (dlg_open d).

Definition info_macro (i : Info) (d : Dialog) : Dialog :=
  if sends_info (dlg_log_level d) then send_info i d else d.
Definition log_macro (text : string) (d : Dialog) : Dialog :=
  if sends_log (dlg_log_level d) then send_dialog text d else d.

(** What an entry of the trace of the node does to the channels. *)
Definition deliver (o : Output) (d : Dialog) : Dialog :=
  match o with
  | SendWarning w => send_warning w d
  | SendInfo i => info_macro i d
  | SendEvent e => send_event e d
  | _ => d
  end.

Definition deliver_all (l : list Output) (d : Dialog) : Dialog := foldl (fun d o => deliver o d) d l.

Definition warnings (l : list Output) : list Warning :=
  omap (fun o => match o with SendWarning w => Some w | _ => None end) l.
Definition infos (l : list Output) : list Info :=
  omap (fun o => match o with SendInfo i => Some i | _ => None end) l.
Definition events (l : list Output) : list Event :=
  omap (fun o => match o with SendEvent e => Some e | _ => None end) l.

Lemma deliver_all_spec l : forall d,
  dlg_open d = true ->
  let d' := deliver_all l d in
  dlg_open d' = true /\ dlg_log_level d' = dlg_log_level d /\
  warn_tx d' = (warn_tx d ++ warnings l)%list /\ event_tx d' = (event_tx d ++ events l)%list /\
  info_tx d' = (info_tx d ++ (if sends_info (dlg_log_level d) then infos l else []))%list.
Proof.
  induction l as [|o l IH]; intros d Hopen.
  { cbn. rewrite !app_nil_r. destruct (sends_info _); by rewrite ?app_nil_r. }
  cbn zeta. change (deliver_all (o :: l) d) with (deliver_all l (deliver o d)). specialize (IH (deliver o d)).
  destruct o; cbn [deliver] in *; unfold info_macro, send_warning, send_event, send_info, push in *;
    try destruct (sends_info (dlg_log_level d)) eqn:Hlevel;
    rewrite ?Hopen in *; cbn in *; rewrite ?Hlevel in *;
    destruct (IH ltac:(done)) as (-> & -> & -> & -> & ->);
    rewrite <- ?(assoc_L (++)%list); done.
Qed.
End Dialog.

Close Scope string_scope.

(** ** Conversions of the public types *)

(** [From<TrustedPeer> for (AddrV2, Option<u16>)] *)
Definition pair_of_trusted_peer (p : TrustedPeer) : AddrV2 * option Z := (tp_address p, tp_port p).
(** [From<IpAddr>] and [From<SocketAddr>] *)
Definition trusted_peer_of_ip (ip : IpAddr) : TrustedPeer := trusted_peer_from_ip ip.
Definition trusted_peer_of_socket_addr (s : SocketAddr) : TrustedPeer := trusted_peer_from_socket_addr s.
(** [From<PersistedPeer> for (AddrV2, u16)] *)
Definition pair_of_persisted_peer (p : PersistedPeer) : AddrV2 * Z := (pp_addr p, pp_port p).
(** [PeerStatus::random] of what [gen_range(0..=1)] returned *)
Definition random_status (sampled : Z) : PeerStatus := if sampled =? 0 then Gossiped else Tried.

Section Conversions.
Context `{Bitcoin}.

Definition tx_broadcast_new (tx : Transaction) (p : TxBroadcastPolicy) : TxBroadcast := mkTxBroadcast tx p.

(** [From<(u32, BlockHash)>] and [TryFrom<(u32, &str)>] *)
Definition checkpoint_of_pair (v : Z * BlockHash) : HeaderCheckpoint := mkCheckpoint v.1 v.2.
Definition checkpoint_of_text (v : Z * string) : option HeaderCheckpoint :=
  hash ← block_hash_from_str v.2; Some (mkCheckpoint v.1 hash).

(** *** [IndexedFilter] *)
Definition indexed_filter_block_hash (f : IndexedFilter) : BlockHash := filter_block_hash (if_filter f).
(** [None] is the panic of [expect]. *)
Definition indexed_filter_contains_any (scripts : list ScriptBuf) (f : IndexedFilter) : option bool :=
  contains_any (if_filter f) scripts.
Definition into_contents (f : IndexedFilter) : bytes := filter_contents (if_filter f).

(** [Ord]: by height alone. *)
Definition indexed_filter_cmp (f g : IndexedFilter) : comparison := Z.compare (if_height f) (if_height g).
Definition indexed_filter_partial_cmp (f g : IndexedFilter) : option comparison :=
  Some (indexed_filter_cmp f g).

(** Two different filters can compare as equal. *)
Lemma indexed_filter_cmp_coarse :
  exists f g : IndexedFilter, indexed_filter_cmp f g = Eq /\ f <> g.
Proof.
  exists (mkIndexedFilter 1 (mkFilter 0 0 [])), (mkIndexedFilter 1 (mkFilter 0 1 [])).
  split; [done|]. discriminate.
Qed.
End Conversions.

(** ** The progress of a synchronization *)

Section ProgressFacts.
Context `{Bitcoin}.

(** What [send_chain_update] reports. *)
Definition progress_of (t : BlockTree) : Progress :=
  mkProgress (total_filter_headers_synced t) (total_filters_synced t) (as_u32 (internal_chain_len t)).

(** On a tree whose canonical map covers its active chain, the map has one entry
    for each block of the chain. *)
Lemma canonical_length a b t :
  wf_tree a b t -> canonical_ok (b + 1) t -> internal_chain_len t = Z.of_nat (length (iter_data t)).
Proof.
  intros Hwf Hcan. pose proof (wt_headers _ _ _ Hwf) as Hw.
  destruct (active_walk _ _ _ Hwf) as [l Hc]. rewrite (iter_data_chain _ _ _ _ Hwf Hc), length_fmap.
  unfold internal_chain_len. f_equal.
  assert (NoDup ((fun x : BlockHash * BlockNode => (node_height x.2, x.1)) <$> l).*1) as Hnd.
  { pose proof (sorted_heights_NoDup l (chain_from_sorted Hw _ _ Hc)) as Hs.
    assert (((fun x : BlockHash * BlockNode => (node_height x.2, x.1)) <$> l).*1 =
      ih_height <$> ((fun x => indexed x.2) <$> l)) as ->; [|done].
    clear. induction l as [|x l IH]; [done|]. cbn. by rewrite <- IH. }
  assert (canonical_hashes t = list_to_map ((fun x => (node_height x.2, x.1)) <$> l)) as ->.
  { apply map_eq. intros i. apply option_eq. intros k. split.
    - intros Hk. destruct (can_sound _ _ Hcan _ _ Hk) as (n & (l' & Hc' & Hin) & <-).
      rewrite (chain_from_det _ _ _ _ Hc' Hc) in Hin.
      apply elem_of_list_to_map_1; [done|]. apply list_elem_of_fmap. by exists (k, n).
    - intros Hk%elem_of_list_to_map_2. apply list_elem_of_fmap in Hk as ([k' n] & [= -> ->] & Hin).
      apply (can_complete _ _ Hcan); [by exists l|].
      pose proof (wf_low _ _ _ Hw _ _ (chain_from_lookup _ _ _ _ _ Hc Hin)). cbn. lia. }
  rewrite map_size_list_to_map by done. by rewrite length_fmap.
Qed.

Lemma filter_length_all {A} (P : A -> Prop) `{!forall x, Decision (P x)} (l : list A) :
  length (filter P l) = length l <-> Forall P l.
Proof.
  induction l as [|x l IH]; [done|]. rewrite filter_cons, Forall_cons. case_decide as Hx; cbn.
  - rewrite <- IH. naive_solver lia.
  - pose proof (length_filter P l). naive_solver lia.
Qed.

Lemma filter_headers_synced_all t :
  filter_headers_synced t = true <-> Forall (fun n => is_Some (filter_commitment n)) (iter_data t).
Proof.
  unfold filter_headers_synced. rewrite forallb_forall, Forall_forall.
  split; intros Hall x Hx%list_elem_of_In; specialize (Hall x Hx);
    [by apply bool_decide_eq_true in Hall|by apply bool_decide_eq_true].
Qed.

Lemma filters_synced_all t :
  filters_synced t = true <-> Forall (fun n => filter_checked n = true) (iter_data t).
Proof.
  unfold filters_synced. rewrite forallb_forall, Forall_forall.
  split; intros Hall x Hx%list_elem_of_In; by apply Hall.
Qed.


End ProgressFacts.

Section ProgressWitness.
Import ToyTree.

Definition restarted : BlockTree :=
  check_filter (check_filter (set_commitment (set_commitment
    (tree_run (from_header 4 (hdr 5 4 1) Regtest) [OpAccept (hdr 6 5 1)])
    (mkFilterCommitment 0 0) 5) (mkFilterCommitment 0 0) 6) 5) 6.

(** After a restart from a stored header the root is not counted in the total:
    the fraction exceeds one. *)
Lemma progress_exceeds_one_after_restart : progress_parts (progress_of restarted) = (4, 2).
Proof. by vm_compute. Qed.

End ProgressWitness.
