(* ===== verification/Open.v ===== *)
(** * Opening the databases: [src/db/sqlite/headers.rs], [src/db/sqlite/peers.rs] ([new], [migrate]) and [NodeBuilder::build] of [src/builder.rs]

    [sqlite_header_new] and [sqlite_peer_new] create the data directory, open the
    file, record the schema version, create the table and check the version, in
    this order; [build] opens the peers, then the headers, then creates the node.

    The file system and SQLite are the class [Files] (paths) and one [SqlFile]
    per kind of connection: every operation takes and returns the disk, failed or
    not.  [FilesLaws] and [SqlFileLaws] are their documented behaviour: opening
    finds the table of the file, and the statements of the schema leave the
    headers and the peers of every file alone. *)

From stdpp Require Import base numbers list gmap sorting strings.
From Stdlib Require Import ZArith Lia Ascii.
From S2P Require Import Prelude Bitcoin ChainTypes Graph Walk GraphFacts Reorg ActiveChain FilterMarks TreeProperties.
From S2P Require Import Checkpoints Batches BlockQueue Messages HeaderStore Chain ChainFacts ChainProperties Restart.
From S2P Require Import PeerStore Network Dns Peer PeerMap Node NodeFacts NodeProperties Config Texts.

Open Scope string_scope.

(** ** Paths *)

(** [PathBuf::push] and [Path::join] of a relative component. *)
Definition path_push (path component : string) : string :=
  match String.length path with
  | O => component
  | S last =>
      if bool_decide (String.get last path = Some "/"%char) then path +:+ component
      else path +:+ "/" +:+ component
  end.

Definition DEFAULT_CWD : string := ".".
Definition DATA_DIR : string := "light_client_data".

(** ** Schemas *)

Definition HEADER_FILE_NAME : string := "headers.db".
Definition HEADER_SCHEMA_TABLE_NAME : string := "header_schema_versions".
Definition PEER_FILE_NAME : string := "peers.db".
Definition PEER_SCHEMA_TABLE_NAME : string := "peer_schema_versions".
Definition SCHEMA_COLUMN : string := "schema_key".
Definition VERSION_COLUMN : string := "version".
Definition SCHEMA_KEY : string := "current_version".
Definition SCHEMA_VERSION : Z := 0.

Definition INITIAL_HEADER_SCHEMA : string := "CREATE TABLE IF NOT EXISTS headers (
    height INTEGER PRIMARY KEY,
    block_hash BLOB NOT NULL,
    header BLOB NOT NULL
) STRICT".

Definition INITIAL_PEER_SCHEMA : string := "CREATE TABLE IF NOT EXISTS peers (
    ip_addr BLOB PRIMARY KEY,
    port INTEGER NOT NULL,
    service_flags BLOB NOT NULL,
    tried BOOLEAN NOT NULL,
    banned BOOLEAN NOT NULL
)".

Definition schema_table_query (table : string) : string :=
  "CREATE TABLE IF NOT EXISTS " +:+ table +:+ " (" +:+ SCHEMA_COLUMN +:+ " TEXT PRIMARY KEY, " +:+
  VERSION_COLUMN +:+ " INTEGER NOT NULL)".

Definition schema_init_version (table : string) : string :=
  "INSERT OR REPLACE INTO " +:+ table +:+ " (" +:+ SCHEMA_COLUMN +:+ ", " +:+ VERSION_COLUMN +:+
  ") VALUES (?1, ?2)".

Definition version_query (table : string) : string :=
  "SELECT " +:+ VERSION_COLUMN +:+ " FROM " +:+ table +:+ " WHERE " +:+ SCHEMA_COLUMN +:+ " = ?1".

(** The statements that only concern the schema. *)
Definition schema_statement (stmt : string) : bool :=
  String.prefix "CREATE TABLE IF NOT EXISTS " stmt ||
  String.prefix "INSERT OR REPLACE INTO header_schema_versions " stmt ||
  String.prefix "INSERT OR REPLACE INTO peer_schema_versions " stmt.

Close Scope string_scope.

(** ** The disk *)

Inductive SqlParam := TextParam (s : string) | IntParam (v : Z).

Class Files (FS : Type) := {
  io_error : Type;
  rusqlite_error : Type;
  (** [Network::to_string], the library's *)
  show_network : Network -> string;
  path_exists : string -> FS -> bool;
  create_dir_all : string -> ST FS io_error ();
}.

Class SqlFile (FS Conn : Type) `{Files FS} := {
  connection_open : string -> ST FS rusqlite_error Conn;
  connection_execute : string -> list SqlParam -> Conn -> ST FS rusqlite_error Conn;
  (** [query_row] of a [u8] *)
  connection_query_u8 : string -> list SqlParam -> Conn -> ST FS rusqlite_error Z;
}.

(** What is kept of the tables of every file.  No operation of opening changes
    it; [conn_table] is the table of a connection, [table_at] that of the file at
    a path (empty where there is none). *)
Class FilesLaws (FS View : Type) `{Files FS} := {
  tables : FS -> View;
  create_dir_all_law path fs r fs' : create_dir_all path fs = (r, fs') -> tables fs' = tables fs;
}.

Class SqlFileLaws {FS View : Type} `{FilesLaws FS View} {Conn Table : Type} `{!SqlFile FS Conn}
    (conn_table : Conn -> Table) := {
  table_at : string -> View -> Table;
  connection_open_law path fs r fs' : connection_open path fs = (r, fs') ->
    tables fs' = tables fs /\ forall c, r = inr c -> conn_table c = table_at path (tables fs);
  connection_execute_law stmt params c fs r fs' : schema_statement stmt = true ->
    connection_execute stmt params c fs = (r, fs') ->
    tables fs' = tables fs /\ forall c', r = inr c' -> conn_table c' = conn_table c;
  connection_query_law stmt params c fs r fs' :
    connection_query_u8 stmt params c fs = (r, fs') -> tables fs' = tables fs;
}.

(** ** [SqliteHeaderDb::new], [SqlitePeerDb::new] and [build] *)

Section Open.
Context `{Bitcoin} {FS : Type} `{Files FS}.

Inductive SqlInitializationError :=
  | InitIO (e : io_error)
  | InitSQL (e : rusqlite_error).

(** [?] with [From<std::io::Error>] and [From<rusqlite::Error>] *)
Definition try_io {A} (m : ST FS io_error A) : ST FS SqlInitializationError A :=
  fun fs => match m fs with (inl e, fs') => (inl (InitIO e), fs') | (inr a, fs') => (inr a, fs') end.
Definition try_sql {A} (m : ST FS rusqlite_error A) : ST FS SqlInitializationError A :=
  fun fs => match m fs with (inl e, fs') => (inl (InitSQL e), fs') | (inr a, fs') => (inr a, fs') end.

Definition sql_initialization_error_text `{Display io_error, Display rusqlite_error}
    (e : SqlInitializationError) : string :=
  match e with
  | InitIO e => "a file or directory could not be opened or created: " +:+ display e
  | InitSQL e => "reading or writing from the database failed: " +:+ display e
  end.

Definition sql_initialization_error_source (e : SqlInitializationError)
  : option (io_error + rusqlite_error) :=
  match e with
  | InitIO e => Some (inl e)
  | InitSQL e => Some (inr e)
  end.

Definition data_directory (network : Network) (path : option string) : string :=
  path_push (path_push (default DEFAULT_CWD path) DATA_DIR) (show_network network).

Definition header_file (network : Network) (path : option string) : string :=
  path_push (data_directory network path) HEADER_FILE_NAME.
Definition peer_file (network : Network) (path : option string) : string :=
  path_push (data_directory network path) PEER_FILE_NAME.

(** The schemas are at version zero: [migrate] only reads the version. *)
Definition migrate `{!SqlFile FS Conn} (table : string) (c : Conn) : ST FS SqlInitializationError () :=
  _current_version ← try_sql (connection_query_u8 (version_query table) [TextParam SCHEMA_KEY] c);
  mret ().

Section Headers.
Context {T : Type} `{!SqlHeaders T} `{!SqlFile FS T}.

Definition sqlite_header_new (network : Network) (path : option string)
  : ST FS SqlInitializationError (SqliteHeaderDb T) :=
  let path := data_directory network path in
  exists_ ← st_get (path_exists path);
  (if (exists_ : bool) then mret () else try_io (create_dir_all path));;
  conn ← try_sql (connection_open (path_push path HEADER_FILE_NAME));
  conn ← try_sql (connection_execute (schema_table_query HEADER_SCHEMA_TABLE_NAME) [] conn);
  conn ← try_sql (connection_execute (schema_init_version HEADER_SCHEMA_TABLE_NAME)
                    [TextParam SCHEMA_KEY; IntParam SCHEMA_VERSION] conn);
  conn ← try_sql (connection_execute INITIAL_HEADER_SCHEMA [] conn);
  migrate HEADER_SCHEMA_TABLE_NAME conn;;
  mret {| conn := conn; accepted := ∅; disconnected := ∅ |}.
End Headers.

Section Peers.
Context {U : Type} `{!SqlPeers U} `{!SqlFile FS U}.

Definition sqlite_peer_new (network : Network) (path : option string)
  : ST FS SqlInitializationError (SqlitePeerDb U) :=
  let path := data_directory network path in
  exists_ ← st_get (path_exists path);
  (if (exists_ : bool) then mret () else try_io (create_dir_all path));;
  conn ← try_sql (connection_open (path_push path PEER_FILE_NAME));
  conn ← try_sql (connection_execute (schema_table_query PEER_SCHEMA_TABLE_NAME) [] conn);
  conn ← try_sql (connection_execute (schema_init_version PEER_SCHEMA_TABLE_NAME)
                    [TextParam SCHEMA_KEY; IntParam SCHEMA_VERSION] conn);
  conn ← try_sql (connection_execute INITIAL_PEER_SCHEMA [] conn);
  migrate PEER_SCHEMA_TABLE_NAME conn;;
  mret {| peer_conn := conn |}.
End Peers.

Section Build.
Context {T : Type} `{!SqlHeaders T} `{!SqlFile FS T} {U : Type} `{!SqlPeers U} `{!SqlFile FS U}.

(** The builder is borrowed: it is part of the state.  The inner [None] is the
    panic of [Node::new]. *)
Definition build (now : Instant)
  : ST (NodeBuilder * FS) SqlInitializationError (option (Node (SqliteHeaderDb T) (SqlitePeerDb U))) :=
  fun '(b, fs) =>
    match sqlite_peer_new (nb_network b) (cfg_data_path (nb_config b)) fs with
    | (inl e, fs) => (inl e, (b, fs))
    | (inr peer_store, fs) =>
        match sqlite_header_new (nb_network b) (cfg_data_path (nb_config b)) fs with
        | (inl e, fs) => (inl e, (b, fs))
        | (inr header_store, fs) =>
            let '(node, b) := build_with_databases b now peer_store header_store in
            (inr node, (b, fs))
        end
    end.
End Build.
End Open.

(** ** Opening leaves the tables alone *)

Section OpenFacts.
Context `{Bitcoin} {FS View : Type} `{FilesLaws FS View}.

(** Run where the tables are [v], [m] leaves them and its result satisfies [P]. *)
Definition opens {E A} (v : View) (m : ST FS E A) (P : A -> Prop) : Prop :=
  forall fs r fs', tables fs = v -> m fs = (r, fs') ->
    tables fs' = v /\ forall a, r = inr a -> P a.

Lemma opens_bind {E A B} v (m : ST FS E A) (f : A -> ST FS E B) P Q :
  opens v m P -> (forall a, P a -> opens v (f a) Q) -> opens v (m ≫= f) Q.
Proof.
  intros Hm Hf fs r fs' Hv Hr. apply st_bind_inv in Hr as [(e & -> & He)|(a & fs1 & Ha & Hr)].
  - split; [|done]. by eapply (Hm _ _ _ Hv He).
  - destruct (Hm _ _ _ Hv Ha) as [Hv1 HP]. by apply (Hf a (HP a eq_refl) _ _ _ Hv1 Hr).
Qed.

Lemma opens_ret {E A} v (a : A) (P : A -> Prop) : P a -> opens v (mret a : ST FS E A) P.
Proof. intros HP fs r fs' Hv [= <- <-]. split; [done|]. by intros a' [= <-]. Qed.

Lemma opens_get {E A} v (g : FS -> A) : opens v (st_get g : ST FS E A) (fun _ => True).
Proof. intros fs r fs' Hv [= <- <-]. by split. Qed.

Lemma opens_try_sql {A} v (m : ST FS rusqlite_error A) (P : A -> Prop) :
  opens v m P -> opens v (try_sql m) P.
Proof.
  intros Hm fs r fs' Hv. unfold try_sql. destruct (m fs) as [[e|a] fs1] eqn:Hr; intros [= <- <-];
    destruct (Hm _ _ _ Hv Hr) as [Hv1 HP]; (split; [done|]); intros a' [= <-]. by apply HP.
Qed.

Lemma opens_create_dir v path : opens v (try_io (create_dir_all path)) (fun _ => True).
Proof.
  intros fs r fs' <-. unfold try_io. destruct (create_dir_all path fs) as [r1 fs1] eqn:Hr.
  pose proof (create_dir_all_law _ _ _ _ Hr). by destruct r1; intros [= <- <-].
Qed.

Section Connections.
Context {Conn Table : Type} `{!SqlFile FS Conn} {conn_table : Conn -> Table}.
Context {SL : SqlFileLaws (FS := FS) conn_table}.

Lemma opens_connection v path :
  opens v (try_sql (connection_open path)) (fun c => conn_table c = table_at path v).
Proof.
  apply opens_try_sql. intros fs r fs' <- Hr.
  destruct (connection_open_law _ _ _ _ Hr) as [Ht Hc]. split; [done|]. intros c ->. by apply Hc.
Qed.

Lemma opens_execute v stmt params c : schema_statement stmt = true ->
  opens v (try_sql (connection_execute stmt params c)) (fun c' => conn_table c' = conn_table c).
Proof.
  intros Hs. apply opens_try_sql. intros fs r fs' <- Hr.
  destruct (connection_execute_law _ _ _ _ _ _ Hs Hr) as [Ht Hc]. split; [done|].
  intros c' ->. by apply Hc.
Qed.

Lemma opens_migrate v table (c : Conn) : opens v (migrate table c) (fun _ => True).
Proof.
  apply (opens_bind _ _ _ (fun _ => True)); [|by intros; apply opens_ret].
  apply opens_try_sql. intros fs r fs' <- Hr. by split; [apply (connection_query_law _ _ _ _ _ _ Hr)|].
Qed.
End Connections.
End OpenFacts.

(** [opening]: through the steps of one of the two [new]s. *)
Ltac opening :=
  let e := fresh "e" in
  eapply opens_bind; [apply opens_get|intros e _];
  apply (opens_bind _ _ _ (fun _ => True));
    [destruct e; [by apply opens_ret|apply opens_create_dir]|intros _ _];
  eapply opens_bind; [apply opens_connection|cbn beta; intros ? ?];
  do 3 (eapply opens_bind; [by apply opens_execute|cbn beta; intros ? ?]);
  eapply opens_bind; [apply opens_migrate|intros _ _];
  apply opens_ret; cbn; unfold header_file, peer_file; repeat split; congruence.

Section Opened.
Context `{Bitcoin} {FS View : Type} `{FilesLaws FS View}.
Context {T : Type} `{SqlHeadersLaws T} `{!SqlFile FS T} {SLT : SqlFileLaws (FS := FS) (rows (T := T))}.
Context {U : Type} `{SqlPeersLaws U} `{!SqlFile FS U} {SLU : SqlFileLaws (FS := FS) (peer_rows (T := U))}.

Lemma header_store_opens v network path :
  opens v (sqlite_header_new network path) (fun s : SqliteHeaderDb T =>
    rows (conn s) = table_at (header_file network path) v /\ accepted s = ∅ /\ disconnected s = ∅).
Proof. unfold sqlite_header_new. opening. Qed.

Lemma peer_store_opens v network path :
  opens v (sqlite_peer_new network path) (fun s : SqlitePeerDb U =>
    peer_rows (peer_conn s) = table_at (peer_file network path) v).
Proof. unfold sqlite_peer_new. opening. Qed.

Abbreviation build := (build (FS := FS) (T := T) (U := U)).

(** C28: building never changes what the files hold.  If a file or the database
    fails, the builder keeps its configuration, so the call can be repeated;
    otherwise the node is the one of [build_with_databases] on the peers and the
    headers of the two files under the data directory, with nothing staged, and
    the builder starts over. *)
Theorem build_opens_files b now fs r b' fs' :
  build now (b, fs) = (r, (b', fs')) ->
  tables fs' = tables fs /\
  match r with
  | inl _ => b' = b
  | inr node =>
      let network := nb_network b in let path := cfg_data_path (nb_config b) in
      exists (peers : SqlitePeerDb U) (headers : SqliteHeaderDb T),
        (node, b') = build_with_databases b now peers headers /\ b' = builder_new network /\
        peer_rows (peer_conn peers) = table_at (peer_file network path) (tables fs) /\
        db_view headers = snd <$> table_at (header_file network path) (tables fs) /\
        accepted headers = ∅ /\ disconnected headers = ∅
  end.
Proof.
  unfold Open.build. intros Hb.
  destruct (sqlite_peer_new _ _ fs) as [rp fs1] eqn:Hp.
  destruct (peer_store_opens _ _ _ _ _ _ eq_refl Hp) as [Hv1 Hpeers].
  destruct rp as [e|peers]; [by injection Hb as <- <- <-|].
  destruct (sqlite_header_new _ _ fs1) as [rh fs2] eqn:Hh.
  destruct (header_store_opens _ _ _ _ _ _ Hv1 Hh) as [Hv2 Hheaders].
  destruct rh as [e|headers]; [by injection Hb as <- <- <-|].
  destruct (Hheaders _ eq_refl) as (Hrows & Ha & Hd). injection Hb as <- <- <-.
  split; [done|]. exists peers, headers. split_and!; try done.
  - by apply Hpeers.
  - by rewrite db_view_clean, Hrows.
Qed.
End Opened.

(** ** A disk

    Directories, the tables of the files, and the statements that ran; creating
    directories can be forbidden. *)

Module ToyOpen.
Export ToyConfig.
Open Scope string_scope.

Record disk := mkDisk {
  directories : list string;
  files : gmap string ToySql.table * gmap string (gmap bytes PeerRow);
  read_only : bool;
  journal : list string;
}.

#[export] Instance toy_files : Files disk := {
  io_error := string;
  rusqlite_error := string;
  show_network n := match n with Regtest => "regtest" | _ => "bitcoin" end;
  path_exists p d := bool_decide (p ∈ directories d);
  create_dir_all p d :=
    if read_only d then (inl "permission denied", d)
    else (inr (), mkDisk (p :: directories d) (files d) false (journal d));
}.

Definition run (stmt : string) (d : disk) : disk :=
  mkDisk (directories d) (files d) (read_only d) (journal d ++ [stmt]).

#[export] Instance toy_header_file : SqlFile disk ToySql.table := {
  connection_open p d := (inr (default ∅ (fst (files d) !! p)), run p d);
  connection_execute stmt _ c d := (inr c, run stmt d);
  connection_query_u8 stmt _ c d := (inr 0, run stmt d);
}.

#[export] Instance toy_peer_file : SqlFile disk peer_table := {
  connection_open p d := (inr (mkPeerTable 0 (default ∅ (snd (files d) !! p))), run p d);
  connection_execute stmt _ c d := (inr c, run stmt d);
  connection_query_u8 stmt _ c d := (inr 0, run stmt d);
}.

#[export] Program Instance toy_files_laws :
  FilesLaws disk (gmap string ToySql.table * gmap string (gmap bytes PeerRow)) := { tables := files }.
Next Obligation. intros p d r d'. cbn. destruct (read_only d); by intros [= _ <-]. Qed.

#[export] Program Instance toy_header_file_laws : SqlFileLaws (FS := disk) (rows (T := ToySql.table)) := {
  table_at p v := default ∅ (v.1 !! p);
}.
Next Obligation. intros p d r d' [= <- <-]. split; [done|]. by intros c [= <-]. Qed.
Next Obligation. intros stmt ? c d r d' _ [= <- <-]. split; [done|]. by intros c' [= <-]. Qed.
Next Obligation. by intros stmt ? c d r d' [= _ <-]. Qed.

#[export] Program Instance toy_peer_file_laws : SqlFileLaws (FS := disk) (peer_rows (T := peer_table)) := {
  table_at p v := default ∅ (v.2 !! p);
}.
Next Obligation. intros p d r d' [= <- <-]. split; [done|]. by intros c [= <-]. Qed.
Next Obligation. intros stmt ? c d r d' _ [= <- <-]. split; [done|]. by intros c' [= <-]. Qed.
Next Obligation. by intros stmt ? c d r d' [= _ <-]. Qed.

(** What earlier sessions left in the files. *)
Definition old_disk (ro : bool) : disk := mkDisk []
  ({["/var/light_client_data/regtest/headers.db" := conn (db nine)]},
   {["/var/light_client_data/regtest/peers.db" := ToyPeers.table (peer_conn tried_store)]}) ro [].

Definition on_var : NodeBuilder := builder_calls Regtest (calls ++ [DataDir "/var/"]).

Abbreviation toy_build := (build (FS := disk) (T := ToySql.table) (U := peer_table) 0).

(** The statements of opening the headers, in their order. *)
Lemma header_journal :
  journal (sqlite_header_new (T := ToySql.table) Regtest (Some "/var/") (old_disk false)).2 =
  ["/var/light_client_data/regtest/headers.db";
   "CREATE TABLE IF NOT EXISTS header_schema_versions (schema_key TEXT PRIMARY KEY, version INTEGER NOT NULL)";
   "INSERT OR REPLACE INTO header_schema_versions (schema_key, version) VALUES (?1, ?2)";
   INITIAL_HEADER_SCHEMA;
   "SELECT version FROM header_schema_versions WHERE schema_key = ?1"].
Proof. by vm_compute. Qed.

Definition denied {A} (r : SqlInitializationError (FS := disk) + A) : bool :=
  match r with inl (InitIO e) => bool_decide (e = "permission denied") | _ => false end.
Definition succeeds {E A} (r : E + A) : bool := match r with inl _ => false | inr _ => true end.

Lemma build_denied : denied (toy_build (on_var, old_disk true)).1 = true.
Proof. by vm_compute. Qed.

Lemma build_succeeds : succeeds (toy_build (on_var, old_disk false)).1 = true.
Proof. by vm_compute. Qed.

(** On a disk that is read only the build fails and can be repeated; where it
    succeeds the node has the nine headers of the earlier session. *)
Lemma build_opens_files_witness :
  (exists d, toy_build (on_var, old_disk true) = (inl (InitIO "permission denied"), (on_var, d))) /\
  exists headers : SqliteHeaderDb ToySql.table,
    (exists peers : SqlitePeerDb peer_table,
      (toy_build (on_var, old_disk false)).1 = inr (build_with_databases on_var 0 peers headers).1) /\
    db_view headers !! 9 = Some (hdr 9 8 1).
Proof.
  split.
  - pose proof build_denied as Hd.
    destruct (toy_build (on_var, old_disk true)) as [r [b d]] eqn:Hb.
    destruct (build_opens_files _ _ _ _ _ _ Hb) as [_ Hr]. exists d.
    destruct r as [[e|e]|]; cbn in Hd, Hr; try done. apply bool_decide_eq_true in Hd. by subst.
  - pose proof build_succeeds as Hs.
    destruct (toy_build (on_var, old_disk false)) as [r [b d]] eqn:Hb.
    destruct (build_opens_files _ _ _ _ _ _ Hb) as [_ Hr]. destruct r as [e|node]; [done|].
    destruct Hr as (peers & headers & Hn & _ & _ & Hrows & _). exists headers. split.
    + exists peers. cbn [fst]. by rewrite <- Hn.
    + rewrite Hrows. by vm_compute.
Defined.
End ToyOpen.
