(* ===== verification/Converge.v ===== *)
(** * Synchronizing with an honest peer

    [exchange] is the dialogue of the node with one connection: the messages the
    node puts on the connection's channel are answered one after the other, and
    every answer is handled as the node's loop handles it.  What an honest peer
    answers is the record [serves], the documented behaviour of [getheaders]
    and of the requests of BIP 157; the peer itself is not part of the program.

    From any state that is behind the peer the exchange ends, after a number of
    requests that is computed below, with all headers, filter headers and filters
    of the peer. *)

From stdpp Require Import base numbers list gmap sorting strings.
From Stdlib Require Import ZArith Lia.
From S2P Require Import Prelude Bitcoin ChainTypes Graph Walk GraphFacts Reorg ActiveChain FilterMarks TreeProperties.
From S2P Require Import Checkpoints Batches BlockQueue Messages HeaderStore PeerStore Chain ChainFacts FilterSync.
From S2P Require Import ChainProperties HeaderSync FilterProgress Network Wire Dns PeerMap Node NodeFacts NodeProperties.

Section Exchange.
Context `{Bitcoin} {D : Type} `{HeaderStore D} {P : Type} `{PeerStore P}.
Context (filter_control : bool).
Context (peer : PeerId) (env : nat -> Env) (reply : MainThreadMessage -> list PeerMessage).

(** The messages the node has put on the channel of the connection. *)
Definition sent (nd : Node D P) : list MainThreadMessage :=
  match pm_map (peer_map nd) !! peer with Some q => ptx q | None => [] end.

(** The node handles the answers in order. *)
Fixpoint feed (e : Env) (l : list PeerMessage)
  : ST (Node D P) (NodeError store_error peer_store_error) () :=
  match l with
  | [] => mret ()
  | m :: l' => handle_peer filter_control e (mkPeerThreadMessage peer m);; feed e l'
  end.

(** Answer the messages from the [k]-th on, at most [fuel] of them; the result
    is the number of the first message that is not answered. *)
Fixpoint exchange (fuel k : nat) : ST (Node D P) (NodeError store_error peer_store_error) nat :=
  match fuel with
  | O => mret k
  | S fuel' =>
      l ← st_get sent;
      match l !! k with
      | None => mret k
      | Some message => feed (env k) (reply message);; exchange fuel' (S k)
      end
  end.

(** ** The peer *)

Context (a : BlockHash) (b lo : Height) (n : Network) (best : list Header).
Context (prev0 : FilterHeader) (contents : list bytes).

Definition filter_answers (j s : nat) : list PeerMessage :=
  zip_with (fun h content => PeerFilter (mkCFilter FILTER_BASIC (block_hash h) content))
    (take (s + 1 - j) (drop j best)) (take (s + 1 - j) (drop j contents)).

(** What the peer answers: the 2000 headers after the first locator, when that
    is on its chain; the filter headers, and the filters one by one, from a
    height to a stop block. *)
Record serves : Prop := {
  sv_headers j k rest : hashes_from a best !! j = Some k ->
    reply (GetHeaders (mkGetHeaderConfig (k :: rest) None)) = [PeerHeaders (take 2000 (drop j best))];
  sv_filter_headers j s h : (j <= s < j + 2000)%nat -> best !! s = Some h ->
    reply (GetFilterHeaders (mkGetCFHeaders FILTER_BASIC (b + 1 + Z.of_nat j) (block_hash h))) =
      [PeerFilterHeaders (cf_answer prev0 contents j s (block_hash h))];
  sv_filters j s h : (j <= s < j + 1000)%nat -> best !! s = Some h ->
    reply (GetFilters (mkGetCFilters FILTER_BASIC (b + 1 + Z.of_nat j) (block_hash h))) =
      filter_answers j s;
}.

Context (Hbest : honest_chain a b n best) (Hcontents : length contents = length best).
Context (Hlo : lo <= b + 2) (Hroom : is_u32 (b + 2000 + Z.of_nat (length best))).
Context (Hserves : serves).

Abbreviation commits := (peer_commits prev0 contents) (only parsing).
Abbreviation following := (following (D := D) a b lo n best commits contents) (only parsing).

(** The node, connected to the peer, with [l] on the channel. *)
Record behind (p q m : nat) (s : NodeState) (l : list MainThreadMessage) (nd : Node D P) : Prop := {
  bh_following : following p q m (chain nd);
  bh_state : state nd = s;
  bh_peer : exists x, pm_map (peer_map nd) !! peer = Some x /\ mp_finished x = false /\ ptx x = l;
}.

(** ** Frames *)

Lemma behind_chain p q m p' q' m' s l nd c :
  behind p q m s l nd -> following p' q' m' c -> behind p' q' m' s l (set_chain c nd).
Proof. intros [] Hc. by split. Qed.

Lemma behind_sent p q m s l nd : behind p q m s l nd -> sent nd = l.
Proof. intros [_ _ (x & Hx & _ & Hl)]. unfold sent. by rewrite Hx. Qed.

Lemma behind_say {E} p q m s l nd o :
  behind p q m s l nd ->
  exists nd', node_say (E := E) o nd = (inr (), nd') /\ behind p q m s l nd'.
Proof.
  intros Hb. eexists. split; [done|]. eapply behind_chain; [exact Hb|].
  by destruct (bh_following _ _ _ _ _ _ Hb).
Qed.

(** The chain's tree and requests are untouched. *)
Definition same_chain (nd nd' : Node D P) : Prop :=
  header_chain (chain nd') = header_chain (chain nd) /\
  request_state (chain nd') = request_state (chain nd).

(** Sending on the connection, alone or with all the others. *)
Lemma behind_map {E A} p q m s l nd msg (f : PeerMap P -> A * PeerMap P) :
  behind p q m s l nd ->
  (forall pm, pm_map pm = pm_map (peer_map nd) ->
     pm_heights (f pm).2 = pm_heights pm /\ pm_dialog (f pm).2 = pm_dialog pm /\
     forall x, pm_map pm !! peer = Some x -> pm_map (f pm).2 !! peer = Some (channel_send msg x)) ->
  exists r nd', peer_map_run (E := E) f nd = (inr r, nd') /\
    behind p q m s (l ++ [msg]) nd' /\ same_chain nd nd'.
Proof.
  intros [Hf Hs (x & Hx & Hfin & Hl)] Hmap. unfold peer_map_run, on_peer_map.
  destruct (Hmap (lend (chain nd) (peer_map nd)) eq_refl) as (Hh & Hd & Hp).
  destruct (f _) as [r pm]. do 2 eexists. split; [reflexivity|]. cbn [snd] in *. split; [|done]. split; cbn [chain state peer_map].
  - destruct Hf. split; try done. cbn [heights take_back]. by rewrite Hh.
  - done.
  - exists (channel_send msg x). split; [by apply Hp|]. unfold channel_send. rewrite Hfin. cbn.
    by rewrite Hl.
Qed.

Lemma behind_respond {E} p q m s l nd r :
  behind p q m s l nd ->
  exists nd', respond (E := E) peer r nd = (inr (), nd') /\
    behind p q m s (l ++ option_list r) nd' /\ same_chain nd nd'.
Proof.
  intros Hb. destruct r as [msg|]; cbn [respond option_list]; [|rewrite app_nil_r; by eexists].
  destruct (behind_map (E := E) p q m s l nd msg (fun pm => ((), send_message peer msg pm)) Hb)
    as ([] & nd' & Hr & Hb').
  { intros pm _. split_and!; [done..|]. intros x Hx. cbn.
    by rewrite lookup_alter_eq, Hx. }
  by exists nd'.
Qed.

Lemma behind_respond_all {E} p q m s l nd r :
  behind p q m s l nd ->
  exists nd', respond_all (E := E) r nd = (inr (), nd') /\
    behind p q m s (l ++ option_list r) nd' /\ same_chain nd nd'.
Proof.
  intros Hb. destruct r as [msg|]; cbn [respond_all option_list]; [|rewrite app_nil_r; by eexists].
  destruct (behind_map (E := E) p q m s l nd msg (broadcast msg) Hb) as (r & nd' & Hr & Hb').
  { intros pm _. split_and!; [done..|]. intros x Hx. cbn. by rewrite lookup_fmap, Hx. }
  exists nd'. split; [|done]. unfold node_broadcast, peer_map_run.
  by rewrite (st_bind_ok _ _ _ _ _ Hr).
Qed.

Lemma chain_result_ok {E X A} (f : ST (Chain D) X A) (nd : Node D P) r c' :
  f (chain nd) = (r, c') -> chain_result (E := E) f nd = (inr r, set_chain c' nd).
Proof. unfold chain_result. by intros ->. Qed.

Lemma chain_run_ok {E A} (f : Chain D -> A * Chain D) (nd : Node D P) r c' :
  f (chain nd) = (r, c') -> chain_run (E := E) f nd = (inr r, set_chain c' nd).
Proof. unfold chain_run, on_chain, st_run. by intros ->. Qed.

(** ** The request in progress *)

(** [r] is what the node asks for next: more headers, or filter headers when
    the headers are complete, or filters when those are. *)
Inductive request (p q m : nat) (c : Chain D) : MainThreadMessage -> Prop :=
  | rq_headers : request p q m c (get_headers_message c)
  | rq_filter_headers h :
      m = length best -> (p < m)%nat -> best !! stop_index best p CF_HEADER_BATCH_SIZE = Some h ->
      last_filter_header_request (request_state c) =
        Some (mkFilterHeaderRequest (b + 1 + Z.of_nat p) (block_hash h)
                (expected_before prev0 contents p)) ->
      request p q m c (GetFilterHeaders (mkGetCFHeaders FILTER_BASIC (b + 1 + Z.of_nat p) (block_hash h)))
  | rq_filters h :
      m = length best -> p = m -> (q < m)%nat -> best !! stop_index best q FILTER_BATCH_SIZE = Some h ->
      last_filter_request (request_state c) =
        Some (mkFilterRequest (b + 1 + Z.of_nat q) (block_hash h)) ->
      request p q m c (GetFilters (mkGetCFilters FILTER_BASIC (b + 1 + Z.of_nat q) (block_hash h))).

(** How many requests are left at most: 976 headers, 2000 filter headers or 1000
    filters for each. *)
Definition filter_rounds (p q : nat) : nat :=
  ((length best - p + 1999) / 2000 + (length best - q + 999) / 1000)%nat.

Definition rounds (p q m : nat) : nat := ((length best - m) / 976 + 1 + filter_rounds p q)%nat.

Definition rounds_of (p q m : nat) (r : MainThreadMessage) : nat :=
  match r with GetHeaders _ => rounds p q m | _ => filter_rounds p q end.

(** What is asked next, after a headers message or a complete batch. *)
Lemma next_request p q m c :
  following p q m c ->
  exists o c', next_stateful_message c = (o, c') /\ following p q m c' /\
    (forall r, o = Some r -> request p q m c' r /\
       (rounds_of p q m r <= if decide (m < length best)%nat then rounds p q m else filter_rounds p q)%nat) /\
    (o = None -> m = length best /\ p = m /\ q = m).
Proof.
  intros Hf. pose proof (fo_tree _ _ _ _ _ _ _ _ _ _ _ Hf) as Ht.
  pose proof (ob_marks_length _ _ _ _ _ _ _ _ _ Ht) as Hpq.
  pose proof (ob_length _ _ _ _ _ _ _ _ _ Ht) as Hm.
  unfold next_stateful_message. rewrite (following_synced _ _ _ _ _ _ _ _ _ _ _ Hf).
  unfold is_cf_headers_synced, is_filters_synced.
  rewrite (cf_headers_synced_iff _ _ _ _ _ _ Hcontents Ht), (filters_synced_iff _ _ _ _ _ _ Hcontents Ht).
  case_bool_decide as Hend; cbn [negb].
  2: { exists (Some (get_headers_message c)), c. split_and!; [done|done| |done].
       intros r [= <-]. rewrite decide_True by lia. split; [constructor|done]. }
  subst m. rewrite decide_False by lia. case_bool_decide as Hp; cbn [negb].
  - case_bool_decide as Hq; cbn [negb]; [by exists None, c|].
    destruct (next_filter_follows a b lo n best prev0 contents Hbest Hcontents Hlo Hroom p q c Hf ltac:(lia))
      as (h & c' & Hh & Hn & Hf' & Hl). rewrite Hn. do 2 eexists. split; [done|].
    split; [done|]. split; [|done]. intros r [= <-]. split; [econstructor; (done || lia)|done].
  - destruct (next_cf_follows a b lo n best prev0 contents Hbest Hcontents Hlo Hroom p q c Hf ltac:(lia))
      as (h & c' & Hh & Hn & Hf' & Hl). rewrite Hn. do 2 eexists. split; [done|].
    split; [done|]. split; [|done]. intros r [= <-]. split; [econstructor; (done || lia)|done].
Qed.

(** ** One message *)

(** A handled answer leaves the node with at most one request more, and fewer
    to come; without a request everything is there. *)
Definition answered (p q m : nat) (bound : nat) (s : NodeState) (l : list MainThreadMessage)
    (nd : Node D P) : Prop :=
  exists o, behind p q m s (l ++ option_list o) nd /\
    (forall r, o = Some r -> request p q m (chain nd) r /\ (rounds_of p q m r <= bound)%nat) /\
    (o = None -> m = length best /\ p = m /\ q = m).

(** The handler that ends with [next_stateful_message], and its reply. *)
Lemma answered_next {E} p q m s l nd (send : option MainThreadMessage -> ST (Node D P) E ()) :
  behind p q m s l nd ->
  (forall o nd, behind p q m s l nd ->
     exists nd', send o nd = (inr (), nd') /\ behind p q m s (l ++ option_list o) nd' /\ same_chain nd nd') ->
  exists nd', (chain_run next_stateful_message ≫= send) nd = (inr (), nd') /\
    answered p q m (if decide (m < length best)%nat then rounds p q m else filter_rounds p q) s l nd'.
Proof.
  intros Hb Hsend. destruct (next_request p q m _ (bh_following _ _ _ _ _ _ Hb))
    as (o & c' & Hn & Hf & Hsome & Hnone).
  rewrite (st_bind_ok _ _ _ _ _ (chain_run_ok _ _ _ _ Hn)).
  destruct (Hsend o (set_chain c' nd)) as (nd' & Hr & Hb' & Ht & Hrs).
  { by eapply behind_chain. }
  exists nd'. split; [done|]. exists o. split; [done|]. split; [|done].
  intros r Ho. destruct (Hsome r Ho) as [Hreq Hle]. split; [|done]. cbn [chain set_chain] in Ht, Hrs.
  inversion Hreq as [Hg|h ? ? ? ? Hg|h ? ? ? ? ? Hg]; subst r.
  - unfold get_headers_message. rewrite <- Ht. constructor.
  - eapply rq_filter_headers; try done. by rewrite Hrs.
  - eapply rq_filters; try done. by rewrite Hrs.
Qed.

Lemma st_bind_assoc {S E A B C} (m : ST S E A) (f : A -> ST S E B) (g : B -> ST S E C) x :
  ((m ≫= f) ≫= g) x = (m ≫= (fun a => f a ≫= g)) x.
Proof. unfold mbind, ST_bind. by destruct (m x) as [[e|y] x']. Qed.

Lemma feed_one e msg nd nd' :
  handle_peer filter_control e (mkPeerThreadMessage peer msg) nd = (inr (), nd') ->
  feed e [msg] nd = (inr (), nd').
Proof. intros Hh. cbn [feed]. by rewrite (st_bind_ok _ _ _ _ _ Hh). Qed.

Lemma respond_next {E} p q m s l nd :
  behind p q m s l nd ->
  exists nd', (chain_run next_stateful_message ≫= respond (E := E) peer) nd = (inr (), nd') /\
    answered p q m (if decide (m < length best)%nat then rounds p q m else filter_rounds p q) s l nd'.
Proof. intros Hb. apply (answered_next _ _ _ _ _ _ _ Hb). intros o nd'. apply behind_respond. Qed.

(** A request for headers brings the tree 976 blocks further, or to the end. *)
Lemma headers_step e p q m s l nd :
  behind p q m s l nd ->
  exists m' nd', feed e (reply (get_headers_message (chain nd))) nd = (inr (), nd') /\
    answered p q m' (rounds p q m - 1) s l nd' /\ (m <= m')%nat.
Proof.
  intros Hb. pose proof (bh_following _ _ _ _ _ _ Hb) as Hf.
  pose proof (fo_tree _ _ _ _ _ _ _ _ _ _ _ Hf) as Ht.
  pose proof (ob_length _ _ _ _ _ _ _ _ _ Ht) as Hm.
  destruct (locators_first _ _ _ _ _ Ht) as (k & rest & j & Hloc & Hk & Hjm & Hd).
  unfold get_headers_message. rewrite Hloc, (sv_headers Hserves _ _ _ Hk).
  set (nd1 := reset_last_block (env_now e) nd).
  assert (behind p q m s l nd1) as Hb1 by (by destruct Hb; split).
  assert (forall m' c' r, sync_chain (take 2000 (drop j best)) (chain nd1) = (r, c') ->
    r = inr () \/ r = inl EmptyMessage /\ m' = length best -> following p q m' c' ->
    (m' = length best \/ m + 976 <= m')%nat ->
    exists nd', feed e [PeerHeaders (take 2000 (drop j best))] nd = (inr (), nd') /\
      answered p q m' (rounds p q m - 1) s l nd' /\ (m <= m')%nat) as Hstep.
  { intros m' c' r Hsync Hr Hf' Hprog.
    pose proof (ob_length _ _ _ _ _ _ _ _ _ (fo_tree _ _ _ _ _ _ _ _ _ _ _ Hf')) as Hm'.
    destruct (respond_next (E := NodeError store_error peer_store_error) p q m' s l (set_chain c' nd1))
      as (nd' & Hresp & o & Hb' & Hsome & Hnone).
    { by eapply behind_chain. }
    exists nd'. split.
    - apply feed_one. cbn [handle_peer ptm_message ptm_nonce]. rewrite st_modify_ok. fold nd1.
      unfold handle_headers. rewrite st_bind_assoc, (st_bind_ok _ _ _ _ _ (chain_result_ok _ _ _ _ Hsync)).
      destruct Hr as [->|[-> ->]]; [exact Hresp|].
      rewrite st_bind_assoc, st_get_ok. cbn [chain set_chain].
      rewrite (following_synced _ _ _ _ _ _ _ _ _ _ _ Hf'), bool_decide_true by done. exact Hresp.
    - split; [|lia]. exists o. split; [done|]. split; [|done]. intros x Hx.
      destruct (Hsome x Hx) as [Hreq Hle].
      split; [done|]. etransitivity; [exact Hle|]. unfold rounds, filter_rounds.
      case_decide; [|lia].
      assert ((length best - m') / 976 + 1 <= (length best - m) / 976)%nat; [|lia].
      replace (length best - m)%nat with ((length best - m - 976) + 1 * 976)%nat by lia.
      rewrite Nat.div_add by done. pose proof (Nat.Div0.div_le_mono (length best - m') (length best - m - 976) 976). lia. }
  destruct (decide (m = length best)) as [->|Hne].
  - destruct (Hstep (length best) (chain nd1) _
      (sync_chain_no_news _ _ _ _ _ _ _ Hbest p q j 2000 (chain nd1) Hf ltac:(lia) ltac:(lia)))
      as (nd' & ? & ? & ?); [|done|by left|by eauto].
    case_decide; [by right|by left].
  - destruct (sync_chain_follows _ _ _ _ _ _ _ Hbest p q m j 2000 (chain nd1) Hf ltac:(lia) ltac:(lia) ltac:(lia))
      as (c' & Hsync & Hf').
    destruct (Hstep ((j + 2000) `min` length best)%nat _ _ Hsync) as (nd' & ? & ? & ?);
      [by left|done|lia|by eauto].
Qed.

(** A request for filter headers commits 2000 more, or all. *)
Lemma filter_headers_step e p q s l nd h :
  behind p q (length best) s l nd -> (p < length best)%nat ->
  best !! stop_index best p CF_HEADER_BATCH_SIZE = Some h ->
  last_filter_header_request (request_state (chain nd)) =
    Some (mkFilterHeaderRequest (b + 1 + Z.of_nat p) (block_hash h) (expected_before prev0 contents p)) ->
  exists p' nd',
    feed e (reply (GetFilterHeaders (mkGetCFHeaders FILTER_BASIC (b + 1 + Z.of_nat p) (block_hash h)))) nd =
      (inr (), nd') /\
    answered p' q (length best) (filter_rounds p q - 1) s l nd' /\ (p <= p')%nat.
Proof.
  intros Hb Hp Hh Hreq. set (p' := stop_index best p CF_HEADER_BATCH_SIZE) in *.
  assert (p <= p' < length best /\ p' < p + 2000)%nat as Hp' by (unfold p', stop_index, CF_HEADER_BATCH_SIZE; lia).
  rewrite (sv_filter_headers Hserves p p' h ltac:(lia) Hh).
  set (c1 := send_chain_update (chain nd)).
  assert (following p q (length best) c1) as Hf1 by (by destruct (bh_following _ _ _ _ _ _ Hb)).
  destruct (sync_cf_follows a b lo n best prev0 contents Hbest Hcontents Hroom peer p q c1 h Hf1 Hp Hh Hreq)
    as (c' & Hsync & Hf').
  destruct (answered_next (E := NodeError store_error peer_store_error) (p' + 1) q (length best) s l
    (set_chain c' (set_chain c1 nd)) respond_all) as (nd' & Hresp & o & Hb' & Hsome & Hnone).
  { by do 2 eapply behind_chain. }
  { intros o nd'. apply behind_respond_all. }
  exists (p' + 1)%nat, nd'. split.
  - apply feed_one. cbn [handle_peer ptm_message ptm_nonce]. unfold handle_cf_headers.
    rewrite st_bind_assoc. unfold chain_do at 1.
    rewrite (st_bind_ok _ _ nd () (set_chain c1 nd)) by done.
    rewrite st_bind_assoc,
      (st_bind_ok _ _ _ _ _ (chain_result_ok (sync_cf_headers peer _) (set_chain c1 nd) _ _ Hsync)).
    exact Hresp.
  - split; [|lia]. exists o. split; [done|]. split; [|done]. intros x Hx. destruct (Hsome x Hx) as [Hrq Hle].
    split; [done|]. etransitivity; [exact Hle|]. rewrite decide_False by lia. unfold filter_rounds.
    assert ((length best - (p' + 1) + 1999) / 2000 + 1 <= (length best - p + 1999) / 2000)%nat; [|lia].
    etransitivity; [|apply (div_ceil_step (length best - p) 2000 1999); lia].
    apply Nat.add_le_mono_r, Nat.Div0.div_le_mono.
    unfold p', stop_index, CF_HEADER_BATCH_SIZE. lia.
Qed.

Lemma filter_answers_cons j s h content :
  (j <= s)%nat -> best !! j = Some h -> contents !! j = Some content ->
  filter_answers j s =
    PeerFilter (mkCFilter FILTER_BASIC (block_hash h) content) :: filter_answers (S j) s.
Proof.
  intros Hj Hh Hc. unfold filter_answers. rewrite (drop_S _ _ _ Hh), (drop_S _ _ _ Hc).
  replace (s + 1 - j)%nat with (S (s + 1 - S j)) by lia. done.
Qed.

(** The filters of an answer are checked one by one; the last one sends the next
    request. *)
Lemma feed_filters e g start st l : forall s d q nd,
  (d = s - q)%nat -> (q <= s < length best)%nat -> best !! s = Some g ->
  behind (length best) q (length best) st l nd ->
  last_filter_request (request_state (chain nd)) = Some (mkFilterRequest start (block_hash g)) ->
  exists nd', feed e (filter_answers q s) nd = (inr (), nd') /\
    answered (length best) (S s) (length best) (filter_rounds (length best) (S s)) st l nd'.
Proof.
  intros s. induction d as [|d IH]; intros q nd Hd Hqs Hg Hb Hreq;
    (destruct (lookup_lt_is_Some_2 best q) as [h Hh]; [lia|]);
    (destruct (lookup_lt_is_Some_2 contents q) as [content Hcontent]; [lia|]);
    rewrite (filter_answers_cons q s h content) by (done || lia); cbn [feed];
    destruct (sync_filter_follows a b lo n best prev0 contents Hbest Hcontents Hlo Hroom filter_control
      q s (chain nd) h g content start (bh_following _ _ _ _ _ _ Hb) Hqs Hh Hcontent Hg Hreq)
      as (r & c' & Hsync & Hf' & Hmore & Hlast & Hnext);
    cbn [handle_peer ptm_message ptm_nonce]; unfold handle_filter at 1.
  - assert (q = s) as -> by lia. unfold filter_answers. rewrite Nat.add_1_r, Nat.sub_diag. cbn [take zip_with feed].
    destruct (decide (S s = length best)) as [Hend|Hlt].
    + rewrite (Hlast eq_refl Hend) in Hsync. exists (set_chain c' nd). split.
      * rewrite st_bind_assoc, st_bind_assoc, (st_bind_ok _ _ _ _ _ (chain_result_ok _ _ _ _ Hsync)). done.
      * exists None. cbn [option_list]. rewrite app_nil_r.
        split; [by eapply behind_chain|]. split; [done|]. by rewrite Hend.
    + destruct (Hnext eq_refl ltac:(lia)) as (k & Hk & -> & Hl').
      set (c2 := send_chain_update c').
      assert (following (length best) (S s) (length best) c2) as Hf2 by (by destruct Hf').
      set (msg := GetFilters (mkGetCFilters FILTER_BASIC (b + 1 + Z.of_nat (S s)) (block_hash k))).
      destruct (behind_respond (E := NodeError store_error peer_store_error) (length best) (S s) (length best)
        st l (set_chain c2 (set_chain c' nd)) (Some msg)) as (nd' & Hresp & Hb' & Hch & Hrs).
      { by do 2 eapply behind_chain. }
      exists nd'. split.
      * rewrite st_bind_assoc, st_bind_assoc, (st_bind_ok _ _ _ _ _ (chain_result_ok _ _ _ _ Hsync)).
        rewrite (st_bind_ok _ _ (set_chain c' nd) (Some msg) (set_chain c2 (set_chain c' nd))) by done.
        by rewrite (st_bind_ok _ _ _ _ _ Hresp).
      * exists (Some msg). split; [done|]. split; [|done]. intros x [= <-]. split; [|done].
        eapply rq_filters; [done|done|lia|done|]. by rewrite Hrs.
  - destruct (Hmore ltac:(lia)) as [-> Hl'].
    destruct (IH (S q) (set_chain c' nd)) as (nd' & Hfeed & Ha); [lia|lia|done|..].
    { by eapply behind_chain. } { done. }
    exists nd'. split; [|done].
    rewrite st_bind_assoc, st_bind_assoc, (st_bind_ok _ _ _ _ _ (chain_result_ok _ _ _ _ Hsync)). exact Hfeed.
Qed.

Lemma filters_step e q s l nd h :
  behind (length best) q (length best) s l nd -> (q < length best)%nat ->
  best !! stop_index best q FILTER_BATCH_SIZE = Some h ->
  last_filter_request (request_state (chain nd)) =
    Some (mkFilterRequest (b + 1 + Z.of_nat q) (block_hash h)) ->
  exists q' nd',
    feed e (reply (GetFilters (mkGetCFilters FILTER_BASIC (b + 1 + Z.of_nat q) (block_hash h)))) nd =
      (inr (), nd') /\
    answered (length best) q' (length best) (filter_rounds (length best) q - 1) s l nd'.
Proof.
  intros Hb Hq Hh Hreq. set (q' := stop_index best q FILTER_BATCH_SIZE) in *.
  assert (q <= q' < length best /\ q' < q + 1000)%nat as Hq' by (unfold q', stop_index, FILTER_BATCH_SIZE; lia).
  rewrite (sv_filters Hserves q q' h ltac:(lia) Hh).
  destruct (feed_filters e h (b + 1 + Z.of_nat q) s l q' (q' - q) q nd eq_refl ltac:(lia) Hh Hb Hreq)
    as (nd' & Hfeed & o & Hb' & Hsome & Hnone).
  exists (S q'), nd'. split; [done|]. exists o. split; [done|]. split; [|done].
  intros x Hx. destruct (Hsome x Hx) as [Hrq Hle]. split; [done|]. etransitivity; [exact Hle|].
  unfold filter_rounds.
  assert ((length best - S q' + 999) / 1000 + 1 <= (length best - q + 999) / 1000)%nat; [|lia].
  etransitivity; [|apply (div_ceil_step (length best - q) 1000 999); lia].
  apply Nat.add_le_mono_r, Nat.Div0.div_le_mono. unfold q', stop_index, FILTER_BATCH_SIZE. lia.
Qed.

Lemma rounds_positive p q m c r : request p q m c r -> (0 < rounds_of p q m r)%nat.
Proof.
  unfold rounds_of, rounds, filter_rounds. intros []; cbn [get_headers_message]; [lia|..].
  - pose proof (div_ceil_step (length best - p) 2000 1999 ltac:(lia) ltac:(lia) eq_refl). lia.
  - pose proof (div_ceil_step (length best - q) 1000 999 ltac:(lia) ltac:(lia) eq_refl). lia.
Qed.

(** The whole exchange. *)
Lemma exchange_converges fuel : forall k p q m s l r nd,
  behind p q m s (l ++ [r]) nd -> length l = k -> request p q m (chain nd) r ->
  (rounds_of p q m r <= fuel)%nat ->
  exists j nd' l', exchange fuel k nd = (inr j, nd') /\
    behind (length best) (length best) (length best) s l' nd' /\ length l' = j /\
    (j <= k + rounds_of p q m r)%nat.
Proof.
  induction fuel as [|fuel IH]; intros k p q m s l r nd Hb Hk Hreq Hfuel.
  { pose proof (rounds_positive _ _ _ _ _ Hreq). lia. }
  cbn [exchange]. rewrite st_get_ok, (behind_sent _ _ _ _ _ _ Hb).
  rewrite lookup_app_r, Hk, Nat.sub_diag by lia. change ([r] !! 0%nat) with (Some r). cbv iota beta.
  assert (exists p' q' m' nd', feed (env k) (reply r) nd = (inr (), nd') /\
    answered p' q' m' (rounds_of p q m r - 1) s (l ++ [r]) nd') as (p' & q' & m' & nd' & Hfeed & Ha).
  { destruct Hreq as [|h -> Hp Hh Hl|h -> -> Hq Hh Hl].
    - destruct (headers_step (env k) _ _ _ _ _ _ Hb) as (m' & nd' & ? & ? & _). by exists p, q, m', nd'.
    - destruct (filter_headers_step (env k) _ _ _ _ _ _ Hb Hp Hh Hl) as (p' & nd' & ? & ? & _).
      by exists p', q, (length best), nd'.
    - destruct (filters_step (env k) _ _ _ _ _ Hb Hq Hh Hl) as (q' & nd' & ? & ?).
      by exists (length best), q', (length best), nd'. }
  rewrite (st_bind_ok _ _ _ _ _ Hfeed). destruct Ha as (o & Hb' & Hsome & Hnone).
  pose proof (rounds_positive _ _ _ _ _ Hreq) as Hpos.
  destruct o as [r'|]; cbn [option_list] in Hb'.
  - destruct (Hsome r' eq_refl) as [Hreq' Hle].
    destruct (IH (S k) p' q' m' s (l ++ [r]) r' nd' Hb') as (j & nd2 & l' & Hex & Hb2 & Hl' & Hj).
    { rewrite length_app. cbn. lia. } { done. } { lia. }
    exists j, nd2, l'. split_and!; try done. lia.
  - destruct (Hnone eq_refl) as (-> & -> & ->). rewrite app_nil_r in Hb'.
    exists (S k), nd', (l ++ [r]). split_and!; [|done|rewrite length_app; cbn; lia|lia].
    destruct fuel as [|fuel]; [done|]. cbn [exchange].
    rewrite st_get_ok, (behind_sent _ _ _ _ _ _ Hb').
    rewrite (lookup_ge_None_2 _ (S k)) by (rewrite length_app; cbn; lia). done.
Qed.

(** Three turns of the state machine on a synchronized chain. *)
Definition advanced (s' : NodeState) (m : Node D P) : Node D P :=
  set_state s' (set_chain (say (SendInfo (StateChange s')) (chain m)) m).

Lemma three_advances {E} now (nd : Node D P) :
  state nd = Behind -> is_synced (chain nd) = true -> is_cf_headers_synced (chain nd) = true ->
  is_filters_synced (chain nd) = true ->
  state ((advance_state (E := E) now;; advance_state now;; advance_state now) nd).2 = FiltersSynced.
Proof.
  intros Hs H1' H2' H3'.
  assert (forall s s' (m : Node D P), state m = s -> match s with
      | Behind => s' = HeadersSynced /\ is_synced (chain m) = true
      | HeadersSynced => s' = FilterHeadersSynced /\ is_cf_headers_synced (chain m) = true
      | FilterHeadersSynced => s' = FiltersSynced /\ is_filters_synced (chain m) = true
      | _ => False
      end ->
    advance_state (E := E) now m = (inr (), advanced s' m)) as Hadv.
  { intros s s' m Hm Hstep. unfold advance_state. rewrite !st_get_ok, Hm.
    destruct s; try done; destruct Hstep as [-> Hc]; by rewrite Hc. }
  pose proof (Hadv Behind HeadersSynced nd Hs (conj eq_refl H1')) as Ha1.
  pose proof (Hadv HeadersSynced FilterHeadersSynced (advanced HeadersSynced nd) eq_refl (conj eq_refl H2')) as Ha2.
  pose proof (Hadv FilterHeadersSynced FiltersSynced (advanced FilterHeadersSynced (advanced HeadersSynced nd))
    eq_refl (conj eq_refl H3')) as Ha3.
  by rewrite (st_bind_ok _ _ _ _ _ Ha1), (st_bind_ok _ _ _ _ _ Ha2), Ha3.
Qed.

(** What a node has that is behind by nothing. *)
Definition synchronized (s : NodeState) (nd : Node D P) : Prop :=
  ih_header <$> iter_headers (header_chain (chain nd)) = reverse best /\
  (forall j h, best !! j = Some h ->
     tree_filter_commitment (header_chain (chain nd)) (block_hash h) = commits !! j /\
     is_filter_checked (header_chain (chain nd)) (block_hash h) = true) /\
  is_synced (chain nd) = true /\ is_cf_headers_synced (chain nd) = true /\
  is_filters_synced (chain nd) = true /\ state nd = s /\
  (s = Behind -> forall now, state ((advance_state (E := NodeError store_error peer_store_error) now;;
                                advance_state now;; advance_state now) nd).2 = FiltersSynced).

Lemma behind_complete s l nd :
  behind (length best) (length best) (length best) s l nd -> synchronized s nd.
Proof.
  intros Hb. pose proof (bh_following _ _ _ _ _ _ Hb) as Hf.
  pose proof (fo_tree _ _ _ _ _ _ _ _ _ _ _ Hf) as Ht.
  assert (is_synced (chain nd) = true) as H1'.
  { rewrite (following_synced _ _ _ _ _ _ _ _ _ _ _ Hf). by apply bool_decide_true. }
  assert (is_cf_headers_synced (chain nd) = true) as H2'.
  { unfold is_cf_headers_synced. rewrite (cf_headers_synced_iff _ _ _ _ _ _ Hcontents Ht).
    by apply bool_decide_true. }
  assert (is_filters_synced (chain nd) = true) as H3'.
  { unfold is_filters_synced. rewrite (filters_synced_iff _ _ _ _ _ _ Hcontents Ht).
    by apply bool_decide_true. }
  unfold synchronized. split_and!; try done.
  - pose proof (ob_chain _ _ _ _ _ _ _ _ _ Ht) as Hch. by rewrite firstn_all in Hch.
  - intros j h Hj. pose proof (lookup_lt_Some _ _ _ Hj) as Hlt.
    destruct (on_best_known _ _ _ _ _ Ht j h Hlt Hj) as (x & Hx & _).
    destruct (ob_marks _ _ _ _ _ _ _ _ _ Ht j h x Hlt Hj Hx) as [Hcm Hck].
    rewrite decide_True in Hcm by done. rewrite bool_decide_true in Hck by done.
    unfold tree_filter_commitment, is_filter_checked. rewrite Hx. by split.
  - by destruct Hb.
  - intros -> now. apply three_advances; try done. by destruct Hb.
Qed.

(** A node synchronizes with an honest peer.  From any state behind the
    peer (a fresh node, a restarted one, or one that missed blocks), once the
    node has asked for headers the exchange ends, after at most as many requests
    as computed: one for each 976 headers, 2000 filter headers and 1000 filters
    that are missing.  Then every message on the channel is answered, the active
    chain is the peer's chain, every block has the commitment of the peer's
    filter header chain and a checked filter, and the state machine advances to
    [FiltersSynced]. *)
Theorem honest_peer_synchronizes p q m s l nd fuel :
  behind p q m s (l ++ [get_headers_message (chain nd)]) nd -> (rounds p q m <= fuel)%nat ->
  exists k nd', exchange fuel (length l) nd = (inr k, nd') /\
    k = length (sent nd') /\ (k <= length l + rounds p q m)%nat /\
    ih_header <$> iter_headers (header_chain (chain nd')) = reverse best /\
    (forall j h, best !! j = Some h ->
       tree_filter_commitment (header_chain (chain nd')) (block_hash h) = commits !! j /\
       is_filter_checked (header_chain (chain nd')) (block_hash h) = true) /\
    is_synced (chain nd') = true /\ is_cf_headers_synced (chain nd') = true /\
    is_filters_synced (chain nd') = true /\ state nd' = s /\
    (s = Behind -> forall now, state ((advance_state (E := NodeError store_error peer_store_error) now;;
                                  advance_state now;; advance_state now) nd').2 = FiltersSynced).
Proof.
  intros Hb Hfuel.
  destruct (exchange_converges fuel (length l) p q m s l _ nd Hb eq_refl (rq_headers _ _ _ _) Hfuel)
    as (k & nd' & l' & Hex & Hb' & Hl & Hk).
  exists k, nd'. rewrite (behind_sent _ _ _ _ _ _ Hb'), Hl. split_and!; try done.
  all: by apply (behind_complete _ _ _ Hb').
Qed.
End Exchange.

(** ** An exchange with a small peer *)
Module ToyConverge.
Export ToyNode.

Definition contents : list bytes := [[11]; [12]; [13]].

(** The place of a hash in the peer's chain: the anchor 100, then 1, 2, 3. *)
Definition place (k : BlockHash) : nat := if k =? 100 then 0 else Z.to_nat k.

Definition toy_reply (m : MainThreadMessage) : list PeerMessage :=
  match m with
  | GetHeaders cfg =>
      match ghc_locators cfg with
      | k :: _ => [PeerHeaders (take 2000 (drop (place k) batch))]
      | [] => []
      end
  | GetFilterHeaders r =>
      [PeerFilterHeaders (cf_answer 0 contents (Z.to_nat (gcfh_start_height r - 1))
         (place (gcfh_stop_hash r) - 1) (gcfh_stop_hash r))]
  | GetFilters r =>
      filter_answers batch contents (Z.to_nat (gcf_start_height r - 1)) (place (gcf_stop_hash r) - 1)
  | _ => []
  end.

Definition asking : Node (SqliteHeaderDb ToySql.table) (SqlitePeerDb peer_table) :=
  {| state := Behind; chain := toy_start;
     peer_map := set_map (fun _ =>
       {[1 := mkManagedPeer 0 addr_b 8333 65 250 [WtxidRelay; get_headers_message toy_start] false]})
       toy_map;
     tx_broadcaster := broadcaster_new; required_peers := 1; last_block_monitor := last_block_new |}.

Lemma batch_lookup j h :
  batch !! j = Some h ->
  j = 0%nat /\ h = hdr 1 100 1 \/ j = 1%nat /\ h = hdr 2 1 1 \/ j = 2%nat /\ h = hdr 3 2 1.
Proof. destruct j as [|[|[|j]]]; [intros [= <-]; auto..|done]. Qed.

Lemma toy_honest : honest_chain 100 0 Regtest batch.
Proof.
  split.
  - intros j h Hj. by destruct (batch_lookup _ _ Hj) as [[-> ->]|[[-> ->]|[-> ->]]].
  - by apply (bool_decide_unpack _).
  - intros h [j Hj]%list_elem_of_lookup.
    by destruct (batch_lookup _ _ Hj) as [[-> ->]|[[-> ->]|[-> ->]]].
  - by left.
  - split; [lia|by vm_compute].
Qed.

Lemma toy_serves : serves toy_reply 100 0 batch 0 contents.
Proof.
  split.
  - intros j k rest Hk. unfold toy_reply. cbn [ghc_locators].
    destruct j as [|[|[|[|j]]]]; [injection Hk as <-; reflexivity..|done].
  - intros j s h Hjs Hs. unfold toy_reply. cbn [gcfh_start_height gcfh_stop_hash].
    replace (Z.to_nat (0 + 1 + Z.of_nat j - 1)) with j by lia.
    by destruct (batch_lookup _ _ Hs) as [[-> ->]|[[-> ->]|[-> ->]]].
  - intros j s h Hjs Hs. unfold toy_reply. cbn [gcf_start_height gcf_stop_hash].
    replace (Z.to_nat (0 + 1 + Z.of_nat j - 1)) with j by lia.
    by destruct (batch_lookup _ _ Hs) as [[-> ->]|[[-> ->]|[-> ->]]].
Qed.

Lemma toy_behind :
  behind 1 100 0 1 Regtest batch 0 contents 0 0 0 Behind
    ([WtxidRelay] ++ [get_headers_message (chain asking)]) asking.
Proof.
  split; [|done|eexists; split; [reflexivity|done]]. split; try done.
  - split.
    + exact (wf_tree_new (from_checkpoint 0 100) Regtest).
    + exact (canonical_ok_new (from_checkpoint 0 100) Regtest 1).
    + done.
    + cbn. lia.
    + intros h x _ Hx. cbn in Hx. by rewrite lookup_empty in Hx.
    + by vm_compute.
    + lia.
    + intros j h x Hj. lia.
  - intros cp j h Hin. by apply elem_of_nil in Hin.
  - intros j h content Hj Hc. by destruct (batch_lookup _ _ Hj) as [[-> ->]|[[-> ->]|[-> ->]]];
      injection Hc as <-.
Qed.

Lemma honest_peer_synchronizes_witness :
  exists k nd', exchange false 1 (fun _ => toy_env) toy_reply 5 1 asking = (inr k, nd') /\
    k = 4%nat /\ ih_header <$> iter_headers (header_chain (chain nd')) = reverse batch /\
    is_filters_synced (chain nd') = true.
Proof.
  destruct (honest_peer_synchronizes false 1 (fun _ => toy_env) toy_reply 100 0 1 Regtest batch 0 contents
    toy_honest eq_refl ltac:(lia) ltac:(by vm_compute) toy_serves 0 0 0 Behind [WtxidRelay] asking 5
    toy_behind ltac:(vm_compute; lia)) as (k & nd' & Hex & Hk & _ & Hch & _ & _ & _ & Hfs & _).
  change (length [WtxidRelay]) with 1%nat in Hex.
  exists k, nd'. split; [exact Hex|]. split; [|by split].
  assert (Some k = Some 4%nat) as Heq; [|by injection Heq].
  trans (match (exchange false 1 (fun _ => toy_env) toy_reply 5 1 asking).1 with
         | inr k => Some k | inl _ => None end); [by rewrite Hex|by vm_compute].
Defined.
End ToyConverge.
