(* ===== verification/Overtake.v ===== *)
(** * Leaving a stale fork for the chain of an honest peer

    The node follows a fork: above the first [m] headers of the peer's chain its
    active chain goes on with [stale] headers.  When the peer sends its own
    headers, which make a chain of more work, the block tree keeps them as a
    candidate fork until their work exceeds that of the active chain, then
    reorganizes, and the node is on the peer's chain as in [HeaderSync]; from
    there [Converge] applies.

    The first header of a fork only opens the fork, however much work it has;
    so the peer's chain must be at least two headers above the common part.  A
    lower chain of more work would leave stale entries in the map of heights
    ([TreeProperties.lower_reorganization_leaves_stale_heights]); it is required
    that the peer's chain overtakes in work no lower than it does in height. *)

From stdpp Require Import base numbers list gmap sorting strings.
From Stdlib Require Import ZArith Lia.
From S2P Require Import Prelude Bitcoin ChainTypes Graph Walk GraphFacts Reorg ActiveChain FilterMarks TreeProperties.
From S2P Require Import Checkpoints Batches BlockQueue Messages HeaderStore PeerStore Chain ChainFacts FilterSync.
From S2P Require Import ChainProperties HeaderSync FilterProgress Network Wire Dns PeerMap Node NodeFacts NodeProperties Converge.

(** The work of a list of headers. *)
Definition works `{Bitcoin} (l : list Header) : Work := foldr (fun h w => w + header_work h) 0 l.

Section Fork.
Context `{Bitcoin} `{!WorkLaws}.
Context (a : BlockHash) (b lo : Height) (n : Network) (best : list Header).
Context (commits : list FilterCommitment).
Context (Hbest : honest_chain a b n best) (Hlo : lo <= b + 2).

Abbreviation hashes_from := (hashes_from a best).
Abbreviation on_best := (on_best a b lo best commits).

Lemma works_cons h l : works (h :: l) = works l + header_work h.
Proof. done. Qed.

Lemma works_app l1 l2 : works (l1 ++ l2) = works l1 + works l2.
Proof.
  induction l1 as [|h l1 IH]; [done|]. rewrite <- app_comm_cons, !works_cons, IH. lia.
Qed.

Lemma works_reverse l : works (reverse l) = works l.
Proof.
  induction l as [|h l IH]; [done|]. rewrite reverse_cons, works_app, IH, !works_cons. cbn. lia.
Qed.

Lemma work_sum_works l : work_sum l = works ((fun x => header x.2) <$> l).
Proof. induction l as [|x l IH]; [done|]. rewrite fmap_cons, works_cons, <- IH. done. Qed.

(** The first [k] headers are stored, with the marks of [on_best]. *)
Definition stored (p q k : nat) (hs : gmap BlockHash BlockNode) : Prop :=
  forall j h, (j < k)%nat -> best !! j = Some h ->
    exists x, hs !! block_hash h = Some x /\ header x = h /\ node_height x = b + 1 + Z.of_nat j /\
      filter_commitment x = (if decide (j < p)%nat then commits !! j else None) /\
      filter_checked x = bool_decide (j < q)%nat.

(** [m] headers in common, [stale] ones above (the newest first), and the first
    [k] of the peer's chain known, the ones above [m] as a candidate fork. *)
Record beside (p q m k : nat) (stale : list Header) (t : BlockTree) : Prop := {
  bs_wf : wf_tree a b t;
  bs_canonical : canonical_ok lo t;
  bs_accounted : accounted t;
  bs_chain : ih_header <$> iter_headers t = stale ++ reverse (take m best);
  bs_stale : stale <> [] /\ forall h, h ∈ stale -> h ∉ best;
  bs_length : (0 < m <= k)%nat /\ (k <= length best)%nat;
  bs_stored : stored p q k (headers t);
  bs_fresh j h : (k <= j)%nat -> best !! j = Some h -> headers t !! block_hash h = None;
  bs_fork : (m < k)%nat -> exists f, f ∈ candidate_forks t /\ hashes_from !! k = Some (th f);
  bs_collision h x : h ∈ best -> headers t !! block_hash h = Some x -> header x = h;
  bs_audited : audited t (drop k best);
  bs_marks_length : (p <= m)%nat /\ (q <= m)%nat;
  bs_height : is_u32 (tip_height (active_tip t) + 1);
}.

(** The stored part of the peer's chain as a walk. *)
Lemma stored_walk p q k hs i :
  wf_headers a b hs -> stored p q k hs -> (i <= k)%nat -> (i <= length best)%nat ->
  exists key l, hashes_from !! i = Some key /\ chain_from hs key l /\
    (fun x => header x.2) <$> l = reverse (take i best).
Proof.
  intros Hw Hst. induction i as [|i IH]; intros Hi Hlen.
  - exists a, []. split_and!; [done| |done]. constructor. apply (wf_anchor _ _ _ Hw).
  - destruct (lookup_lt_is_Some_2 best i) as [h Hh]; [lia|].
    destruct (Hst i h ltac:(lia) Hh) as (x & Hx & Hxh & _).
    destruct IH as (key & l & Hkey & Hl & Hm); [lia..|].
    pose proof (hc_linked _ _ _ _ Hbest _ _ Hh) as Hp. rewrite Hkey in Hp. injection Hp as Hp.
    exists (block_hash h), ((block_hash h, x) :: l). split_and!.
    + by apply hashes_succ.
    + constructor; [done|]. unfold node_prev. by rewrite Hxh, <- Hp.
    + rewrite (take_S_r _ _ _ Hh), reverse_app. cbn. by rewrite Hxh, Hm.
Qed.

Section Beside.
Context {p q m k : nat} {stale : list Header} {t : BlockTree} (Ht : beside p q m k stale t).

(** The active tip is the newest stale header. *)
Lemma beside_tip : exists x, headers t !! th (active_tip t) = Some x /\ header x ∈ stale.
Proof.
  destruct (active_walk _ _ _ (bs_wf _ _ _ _ _ _ Ht)) as [l Hc].
  pose proof (bs_chain _ _ _ _ _ _ Ht) as Hch. destruct (bs_stale _ _ _ _ _ _ Ht) as [Hne _].
  rewrite (iter_headers_chain _ _ _ _ (bs_wf _ _ _ _ _ _ Ht) Hc), <- list_fmap_compose in Hch.
  destruct stale as [|g rest]; [done|].
  inversion Hc as [k' Hk|k' x l' Hk Hl]; subst l; [done|].
  injection Hch as Hg _. exists x. split; [done|]. rewrite <- Hg. left.
Qed.

Lemma beside_known j h : (j < k)%nat -> best !! j = Some h -> accept_header t h = (Duplicate, t).
Proof.
  intros Hj Hh. destruct (bs_stored _ _ _ _ _ _ Ht j h Hj Hh) as (x & Hx & Hxh & _).
  unfold accept_header. rewrite decide_False; [by rewrite decide_True by (by eexists)|].
  intros Heq. apply (wt_leaf _ _ _ (bs_wf _ _ _ _ _ _ Ht) _ _ Hx). unfold node_prev. congruence.
Qed.

Lemma beside_contains j h :
  best !! j = Some h -> (k <= j)%nat -> contains t (block_hash h) = false.
Proof.
  intros Hh Hj. unfold contains. rewrite (bs_fresh _ _ _ _ _ _ Ht j h) by done.
  apply bool_decide_false. intros Heq. destruct beside_tip as (x & Hx & _).
  rewrite Heq, (bs_fresh _ _ _ _ _ _ Ht j h) in Hx by done. done.
Qed.

(** The work of the active chain and of the peer's headers. *)
Lemma beside_tip_work : tip_work t = works stale + works (take m best).
Proof.
  rewrite (tip_work_sum _ _ _ (bs_wf _ _ _ _ _ _ Ht) (bs_accounted _ _ _ _ _ _ Ht)).
  rewrite <- (works_reverse (take m best)), <- works_app, <- (bs_chain _ _ _ _ _ _ Ht).
  unfold iter_headers. rewrite <- list_fmap_compose. unfold works.
  induction (iter_data t) as [|x l IH]; [done|]. cbn. by rewrite IH.
Qed.

Lemma beside_parent h : best !! k = Some h -> exists x,
  headers t !! prev_blockhash h = Some x /\ header x ∈ best /\
  node_height x = b + Z.of_nat k /\ acc_work x = works (take k best).
Proof.
  intros Hh. pose proof (bs_length _ _ _ _ _ _ Ht) as Hlen.
  destruct (lookup_lt_is_Some_2 best (k - 1)) as [g Hg];
    [pose proof (lookup_lt_Some _ _ _ Hh); lia|].
  destruct (bs_stored _ _ _ _ _ _ Ht (k - 1)%nat g ltac:(lia) Hg) as (x & Hx & Hxg & Hxh & _).
  destruct (stored_walk _ _ _ _ k (wt_headers _ _ _ (bs_wf _ _ _ _ _ _ Ht))
    (bs_stored _ _ _ _ _ _ Ht)) as (key & l & Hkey & Hl & Hm); [lia..|].
  pose proof (hc_linked _ _ _ _ Hbest _ _ Hh) as Hp. rewrite Hkey in Hp. injection Hp as Hp.
  pose proof (hashes_succ a best _ _ Hg) as Hs. replace (S (k - 1)) with k in Hs by lia.
  rewrite Hkey in Hs. injection Hs as Hs. exists x. split_and!.
  - by rewrite <- Hp, Hs.
  - rewrite Hxg. by eapply list_elem_of_lookup_2.
  - rewrite Hxh. lia.
  - rewrite <- Hs in Hx. rewrite (accounted_sum _ _ _ _ (bs_accounted _ _ _ _ _ _ Ht) Hx Hl).
    by rewrite work_sum_works, Hm, works_reverse.
Qed.

Lemma beside_tip_height :
  tip_height (active_tip t) = b + Z.of_nat (length stale + m).
Proof.
  destruct (active_walk _ _ _ (bs_wf _ _ _ _ _ _ Ht)) as [l Hc].
  pose proof (bs_chain _ _ _ _ _ _ Ht) as Hch.
  rewrite (iter_headers_chain _ _ _ _ (bs_wf _ _ _ _ _ _ Ht) Hc), <- list_fmap_compose in Hch.
  apply (f_equal length) in Hch. rewrite length_fmap, length_app, length_reverse, length_take in Hch.
  pose proof (bs_length _ _ _ _ _ _ Ht). destruct beside_tip as (x & Hx & _).
  destruct (walk_heights _ _ _ _ _ _ (wt_headers _ _ _ (bs_wf _ _ _ _ _ _ Ht)) Hc Hx) as [Hh _].
  pose proof (wt_tip _ _ _ (bs_wf _ _ _ _ _ _ Ht)) as Hw. rewrite Hx in Hw. lia.
Qed.

Lemma beside_header_ok h : best !! k = Some h -> header_ok a t h.
Proof.
  intros Hh. assert (h ∈ best) as Hin by (by eapply list_elem_of_lookup_2). split.
  - intros x. by apply (bs_collision _ _ _ _ _ _ Ht).
  - by eapply best_not_anchor.
  - by eapply best_acyclic.
  - apply (bs_height _ _ _ _ _ _ Ht).
  - destruct (beside_parent _ Hh) as (x & Hx & _ & Hxh & _). intros y Hy.
    assert (y = x) as -> by congruence. destruct (hc_height _ _ _ _ Hbest) as [Hlow Hhigh].
    pose proof (lookup_lt_Some _ _ _ Hh). unfold is_u32 in *. lia.
Qed.

(** The next header of the peer is stored one higher, without marks. *)
Lemma stored_next h y hs :
  best !! k = Some h -> hs = <[block_hash h := y]> (headers t) -> header y = h ->
  node_height y = b + 1 + Z.of_nat k -> filter_commitment y = None -> filter_checked y = false ->
  stored p q (S k) hs /\
  (forall g x, g ∈ best -> hs !! block_hash g = Some x -> header x = g) /\
  (forall j g, (S k <= j)%nat -> best !! j = Some g -> hs !! block_hash g = None).
Proof.
  intros Hh -> Hyh Hyk Hyc Hyf. pose proof (bs_marks_length _ _ _ _ _ _ Ht) as Hpq.
  pose proof (bs_length _ _ _ _ _ _ Ht) as Hlen. split_and!.
  - intros j g Hj Hg. destruct (decide (j = k)) as [->|Hne].
    + assert (g = h) as -> by congruence. rewrite lookup_insert_eq. exists y.
      rewrite Hyc, Hyf, (decide_False (P := (k < p)%nat)), (bool_decide_false (k < q)%nat) by lia. done.
    + destruct (bs_stored _ _ _ _ _ _ Ht j g ltac:(lia) Hg) as (x & Hx & Hrest). exists x.
      split; [|done]. rewrite lookup_insert_ne; [done|]. intros Heq.
      rewrite <- Heq in Hx. by rewrite (bs_fresh _ _ _ _ _ _ Ht k h) in Hx.
  - intros g x Hg [(Heq & <-)|[_ Hx]]%lookup_insert_Some; [|by eapply bs_collision].
    rewrite Hyh. eapply best_hash_inj; try done. by eapply list_elem_of_lookup_2.
  - intros j g Hj Hg. rewrite lookup_insert_ne;
      [apply (bs_fresh _ _ _ _ _ _ Ht j g); [lia|done]|].
    intros Heq. pose proof (hashes_succ a best _ _ Hh) as H1'. pose proof (hashes_succ a best _ _ Hg) as H2'.
    rewrite Heq in H1'. pose proof (hashes_inj _ _ _ _ Hbest _ _ _ H1' H2'). lia.
Qed.

Lemma audited_tail h : best !! k = Some h ->
  (forall w g, (accept_header t h).1 <> Rejected (InvalidPow w g)) /\
  audited (accept_header t h).2 (drop (S k) best).
Proof. intros Hh. pose proof (bs_audited _ _ _ _ _ _ Ht) as Haud. by rewrite (drop_S _ _ _ Hh) in Haud. Qed.

(** The stored node of the next header, where it has one. *)
Lemma next_node h x :
  best !! k = Some h -> headers t !! prev_blockhash h = Some x -> is_work (works best) ->
  let y := leaf_node (increment (node_height x)) (Some x) h in
  node_height y = b + 1 + Z.of_nat k /\ acc_work y = works (take (S k) best) /\ work_ok t h.
Proof.
  intros Hh Hx Hw y. destruct (beside_parent _ Hh) as (x' & Hx' & _ & Hxh & Hxw).
  assert (x' = x) as -> by congruence. pose proof (beside_header_ok _ Hh) as Hok.
  assert (works (take (S k) best) = works (take k best) + header_work h) as Hsum.
  { rewrite (take_S_r _ _ _ Hh), works_app, works_cons. cbn. lia. }
  assert (0 <= works (take k best) /\ works (take (S k) best) <= works best) as [Hlow Hup].
  { assert (forall l, 0 <= works l) as Hpos.
    { intros l. induction l as [|g l IH]; [done|]. rewrite works_cons.
      pose proof (header_work_range g) as [? _]. lia. }
    split; [apply Hpos|]. rewrite <- (take_drop (S k) best) at 2. rewrite works_app.
    specialize (Hpos (drop (S k) best)). lia. }
  assert (work_ok t h) as Hwork.
  { unfold work_ok, parent_work. rewrite Hx. cbn. rewrite Hxw, <- Hsum.
    pose proof (header_work_range h) as [? _]. unfold is_work in *. lia. }
  split_and!; [|rewrite Hsum, <- Hxw|done].
  - cbn. rewrite increment_small by (by apply (ok_height _ _ _ Hok)). lia.
  - unfold y. rewrite <- Hx. rewrite (leaf_work (bs_accounted _ _ _ _ _ _ Ht) Hwork).
    unfold parent_work. by rewrite Hx.
Qed.

(** The next header of the peer extends its fork, or reorganizes the chain to
    it; from the second header on it extends the fork only as long as that has
    no more work. *)
Lemma beside_next h :
  best !! k = Some h -> is_work (works best) ->
  (works stale + works (take m best) < works (take (S k) best) -> (m + length stale <= S k)%nat) ->
  exists t',
    ((exists x, accept_header t h = (ExtendedFork x, t')) /\ beside p q m (S k) stale t' /\
     ((m < k)%nat -> works (take (S k) best) <= works stale + works (take m best))) \/
    ((exists c d, accept_header t h = (Reorganization c d, t')) /\ on_best p q (S k) t').
Proof.
  intros Hh Hw Hlow. destruct (beside_parent _ Hh) as (y & Hy & Hyb & _).
  destruct (next_node _ _ Hh Hy Hw) as (Hnh & Hnw & Hwork).
  pose proof (beside_header_ok _ Hh) as Hok. pose proof (bs_wf _ _ _ _ _ _ Ht) as Hwf.
  pose proof (accept_header_spec _ _ _ _ Hwf Hok) as Hspec.
  destruct (audited_tail _ Hh) as [Hbits Haud]. destruct beside_tip as (z & Hz & Hzs).
  destruct (bs_stale _ _ _ _ _ _ Ht) as [Hne Hout]. pose proof (bs_length _ _ _ _ _ _ Ht) as Hlen.
  assert (th (active_tip t) <> prev_blockhash h) as Hprev.
  { intros Heq. rewrite <- Heq, Hz in Hy. injection Hy as ->. by apply (Hout (header y)). }
  pose proof (bs_fresh _ _ _ _ _ _ Ht k h (le_n k) Hh) as Hnone.
  pose proof (accept_spec_wf _ _ _ _ _ _ Hwf Hok Hspec) as Hwf'.
  pose proof (accept_spec_accounted Hwf Hok (bs_accounted _ _ _ _ _ _ Ht) Hwork _ _ Hspec) as Hacc'.
  pose proof (accept_spec_canonical _ _ _ _ _ _ _ Hwf Hok (bs_canonical _ _ _ _ _ _ Ht) Hspec) as Hcan'.
  pose proof (accept_spec_chain _ _ _ _ _ _ Hwf Hok Hspec) as Hch.
  destruct (accept_header t h) as [r t'] eqn:Hr. cbn [fst snd] in *. exists t'.
  destruct Hspec as [? Hdup|? ? Horph|w fs ? ?|next height nd Htip ? ? ?
    |x fs next nd ? ? Hx Hfs Hpow Hcmp|x f fs next c d can fin nd hs ? ? Hx Hf Hfp Hfs Hpow Hcmp Hsw].
  - rewrite Hnone in Hdup. by destruct Hdup.
  - congruence.
  - by edestruct Hbits.
  - congruence.
  - left. assert (x = y) as -> by congruence.
    destruct (stored_next h nd _ Hh eq_refl eq_refl Hnh eq_refl eq_refl) as (Hst & Hcol & Hfr).
    split; [by eexists|]. split.
    + split; try done.
      * apply Hcan'. cbn. lia.
      * rewrite Hch. apply (bs_chain _ _ _ _ _ _ Ht).
      * pose proof (lookup_lt_Some _ _ _ Hh). lia.
      * intros _. eexists. split; [apply elem_of_app; right; by left|]. by apply hashes_succ.
      * apply (bs_marks_length _ _ _ _ _ _ Ht).
      * apply (bs_height _ _ _ _ _ _ Ht).
    + intros Hmk. rewrite <- Hnw, <- beside_tip_work. apply Hcmp.
      destruct (bs_fork _ _ _ _ _ _ Ht Hmk) as (f & Hf & Hfk). exists f. split; [done|].
      pose proof (hc_linked _ _ _ _ Hbest _ _ Hh). congruence.
  - right. assert (x = y) as -> by congruence.
    destruct (stored_next h nd _ Hh eq_refl eq_refl Hnh eq_refl eq_refl) as (Hst & Hcol & Hfr).
    split; [by do 2 eexists|].
    rewrite beside_tip_work in Hcmp. unfold nd in Hcmp. rewrite Hnw in Hcmp. specialize (Hlow Hcmp).
    pose proof (lookup_lt_Some _ _ _ Hh) as Hlt.
    destruct (stored_walk _ _ _ _ (S k) (wt_headers _ _ _ Hwf') Hst) as (key & l & Hkey & Hl & Hm); [lia..|].
    rewrite (hashes_succ a best _ _ Hh) in Hkey. injection Hkey as <-.
    pose proof (bs_marks_length _ _ _ _ _ _ Ht) as Hpq. split; try done.
    + apply Hcan'. rewrite beside_tip_height. unfold nd. cbn in Hnh |- *. lia.
    + by rewrite (iter_headers_chain _ _ _ _ Hwf' Hl), <- list_fmap_compose, <- Hm.
    + lia.
    + intros j g z' Hj Hg Hz'. destruct (Hst j g Hj Hg) as (z2 & Hz2 & _ & _ & Hmk).
      cbn [headers grown] in Hz'. assert (z' = z2) as -> by congruence. done.
Qed.
End Beside.
End Fork.

(** ** Messages *)

Section Overtaking.
Context `{Bitcoin} `{!WorkLaws} {D : Type} `{HeaderStore D}.
Context (a : BlockHash) (b lo : Height) (n : Network) (best : list Header).
Context (commits : list FilterCommitment) (contents : list bytes).
Context (Hbest : honest_chain a b n best) (Hlo : lo <= b + 2).
Context (p q m : nat) (stale : list Header).
Implicit Types c : Chain D.

Abbreviation following := (following (D := D) a b lo n best commits contents).

(** The chain of [following], but for the tree. *)
Record astray (k : nat) (c : Chain D) : Prop := {
  ay_tree : beside a b lo best commits p q m k stale (header_chain c);
  ay_network : ch_network c = n;
  ay_checkpoints cp j h : cp ∈ checkpoints (ch_checkpoints c) -> best !! j = Some h ->
    cp_height cp = b + 1 + Z.of_nat j -> block_hash h = cp_hash cp;
  ay_heights : hm_max (heights c) = Some (b + Z.of_nat (length best));
  ay_agreements : current (agreement_state (request_state c)) = 0 /\
                  required (agreement_state (request_state c)) <= 1;
  ay_pending : pending_batch (request_state c) = None;
  ay_readable j h content : best !! j = Some h -> contents !! j = Some content ->
    match_any content (block_hash h) (elements (scripts c)) <> None;
}.

(** The first [i] headers of the peer have more work than the active chain. *)
Definition heavier (i : nat) : Prop := works stale + works (take m best) < works (take i best).

(** The peer's chain overtakes in work no lower than it does in height. *)
Context (Hwork : is_work (works best)) (Hheight : forall i, heavier i -> (m + length stale <= i)%nat).

Lemma sync_one_astray k j h ncp c :
  astray k c -> best !! j = Some h -> (j <= k)%nat ->
  exists c',
    (sync_one ncp h c = (inr false, c') /\ astray (k `max` S j) c' /\
     (j = k -> (m < k)%nat -> ~ heavier (S k))) \/
    (sync_one ncp h c = (inr true, c') /\ following p q (S k) c' /\ j = k).
Proof.
  intros Ha Hj Hjk. unfold sync_one, accept. pose proof (ay_tree _ _ Ha) as Ht.
  destruct (decide (j < k)%nat) as [Hlt|Hge].
  - exists (set_tree (header_chain c) c). left. split_and!; [| |lia].
    + unfold mbind, ST_bind, st_run. by rewrite (beside_known _ _ _ _ _ Ht _ _ Hlt Hj).
    + rewrite Nat.max_l by lia. by destruct Ha; split.
  - assert (j = k) as -> by lia. rewrite Nat.max_r by lia.
    destruct (beside_next _ _ _ _ _ _ Hbest Ht h Hj Hwork (Hheight (S k)))
      as (t' & [((x & Hr) & Ht' & Hno)|((acc & dis & Hr) & Ht')]);
      unfold mbind, ST_bind, st_run; rewrite Hr.
    + assert (astray (S k) (set_tree t' c)) as Ha1 by (by destruct Ha; split).
      assert (forall o, astray (S k) (say o (set_tree t' c))) as Ha2 by (by destruct Ha1; split).
      destruct ncp as [cp|]; eexists; left; (split; [done|]); (split; [apply Ha2 || apply Ha1|]);
        unfold heavier; intros _ Hmk; specialize (Hno Hmk); lia.
    + eexists. right. split; [done|]. split; [|done]. by destruct Ha; split.
Qed.

Lemma sync_loop_overtakes ncp r : forall j k flag c,
  astray k c -> (j <= k)%nat ->
  (forall cp i h, ncp = Some cp -> best !! i = Some h ->
     cp_height cp = b + 1 + Z.of_nat i -> block_hash h = cp_hash cp) ->
  let e := ((j + r) `min` length best)%nat in
  exists c' f, sync_loop ncp (take r (drop j best)) flag c = (inr f, c') /\
    (f = true /\ following p q (k `max` e) c' \/
     astray (k `max` e) c' /\ ((k < e)%nat -> (S m < e)%nat -> ~ heavier e)).
Proof.
  induction r as [|r IH]; intros j k flag c Ha Hjk Hncp e.
  { exists c, flag. split; [done|]. right. unfold e. rewrite Nat.max_l by lia. split; [done|lia]. }
  destruct (best !! j) as [h|] eqn:Hj.
  - rewrite (drop_S _ _ _ Hj). cbn [take sync_loop]. pose proof (lookup_lt_Some _ _ _ Hj) as Hlt.
    assert (((S j + r) `min` length best)%nat = e) as He by (unfold e; lia).
    assert (S j <= e)%nat as Hje by (unfold e; lia). clearbody e.
    destruct (sync_one_astray k j h ncp c Ha Hj Hjk) as (c1 & [(Hone & Ha1 & Hno)|(Hone & Hf1 & ->)]);
      rewrite (st_bind_ok _ _ _ _ _ Hone).
    + destruct (IH (S j) (k `max` S j)%nat (flag || false) c1 Ha1 ltac:(lia) Hncp)
        as (c2 & f & Hloop & Hres). rewrite He in Hres.
      exists c2, f. split; [done|].
      replace (k `max` e)%nat with ((k `max` S j) `max` e)%nat by lia.
      destruct Hres as [Hres|[Ha2 Hno2]]; [by left|]. right. split; [done|]. intros Hke Hme.
      destruct (decide (k `max` S j < e)%nat); [by apply Hno2|].
      assert (j = k /\ e = S k) as [-> ->] by lia. apply Hno; [done|lia].
    + destruct (sync_loop_follows _ _ _ _ _ _ contents Hbest p q ncp (flag || true) r (S k) (S k) c1 Hf1
        (le_n _) Hncp) as (c2 & Hloop & Hf2). rewrite He in Hf2.
      exists c2, (flag || true). split; [done|]. left. split; [apply orb_true_r|].
      by replace (k `max` e)%nat with (S k `max` e)%nat by lia.
  - apply lookup_ge_None in Hj. rewrite drop_ge by done. exists c, flag. split; [by destruct (S r)|].
    right. unfold e. rewrite Nat.max_l by lia. split; [done|lia].
Qed.

(** A message of the peer that shows the greater work of its chain. *)
Lemma sync_chain_overtakes j r k c :
  astray k c -> (j <= k)%nat ->
  let e := ((j + r) `min` length best)%nat in
  (k < e)%nat -> (S m < e)%nat -> heavier e ->
  exists c', sync_chain (take r (drop j best)) c = (inr (), c') /\ following p q e c'.
Proof.
  intros Ha Hjk e Hke Hme Hheavy. unfold sync_chain. pose proof (ay_tree _ _ Ha) as Ht.
  assert (headers_batch_new (take r (drop j best)) = inr (mkHeadersBatch (take r (drop j best))))
    as ->.
  { destruct (lookup_lt_is_Some_2 (take r (drop j best)) 0) as [h Hh];
      [rewrite length_take, length_drop; unfold e in *; lia|]. by destruct (take r (drop j best)). }
  rewrite st_get_ok. unfold headers_batch_last. cbn [hb_batch].
  destruct (lookup_lt_is_Some_2 best (e - 1)) as [h Hh]; [unfold e in *; lia|].
  rewrite segment_last by (unfold e in *; lia). fold e. rewrite Hh.
  cbn [fmap option_fmap option_map from_option id].
  rewrite (beside_contains _ _ _ _ _ Ht _ _ Hh) by lia.
  rewrite (st_bind_ok _ _ _ _ _ (segment_sane _ _ _ _ Hbest j r c (ay_network _ _ Ha))).
  rewrite st_get_ok.
  destruct (sync_loop_overtakes (checkpoints_next (ch_checkpoints c)) r j k false c Ha Hjk)
    as (c1 & f & Hloop & Hres).
  { intros cp i g Hcp. apply (ay_checkpoints _ _ Ha).
    unfold checkpoints_next in Hcp. destruct (checkpoints _); [done|]. injection Hcp as ->. by left. }
  fold e in Hres. rewrite Nat.max_r in Hres by lia.
  rewrite (st_bind_ok _ _ _ _ _ Hloop), st_modify_ok.
  destruct Hres as [[-> Hf]|[_ Hno]]; [|by destruct (Hno Hke Hme)].
  eexists. split; [done|]. apply (write_headers_follows _ _ _ _ _ _ _ p q) in Hf.
  destruct Hf as [? ? ? ? [? ?] ? ?]. by split.
Qed.
End Overtaking.

(** ** The exchange *)

Section Exchange.
Context `{Bitcoin} `{!WorkLaws} {D : Type} `{HeaderStore D} {P : Type} `{PeerStore P}.
Context (filter_control : bool).
Context (peer : PeerId) (env : nat -> Env) (reply : MainThreadMessage -> list PeerMessage).
Context (a : BlockHash) (b lo : Height) (n : Network) (best : list Header).
Context (prev0 : FilterHeader) (contents : list bytes).
Context (Hbest : honest_chain a b n best) (Hcontents : length contents = length best).
Context (Hlo : lo <= b + 2) (Hroom : is_u32 (b + 2000 + Z.of_nat (length best))).
Context (Hserves : serves reply a b best prev0 contents).
Context (p q m : nat) (stale : list Header).

Abbreviation commits := (peer_commits prev0 contents) (only parsing).
Abbreviation heavier := (heavier best m stale).
Abbreviation exchange := (exchange (D := D) (P := P) filter_control peer env reply).
Abbreviation rounds := (rounds best).

(** The node on its stale fork, connected to the peer, with [l] on the channel. *)
Record misled (k : nat) (s : NodeState) (l : list MainThreadMessage) (nd : Node D P) : Prop := {
  ml_astray : astray a b lo n best commits contents p q m stale k (chain nd);
  ml_state : state nd = s;
  ml_peer : exists x, pm_map (peer_map nd) !! peer = Some x /\ mp_finished x = false /\ ptx x = l;
}.

End Exchange.

(** ** Leaving a fork of two blocks for the chain of the small peer *)
Module ToyOvertake.
Export ToyConverge.

(** The fork: block 1 of the peer, then block 9. *)
Definition fork_block : Header := hdr 9 1 1.
Definition fork_chain : list Header := [hdr 1 100 1; fork_block].

Lemma fork_lookup j h :
  fork_chain !! j = Some h -> j = 0%nat /\ h = hdr 1 100 1 \/ j = 1%nat /\ h = hdr 9 1 1.
Proof. destruct j as [|[|j]]; [intros [= <-]; auto..|done]. Qed.

Lemma fork_honest : honest_chain 100 0 Regtest fork_chain.
Proof.
  split.
  - intros j h Hj. by destruct (fork_lookup _ _ Hj) as [[-> ->]|[-> ->]].
  - by apply (bool_decide_unpack _).
  - intros h [j Hj]%list_elem_of_lookup. by destruct (fork_lookup _ _ Hj) as [[-> ->]|[-> ->]].
  - by left.
  - split; [lia|by vm_compute].
Qed.

Definition forked : Chain (SqliteHeaderDb ToySql.table) := (sync_chain fork_chain toy_start).2.

Definition forked_node : Node (SqliteHeaderDb ToySql.table) (SqlitePeerDb peer_table) :=
  {| state := Behind; chain := forked;
     peer_map := set_map (fun _ =>
       {[1 := mkManagedPeer 0 addr_b 8333 65 250 [WtxidRelay; get_headers_message forked] false]})
       toy_map;
     tx_broadcaster := broadcaster_new; required_peers := 1; last_block_monitor := last_block_new |}.

(** A tree that holds the anchor only is on every honest chain from it. *)
Lemma fork_start : on_best 100 0 1 fork_chain [] 0 0 0 (header_chain toy_start).
Proof.
  split.
  - exact (wf_tree_new (from_checkpoint 0 100) Regtest).
  - exact (canonical_ok_new (from_checkpoint 0 100) Regtest 1).
  - done.
  - cbn. lia.
  - intros h x _ Hx. cbn in Hx. by rewrite lookup_empty in Hx.
  - by vm_compute.
  - lia.
  - intros j h x Hj. lia.
Qed.

Lemma forked_on_fork : on_best 100 0 1 fork_chain [] 0 0 2 (header_chain forked).
Proof.
  destruct (accept_next _ _ _ _ _ _ fork_honest fork_start (hdr 1 100 1) eq_refl) as (t1 & Hacc1 & Ht1).
  destruct (accept_next _ _ _ _ _ _ fork_honest Ht1 (hdr 9 1 1) eq_refl) as (t2 & Hacc2 & Ht2).
  assert (t2 = header_chain forked) as ->; [|exact Ht2].
  trans (accept_header t1 (hdr 9 1 1)).2; [by rewrite Hacc2|].
  trans (accept_header (accept_header (header_chain toy_start) (hdr 1 100 1)).2 (hdr 9 1 1)).2;
    [by rewrite Hacc1|vm_eq].
Qed.

Definition node_accounted (hs : gmap BlockHash BlockNode) (x : BlockNode) : bool :=
  (0 <=? acc_work x) && (acc_work x <? 2 ^ 256) &&
  (acc_work x =? parent_work hs (node_prev x) + header_work (header x)).

Lemma forked_accounted : accounted (header_chain forked).
Proof.
  intros k x Hx.
  assert (forallb (fun kx => node_accounted (headers (header_chain forked)) kx.2)
    (map_to_list (headers (header_chain forked))) = true) as Hall by vm_eq.
  rewrite forallb_forall in Hall. specialize (Hall (k, x)).
  rewrite <- list_elem_of_In, elem_of_map_to_list in Hall. specialize (Hall Hx).
  unfold node_accounted in Hall. rewrite !andb_true_iff in Hall. cbn [snd] in Hall.
  unfold is_work. split; lia.
Qed.

Lemma forked_stored : stored 0 batch (peer_commits 0 contents) 0 0 1 (headers (header_chain forked)).
Proof.
  intros j h Hj Hh. assert (j = 0%nat) as -> by lia. injection Hh as <-.
  exists (Graph.mkNode 1 (hdr 1 100 1) 1 None false). split; [vm_eq|done].
Qed.

Lemma forked_beside : beside 100 0 1 batch (peer_commits 0 contents) 0 0 1 1 [fork_block] (header_chain forked).
Proof.
  pose proof forked_on_fork as Hf. split.
  - apply Hf.
  - apply Hf.
  - exact forked_accounted.
  - apply (ob_chain _ _ _ _ _ _ _ _ _ Hf).
  - split; [done|]. intros h ->%list_elem_of_singleton [j Hj]%list_elem_of_lookup.
    by destruct (batch_lookup _ _ Hj) as [[_ Hh]|[[_ Hh]|[_ Hh]]].
  - cbn. lia.
  - exact forked_stored.
  - intros j h Hj Hh.
    destruct (batch_lookup _ _ Hh) as [[-> ->]|[[-> ->]|[-> ->]]]; [lia|vm_eq..].
  - lia.
  - intros h x [j Hj]%list_elem_of_lookup Hx.
    assert (forall g y (o : option BlockNode), o = None -> o = Some y -> header y = g) as Habsent
      by congruence.
    assert (forall x, headers (header_chain forked) !! block_hash (hdr 1 100 1) = Some x ->
      header x = hdr 1 100 1) as H1'.
    { intros y Hy. assert (Some y = Some (Graph.mkNode 1 (hdr 1 100 1) 1 None false)) as Heq;
        [|by injection Heq as ->]. rewrite <- Hy. vm_eq. }
    destruct (batch_lookup _ _ Hj) as [[-> ->]|[[-> ->]|[-> ->]]]; [by apply H1'|..].
    all: refine (Habsent _ _ _ _ Hx); vm_eq.
  - split_and!; by vm_compute.
  - lia.
  - assert (tip_height (active_tip (header_chain forked)) = 2) as -> by vm_eq. done.
Qed.

Lemma forked_misled :
  misled 1 100 0 1 Regtest batch 0 contents 0 0 1 [fork_block] 1 Behind
    ([WtxidRelay] ++ [get_headers_message forked]) forked_node.
Proof.
  split; [|done|].
  2: { exists (mkManagedPeer 0 addr_b 8333 65 250 [WtxidRelay; get_headers_message forked] false).
       by split_and!. }
  split.
  - exact forked_beside.
  - done.
  - intros cp j h Hin. cbn in Hin. by apply elem_of_nil in Hin.
  - vm_eq.
  - by split.
  - vm_eq.
  - intros j h content Hj Hc. by destruct (batch_lookup _ _ Hj) as [[-> ->]|[[-> ->]|[-> ->]]];
      injection Hc as <-.
Qed.

End ToyOvertake.
