(* ===== verification/Quiet.v ===== *)
(** * What handling an answer leaves alone

    Frame conditions for the dialogue of [Delivery]: which handlers keep the
    peers' heights, the scripts, the connections and the requested blocks, and
    what a filter does to the queue of blocks and to the dialog. *)

From stdpp Require Import base numbers list gmap sorting strings.
From Stdlib Require Import ZArith Lia.
From S2P Require Import Prelude Bitcoin ChainTypes Graph Walk GraphFacts Reorg ActiveChain FilterMarks TreeProperties.
From S2P Require Import Checkpoints Batches BlockQueue Messages HeaderStore PeerStore Chain ChainFacts FilterSync.
From S2P Require Import Network Wire Dns PeerMap Node NodeFacts.

Section Frames.
Context `{Bitcoin} {D : Type} `{HeaderStore D} {P : Type} `{PeerStore P}.
Context (filter_control : bool).
Implicit Types (c : Chain D) (nd : Node D P).

(** Peers' heights and scripts stay, the dialog grows. *)
Definition quiet : relation (Chain D) := fun c c' =>
  heights c' = heights c /\ scripts c' = scripts c /\ dialog c `prefix_of` dialog c'.

(** No block is requested. *)
Definition steady : relation (Chain D) := fun c c' =>
  quiet c c' /\ (pending (block_queue c) = [] -> pending (block_queue c') = []).

(** The requested blocks stay as they are. *)
Definition kept : relation (Chain D) := fun c c' => quiet c c' /\ block_queue c' = block_queue c.

#[export] Instance quiet_preorder : PreOrder quiet.
Proof.
  split; [by repeat split|]. intros c1 c2 c3 (? & ? & ?) (? & ? & ?).
  unfold quiet. split_and!; [congruence..|by etransitivity].
Qed.

#[export] Instance steady_preorder : PreOrder steady.
Proof.
  split; [by split|]. intros c1 c2 c3 [? ?] [? ?]. split; [by etransitivity|auto].
Qed.

#[export] Instance kept_preorder : PreOrder kept.
Proof.
  split; [by split|]. intros c1 c2 c3 [? ?] [? ?]. split; [by etransitivity|congruence].
Qed.

Lemma kept_steady c c' : kept c c' -> steady c c'.
Proof. intros [Hq Hb]. split; [done|]. by rewrite Hb. Qed.

Lemma kept_say o c : kept c (say o c).
Proof. split; [|done]. unfold quiet. split_and!; [done..|]. by apply prefix_app_r. Qed.

Lemma kept_same c c' :
  heights c' = heights c -> scripts c' = scripts c -> dialog c' = dialog c ->
  block_queue c' = block_queue c -> kept c c'.
Proof. intros Hh Hs Hd Hb. split; [|done]. unfold quiet. split_and!; [done..|]. by rewrite Hd. Qed.

#[local] Hint Extern 1 (kept _ (say _ _)) => (apply kept_say) : kyoto.
#[local] Hint Extern 2 (kept _ _) => (by apply kept_same) : kyoto.
#[local] Hint Extern 3 (steady _ _) => (apply kept_steady; solve [eauto 2 with kyoto]) : kyoto.

Lemma push_kept batch stop c : kept c (push_cf_header_batch batch stop c).
Proof. by apply kept_same. Qed.

Lemma next_cf_kept c : kept c (next_cf_header_message c).2.
Proof. unfold next_cf_header_message. destruct (cf_cursor _ _). by apply kept_same. Qed.

Lemma next_filter_kept c : kept c (next_filter_message c).2.
Proof. by apply kept_same. Qed.

Lemma next_stateful_kept c : kept c (next_stateful_message c).2.
Proof.
  unfold next_stateful_message. destruct (negb _); [done|]. destruct (negb _).
  { pose proof (next_cf_kept c) as Hf. by destruct (next_cf_header_message c). }
  destruct (negb _); [|done].
  pose proof (next_filter_kept c) as Hf. by destruct (next_filter_message c).
Qed.

#[local] Hint Resolve push_kept next_filter_kept : kyoto.

Lemma count_agreement_kept id batch stop : st_keeps kept (count_agreement id batch stop).
Proof. unfold count_agreement. st_keeps. Qed.

#[local] Hint Resolve count_agreement_kept : kyoto.

Lemma sync_cf_headers_kept k msg : st_keeps kept (sync_cf_headers k msg).
Proof. unfold sync_cf_headers, check_alignment, queue_batch. st_keeps. Qed.

(** A reorganization takes blocks from the queue. *)
Lemma steady_remove hs c : steady c (set_block_queue (queue_remove hs (block_queue c)) c).
Proof. split; [by repeat split|]. cbn [block_queue set_block_queue]. by rewrite pending_remove; intros ->. Qed.

Lemma accept_steady {E} hdr : st_keeps steady (accept (E := E) hdr).
Proof.
  intros c r c'. unfold accept, st_run. destruct (accept_header _ _). intros [= _ <-].
  by apply kept_steady, kept_same.
Qed.

#[local] Hint Resolve steady_remove accept_steady : kyoto.

Lemma sync_one_steady ncp hdr : st_keeps steady (sync_one ncp hdr).
Proof. unfold sync_one. st_keeps. Qed.

#[local] Hint Resolve sync_one_steady : kyoto.

Lemma sync_loop_steady ncp l : forall flag, st_keeps steady (sync_loop ncp l flag).
Proof. induction l as [|hdr l IH]; intros flag; cbn [sync_loop]; st_keeps. Qed.

Lemma write_headers_steady c : steady c (write_headers c).
Proof.
  unfold write_headers. destruct (store_write (db c)) as [[e|[]] d]; apply kept_steady; [|by apply kept_same].
  etransitivity; [|apply kept_say]. by apply kept_same.
Qed.

Lemma clear_queue_steady (flag : bool) c : steady c (if flag then clear_compact_filter_queue c else c).
Proof. destruct flag; by apply kept_steady, kept_same. Qed.

#[local] Hint Resolve sync_loop_steady write_headers_steady clear_queue_steady : kyoto.

Lemma sanity_check_steady hb : st_keeps steady (sanity_check hb).
Proof. intros c r c' Hs%sanity_check_same. by subst. Qed.

#[local] Hint Resolve sanity_check_steady : kyoto.

Lemma sync_chain_steady msg : st_keeps steady (sync_chain msg).
Proof. unfold sync_chain. st_keeps. Qed.

(** ** The same for the node *)

(** The connections stay, and nothing is to be announced to them. *)
Definition on_node (R : relation (Chain D)) : relation (Node D P) := fun nd nd' =>
  R (chain nd) (chain nd') /\
  dom (pm_map (peer_map nd')) = dom (pm_map (peer_map nd)) /\
  tx_broadcaster nd' = tx_broadcaster nd /\ required_peers nd' = required_peers nd.

#[export] Instance on_node_preorder R `{!PreOrder R} : PreOrder (on_node R).
Proof.
  split; [by repeat split|]. intros n1 n2 n3 (? & ? & ? & ?) (? & ? & ? & ?).
  unfold on_node. split_and!; [by etransitivity|congruence..].
Qed.

(** What the methods of the manager do to the connections and to what it shares
    with the chain. *)
Definition pm_kept : relation (PeerMap P) := fun m m' =>
  pm_heights m' = pm_heights m /\ pm_dialog m `prefix_of` pm_dialog m' /\
  dom (pm_map m') = dom (pm_map m).

Section Relation.
Context (R : relation (Chain D)) `{!PreOrder R} (Hkept : forall c c', kept c c' -> R c c').

Lemma take_back_kept c m : pm_kept (lend c m) m -> kept c (take_back m c).
Proof. intros (? & ? & _). by repeat split. Qed.

Lemma on_peer_map_keeps {E A} (f : ST (PeerMap P) E A) :
  st_keeps pm_kept f -> st_keeps (on_node R) (on_peer_map (D := D) f).
Proof.
  intros Hf nd r nd'. unfold on_peer_map. destruct (f _) as [x m] eqn:Hm. intros [= _ <-].
  apply Hf in Hm. destruct Hm as (Hh & Hd & Hdom). unfold on_node. cbn [chain peer_map tx_broadcaster required_peers].
  split_and!; [|done..]. apply Hkept. by repeat split.
Qed.

Lemma peer_map_do_keeps {E} f :
  (forall m, pm_kept m (f m)) -> st_keeps (on_node R) (peer_map_do (D := D) (E := E) f).
Proof. intros Hf. apply on_peer_map_keeps. intros m r m' [= _ <-]. apply Hf. Qed.

Lemma peer_map_run_keeps {E A} (f : PeerMap P -> A * PeerMap P) :
  (forall m, pm_kept m (f m).2) -> st_keeps (on_node R) (peer_map_run (D := D) (E := E) f).
Proof.
  intros Hf. apply on_peer_map_keeps. intros m r m'. specialize (Hf m).
  destruct (f m) as [x m1]. by intros [= _ <-].
Qed.

Lemma chain_result_keeps {E X A} (f : ST (Chain D) X A) :
  st_keeps R f -> st_keeps (on_node R) (chain_result (P := P) (E := E) f).
Proof.
  intros Hf nd r nd'. unfold chain_result. destruct (f _) as [x c] eqn:Hc. intros [= _ <-].
  apply Hf in Hc. by repeat split.
Qed.

Lemma chain_run_keeps {E A} (f : Chain D -> A * Chain D) :
  (forall c, R c (f c).2) -> st_keeps (on_node R) (chain_run (P := P) (E := E) f).
Proof.
  intros Hf nd r nd'. unfold chain_run, on_chain, st_run. specialize (Hf (chain nd)).
  destruct (f (chain nd)) as [x c]. intros [= _ <-]. by repeat split.
Qed.

Lemma chain_do_keeps {E} f :
  (forall c, R c (f c)) -> st_keeps (on_node R) (chain_do (P := P) (E := E) f).
Proof. intros Hf nd r nd' [= _ <-]. by repeat split. Qed.

Lemma node_say_keeps {E} o : st_keeps (on_node R) (node_say (D := D) (P := P) (E := E) o).
Proof. apply chain_do_keeps. intros c. apply Hkept, kept_say. Qed.

Lemma update_kept p (m : PeerMap P) : pm_kept m (update_or_warn p m).
Proof.
  unfold update_or_warn. destruct (store_update p (pm_db m)) as [[e|[]] d]; repeat split; try done.
  by apply prefix_app_r.
Qed.

Lemma send_message_keeps {E} k msg :
  st_keeps (on_node R) (node_send_message (D := D) (P := P) (E := E) k msg).
Proof.
  apply peer_map_do_keeps. intros m. repeat split; try done. cbn. apply dom_alter_L.
Qed.

Lemma broadcast_keeps {E} msg : st_keeps (on_node R) (node_broadcast (D := D) (P := P) (E := E) msg).
Proof.
  apply st_keeps_bind; [apply _| |intros _; apply st_keeps_ret; apply _].
  apply peer_map_run_keeps. intros m. repeat split; try done. cbn. apply dom_fmap_L.
Qed.

Lemma respond_keeps {E} k o : st_keeps (on_node R) (respond (D := D) (P := P) (E := E) k o).
Proof. destruct o; [apply send_message_keeps|apply st_keeps_ret; apply _]. Qed.

Lemma respond_all_keeps {E} o : st_keeps (on_node R) (respond_all (D := D) (P := P) (E := E) o).
Proof. destruct o; [apply broadcast_keeps|apply st_keeps_ret; apply _]. Qed.

Lemma warn_ban_keeps {E} k w :
  st_keeps (on_node R) (warn_ban_disconnect (D := D) (P := P) (E := E) k w).
Proof.
  unfold warn_ban_disconnect. apply st_keeps_bind; [apply _|apply node_say_keeps|intros _].
  apply st_keeps_bind; [apply _| |intros _; apply st_keeps_ret; apply _].
  apply peer_map_do_keeps. intros m. unfold ban, record_status.
  destruct (pm_map m !! k); [apply update_kept|by repeat split].
Qed.

Lemma next_stateful_keeps {E} :
  st_keeps (on_node R) (chain_run (D := D) (P := P) (E := E) next_stateful_message).
Proof. apply chain_run_keeps. intros c. apply Hkept, next_stateful_kept. Qed.
End Relation.

(** ** The handlers of the answers *)

#[local] Hint Extern 1 (st_keeps (on_node steady) _) =>
  (first [apply node_say_keeps | apply respond_keeps | apply respond_all_keeps | apply warn_ban_keeps
         | apply next_stateful_keeps]; first [apply _ | exact kept_steady]) : kyoto.

Lemma handle_headers_steady {E} k l : st_keeps (on_node steady) (handle_headers (P := P) (E := E) k l).
Proof.
  unfold handle_headers. st_keeps. apply chain_result_keeps, sync_chain_steady.
Qed.

Lemma handle_cf_headers_steady {E} k msg :
  st_keeps (on_node steady) (handle_cf_headers (P := P) (E := E) k msg).
Proof.
  unfold handle_cf_headers. st_keeps.
  - apply chain_do_keeps. intros c. apply kept_steady, kept_say.
  - apply chain_result_keeps. intros c r c' Hs. eapply kept_steady, sync_cf_headers_kept, Hs.
Qed.

(** An answer with headers or filter headers requests no block. *)
Lemma sync_answer_steady e k m nd r nd' :
  match m with PeerHeaders _ | PeerFilterHeaders _ => True | _ => False end ->
  handle_peer filter_control e (mkPeerThreadMessage k m) nd = (r, nd') -> on_node steady nd nd'.
Proof.
  intros Hm Hrun. revert nd r nd' Hrun. unfold handle_peer. cbn [ptm_message ptm_nonce].
  change (st_keeps (on_node steady) (handle_peer filter_control e (mkPeerThreadMessage k m))).
  unfold handle_peer. cbn [ptm_message ptm_nonce]. destruct m; try done.
  - apply st_keeps_bind; [apply _|by apply st_keeps_modify; repeat split|intros _].
    apply st_keeps_bind; [apply _|apply handle_headers_steady|]. intros o. eauto with kyoto.
  - apply st_keeps_bind; [apply _|apply handle_cf_headers_steady|]. intros o. eauto with kyoto.
Qed.

(** What a filter does: it is reported, or its block is queued when it matches. *)
Definition filter_effect (j : Height) (k : BlockHash) (content : bytes) (c c' : Chain D) : Prop :=
  if filter_control then
    block_queue c' = block_queue c /\
    SendEvent (IndexedFilterEvent (mkIndexedFilter j (filter_new content k))) ∈ dialog c'
  else
    let q := queue_add (request_new k) (block_queue c) in
    (block_queue c' = block_queue c \/ block_queue c' = q) /\
    (match_any content k (elements (scripts c)) = Some true -> block_queue c' = q).

Lemma filter_effect_kept j k content c1 c2 c3 :
  filter_effect j k content c1 c2 -> kept c2 c3 -> filter_effect j k content c1 c3.
Proof.
  unfold filter_effect. intros Hf [(_ & _ & [l Hd]) Hb]. destruct filter_control; rewrite Hb; [|done].
  destruct Hf as [? Hin]. split; [done|]. rewrite Hd. apply elem_of_app. by left.
Qed.

Lemma queue_add_again r q : queue_contains q (req_hash r) = true -> queue_add r q = q.
Proof. intros Hc. unfold queue_add. by rewrite Hc. Qed.

Lemma handle_filter_effect j k content c c' (x : BlockNode) :
  headers (header_chain c) !! k = Some x -> node_height x = j -> filter_checked x = false ->
  (if filter_control then report_filter k (filter_new content k)
   else match_filter k (filter_new content k)) c = (inr (), c') ->
  quiet c c' /\ filter_effect j k content c c'.
Proof.
  intros Hx Hj Hch Hrun. unfold filter_effect.
  assert (is_filter_checked (header_chain c) k = false) as Hck
    by (unfold is_filter_checked; by rewrite Hx). destruct filter_control.
  - unfold report_filter in Hrun. rewrite st_get_ok, Hck in Hrun. cbn [negb] in Hrun.
    rewrite st_get_ok in Hrun. unfold height_of_hash in Hrun. rewrite Hx in Hrun.
    cbn [fmap option_fmap option_map] in Hrun. rewrite st_ok_or_ok, Hj in Hrun.
    injection Hrun as <-. split; [apply kept_say|]. split; [done|]. cbn [dialog say].
    apply elem_of_app. right. by left.
  - unfold match_filter in Hrun. rewrite st_get_ok, Hck, orb_false_r in Hrun.
    destruct (queue_contains _ _) eqn:Hc.
    + injection Hrun as <-. split; [done|]. split; [by left|]. intros _. symmetry. by apply queue_add_again.
    + rewrite st_get_ok in Hrun. st_cases Hrun; [discriminate|].
      apply st_ok_or_inv in Hstep as [-> [(found & Hfound & [= ->])|[_ ?]]]; [|done].
      change (match_any content k (elements (scripts c)) = Some found) in Hfound. rewrite Hfound.
      destruct found; injection Hrun as <-.
      * split; [by repeat split|]. split; [by right|done].
      * split; [done|]. split; [by left|done].
Qed.

Lemma sync_filter_effect j k content c r c' (x : BlockNode) :
  headers (header_chain c) !! k = Some x -> node_height x = j -> filter_checked x = false ->
  is_filters_synced c = false ->
  sync_filter filter_control (mkCFilter FILTER_BASIC k content) c = (inr r, c') ->
  quiet c c' /\ filter_effect j k content c c'.
Proof.
  intros Hx Hj Hch Hsync Hrun. unfold sync_filter in Hrun. rewrite st_get_ok, Hsync, st_get_ok in Hrun.
  cbn [cf_block_hash cf_filter] in Hrun.
  destruct (tree_filter_commitment _ _) as [cm|]; [|done].
  st_cases Hrun; [discriminate|]. apply st_guard_inv in Hstep as [-> _].
  st_cases Hrun; [discriminate|].
  destruct a0. destruct (handle_filter_effect j k content c _ x Hx Hj Hch Hstep) as [Hq He].
  rewrite st_modify_ok in Hrun.
  set (c2 := set_tree _ _) in Hrun. assert (kept s c2) as Hk by (by apply kept_same).
  assert (kept c2 c') as Hk'.
  { match type of Hrun with ?m c2 = _ => assert (st_keeps kept m) as Hm by st_keeps end.
    by eapply Hm. }
  split; [|by eapply filter_effect_kept; [|etransitivity]].
  etransitivity; [exact Hq|]. etransitivity; [apply Hk|apply Hk'].
Qed.
End Frames.
