(* ===== verification/Delivery.v ===== *)
(** * From an honest peer to the wallet

    [Converge] handles the answers of an honest peer one after the other; here
    the same dialogue goes through the turns of the node's loop ([node_turn]),
    with everything a turn does besides: the state of the synchronization
    advances, the connections are cleaned, the next matching block is requested.
    The environment and the turns in which nothing arrives are arbitrary.  The
    peer also serves blocks.

    A run with as many arrivals as computed below ends in [TransactionsSynced],
    with every filter reported, or every matching block delivered, to the client
    before [Synced] is announced. *)

From stdpp Require Import base numbers list gmap sorting strings.
From Stdlib Require Import ZArith Lia.
From S2P Require Import Prelude Bitcoin ChainTypes Graph Walk GraphFacts Reorg ActiveChain FilterMarks TreeProperties.
From S2P Require Import Checkpoints Batches BlockQueue Messages HeaderStore PeerStore Chain ChainFacts FilterSync.
From S2P Require Import ChainProperties HeaderSync FilterProgress Network Wire Dns PeerMap Node NodeFacts NodeProperties.
From S2P Require Import Converge Quiet.

(** ** The dialogue, turn by turn *)

Section Run.
Context `{Bitcoin} {D : Type} `{HeaderStore D} {P : Type} `{PeerStore P}.
Context (filter_control : bool) (BROADCAST_MIN : FeeRate).
Context (peer : PeerId) (reply : MainThreadMessage -> list PeerMessage).

(** Everything the peer answers to what the node has sent it, in order. *)
Definition answers (nd : Node D P) : list PeerMessage := mjoin (reply <$> sent peer nd).

(** A turn of the node: its environment, and whether the next answer arrives;
    [k] answers have arrived before. *)
Definition talk_turn (t : Env * bool) (k : nat)
  : ST (Node D P) (NodeError store_error peer_store_error) nat :=
  next ← st_get (fun nd => if t.2 then answers nd !! k else None);
  node_turn filter_control BROADCAST_MIN t.1 (FromPeer (mkPeerThreadMessage peer <$> next));;
  mret (match next with Some _ => S k | None => k end).

Fixpoint converse (l : list (Env * bool)) (k : nat)
  : ST (Node D P) (NodeError store_error peer_store_error) nat :=
  match l with
  | [] => mret k
  | t :: l' => k' ← talk_turn t k; converse l' k'
  end.

(** Only the client shuts the node down. *)
Lemma peer_turn_goes_on e x nd stop nd' :
  node_turn filter_control BROADCAST_MIN e (FromPeer x) nd = (inr stop, nd') -> stop = false.
Proof.
  intros Hturn. unfold node_turn in Hturn.
  st_cases Hturn; [discriminate|]. st_cases Hturn; [discriminate|].
  unfold handle_input in Hturn. destruct x; [|by injection Hturn].
  st_cases Hturn; [discriminate|]. by injection Hturn.
Qed.

(** A conversation is a run of the node's loop. *)
Lemma converse_is_run l : forall k nd k' nd',
  converse l k nd = (inr k', nd') ->
  exists inputs, fst <$> inputs = fst <$> l /\
    node_loop filter_control BROADCAST_MIN inputs nd = (inr false, nd').
Proof.
  induction l as [|[e arrives] l IH]; intros k nd k' nd' Hrun; cbn [converse] in Hrun.
  - injection Hrun as _ <-. by exists [].
  - st_cases Hrun; [discriminate|]. unfold talk_turn in Hstep. rewrite st_get_ok in Hstep.
    st_cases Hstep; [discriminate|].
    destruct (IH _ _ _ _ Hrun) as (inputs & Hfst & Hloop).
    set (input := FromPeer _) in *. exists ((e, input) :: inputs). split; [cbn; by rewrite Hfst|].
    cbn [node_loop]. injection Hstep as _ <-.
    pose proof (peer_turn_goes_on _ _ _ _ _ Hstep0) as ->. by rewrite (st_bind_ok _ _ _ _ _ Hstep0).
Qed.

(** A turn is late when the wanted block was asked for too long ago, so that it
    is asked for again. *)
Definition late (e : Env) (nd : Node D P) : bool :=
  match want (block_queue (chain nd)) with
  | Some _ => negb (secs_since (env_now e) (last_req (block_queue (chain nd))) <? SPAM_LIMIT)
  | None => false
  end.

Fixpoint lates (l : list (Env * bool)) (k : nat) (nd : Node D P) : nat :=
  match l with
  | [] => 0
  | t :: l' =>
      (if late t.1 nd then 1 else 0) +
      match talk_turn t k nd with (inr k', nd') => lates l' k' nd' | (inl _, _) => 0 end
  end%nat.

Definition arrivals (l : list (Env * bool)) : nat := length (filter (fun t => t.2 = true) l).
End Run.

(** ** The peer's side, and what is under way *)

#[local] Arguments bh_following {_ _ _ _ _ _ _ _ _ _ _ _ _ _ _ _ _} _.
#[local] Arguments bh_state {_ _ _ _ _ _ _ _ _ _ _ _ _ _ _ _ _} _.
#[local] Arguments bh_peer {_ _ _ _ _ _ _ _ _ _ _ _ _ _ _ _ _} _.
#[local] Arguments fo_tree {_ _ _ _ _ _ _ _ _ _ _ _ _} _.
#[local] Arguments ai_header {_ _ _ _ _ _ _ _ _ _} _.
#[local] Arguments ai_stored {_ _ _ _ _ _ _ _ _ _} _.
#[local] Arguments ai_height {_ _ _ _ _ _ _ _ _ _} _.
#[local] Arguments ai_checked {_ _ _ _ _ _ _ _ _ _} _.
#[local] Arguments sv_headers {_ _ _ _ _ _ _} _.
#[local] Arguments sv_filter_headers {_ _ _ _ _ _ _} _.
#[local] Arguments sv_filters {_ _ _ _ _ _ _} _.

Section Serving.
Context `{Bitcoin} {D : Type} `{HeaderStore D} {P : Type} `{PeerStore P}.
Context (filter_control : bool) (BROADCAST_MIN : FeeRate).
Context (peer : PeerId) (reply : MainThreadMessage -> list PeerMessage).
Context (a : BlockHash) (b lo : Height) (n : Network) (best : list Header).
Context (prev0 : FilterHeader) (contents : list bytes) (block_of : BlockHash -> Block).
Context (watched : gset ScriptBuf).
(** What had been sent at some earlier time. *)
Context (early : list MainThreadMessage).

(** The peer serves the blocks of its chain. *)
Record serves_blocks : Prop := {
  sb_reply h : h ∈ best -> reply (GetBlock (block_hash h)) = [PeerBlock (block_of (block_hash h))];
  sb_hash h : h ∈ best -> block_block_hash (block_of (block_hash h)) = block_hash h;
  sb_merkle h : h ∈ best -> check_merkle_root (block_of (block_hash h)) = true;
}.

Context (Hbest : honest_chain a b n best) (Hcontents : length contents = length best).
Context (Hlo : lo <= b + 2) (Hroom : is_u32 (b + 2000 + Z.of_nat (length best))).
Context (Hserves : serves reply a b best prev0 contents) (Hblocks : serves_blocks).
Implicit Types (c : Chain D) (nd : Node D P) (flight : list PeerMessage).

Abbreviation commits := (peer_commits prev0 contents) (only parsing).
Abbreviation following := (following (D := D) a b lo n best commits contents) (only parsing).
Abbreviation behind := (behind (D := D) (P := P) peer a b lo n best prev0 contents).
Abbreviation answers := (answers (D := D) (P := P) peer reply).
Abbreviation request := (request (D := D) b best prev0 contents).

(** The messages that answer the requests of the synchronization, and those that
    come unasked or answer [getaddr]. *)
Definition is_sync (m : PeerMessage) : bool :=
  match m with PeerHeaders _ | PeerFilterHeaders _ | PeerFilter _ => true | _ => false end.
Definition is_gossip (m : PeerMessage) : bool :=
  match m with PeerAddr _ | PeerFeeFilter _ => true | _ => false end.

Abbreviation rest_in := (filter (fun m => is_sync m = false)).
Abbreviation sync_in := (filter (fun m => is_sync m = true)).

(** The answers under way other than blocks, and how many rounds of headers and
    filter headers are left. *)
Inductive course (p q m : nat) (c : Chain D) : nat -> list PeerMessage -> Prop :=
  | co_headers :
      pending (block_queue c) = [] ->
      course p q m c (rounds best p q m) (reply (get_headers_message c))
  | co_filter_headers h :
      m = length best -> (p < m)%nat -> best !! stop_index best p CF_HEADER_BATCH_SIZE = Some h ->
      last_filter_header_request (request_state c) =
        Some (mkFilterHeaderRequest (b + 1 + Z.of_nat p) (block_hash h)
                (expected_before prev0 contents p)) ->
      pending (block_queue c) = [] ->
      course p q m c (filter_rounds best p q)
        (reply (GetFilterHeaders (mkGetCFHeaders FILTER_BASIC (b + 1 + Z.of_nat p) (block_hash h))))
  | co_filters s h start :
      m = length best -> p = m -> (q <= s < m)%nat -> best !! s = Some h ->
      last_filter_request (request_state c) = Some (mkFilterRequest start (block_hash h)) ->
      course p q m c 0 (filter_answers best contents q s)
  | co_done : m = length best -> p = m -> q = m -> course p q m c 0 [].

(** The client has been told of block [j] in a dialog: of its filter, or of the
    block when its filter matches the watched scripts. *)
Definition told_in (d : list Output) (j : nat) (h : Header) (content : bytes)
  : Prop :=
  let height := b + 1 + Z.of_nat j in
  if filter_control then
    SendEvent (IndexedFilterEvent (mkIndexedFilter height (filter_new content (block_hash h)))) ∈ d
  else
    match_any content (block_hash h) (elements watched) = Some true ->
    SendEvent (BlockEvent (mkIndexedBlock height (block_of (block_hash h)))) ∈ d.

Definition told (j : nat) (h : Header) (content : bytes) (c : Chain D) : Prop :=
  told_in (dialog c) j h content.

(** The filters from [q0] to [q] have been told, but for blocks that are still
    requested. *)
Definition notified (q0 q : nat) (c : Chain D) : Prop :=
  forall j h content, (q0 <= j < q)%nat -> best !! j = Some h -> contents !! j = Some content ->
    told j h content c \/ filter_control = false /\ block_hash h ∈ pending_hashes (block_queue c).

(** The requests for blocks, and the blocks under way. *)
Record wallet (q0 q : nat) (flight : list PeerMessage) (c : Chain D) : Prop := {
  wl_plain r : r ∈ pending (block_queue c) ->
    sender r = None /\ exists h, h ∈ best /\ req_hash r = block_hash h;
  wl_blocks x : x ∈ flight -> is_sync x = false ->
    is_gossip x = true \/ exists h, h ∈ best /\ x = PeerBlock (block_of (block_hash h));
  wl_wanted r : want (block_queue c) = Some r -> PeerBlock (block_of (req_hash r)) ∈ flight;
  wl_notified : notified q0 q c;
}.

(** [Synced] was announced for the peer's tip, and everything told before. *)
Definition announced (q0 : nat) (c : Chain D) : Prop :=
  exists u before after, dialog c = before ++ SendEvent (Synced u) :: after /\
    cp_height (update_tip u) = b + Z.of_nat (length best) /\
    hashes_from a best !! length best = Some (cp_hash (update_tip u)) /\
    forall j h content, (q0 <= j)%nat -> best !! j = Some h -> contents !! j = Some content ->
      told_in before j h content.

(** What a state of the synchronization promises. *)
Definition state_ok (s : NodeState) (p q m : nat) : Prop :=
  match s with
  | Behind => True
  | HeadersSynced => m = length best
  | FilterHeadersSynced => m = length best /\ p = m
  | FiltersSynced | TransactionsSynced => m = length best /\ p = m /\ q = m
  end.

Definition rank (s : NodeState) : nat :=
  match s with
  | Behind => 4 | HeadersSynced => 3 | FilterHeadersSynced => 2 | FiltersSynced => 1
  | TransactionsSynced => 0
  end.

(** The peer is the only connection, no transaction waits, and the scripts are
    the watched ones. *)
Record linked (nd : Node D P) : Prop := {
  lk_dom : dom (pm_map (peer_map nd)) = {[peer]};
  lk_heights : hm_retain [peer] (heights (chain nd)) = heights (chain nd);
  lk_scripts : scripts (chain nd) = watched;
  lk_idle : broadcaster_is_empty (tx_broadcaster nd) = true;
  lk_required : (required_peers nd <= 1)%nat;
}.

(** The requests of the synchronization are all that was sent since [early]. *)
Definition is_request (m : MainThreadMessage) : bool :=
  match m with GetHeaders _ | GetFilterHeaders _ | GetFilters _ | GetBlock _ => true | _ => false end.

Definition since nd : Prop :=
  exists more, sent peer nd = early ++ more /\ Forall (fun m => is_request m = true) more.

Lemma since_more nd nd' new :
  since nd -> sent peer nd' = sent peer nd ++ new -> Forall (fun m => is_request m = true) new -> since nd'.
Proof.
  intros (more & Hs & Hm) Hs' Hn. exists (more ++ new). rewrite Hs', Hs, (assoc_L (++)).
  split; [done|]. by apply Forall_app.
Qed.

(** The node in dialogue with the peer: [k] answers were handled, those of
    [flight] are under way. *)
Record dialogue (q0 p q m : nat) (s : NodeState) (r k : nat) (flight : list PeerMessage)
    (nd : Node D P) : Prop := {
  dg_behind : behind p q m s (sent peer nd) nd;
  dg_linked : linked nd;
  dg_answers : exists past, answers nd = past ++ flight /\ length past = k;
  dg_state : state_ok s p q m;
  dg_course : course p q m (chain nd) r (sync_in flight);
  dg_wallet : wallet q0 q flight (chain nd);
  dg_announced : s = TransactionsSynced -> announced q0 (chain nd);
  dg_since : since nd;
}.

#[local] Arguments dg_behind {_ _ _ _ _ _ _ _ _} _.
#[local] Arguments dg_linked {_ _ _ _ _ _ _ _ _} _.
#[local] Arguments dg_answers {_ _ _ _ _ _ _ _ _} _.
#[local] Arguments dg_state {_ _ _ _ _ _ _ _ _} _.
#[local] Arguments dg_course {_ _ _ _ _ _ _ _ _} _.
#[local] Arguments dg_wallet {_ _ _ _ _ _ _ _ _} _.
#[local] Arguments dg_announced {_ _ _ _ _ _ _ _ _} _ _.
#[local] Arguments dg_since {_ _ _ _ _ _ _ _ _} _.
#[local] Arguments wl_plain {_ _ _ _} _ _ _.
#[local] Arguments wl_blocks {_ _ _ _} _ _ _ _.
#[local] Arguments wl_wanted {_ _ _ _} _ _ _.
#[local] Arguments wl_notified {_ _ _ _} _.
#[local] Arguments lk_dom {_} _.
#[local] Arguments lk_heights {_} _.
#[local] Arguments lk_scripts {_} _.
#[local] Arguments lk_idle {_} _.
#[local] Arguments lk_required {_} _.

(** Every arrival lowers it. *)
Definition measure (q : nat) (s : NodeState) (r : nat) (flight : list PeerMessage) (c : Chain D) : nat :=
  (r + 3 * (length best - q) + 2 * length (queue (block_queue c)) + length (rest_in flight) + rank s)%nat.

(** ** What steps keep *)

Lemma linked_step nd nd' : linked nd -> on_node quiet nd nd' -> linked nd'.
Proof.
  intros [] ((Hh & Hs & _) & Hdom & Htx & Hreq).
  split; [congruence|by rewrite Hh|congruence|congruence|by rewrite Hreq].
Qed.

Lemma told_quiet j h content c c' : told j h content c -> quiet c c' -> told j h content c'.
Proof.
  intros Ht (_ & _ & [l Hd]). unfold told, told_in in *. rewrite Hd. destruct filter_control.
  - apply elem_of_app. by left.
  - intros Hm. apply elem_of_app. left. by apply Ht.
Qed.

Lemma announced_quiet q0 c c' : announced q0 c -> quiet c c' -> announced q0 c'.
Proof.
  intros (u & before & after & Hd & Hrest) (_ & _ & [l Hl]). exists u, before, (after ++ l).
  by rewrite Hl, Hd, <- (assoc_L (++)).
Qed.

Lemma notified_kept q0 q c c' : notified q0 q c -> kept c c' -> notified q0 q c'.
Proof.
  intros Hn [Hq Hb] j h content Hj Hh Hc. destruct (Hn j h content Hj Hh Hc) as [Ht|?].
  - left. by eapply told_quiet.
  - right. by rewrite Hb.
Qed.

(** More may be under way. *)
Lemma wallet_kept q0 q flight more c c' :
  wallet q0 q flight c -> kept c c' -> sync_in more = more ->
  wallet q0 q (flight ++ more) c'.
Proof.
  intros [Hp Hbl Hw Hn] Hk Hm. pose proof (proj2 Hk) as Hb. split; rewrite ?Hb; try done.
  - intros x [Hx|Hx]%elem_of_app Hxb; [by apply Hbl|].
    rewrite <- Hm in Hx. apply list_elem_of_filter in Hx as [Hx _]. congruence.
  - intros r Hr. apply elem_of_app. left. by apply Hw.
  - by eapply notified_kept.
Qed.

Lemma course_same p q m c c' r l :
  course p q m c r l -> header_chain c' = header_chain c -> request_state c' = request_state c ->
  (pending (block_queue c) = [] -> pending (block_queue c') = []) -> course p q m c' r l.
Proof.
  intros Hc Ht Hr Hp. destruct Hc; [|econstructor; rewrite ?Hr; eauto..].
  unfold get_headers_message. rewrite <- Ht. constructor. auto.
Qed.

(** A request of blocks is under way only when all headers are there. *)
Lemma course_pending p q m c r l :
  course p q m c r l -> pending (block_queue c) = [] \/ m = length best.
Proof. intros []; auto. Qed.

Lemma linked_map l nd :
  linked nd -> (exists x, pm_map (peer_map nd) !! peer = Some x /\ mp_finished x = false /\ ptx x = l) ->
  exists x, pm_map (peer_map nd) = {[peer := x]} /\ mp_finished x = false /\ ptx x = l.
Proof.
  intros Hl (x & Hx & Hrest). exists x. split; [|done]. apply map_eq. intros i.
  destruct (decide (i = peer)) as [->|Hne]; [by rewrite lookup_singleton_eq|].
  rewrite lookup_singleton_ne by done. apply not_elem_of_dom. rewrite (lk_dom Hl).
  by rewrite elem_of_singleton.
Qed.

Lemma answers_sent nd nd' new : sent peer nd' = sent peer nd ++ new ->
  answers nd' = answers nd ++ mjoin (reply <$> new).
Proof. intros Hs. unfold Delivery.answers. by rewrite Hs, fmap_app, join_app. Qed.

(** A step of the node that sends nothing and requests nothing. *)
Lemma dialogue_same q0 p q m s r k flight nd s' nd' :
  dialogue q0 p q m s r k flight nd ->
  on_node kept nd nd' -> pm_map (peer_map nd') = pm_map (peer_map nd) ->
  header_chain (chain nd') = header_chain (chain nd) ->
  request_state (chain nd') = request_state (chain nd) ->
  following p q m (chain nd') -> state nd' = s' -> state_ok s' p q m ->
  (s' = TransactionsSynced -> announced q0 (chain nd')) ->
  dialogue q0 p q m s' r k flight nd'.
Proof.
  intros [Hbe Hl Ha Hs Hco Hw Han Hea] Hn Hmap Ht Hr Hf Hs' Hok Han'.
  pose proof (proj2 (proj1 Hn)) as Hbq.
  assert (sent peer nd' = sent peer nd) as Hsent by (unfold sent; by rewrite Hmap). split; try done.
  - destruct (bh_peer Hbe) as (x & Hx & Hrest).
    rewrite Hsent. split; [done|done|]. rewrite Hmap. by exists x.
  - eapply linked_step; [done|]. destruct Hn as [[] ?]. by split.
  - unfold Delivery.answers. by rewrite Hsent.
  - eapply course_same; [done..|]. by rewrite Hbq.
  - rewrite <- (app_nil_r flight). eapply wallet_kept; [done|apply Hn|done].
  - unfold since. by rewrite Hsent.
Qed.

(** ** The state of the synchronization *)

Lemma behind_tree p q m s l nd : behind p q m s l nd -> 
  on_best a b lo best (peer_commits prev0 contents) p q m (header_chain (chain nd)).
Proof. intros Hb. apply (fo_tree (bh_following Hb)). Qed.

Lemma queue_complete_pending q : queue_complete q = true -> pending q = [].
Proof. unfold queue_complete, pending. by destruct (want q), (queue q). Qed.

Lemma queue_incomplete q : queue_complete q = false -> want q = None -> queue q <> [].
Proof. unfold queue_complete. intros Hq Hw. rewrite Hw in Hq. by destruct (queue q). Qed.

(** Entering a state of which the conditions hold. *)
Lemma enter_step {E} q0 p q m s r k flight nd s' :
  dialogue q0 p q m s r k flight nd -> state_ok s' p q m -> s' <> TransactionsSynced ->
  exists nd', enter (E := E) s' nd = (inr (), nd') /\ dialogue q0 p q m s' r k flight nd' /\
    block_queue (chain nd') = block_queue (chain nd).
Proof.
  intros Hd Hok Hne. eexists. split; [done|]. split; [|done].
  apply (dialogue_same _ _ _ _ _ _ _ _ _ _ _ Hd); try done.
  - split; [apply kept_say|done].
  - by destruct (bh_following (dg_behind Hd)).
Qed.

Lemma sync_update_tip q0 p q m s r k flight nd :
  dialogue q0 p q m s r k flight nd -> m = length best ->
  cp_height (update_tip (sync_update (chain nd))) = b + Z.of_nat (length best) /\
  hashes_from a best !! length best = Some (cp_hash (update_tip (sync_update (chain nd)))).
Proof.
  intros Hd ->. apply (on_best_tip _ _ _ _ _ (behind_tree _ _ _ _ _ _ (dg_behind Hd))).
Qed.

Lemma announce_step {E} q0 p q m r k flight nd :
  dialogue q0 p q m FiltersSynced r k flight nd -> block_queue_empty (chain nd) = true ->
  exists nd', (enter (E := E) TransactionsSynced;;
               node_say (SendEvent (Synced (sync_update (chain nd))))) nd = (inr (), nd') /\
    dialogue q0 p q m TransactionsSynced r k flight nd' /\
    block_queue (chain nd') = block_queue (chain nd).
Proof.
  intros Hd Hempty. eexists. split; [done|]. split; [|done].
  pose proof (dg_state Hd) as Hok. cbn in Hok.
  destruct (sync_update_tip _ _ _ _ _ _ _ _ _ Hd (proj1 Hok)) as [Htip Hhash].
  set (u := sync_update (chain nd)) in *.
  assert (quiet (chain nd) (say (SendEvent (Synced u))
    (say (SendInfo (StateChange TransactionsSynced)) (chain nd)))) as Hq.
  { etransitivity; apply kept_say. }
  apply (dialogue_same _ _ _ _ _ _ _ _ _ _ _ Hd); try done.
  - by destruct (bh_following (dg_behind Hd)).
  - intros _. exists u, (dialog (chain nd) ++ [SendInfo (StateChange TransactionsSynced)]), [].
    split_and!; [done..|].
    + intros j h content Hj Hh Hc.
      eapply (told_quiet j h content _ (say (SendInfo (StateChange TransactionsSynced)) (chain nd)));
        [|apply kept_say].
      destruct (wl_notified (dg_wallet Hd) j h content) as [Ht|[_ Hp]]; try done.
      * pose proof (lookup_lt_Some _ _ _ Hh). lia.
      * unfold pending_hashes in Hp. rewrite (queue_complete_pending _ Hempty) in Hp.
        by apply elem_of_nil in Hp.
Qed.

(** With nothing else to come the state advances, until blocks are pending. *)
Lemma advance_step {E} now q0 p q m s r k flight nd :
  dialogue q0 p q m s r k flight nd -> s <> TransactionsSynced ->
  exists s' nd', advance_state (E := E) now nd = (inr (), nd') /\
    dialogue q0 p q m s' r k flight nd' /\
    block_queue (chain nd') = block_queue (chain nd) /\ (rank s' <= rank s)%nat /\
    (m = length best /\ p = m /\ q = m ->
       (rank s' < rank s)%nat \/
       s' = FiltersSynced /\ (want (block_queue (chain nd)) = None -> queue (block_queue (chain nd)) <> [])).
Proof.
  intros Hd Hne. pose proof (dg_behind Hd) as Hb.
  pose proof (behind_tree _ _ _ _ _ _ Hb) as Ht. pose proof (dg_state Hd) as Hok.
  unfold advance_state. rewrite !st_get_ok, (bh_state Hb).
  assert (forall s', state_ok s' p q m -> s' <> TransactionsSynced -> (rank s' < rank s)%nat ->
    exists s2 nd', enter (E := E) s' nd = (inr (), nd') /\ dialogue q0 p q m s2 r k flight nd' /\
      block_queue (chain nd') = block_queue (chain nd) /\ (rank s2 <= rank s)%nat /\
      (m = length best /\ p = m /\ q = m -> (rank s2 < rank s)%nat \/ s2 = FiltersSynced /\
        (want (block_queue (chain nd)) = None -> queue (block_queue (chain nd)) <> []))) as Henter.
  { intros s' Hok' Hs' Hr. destruct (enter_step (E := E) _ _ _ _ _ _ _ _ _ s' Hd Hok' Hs') as (nd' & ? & ? & ?).
    exists s', nd'. split_and!; try done; [lia|]. intros _. left. lia. }
  assert (forall x, x = false -> (m = length best /\ p = m /\ q = m -> x = true) ->
    exists s2 nd', (mret () : ST (Node D P) E ()) nd = (inr (), nd') /\ dialogue q0 p q m s2 r k flight nd' /\
      block_queue (chain nd') = block_queue (chain nd) /\ (rank s2 <= rank s)%nat /\
      (m = length best /\ p = m /\ q = m -> (rank s2 < rank s)%nat \/ s2 = FiltersSynced /\
        (want (block_queue (chain nd)) = None -> queue (block_queue (chain nd)) <> []))) as Hstay.
  { intros x Hx Hall. exists s, nd. split_and!; try done. intros Hm. specialize (Hall Hm). congruence. }
  destruct s; cbn in Hok; try done.
  - destruct (is_synced (chain nd)) eqn:Hs; rewrite (following_synced _ _ _ _ _ _ _ _ _ _ _
      (bh_following Hb)) in Hs.
    + apply bool_decide_eq_true in Hs. apply Henter; [done..|cbn; lia].
    + apply (Hstay _ Hs). intros (-> & _). by apply bool_decide_true.
  - unfold is_cf_headers_synced. rewrite (cf_headers_synced_iff _ _ _ _ _ _ Hcontents Ht).
    case_bool_decide; [apply Henter; [done..|cbn; lia]|]. apply (Hstay false); [done|]. naive_solver.
  - unfold is_filters_synced. rewrite (filters_synced_iff _ _ _ _ _ _ Hcontents Ht).
    destruct Hok as [Hok1 Hok2].
    case_bool_decide; [apply Henter; [done..|cbn; lia]|]. apply (Hstay false); [done|]. naive_solver.
  - destruct (block_queue_empty (chain nd)) eqn:He.
    + destruct (announce_step (E := E) _ _ _ _ _ _ _ _ Hd He) as (nd' & Hrun & Hd' & Hq).
      exists TransactionsSynced, nd'. split_and!; try done; cbn; [lia|]. intros _. left. lia.
    + exists FiltersSynced, nd. split_and!; try done. intros _. right. split; [done|].
      by apply queue_incomplete.
Qed.

Lemma advance_sent {E} now nd nd' :
  state nd <> TransactionsSynced -> advance_state (E := E) now nd = (inr (), nd') ->
  sent peer nd' = sent peer nd.
Proof.
  intros Hs. unfold advance_state. rewrite !st_get_ok.
  destruct (state nd); [..|done]; case_match; intros [= <-]; done.
Qed.

(** ** Maintenance *)

Lemma dialogue_map q0 p q m s r k flight nd :
  dialogue q0 p q m s r k flight nd ->
  exists x, pm_map (peer_map nd) = {[peer := x]} /\ mp_finished x = false /\ ptx x = sent peer nd.
Proof. intros Hd. eapply linked_map; [apply Hd|]. apply (bh_peer (dg_behind Hd)). Qed.

(** The connection is alive, and enough. *)
Lemma dispatch_step e q0 p q m s r k flight nd :
  dialogue q0 p q m s r k flight nd ->
  exists nd', dispatch BROADCAST_MIN e nd = (inr (), nd') /\
    dialogue q0 p q m s r k flight nd' /\ block_queue (chain nd') = block_queue (chain nd) /\
    sent peer nd' = sent peer nd.
Proof.
  intros Hd. destruct (dialogue_map _ _ _ _ _ _ _ _ _ Hd) as (x & Hx & Hfin & _).
  pose proof (dg_linked Hd) as Hl.
  assert (filter (fun kv : PeerId * ManagedPeer => mp_finished kv.2 = false) (pm_map (peer_map nd)) =
    pm_map (peer_map nd)) as Hfilter.
  { rewrite Hx. by apply map_filter_singleton_True. }
  set (nd1 := (peer_map_do (E := NodeError store_error peer_store_error) clean nd).2).
  assert (pm_map (peer_map nd1) = pm_map (peer_map nd)) as Hmap by exact Hfilter.
  assert (heights (chain nd1) = heights (chain nd)) as Hh.
  { cbn. rewrite Hfilter, Hx, map_to_list_singleton. apply Hl. }
  unfold dispatch. rewrite (st_bind_ok _ _ nd () nd1) by done. rewrite !st_get_ok.
  assert (live (peer_map nd1) = 1%nat) as ->.
  { unfold live, live_peers. rewrite Hmap, Hx, map_to_list_singleton. by rewrite filter_cons_True. }
  rewrite decide_False.
  2: { unfold next_required_peers. pose proof (lk_required Hl). cbn [state nd1 peer_map_do on_peer_map].
       cbn. destruct (state nd); lia. }
  exists nd1. split_and!; [done| |done|unfold sent; by rewrite Hmap].
  apply (dialogue_same _ _ _ _ _ _ _ _ _ _ _ Hd); try done.
  - split; [|by rewrite Hmap]. split; [|done]. by repeat split.
  - destruct (bh_following (dg_behind Hd)).
    split; try done. by rewrite Hh.
  - apply (bh_state (dg_behind Hd)).
  - apply Hd.
  - intros Hs. eapply announced_quiet; [by apply (dg_announced Hd)|]. by repeat split.
Qed.

Lemma broadcast_none e q0 p q m s r k flight nd :
  dialogue q0 p q m s r k flight nd ->
  broadcast_transactions (E := NodeError store_error peer_store_error) e nd = (inr (), nd).
Proof.
  intros Hd. unfold broadcast_transactions. rewrite st_get_ok.
  by rewrite (lk_idle (dg_linked Hd)).
Qed.

(** Blocks that come under way are no other answers. *)
Lemma rest_sync more :
  Forall (fun x => is_sync x = false) more -> sync_in more = [].
Proof. intros Hm. apply list_filter_none. eapply Forall_impl; [exact Hm|]. cbn. congruence. Qed.

Definition with_queue (q : BlockQueue) (nd : Node D P) : Node D P :=
  set_chain (set_block_queue q (chain nd)) nd.

(** The queue was asked for the next block, and [new] was sent. *)
Lemma dialogue_pop q0 p q m s r k flight nd bq new more nd' :
  dialogue q0 p q m s r k flight nd ->
  pending bq = pending (block_queue (chain nd)) ->
  (forall x, want bq = Some x -> PeerBlock (block_of (req_hash x)) ∈ flight ++ more) ->
  Forall (fun x => exists h, h ∈ best /\ x = PeerBlock (block_of (block_hash h))) more ->
  mjoin (reply <$> new) = more -> Forall (fun m => is_request m = true) new ->
  behind p q m s (sent peer nd ++ new) nd' ->
  on_node kept (with_queue bq nd) nd' -> same_chain (with_queue bq nd) nd' ->
  dialogue q0 p q m s r k (flight ++ more) nd'.
Proof.
  intros [Hbe Hl (past & Ha & Hk) Hs Hco Hw Han Hea] Hp Hwant Hmore Hnew Hreq Hbe' Hn [Ht Hr].
  assert (sent peer nd' = sent peer nd ++ new) as Hsent by (by eapply behind_sent).
  assert (Forall (fun x => is_sync x = false) more) as Hmb.
  { eapply Forall_impl; [exact Hmore|]. by intros x (h & _ & ->). }
  pose proof (proj2 (proj1 Hn)) as Hbq. cbn [block_queue with_queue chain set_chain set_block_queue] in Hbq.
  assert (quiet (chain nd) (chain nd')) as Hq.
  { transitivity (chain (with_queue bq nd)); [by repeat split|apply Hn]. }
  split; try done.
  - by rewrite Hsent.
  - eapply linked_step; [exact Hl|]. destruct Hn as (_ & ? & ? & ?). by split.
  - exists past. split; [|done]. by rewrite (answers_sent _ _ _ Hsent), Ha, Hnew, (assoc_L (++)).
  - rewrite filter_app, (rest_sync more), app_nil_r by done.
    eapply course_same; [exact Hco|exact Ht|exact Hr|]. by rewrite Hbq, Hp.
  - destruct Hw as [Hw1 Hw2 Hw3 Hw4]. split; rewrite ?Hbq; try done.
    + by rewrite Hp.
    + intros x [Hx|Hx]%elem_of_app Hxb; [by apply Hw2|].
      right. rewrite Forall_forall in Hmore. by apply Hmore.
    + intros j h content Hj Hh Hc. destruct (Hw4 j h content Hj Hh Hc) as [Hto|[? Hin]].
      * left. by eapply told_quiet.
      * right. split; [done|]. rewrite Hbq. unfold pending_hashes in *. by rewrite Hp.
  - intros Hts. eapply announced_quiet; [by apply Han|done].
  - by eapply since_more.
Qed.

Lemma behind_with_queue p q m s l nd bq :
  behind p q m s l nd -> behind p q m s l (with_queue bq nd).
Proof.
  intros Hb. eapply behind_chain; [exact Hb|].
  by destruct (bh_following Hb).
Qed.

(** With one connection there is no choice. *)
Lemma send_random_single pick msg (pm : PeerMap P) x :
  pm_map pm = {[peer := x]} ->
  send_random pick msg pm = (negb (mp_finished x), send_message peer msg pm).
Proof. intros Hx. unfold send_random. by rewrite Hx, map_to_list_singleton, Nat.mod_1_r. Qed.

(** Asking for a block: the request goes to the peer. *)
Lemma request_block pick q0 p q m s r k flight nd bq h :
  dialogue q0 p q m s r k flight nd ->
  pending bq = pending (block_queue (chain nd)) -> h ∈ best ->
  (forall x, want bq = Some x -> req_hash x = block_hash h) ->
  exists nd', node_send_random (E := NodeError store_error peer_store_error) pick (GetBlock (block_hash h))
      (with_queue bq nd) = (inr (), nd') /\
    dialogue q0 p q m s r k (flight ++ [PeerBlock (block_of (block_hash h))]) nd' /\
    block_queue (chain nd') = bq.
Proof.
  intros Hd Hp Hh Hw. destruct (dialogue_map _ _ _ _ _ _ _ _ _ Hd) as (x & Hx & Hfin & Hsent).
  set (msg := GetBlock (block_hash h)).
  destruct (behind_map (E := NodeError store_error peer_store_error) peer a b lo n best prev0 contents
    p q m s (sent peer nd) (with_queue bq nd) msg (send_random pick msg)) as (ok & nd' & Hrun & Hb' & Hsame).
  { apply behind_with_queue, Hd. }
  { intros pm Hpm. rewrite (send_random_single _ _ _ x) by (rewrite Hpm; exact Hx).
    split_and!; [done..|]. intros y Hy. cbn. by rewrite lookup_alter_eq, Hy. }
  assert (on_node kept (with_queue bq nd) nd') as Hn.
  { eapply (peer_map_run_keeps kept); [done| |exact Hrun]. intros pm. unfold send_random.
    destruct (_ !! (_ mod _)%nat) as [[i y]|]; repeat split; try done. apply dom_alter_L. }
  exists nd'. split; [|split].
  - unfold node_send_random. by rewrite (st_bind_ok _ _ _ _ _ Hrun).
  - eapply (dialogue_pop _ _ _ _ _ _ _ _ _ bq [msg]); try done.
    + intros y Hy. rewrite (Hw y Hy). apply elem_of_app. right. by apply list_elem_of_singleton.
    + apply Forall_singleton. by exists h.
    + cbn. unfold msg. by rewrite (sb_reply Hblocks _ Hh).
    + by apply Forall_singleton.
  - by apply Hn.
Qed.

(** What maintenance may do: put blocks under way, at most one more than a late
    turn; in [FiltersSynced] the next block is put under way.  Without progress
    nothing is sent, but for the requests of late turns. *)
Definition asks (e : Env) (q0 p q m : nat) (s : NodeState) (r k : nat) (flight : list PeerMessage)
    (nd : Node D P) (f : ST (Node D P) (NodeError store_error peer_store_error) ()) : Prop :=
  exists nd' more, f nd = (inr (), nd') /\
    dialogue q0 p q m s r k (flight ++ more) nd' /\
    (measure q s r (flight ++ more) (chain nd') <=
     measure q s r flight (chain nd) + (if late e nd then 1 else 0))%nat /\
    (s = FiltersSynced -> want (block_queue (chain nd)) = None -> queue (block_queue (chain nd)) <> [] ->
     (measure q s r (flight ++ more) (chain nd') < measure q s r flight (chain nd))%nat) /\
    (sent peer nd' = sent peer nd \/
     (measure q s r (flight ++ more) (chain nd') <
      measure q s r flight (chain nd) + (if late e nd then 2 else 0))%nat).

(** The wanted block is asked for. *)
Lemma ask_step e q0 p q m s r k flight nd bq' x :
  dialogue q0 p q m s r k flight nd ->
  pending bq' = pending (block_queue (chain nd)) -> want bq' = Some x ->
  exists nd', node_send_random (E := NodeError store_error peer_store_error) (env_pick_block e)
      (GetBlock (req_hash x)) (with_queue bq' nd) = (inr (), nd') /\
    dialogue q0 p q m s r k (flight ++ [PeerBlock (block_of (req_hash x))]) nd' /\
    (measure q s r (flight ++ [PeerBlock (block_of (req_hash x))]) (chain nd') +
       2 * length (queue (block_queue (chain nd))) =
     measure q s r flight (chain nd) + 1 + 2 * length (queue bq'))%nat.
Proof.
  intros Hd Hp Hx.
  destruct (wl_plain (dg_wallet Hd) x) as (_ & h & Hh & Hxh).
  { rewrite <- Hp. unfold pending. rewrite Hx. by left. }
  rewrite Hxh. destruct (request_block (env_pick_block e) _ _ _ _ _ _ _ _ _ bq' h Hd)
    as (nd' & Hrun & Hd' & Hbq); [done|done|by intros y; rewrite Hx; intros [= <-]|].
  exists nd'. split_and!; [done|done|]. unfold measure. rewrite Hbq, filter_app, length_app.
  change (length (rest_in [PeerBlock _])) with 1%nat. lia.
Qed.

(** The next wanted block is asked for: the first time it is taken from the
    queue, and again when it is late. *)
Lemma pop_step e q0 p q m s r k flight nd :
  dialogue q0 p q m s r k flight nd ->
  asks e q0 p q m s r k flight nd
    (chain_run (next_block (env_now e)) ≫= fun h => mret (GetBlock <$> h) ≫= fun o =>
       match o with Some x => node_send_random (env_pick_block e) x | None => mret () end).
Proof.
  intros Hd. set (bq := block_queue (chain nd)).
  pose proof (pending_pop (env_now e) bq) as Hp. pose proof (dg_wallet Hd) as Hw.
  assert (forall bq', pending bq' = pending bq -> want bq' = want bq -> queue bq' = queue bq ->
    dialogue q0 p q m s r k (flight ++ []) (with_queue bq' nd) /\
    measure q s r (flight ++ []) (chain (with_queue bq' nd)) = measure q s r flight (chain nd)) as Hidle.
  { intros bq' Hp' Hw' Hq'. split; [|rewrite app_nil_r; unfold measure; cbn; by rewrite Hq'].
    eapply (dialogue_pop _ _ _ _ _ _ _ _ _ bq' [] [] _ Hd); try done.
    - intros y. rewrite app_nil_r, Hw'. apply (wl_wanted Hw).
    - rewrite app_nil_r. apply behind_with_queue, Hd. }
  unfold asks, chain_run, on_chain, st_run, next_block, late, mbind, ST_bind. fold bq.
  unfold queue_pop in *. destruct (want bq) as [x|] eqn:Hwant; cbn [snd] in Hp.
  - destruct (secs_since (env_now e) (last_req bq) <? SPAM_LIMIT) eqn:Hsecs; cbn [snd negb] in *.
    + destruct (Hidle bq) as [Hd' Hm]; [done..|].
      exists (with_queue bq nd), []. split; [done|]. split_and!; [done|lia|done|by left].
    + destruct (ask_step e _ _ _ _ _ _ _ _ _ _ _ Hd Hp eq_refl) as (nd' & Hrun & Hd' & Hm).
      exists nd', [PeerBlock (block_of (req_hash x))]. fold bq in Hm. cbn [queue] in Hm.
      split_and!; [exact Hrun|done|lia|done|right; lia].
  - destruct (exists_last' (queue bq)) as [Hnil|(l' & x & Hl)]; unfold pop_back in *.
    + rewrite Hnil in *. cbn in Hp |- *.
      destruct (Hidle {| queue := []; want := None; last_req := env_now e |}) as [Hd' Hm]; [done..|].
      eexists _, []. split; [reflexivity|]. split_and!; [exact Hd'| |done|by left].
      unfold with_queue in Hm. rewrite Hm. lia.
    + rewrite Hl, last_snoc, length_app, Nat.add_sub, take_app_length in *. cbn [snd] in Hp.
      destruct (ask_step e _ _ _ _ _ _ _ _ _ _ _ Hd Hp eq_refl) as (nd' & Hrun & Hd' & Hm).
      exists nd', [PeerBlock (block_of (req_hash x))]. fold bq in Hm. rewrite Hl, length_app in Hm.
      cbn [queue length] in Hm. split_and!; [exact Hrun|done|lia|lia|right; lia].
Qed.

Lemma get_blocks_step e q0 p q m s r k flight nd :
  dialogue q0 p q m s r k flight nd -> asks e q0 p q m s r k flight nd (get_blocks e).
Proof.
  intros Hd. pose proof (bh_state (dg_behind Hd)) as Hs.
  destruct (pop_step e _ _ _ _ _ _ _ _ _ Hd) as (nd2 & more & Hrun & Hrest).
  assert (s <> FiltersSynced -> asks e q0 p q m s r k flight nd (mret ())) as Hnone.
  { intros Hne. exists nd, []. rewrite app_nil_r. split_and!; [done|done|lia|done|by left]. }
  unfold asks, get_blocks, pop_block_queue. rewrite st_bind_assoc, st_get_ok, Hs.
  destruct s; try (by apply Hnone); rewrite st_bind_assoc; by exists nd2, more.
Qed.

(** ** A block arrives *)

Lemma best_height p q m c j h :
  following p q m c -> m = length best -> best !! j = Some h ->
  height_of_hash (header_chain c) (block_hash h) = Some (b + 1 + Z.of_nat j).
Proof.
  intros Hf -> Hh. destruct (index_data _ _ _ _ _ _ Hcontents (fo_tree Hf) j) as (x & _ & Hx);
    [by eapply lookup_lt_Some|].
  assert (header x = h) as Hxh by (pose proof (ai_header Hx); congruence).
  unfold height_of_hash. pose proof (ai_stored Hx) as Hst. rewrite Hxh in Hst.
  rewrite Hst. cbn. by rewrite (ai_height Hx).
Qed.

Lemma best_hash_index i j g h :
  best !! i = Some g -> best !! j = Some h -> block_hash g = block_hash h -> i = j.
Proof.
  intros Hi Hj Heq. pose proof (hashes_succ a best _ _ Hi) as H1'. pose proof (hashes_succ a best _ _ Hj) as H2'.
  rewrite Heq in H1'. pose proof (hashes_inj _ _ _ _ Hbest _ _ _ H1' H2'). lia.
Qed.

(** A block that is not wanted is dropped. *)
Lemma unwanted_wallet q0 q flight c h :
  wallet q0 q (PeerBlock (block_of (block_hash h)) :: flight) c -> h ∈ best ->
  queue_need (block_queue c) (block_hash h) = false -> wallet q0 q flight c.
Proof.
  intros [Hp Hb Hw Hn] Hh Hneed. split; try done.
  - intros x Hx. apply Hb. by right.
  - intros r Hr. destruct (Hp r) as (_ & g & Hg & Hrg); [unfold pending; rewrite Hr; by left|].
    specialize (Hw r Hr). apply elem_of_cons in Hw as [Heq|?]; [|done]. exfalso.
    injection Heq as Heq. apply (f_equal block_block_hash) in Heq.
    rewrite Hrg, (sb_hash Hblocks _ Hg), (sb_hash Hblocks _ Hh) in Heq.
    unfold queue_need in Hneed. rewrite Hr, Hrg, Heq, Z.eqb_refl in Hneed. done.
Qed.

Definition received (c : Chain D) : Chain D :=
  let bq := block_queue c in
  set_block_queue {| queue := queue bq; want := None; last_req := last_req bq |} c.

(** A wanted block is delivered. *)
Lemma wanted_wallet q0 q flight c j h :
  wallet q0 q (PeerBlock (block_of (block_hash h)) :: flight) c -> best !! j = Some h ->
  queue_need (block_queue c) (block_hash h) = true ->
  wallet q0 q flight
    (say (SendEvent (BlockEvent (mkIndexedBlock (b + 1 + Z.of_nat j) (block_of (block_hash h)))))
       (received c)).
Proof.
  intros [Hp Hb Hw Hn] Hh Hneed. unfold queue_need in Hneed.
  destruct (want (block_queue c)) as [r|] eqn:Hr; [|done]. apply Z.eqb_eq in Hneed.
  set (o := SendEvent _). assert (quiet c (say o (received c))) as Hq.
  { transitivity (received c); [by repeat split|apply kept_say]. }
  assert (pending (block_queue c) = r :: pending (block_queue (say o (received c)))) as Hpend
    by (unfold pending; by rewrite Hr).
  split.
  - intros x Hx. apply Hp. rewrite Hpend. by right.
  - intros x Hx. apply Hb. by right.
  - done.
  - intros i g content Hi Hg Hc. destruct (Hn i g content Hi Hg Hc) as [Ht|[Hfc Hin]].
    + left. by eapply told_quiet.
    + unfold pending_hashes in Hin. rewrite Hpend in Hin. cbn [fmap list_fmap] in Hin.
      apply elem_of_cons in Hin as [Heq|Hin]; [|by right]. left.
      assert (i = j) as -> by (eapply best_hash_index; [done..|congruence]).
      assert (g = h) as -> by congruence. unfold told, told_in. rewrite Hfc. intros _. cbn [dialog say].
      apply elem_of_app. right. by apply list_elem_of_singleton.
Qed.

Lemma block_arrives e q0 p q m s r k x flight nd h :
  dialogue q0 p q m s r k (x :: flight) nd -> h ∈ best -> x = PeerBlock (block_of (block_hash h)) ->
  exists nd', handle_peer filter_control e (mkPeerThreadMessage peer x) nd = (inr (), nd') /\
    dialogue q0 p q m s r (S k) flight nd' /\
    (S (measure q s r flight (chain nd')) = measure q s r (x :: flight) (chain nd))%nat.
Proof.
  intros Hd Hh ->. pose proof (dg_wallet Hd) as Hw.
  pose proof (bh_following (dg_behind Hd)) as Hf.
  assert (exists c', check_send_block (env_alive e) (block_of (block_hash h)) (chain nd) = (inr (), c') /\
    quiet (chain nd) c' /\ wallet q0 q flight c' /\ header_chain c' = header_chain (chain nd) /\
    request_state c' = request_state (chain nd) /\ following p q m c' /\
    queue (block_queue c') = queue (block_queue (chain nd)) /\
    (pending (block_queue (chain nd)) = [] -> pending (block_queue c') = []))
    as (c' & Hrun & Hq & Hw' & Ht & Hr & Hf' & Hbq & Hpend).
  { unfold check_send_block. rewrite st_get_ok, (sb_hash Hblocks _ Hh).
    destruct (queue_need (block_queue (chain nd)) (block_hash h)) eqn:Hneed; cbn [negb].
    2: { exists (chain nd). split_and!; try done. by eapply unwanted_wallet. }
    pose proof Hneed as Hwant. unfold queue_need in Hwant.
    destruct (want (block_queue (chain nd))) as [y|] eqn:Hy; [|done].
    assert (y ∈ pending (block_queue (chain nd))) as Hyp by (unfold pending; rewrite Hy; by left).
    assert (m = length best) as Hm.
    { destruct (course_pending _ _ _ _ _ _ (dg_course Hd)) as [Hnil|?]; [|done].
      rewrite Hnil in Hyp. by apply elem_of_nil in Hyp. }
    apply list_elem_of_lookup in Hh as [j Hj].
    rewrite st_get_ok, (best_height _ _ _ _ _ _ Hf Hm Hj), st_ok_or_ok, st_guard_ok
      by (apply (sb_merkle Hblocks); by eapply list_elem_of_lookup_2).
    unfold st_run at 1, mbind at 1, ST_bind at 1, queue_receive. rewrite Hy, Hwant.
    rewrite (proj1 (wl_plain Hw y Hyp)).
    eexists. split; [reflexivity|]. split_and!; try done.
    - transitivity (received (chain nd)); [by repeat split|apply kept_say].
    - by apply wanted_wallet.
    - by destruct Hf.
    - intros Hnil. rewrite Hnil in Hyp. by apply elem_of_nil in Hyp. }
  exists (set_chain c' nd). split_and!.
  - cbn [handle_peer ptm_message ptm_nonce]. unfold handle_block.
    by rewrite st_bind_assoc, (st_bind_ok _ _ _ _ _ (chain_result_ok _ _ _ _ Hrun)).
  - destruct Hd as [Hbe Hl (past & Ha & Hk) Hs Hco _ Han Hea]. split; try done.
    + by eapply behind_chain.
    + eapply linked_step; [exact Hl|]. by repeat split; apply Hq.
    + exists (past ++ [PeerBlock (block_of (block_hash h))]). rewrite <- (assoc_L (++)), length_app.
      split; [done|]. cbn. lia.
    + by eapply course_same.
    + intros Hts. eapply announced_quiet; [by apply Han|done].
  - unfold measure. cbn [chain set_chain]. rewrite Hbq.
    rewrite (filter_cons_True _ (PeerBlock _)) by done. cbn [length]. lia.
Qed.

(** ** Addresses or a fee filter arrive *)

Definition keeps_channel (f : PeerMap P -> PeerMap P) : Prop :=
  forall pm, pm_kept pm (f pm) /\ forall y, pm_map pm !! peer = Some y ->
    exists y', pm_map (f pm) !! peer = Some y' /\ mp_finished y' = mp_finished y /\ ptx y' = ptx y.

Lemma gossiped_keeps l : keeps_channel (add_gossiped_peers l).
Proof.
  unfold add_gossiped_peers. induction l as [|c l IH]; intros pm; [by repeat split; eauto|]. cbn [foldl].
  set (p := mkPersistedPeer _ _ _ _). destruct (IH (update_or_warn p pm)) as [(? & ? & ?) Hy].
  destruct (update_kept p pm) as (? & ? & ?). split.
  - unfold pm_kept. split_and!; [congruence|by etransitivity|congruence].
  - intros y Hpy. apply Hy. rewrite <- Hpy. unfold update_or_warn.
    by destruct (store_update p (pm_db pm)) as [[e|[]] d].
Qed.

Lemma broadcast_min_keeps fee : keeps_channel (set_broadcast_min peer fee).
Proof.
  intros pm. split; [repeat split; try done; apply dom_alter_L|]. intros y Hy.
  eexists. cbn. by rewrite lookup_alter_eq, Hy.
Qed.

Lemma gossip_arrives e q0 p q m s r k x flight nd :
  dialogue q0 p q m s r k (x :: flight) nd -> is_gossip x = true ->
  exists nd', handle_peer filter_control e (mkPeerThreadMessage peer x) nd = (inr (), nd') /\
    dialogue q0 p q m s r (S k) flight nd' /\
    (S (measure q s r flight (chain nd')) = measure q s r (x :: flight) (chain nd))%nat.
Proof.
  intros Hd Hx.
  assert (exists f, handle_peer filter_control e (mkPeerThreadMessage peer x) = peer_map_do f /\ keeps_channel f)
    as (f & Hrun & Hf).
  { destruct x; try done; eexists; (split; [done|]); [apply gossiped_keeps|apply broadcast_min_keeps]. }
  assert (is_sync x = false) as Hxs by (by destruct x). rewrite Hrun. clear Hrun.
  set (nd' := (peer_map_do (E := NodeError store_error peer_store_error) f nd).2).
  destruct (Hf (lend (chain nd) (peer_map nd))) as [Hk Hch].
  assert (on_node kept nd nd') as Hn.
  { apply (peer_map_do_keeps (E := NodeError store_error peer_store_error) kept ltac:(done) f
      (fun pm => proj1 (Hf pm)) nd (inr ()) nd' eq_refl). }
  destruct Hd as [Hbe Hl (past & Ha & Hpk) Hs Hco Hw Han Hea].
  destruct (bh_peer Hbe) as (y & Hy & Hfin & Hptx). destruct (Hch y Hy) as (y' & Hy' & Hfin' & Hptx').
  assert (sent peer nd' = sent peer nd) as Hsent.
  { unfold sent at 1. change (pm_map (peer_map nd') !! peer) with (pm_map (f (lend (chain nd) (peer_map nd))) !! peer).
    rewrite Hy'. congruence. }
  assert (behind p q m s (sent peer nd) nd') as Hbe'.
  { split.
    - destruct (bh_following Hbe). split; try done. cbn. by rewrite (proj1 Hk).
    - apply (bh_state Hbe).
    - exists y'. split; [exact Hy'|]. split; congruence. }
  exists nd'. split_and!; [done| |].
  - split; try done.
    + by rewrite Hsent.
    + eapply linked_step; [exact Hl|]. destruct Hn as [[] ?]. by split.
    + exists (past ++ [x]). unfold Delivery.answers in *. rewrite Hsent, Ha, <- (assoc_L (++)), length_app.
      split; [done|]. cbn. lia.
    + rewrite filter_cons_False in Hco by (by rewrite Hxs).
      eapply course_same; [exact Hco|done..|]. by rewrite (proj2 (proj1 Hn)).
    + destruct Hw as [H1' H2' H3' H4']. pose proof (proj2 (proj1 Hn)) as Hbq. split; rewrite ?Hbq; try done.
      * intros z Hz. apply H2'. by right.
      * intros z Hz. specialize (H3' z Hz). apply elem_of_cons in H3' as [Heq|?]; [|done]. by subst x.
      * eapply notified_kept; [exact H4'|apply Hn].
    + intros Hts. eapply announced_quiet; [by apply Han|apply Hn].
    + unfold since. by rewrite Hsent.
  - unfold measure. rewrite (proj2 (proj1 Hn)), (filter_cons_True _ x) by done. cbn [length]. lia.
Qed.

(** ** Headers or filter headers arrive *)

Lemma headers_reply p q m c :
  following p q m c -> exists l, reply (get_headers_message c) = [PeerHeaders l].
Proof.
  intros Hf. destruct (locators_first _ _ _ _ _ (fo_tree Hf))
    as (k & rest & j & Hloc & Hk & _). unfold get_headers_message.
  rewrite Hloc, (sv_headers Hserves _ _ _ Hk). by eexists.
Qed.

Lemma filter_headers_reply p h :
  (p < length best)%nat -> best !! stop_index best p CF_HEADER_BATCH_SIZE = Some h ->
  exists l, reply (GetFilterHeaders (mkGetCFHeaders FILTER_BASIC (b + 1 + Z.of_nat p) (block_hash h))) =
    [PeerFilterHeaders l].
Proof.
  intros Hp Hh. rewrite (sv_filter_headers Hserves p (stop_index best p CF_HEADER_BATCH_SIZE) h);
    [by eexists| |exact Hh].
  unfold stop_index, CF_HEADER_BATCH_SIZE. lia.
Qed.

Lemma filter_answers_sync q s : Forall (fun x => is_sync x = true) (filter_answers best contents q s).
Proof.
  unfold filter_answers. generalize (take (s + 1 - q) (drop q best)) (take (s + 1 - q) (drop q contents)).
  intros l l'. revert l'. induction l as [|h l IH]; intros [|x l']; constructor; auto.
Qed.

Lemma course_sync p q m c r l : following p q m c -> course p q m c r l -> sync_in l = l.
Proof.
  intros Hf Hc. destruct Hc.
  - by destruct (headers_reply _ _ _ _ Hf) as [l ->].
  - subst. destruct (filter_headers_reply p h) as [l ->]; done.
  - apply list_filter_all, filter_answers_sync.
  - done.
Qed.

(** The next request puts its answer under way. *)
Lemma request_course p q m c r :
  request p q m c r -> pending (block_queue c) = [] ->
  exists r', (r' <= rounds_of best p q m r)%nat /\ course p q m c r' (reply r).
Proof.
  intros Hr Hp. destruct Hr as [|h|h -> -> Hq Hh Hl].
  - exists (rounds best p q m). split; [done|by constructor].
  - exists (filter_rounds best p q). split; [done|by econstructor].
  - exists 0%nat. split; [lia|]. rewrite (sv_filters Hserves q (stop_index best q FILTER_BATCH_SIZE) h);
      [|unfold stop_index, FILTER_BATCH_SIZE; lia|exact Hh].
    econstructor; try done. unfold stop_index. lia.
Qed.

Lemma pending_nil bq : pending bq = [] -> want bq = None /\ queue bq = [].
Proof.
  unfold pending. intros [Hw Hq]%app_eq_nil. split; [by destruct (want bq)|].
  rewrite <- (reverse_involutive (queue bq)), Hq. done.
Qed.

(** Without requested blocks the wallet keeps what was told. *)
Lemma wallet_steady q0 q x flight more c c' :
  wallet q0 q (x :: flight) c -> pending (block_queue c) = [] -> steady c c' -> sync_in more = more ->
  wallet q0 q (flight ++ more) c'.
Proof.
  intros [Hp Hb Hw Hn] Hnil [Hq Hst] Hmore. specialize (Hst Hnil).
  destruct (pending_nil _ Hst) as [Hw' _]. split.
  - rewrite Hst. by intros r Hr%elem_of_nil.
  - intros y [Hy|Hy]%elem_of_app Hyb; [apply Hb; [by right|done]|].
    rewrite <- Hmore in Hy. apply list_elem_of_filter in Hy as [Hy _]. congruence.
  - congruence.
  - intros j h content Hj Hh Hc. destruct (Hn j h content Hj Hh Hc) as [Ht|[_ Hin]].
    + left. by eapply told_quiet.
    + unfold pending_hashes in Hin. rewrite Hnil in Hin. by apply elem_of_nil in Hin.
Qed.

(** An answer that ends its request: the next request is sent. *)
Lemma dialogue_next q0 p q m s r k x flight nd p' m' nd' :
  dialogue q0 p q m s r k (x :: flight) nd -> is_sync x = true -> sync_in flight = [] ->
  pending (block_queue (chain nd)) = [] -> on_node steady nd nd' -> (0 < r)%nat ->
  answered peer a b lo n best prev0 contents p' q m' (r - 1) s (sent peer nd) nd' ->
  state_ok s p' q m' ->
  exists r' more, dialogue q0 p' q m' s r' (S k) (flight ++ more) nd' /\
    (measure q s r' (flight ++ more) (chain nd') < measure q s r (x :: flight) (chain nd))%nat.
Proof.
  intros [Hbe Hl (past & Ha & Hk) Hs Hco Hw Han Hea] Hxb Hothers Hnil Hn Hr (o & Hb' & Hsome & Hnone) Hs'.
  pose proof (proj2 (proj1 Hn) Hnil) as Hnil'. pose proof (proj1 (proj1 Hn)) as Hq.
  set (more := mjoin (reply <$> option_list o)).
  assert (exists r', (r' <= r - 1)%nat /\ course p' q m' (chain nd') r' more) as (r' & Hr' & Hco').
  { destruct o as [rq|].
    - destruct (Hsome rq eq_refl) as [Hrq Hle]. destruct (request_course _ _ _ _ _ Hrq Hnil') as (r' & ? & ?).
      exists r'. split; [lia|]. unfold more. cbn. by rewrite app_nil_r.
    - destruct (Hnone eq_refl) as (-> & -> & ->). exists 0%nat. split; [lia|]. by constructor. }
  assert (sync_in more = more) as Hmore by (eapply course_sync; [apply Hb'|done]).
  assert (sent peer nd' = sent peer nd ++ option_list o) as Hsent by (by eapply behind_sent).
  exists r', more. split; [split; try done|].
  - by rewrite Hsent.
  - eapply linked_step; [exact Hl|]. by destruct Hn as (_ & ? & ? & ?).
  - exists (past ++ [x]). rewrite (answers_sent _ _ _ Hsent), Ha, length_app. cbn.
    split; [by rewrite <- !(assoc_L (++))|lia].
  - by rewrite filter_app, Hothers, Hmore.
  - eapply wallet_steady; [exact Hw|done|apply Hn|done].
  - intros Hts. eapply announced_quiet; [by apply Han|done].
  - eapply since_more; [exact Hea|exact Hsent|]. destruct o as [rq|]; [|constructor].
    apply Forall_singleton. by destruct (proj1 (Hsome rq eq_refl)).
  - unfold measure. rewrite (proj2 (pending_nil _ Hnil')), filter_app, length_app.
    assert (rest_in more = []) as ->.
    { apply list_filter_none. rewrite <- Hmore. apply Forall_forall.
      intros y [Hy _]%list_elem_of_filter. congruence. }
    rewrite filter_cons_False by (by rewrite Hxb). cbn [length]. lia.
Qed.

Lemma feed_single e x nd nd' :
  feed filter_control peer e [x] nd = (inr (), nd') ->
  handle_peer filter_control e (mkPeerThreadMessage peer x) nd = (inr (), nd').
Proof.
  cbn [feed]. intros Hf. apply st_bind_inv in Hf as [(? & ? & _)|([] & s1 & Hs1 & Hret)]; [discriminate|].
  by injection Hret as <-.
Qed.

(** What the arrival of the first answer under way does. *)
Definition arrives (e : Env) (q0 q : nat) (s : NodeState) (r k : nat) (x : PeerMessage)
    (flight : list PeerMessage) (nd : Node D P) : Prop :=
  exists p' q' m' r' flight' nd',
    handle_peer filter_control e (mkPeerThreadMessage peer x) nd = (inr (), nd') /\
    dialogue q0 p' q' m' s r' (S k) flight' nd' /\
    (measure q' s r' flight' (chain nd') < measure q s r (x :: flight) (chain nd))%nat.

Lemma headers_arrive e q0 p q m s k x flight nd :
  dialogue q0 p q m s (rounds best p q m) k (x :: flight) nd -> is_sync x = true ->
  sync_in (x :: flight) = reply (get_headers_message (chain nd)) ->
  pending (block_queue (chain nd)) = [] ->
  arrives e q0 q s (rounds best p q m) k x flight nd.
Proof.
  intros Hd Hxb Hothers Hnil. pose proof (dg_behind Hd) as Hb.
  destruct (headers_reply _ _ _ _ (bh_following Hb)) as [l Hl].
  rewrite Hl, filter_cons_True in Hothers by done. injection Hothers as -> Hothers.
  destruct (headers_step filter_control peer reply a b lo n best prev0 contents Hbest Hcontents Hlo Hroom
    Hserves e _ _ _ _ _ _ Hb) as (m' & nd' & Hfeed & Hans & Hm). rewrite Hl in Hfeed.
  apply feed_single in Hfeed.
  destruct (dialogue_next _ _ _ _ _ _ _ _ _ _ p m' nd' Hd eq_refl Hothers Hnil) as (r' & more & Hd' & Hlt).
  - by eapply sync_answer_steady; [|exact Hfeed].
  - unfold rounds. lia.
  - exact Hans.
  - pose proof (dg_state Hd) as Hok.
    destruct Hans as (o & Hb' & _). pose proof (ob_length _ _ _ _ _ _ _ _ _ (behind_tree _ _ _ _ _ _ Hb')).
    destruct s; cbn in *; lia.
  - by exists p, q, m', r', (flight ++ more), nd'.
Qed.

Lemma filter_headers_arrive e q0 p q s k x flight nd h :
  dialogue q0 p q (length best) s (filter_rounds best p q) k (x :: flight) nd -> is_sync x = true ->
  (p < length best)%nat -> best !! stop_index best p CF_HEADER_BATCH_SIZE = Some h ->
  last_filter_header_request (request_state (chain nd)) =
    Some (mkFilterHeaderRequest (b + 1 + Z.of_nat p) (block_hash h) (expected_before prev0 contents p)) ->
  sync_in (x :: flight) =
    reply (GetFilterHeaders (mkGetCFHeaders FILTER_BASIC (b + 1 + Z.of_nat p) (block_hash h))) ->
  pending (block_queue (chain nd)) = [] ->
  arrives e q0 q s (filter_rounds best p q) k x flight nd.
Proof.
  intros Hd Hxb Hp Hh Hreq Hothers Hnil. pose proof (dg_behind Hd) as Hb.
  destruct (filter_headers_reply p h Hp Hh) as [l Hl].
  rewrite Hl, filter_cons_True in Hothers by done. injection Hothers as -> Hothers.
  destruct (filter_headers_step filter_control peer reply a b lo n best prev0 contents Hbest Hcontents Hlo
    Hroom Hserves e _ _ _ _ _ _ Hb Hp Hh Hreq) as (p' & nd' & Hfeed & Hans & Hpp). rewrite Hl in Hfeed.
  apply feed_single in Hfeed.
  destruct (dialogue_next _ _ _ _ _ _ _ _ _ _ p' (length best) nd' Hd eq_refl Hothers Hnil)
    as (r' & more & Hd' & Hlt).
  - by eapply sync_answer_steady; [|exact Hfeed].
  - unfold filter_rounds. pose proof (div_ceil_step (length best - p) 2000 1999). lia.
  - exact Hans.
  - pose proof (dg_state Hd) as Hok. destruct s; cbn in *; lia.
  - by exists p', q, (length best), r', (flight ++ more), nd'.
Qed.

(** ** A filter arrives *)

Lemma filter_wallet q0 q x flight c c' h content :
  wallet q0 q (x :: flight) c -> is_sync x = true -> best !! q = Some h -> contents !! q = Some content ->
  scripts c = watched -> quiet c c' -> filter_effect filter_control (b + 1 + Z.of_nat q) (block_hash h) content c c' ->
  wallet q0 (S q) flight c' /\ (length (queue (block_queue c')) <= length (queue (block_queue c)) + 1)%nat.
Proof.
  intros [Hp Hb Hw Hn] Hxb Hh Hcontent Hscr Hq He. set (r := request_new (block_hash h)).
  assert (h ∈ best) as Hin by (by eapply list_elem_of_lookup_2).
  assert (block_queue c' = block_queue c \/ block_queue c' = queue_add r (block_queue c)) as Hbq.
  { unfold filter_effect in He. destruct filter_control; [left|]; apply He. }
  assert (want (block_queue c') = want (block_queue c)) as Hwant.
  { destruct Hbq as [ -> | -> ]; [done|]. unfold queue_add. by destruct (negb _). }
  assert (forall y, y ∈ pending (block_queue c') <->
    y ∈ pending (block_queue c) \/ y ∈ pending (block_queue c') /\ y = r) as Hpend.
  { intros y. destruct Hbq as [ -> | -> ]; [tauto|]. rewrite pending_add. case_decide; [tauto|].
    rewrite elem_of_app, list_elem_of_singleton. tauto. }
  split; [split|].
  - intros y [Hy|[_ ->]]%Hpend; [by apply Hp|]. split; [done|by exists h].
  - intros y Hy. apply Hb. by right.
  - intros y Hy. rewrite Hwant in Hy. specialize (Hw y Hy). apply elem_of_cons in Hw as [ <- | ? ]; done.
  - intros j g cj Hj Hg Hcj. destruct (decide (j = q)) as [->|Hne].
    + assert (g = h) as -> by congruence. assert (cj = content) as -> by congruence.
      unfold told, told_in. unfold filter_effect in He. destruct filter_control; [left; apply He|].
      rewrite Hscr in He. destruct He as [_ He].
      destruct (decide (match_any content (block_hash h) (elements watched) = Some true)) as [Hm|Hm];
        [|by left]. right. split; [done|]. rewrite (He Hm). unfold pending_hashes. rewrite pending_add.
      case_decide as Hd; [exact Hd|]. rewrite fmap_app. apply elem_of_app. right. by left.
    + destruct (Hn j g cj ltac:(lia) Hg Hcj) as [Ht|[Hfc Hpe]]; [left; by eapply told_quiet|].
      right. split; [done|]. unfold pending_hashes in *. apply list_elem_of_fmap in Hpe as (y & Hy & Hyin).
      apply list_elem_of_fmap. exists y. split; [done|]. apply Hpend. by left.
  - destruct Hbq as [ -> | -> ]; [lia|]. unfold queue_add. destruct (negb _); cbn; lia.
Qed.

(** The filter marks one block, keeps or ends its request, and sends the next. *)
Lemma dialogue_filter q0 q s k x flight nd nd' o r' :
  dialogue q0 (length best) q (length best) s 0 k (x :: flight) nd -> is_sync x = true ->
  behind (length best) (S q) (length best) s (sent peer nd ++ option_list o) nd' ->
  on_node quiet nd nd' -> (S q <= length best)%nat -> Forall (fun m => is_request m = true) (option_list o) ->
  wallet q0 (S q) flight (chain nd') ->
  course (length best) (S q) (length best) (chain nd') r'
    (sync_in flight ++ mjoin (reply <$> option_list o)) ->
  dialogue q0 (length best) (S q) (length best) s r' (S k) (flight ++ mjoin (reply <$> option_list o)) nd'.
Proof.
  intros [Hbe Hl (past & Ha & Hk) Hs Hco Hw Han Hea] Hxb Hb' Hn Hq Hreq Hw' Hco'.
  set (more := mjoin (reply <$> option_list o)) in *.
  assert (sent peer nd' = sent peer nd ++ option_list o) as Hsent by (by eapply behind_sent).
  assert (sync_in more = more) as Hmore.
  { pose proof (course_sync _ _ _ _ _ _ (bh_following Hb') Hco') as Hall.
    rewrite filter_app in Hall. apply (list_filter_all (fun m => is_sync m = true)).
    apply Forall_forall. intros y Hy.
    assert (y ∈ sync_in (sync_in flight) ++ sync_in more) as Hin
      by (rewrite Hall; apply elem_of_app; by right).
    rewrite <- filter_app in Hin. by apply list_elem_of_filter in Hin as [? _]. }
  split; try done.
  - by rewrite Hsent.
  - by eapply linked_step.
  - exists (past ++ [x]). rewrite (answers_sent _ _ _ Hsent), Ha, length_app. cbn.
    split; [by rewrite <- !(assoc_L (++))|lia].
  - destruct s; cbn in *; lia.
  - by rewrite filter_app, Hmore.
  - rewrite <- (app_nil_r flight) in Hw'. destruct Hw' as [H1' H2' H3' H4']. rewrite app_nil_r in H2', H3'.
    split; try done.
    + intros y [Hy|Hy]%elem_of_app Hyb; [by apply H2'|].
      rewrite <- Hmore in Hy. apply list_elem_of_filter in Hy as [Hy _]. congruence.
    + intros y Hy. apply elem_of_app. left. by apply H3'.
  - intros Hts. eapply announced_quiet; [by apply Han|apply Hn].
  - by eapply since_more.
Qed.

Lemma filter_answers_end q : filter_answers best contents (S q) q = [].
Proof. unfold filter_answers. by rewrite Nat.add_1_r, Nat.sub_diag. Qed.

(** The tree and the node of the next filter. *)
Lemma next_node_at q p m c :
  following p q m c -> m = length best -> (q < m)%nat -> exists h content x,
    best !! q = Some h /\ contents !! q = Some content /\
    headers (header_chain c) !! block_hash h = Some x /\ node_height x = b + 1 + Z.of_nat q /\
    filter_checked x = false /\ is_filters_synced c = false.
Proof.
  intros Hf -> Hq. pose proof (fo_tree Hf) as Ht.
  destruct (index_data _ _ _ _ _ _ Hcontents Ht q Hq) as (x & _ & Hx).
  destruct (lookup_lt_is_Some_2 contents q) as [content Hcontent]; [lia|].
  exists (header x), content, x. split_and!; [by apply (ai_header Hx)|done|..].
  - apply (ai_stored Hx).
  - apply (ai_height Hx).
  - rewrite (ai_checked Hx). apply bool_decide_false. lia.
  - unfold is_filters_synced. rewrite (filters_synced_iff _ _ _ _ _ _ Hcontents Ht).
    apply bool_decide_false. lia.
Qed.

(** Handling an answer of [sync_filter]: the next request, if there is one. *)
Lemma handle_filter_response e msg q s nd r c' :
  sync_filter filter_control msg (chain nd) = (inr r, c') ->
  behind (length best) (S q) (length best) s (sent peer nd) (set_chain c' nd) ->
  exists nd', handle_peer filter_control e (mkPeerThreadMessage peer (PeerFilter msg)) nd = (inr (), nd') /\
    behind (length best) (S q) (length best) s (sent peer nd ++ option_list (GetFilters <$> r)) nd' /\
    on_node kept (set_chain c' nd) nd' /\ request_state (chain nd') = request_state c'.
Proof.
  intros Hsync Hb. cbn [handle_peer ptm_message ptm_nonce]. unfold handle_filter.
  rewrite st_bind_assoc, (st_bind_ok _ _ _ _ _ (chain_result_ok _ _ _ _ Hsync)).
  destruct r as [g|]; cbn [fmap option_fmap option_map option_list].
  2: { exists (set_chain c' nd). rewrite app_nil_r. split_and!; [done|done|by repeat split|done]. }
  set (nd1 := set_chain (send_chain_update c') (set_chain c' nd)).
  assert (behind (length best) (S q) (length best) s (sent peer nd) nd1) as Hb1.
  { eapply behind_chain; [exact Hb|]. by destruct (bh_following Hb). }
  destruct (behind_respond (E := NodeError store_error peer_store_error) _ _ _ _ _ _ _ _ _ _ _ _ _ _
    (Some (GetFilters g)) Hb1) as (nd' & Hresp & Hb' & _ & Hr).
  exists nd'. split_and!; [|done| |exact Hr].
  - rewrite st_bind_assoc. rewrite (st_bind_ok _ _ (set_chain c' nd) () nd1) by done. exact Hresp.
  - transitivity nd1; [by repeat split; apply kept_say|].
    eapply (respond_keeps kept); [done|exact Hresp].
Qed.

Lemma filter_arrives e q0 q s' s k x flight nd h start :
  dialogue q0 (length best) q (length best) s 0 k (x :: flight) nd -> is_sync x = true ->
  (q <= s' < length best)%nat -> best !! s' = Some h ->
  last_filter_request (request_state (chain nd)) = Some (mkFilterRequest start (block_hash h)) ->
  sync_in (x :: flight) = filter_answers best contents q s' ->
  arrives e q0 q s 0 k x flight nd.
Proof.
  intros Hd Hxb Hqs Hh Hreq Hothers. pose proof (dg_behind Hd) as Hb.
  pose proof (bh_following Hb) as Hf.
  destruct (next_node_at q _ _ _ Hf eq_refl ltac:(lia)) as (g & content & y & Hg & Hcontent & Hy & Hyh & Hyc & Hns).
  rewrite (filter_answers_cons best contents Hcontents q s' g content) in Hothers by (done || lia).
  rewrite filter_cons_True in Hothers by done. injection Hothers as -> Hothers.
  destruct (sync_filter_follows a b lo n best prev0 contents Hbest Hcontents Hlo Hroom filter_control
    q s' (chain nd) g h content start Hf Hqs Hg Hcontent Hh Hreq) as (r & c' & Hsync & Hf' & Hmore & Hlast & Hnext).
  destruct (sync_filter_effect filter_control (b + 1 + Z.of_nat q) _ content _ _ _ y Hy Hyh Hyc Hns Hsync)
    as [Hquiet Heff].
  destruct (handle_filter_response e _ q s nd r c' Hsync) as (nd' & Hrun & Hb' & Hn & Hrs).
  { by eapply behind_chain. }
  assert (on_node quiet nd nd') as Hquiet'.
  { destruct Hn as [[Hq1 _] Hn]. split; [by transitivity c'|exact Hn]. }
  destruct (filter_wallet q0 q _ flight _ (chain nd') g content (dg_wallet Hd) Hxb Hg Hcontent
    (lk_scripts (dg_linked Hd)) (proj1 Hquiet')) as [Hw Hlen].
  { eapply filter_effect_kept; [exact Heff|apply Hn]. }
  assert (course (length best) (S q) (length best) (chain nd') 0
    (sync_in flight ++ mjoin (reply <$> option_list (GetFilters <$> r)))) as Hco.
  { rewrite Hothers. destruct (decide (q < s')%nat) as [Hlt|Hge].
    - destruct (Hmore Hlt) as [-> Hl']. cbn. rewrite app_nil_r. eapply co_filters; try done; [lia|].
      by rewrite Hrs.
    - assert (q = s') as <- by lia. rewrite filter_answers_end. cbn [app].
      destruct (decide (S q = length best)) as [Hend|Hne].
      + rewrite (Hlast eq_refl Hend). by constructor.
      + destruct (Hnext eq_refl ltac:(lia)) as (i & Hi & -> & Hl'). cbn. rewrite app_nil_r.
        rewrite (sv_filters Hserves (S q) (stop_index best (S q) FILTER_BATCH_SIZE) i);
          [|unfold stop_index, FILTER_BATCH_SIZE; lia|done].
        eapply co_filters; try done; [unfold stop_index; lia|]. by rewrite Hrs. }
  exists (length best), (S q), (length best), 0%nat,
    (flight ++ mjoin (reply <$> option_list (GetFilters <$> r))), nd'. split_and!; [exact Hrun| |].
  - eapply dialogue_filter; try done; [lia|]. destruct r; [by apply Forall_singleton|constructor].
  - assert (rest_in (mjoin (reply <$> option_list (GetFilters <$> r))) = []) as Hnb.
    { pose proof (course_sync _ _ _ _ _ _ (bh_following Hb') Hco) as Hall.
      apply list_filter_none, Forall_forall. intros z Hz Hzb.
      assert (z ∈ sync_in (sync_in flight ++ mjoin (reply <$> option_list (GetFilters <$> r)))) as Hin
        by (rewrite Hall; apply elem_of_app; by right).
      apply list_elem_of_filter in Hin as [? _]. congruence. }
    unfold measure. rewrite filter_app, Hnb, app_nil_r, filter_cons_False by done. lia.
Qed.

(** ** A turn *)

Lemma message_arrives e q0 p q m s r k x flight nd :
  dialogue q0 p q m s r k (x :: flight) nd -> arrives e q0 q s r k x flight nd.
Proof.
  intros Hd. destruct (is_sync x) eqn:Hxb.
  2: { assert (exists nd', handle_peer filter_control e (mkPeerThreadMessage peer x) nd = (inr (), nd') /\
         dialogue q0 p q m s r (S k) flight nd' /\
         (S (measure q s r flight (chain nd')) = measure q s r (x :: flight) (chain nd))%nat)
         as (nd' & Hrun & Hd' & Hm).
       { destruct (wl_blocks (dg_wallet Hd) x) as [Hg|(h & Hh & Hx)]; [by left|done|..].
         - by apply gossip_arrives.
         - by eapply block_arrives. }
       exists p, q, m, r, flight, nd'. split_and!; [done|done|lia]. }
  pose proof (dg_course Hd) as Hco. remember (sync_in (x :: flight)) as l eqn:Hl.
  destruct Hco as [Hp|h -> Hp Hh Hr Hnil|s' h start -> -> Hq Hh Hr|].
  - by apply headers_arrive.
  - by eapply filter_headers_arrive.
  - by eapply filter_arrives.
  - by rewrite filter_cons_True in Hl.
Qed.

Lemma course_nil p q m c r : following p q m c -> course p q m c r [] ->
  m = length best /\ p = m /\ q = m.
Proof.
  intros Hf Hc. remember ([] : list PeerMessage) as l eqn:Hl. destruct Hc as [|h Hm Hp Hh|s h start Hm Hp Hq Hh|]; [..|done].
  - destruct (headers_reply _ _ _ _ Hf) as [x Hx]. congruence.
  - subst m. destruct (filter_headers_reply p h Hp Hh) as [x Hx]. congruence.
  - destruct (next_node_at q _ _ _ Hf Hm ltac:(lia)) as (g & content & y & Hg & Hcontent & _).
    by rewrite (filter_answers_cons best contents Hcontents q s g content) in Hl by (done || lia).
Qed.

(** What a turn does before it handles a message. *)
Lemma prepare_step e q0 p q m s r k flight nd :
  dialogue q0 p q m s r k flight nd -> s <> TransactionsSynced ->
  exists s' more nd', (advance_state (env_now e);; maintain BROADCAST_MIN e) nd = (inr (), nd') /\
    dialogue q0 p q m s' r k (flight ++ more) nd' /\
    (measure q s' r (flight ++ more) (chain nd') <=
     measure q s r flight (chain nd) + (if late e nd then 1 else 0))%nat /\
    (flight = [] -> (measure q s' r (flight ++ more) (chain nd') <
                     measure q s r flight (chain nd) + (if late e nd then 1 else 0))%nat) /\
    (sent peer nd' = sent peer nd \/
     (measure q s' r (flight ++ more) (chain nd') <
      measure q s r flight (chain nd) + (if late e nd then 2 else 0))%nat).
Proof.
  intros Hd Hs.
  destruct (advance_step (E := NodeError store_error peer_store_error) (env_now e) _ _ _ _ _ _ _ _ _ Hd Hs)
    as (s1 & nd1 & Hadv & Hd1 & Hq1 & Hrank & Hdone).
  assert (sent peer nd1 = sent peer nd) as Hsent1.
  { eapply advance_sent; [|exact Hadv]. by rewrite (bh_state (dg_behind Hd)). }
  destruct (dispatch_step e _ _ _ _ _ _ _ _ _ Hd1) as (nd2 & Hdis & Hd2 & Hq2 & Hsent2).
  destruct (get_blocks_step e _ _ _ _ _ _ _ _ _ Hd2) as (nd3 & more & Hget & Hd3 & Hle & Hlt & Hsend).
  exists s1, more, nd3.
  assert (late e nd2 = late e nd) as Hlate by (unfold late; by rewrite Hq2, Hq1).
  assert (measure q s1 r flight (chain nd2) + rank s = measure q s r flight (chain nd) + rank s1)%nat as Hm
    by (unfold measure; rewrite Hq2, Hq1; lia).
  rewrite Hlate in Hle, Hsend. rewrite Hq2, Hq1 in Hlt. rewrite Hsent2, Hsent1 in Hsend.
  split_and!; [|done|lia| |destruct Hsend; [by left|right; lia]].
  - rewrite (st_bind_ok _ _ _ _ _ Hadv). unfold maintain.
    by rewrite (st_bind_ok _ _ _ _ _ Hdis), (st_bind_ok _ _ _ _ _ Hget), (broadcast_none _ _ _ _ _ _ _ _ _ _ Hd3).
  - intros ->. pose proof (dg_course Hd) as Hco.
    apply course_nil in Hco; [|apply (bh_following (dg_behind Hd))].
    destruct (Hdone Hco) as [?|[-> Hne]]; [lia|].
    assert (want (block_queue (chain nd)) = None) as Hwant.
    { destruct (want _) as [y|] eqn:Hy; [|done].
      pose proof (wl_wanted (dg_wallet Hd) y Hy) as Hin. by apply elem_of_nil in Hin. }
    specialize (Hlt eq_refl Hwant (Hne Hwant)). lia.
Qed.

(** A turn keeps the dialogue; with an arrival it comes closer to the end. *)
Lemma turn_step e (arrive : bool) q0 p q m s r k flight nd :
  dialogue q0 p q m s r k flight nd -> s <> TransactionsSynced ->
  exists p' q' m' s' r' k' flight' nd',
    talk_turn filter_control BROADCAST_MIN peer reply (e, arrive) k nd = (inr k', nd') /\
    dialogue q0 p' q' m' s' r' k' flight' nd' /\
    (measure q' s' r' flight' (chain nd') + (if arrive then 1 else 0) <=
     measure q s r flight (chain nd) + (if late e nd then 1 else 0))%nat /\
    (flight = [] -> (measure q' s' r' flight' (chain nd') <
                     measure q s r flight (chain nd) + (if late e nd then 1 else 0))%nat) /\
    (sent peer nd' = sent peer nd \/
     (measure q' s' r' flight' (chain nd') <
      measure q s r flight (chain nd) + (if late e nd then 2 else 0))%nat).
Proof.
  intros Hd Hs.
  destruct (prepare_step e _ _ _ _ _ _ _ _ _ Hd Hs) as (s1 & more & nd1 & Hrun & Hd1 & Hle & Hlt & Hsend).
  assert (forall (i : NodeInput) (f : bool -> ST (Node D P) (NodeError store_error peer_store_error) nat),
    (node_turn filter_control BROADCAST_MIN e i ≫= f) nd = (handle_input filter_control BROADCAST_MIN e i ≫= f) nd1)
    as Hturn.
  { intros i f. unfold node_turn, mbind, ST_bind in Hrun |- *.
    destruct (advance_state (env_now e) nd) as [[err|[]] n1]; [done|]. by rewrite Hrun. }
  unfold talk_turn. rewrite st_get_ok. cbn [snd fst]. destruct (dg_answers Hd) as (past & Ha & Hk).
  assert (answers nd !! k = head flight) as ->.
  { rewrite Ha, lookup_app_r, Hk, Nat.sub_diag by lia. by destruct flight. }
  rewrite Hturn. clear Hturn. destruct arrive; [destruct flight as [|x flight]|].
  - cbn. exists p, q, m, s1, r, k, more, nd1. specialize (Hlt eq_refl). cbn in Hlt.
    split_and!; [done|done|lia|done|done].
  - change ((x :: flight) ++ more) with (x :: (flight ++ more)) in Hd1, Hle.
    destruct (message_arrives e _ _ _ _ _ _ _ _ _ _ Hd1) as (p' & q' & m' & r' & flight' & nd2 & Hh & Hd2 & Hm).
    exists p', q', m', s1, r', (S k), flight', nd2.
    split_and!; [|done|lia|done|right; destruct (late e nd); lia].
    cbn [head option_fmap option_map fmap handle_input]. by rewrite st_bind_assoc, (st_bind_ok _ _ _ _ _ Hh).
  - exists p, q, m, s1, r, k, (flight ++ more), nd1. by split_and!; [done|done|lia|..].
Qed.

(** ** The whole conversation *)

(** The dialogue starts when headers are asked for, with no block requested and
    only gossip of the earlier answers not handled yet. *)
Lemma dialogue_starts p q m l past gossip nd :
  behind p q m Behind (l ++ [get_headers_message (chain nd)]) nd -> linked nd ->
  pending (block_queue (chain nd)) = [] -> mjoin (reply <$> l) = past ++ gossip ->
  Forall (fun x => is_gossip x = true) gossip -> since nd ->
  exists flight, dialogue q p q m Behind (rounds best p q m) (length past) flight nd /\
    measure q Behind (rounds best p q m) flight (chain nd) =
      (rounds best p q m + 3 * (length best - q) + length gossip + 4)%nat.
Proof.
  intros Hb Hl Hnil Hpast Hgossip Hearly. pose proof (behind_sent _ _ _ _ _ _ _ _ _ _ _ _ _ _ Hb) as Hsent.
  pose proof (bh_following Hb) as Hf. destruct (pending_nil _ Hnil) as [Hw Hq].
  destruct (headers_reply _ _ _ _ Hf) as [x Hx].
  assert (Forall (fun y => is_sync y = false) gossip) as Hns.
  { eapply Forall_impl; [exact Hgossip|]. by intros []. }
  exists (gossip ++ reply (get_headers_message (chain nd))). split; [split|].
  - by rewrite Hsent.
  - done.
  - exists past. split; [|done]. unfold Delivery.answers.
    rewrite Hsent, fmap_app, join_app, Hpast. cbn. by rewrite app_nil_r, (assoc_L (++)).
  - done.
  - rewrite filter_app, (rest_sync gossip), Hx, filter_cons_True by done.
    change (sync_in []) with ([] : list PeerMessage). cbn [app]. rewrite <- Hx. by constructor.
  - split.
    + rewrite Hnil. by intros r Hr%elem_of_nil.
    + rewrite Hx. intros y [Hy|Hy]%elem_of_app Hys.
      * left. rewrite Forall_forall in Hgossip. by apply Hgossip.
      * apply list_elem_of_singleton in Hy. by subst.
    + congruence.
    + intros j h content Hj. lia.
  - done.
  - done.
  - unfold measure. rewrite Hq, Hx, filter_app, length_app, list_filter_all, filter_cons_False by done.
    cbn. lia.
Qed.

Lemma conversation_ends turns : forall q0 p q m s r k flight nd,
  dialogue q0 p q m s r k flight nd ->
  (measure q s r flight (chain nd) + lates filter_control BROADCAST_MIN peer reply turns k nd <=
   arrivals turns)%nat ->
  exists before after k' nd' p' q' m' r' flight', turns = before ++ after /\
    converse filter_control BROADCAST_MIN peer reply before k nd = (inr k', nd') /\
    dialogue q0 p' q' m' TransactionsSynced r' k' flight' nd'.
Proof.
  assert (forall q0 p q m s r k flight nd turns, dialogue q0 p q m s r k flight nd ->
    s = TransactionsSynced -> exists before after k' nd' p' q' m' r' flight', turns = before ++ after /\
    converse filter_control BROADCAST_MIN peer reply before k nd = (inr k', nd') /\
    dialogue q0 p' q' m' TransactionsSynced r' k' flight' nd') as Hend.
  { intros q0 p q m s r k flight nd ts Hd ->. by exists [], ts, k, nd, p, q, m, r, flight. }
  induction turns as [|[e arrive] turns IH]; intros q0 p q m s r k flight nd Hd Hle.
  { eapply Hend; [exact Hd|]. unfold measure in Hle. cbn in Hle. destruct s; cbn in Hle; (lia || done). }
  destruct (decide (s = TransactionsSynced)) as [Hs|Hs]; [by eapply Hend|].
  destruct (turn_step e arrive _ _ _ _ _ _ _ _ _ Hd Hs)
    as (p' & q' & m' & s' & r' & k' & flight' & nd1 & Hrun & Hd' & Hm & _).
  cbn [lates fst] in Hle. rewrite Hrun in Hle.
  destruct (IH _ _ _ _ _ _ _ _ _ Hd')
    as (before & after & k2 & nd2 & p2 & q2 & m2 & r2 & flight2 & -> & Hconv & Hd2).
  { unfold arrivals in *. rewrite filter_cons in Hle. cbn [snd] in Hle.
    destruct arrive; cbn in Hle; [rewrite decide_True in Hle by done|rewrite decide_False in Hle by done];
      cbn [length] in Hle; lia. }
  exists ((e, arrive) :: before), after, k2, nd2, p2, q2, m2, r2, flight2. split_and!; [done| |done].
  cbn [converse]. by rewrite (st_bind_ok _ _ _ _ _ Hrun).
Qed.

Lemma dialogue_complete q0 p q m r k flight nd :
  dialogue q0 p q m TransactionsSynced r k flight nd ->
  announced q0 (chain nd) /\ synchronized best prev0 contents TransactionsSynced nd.
Proof.
  intros Hd. split; [by apply Hd|]. destruct (dg_state Hd) as (-> & -> & ->).
  by eapply behind_complete; [exact Hcontents|apply Hd].
Qed.

Lemma dialogue_served turns q0 p q m s r k flight nd :
  dialogue q0 p q m s r k flight nd ->
  (measure q s r flight (chain nd) + lates filter_control BROADCAST_MIN peer reply turns k nd <=
   arrivals turns)%nat ->
  exists before after inputs k' nd', turns = before ++ after /\
    converse filter_control BROADCAST_MIN peer reply before k nd = (inr k', nd') /\
    fst <$> inputs = fst <$> before /\
    node_loop filter_control BROADCAST_MIN inputs nd = (inr false, nd') /\
    announced q0 (chain nd') /\ synchronized best prev0 contents TransactionsSynced nd'.
Proof.
  intros Hd Hle. destruct (conversation_ends turns _ _ _ _ _ _ _ _ _ Hd Hle)
    as (before & after & k' & nd' & p' & q' & m' & r' & flight' & -> & Hconv & Hd').
  destruct (converse_is_run _ _ _ _ _ _ _ _ _ Hconv) as (inputs & Hfst & Hloop).
  exists before, after, inputs, k', nd'.
  destruct (dialogue_complete _ _ _ _ _ _ _ _ Hd') as [Hann Hsyn]. by split_and!.
Qed.

End Serving.

Lemma since_now `{Bitcoin} {D} `{HeaderStore D} {P} `{PeerStore P} peer (nd : Node D P) :
  since peer (sent peer nd) nd.
Proof. exists []. by rewrite app_nil_r. Qed.

Section Served.
Context `{Bitcoin} {D : Type} `{HeaderStore D} {P : Type} `{PeerStore P}.
Context (filter_control : bool) (BROADCAST_MIN : FeeRate).
Context (peer : PeerId) (reply : MainThreadMessage -> list PeerMessage).
Context (a : BlockHash) (b lo : Height) (n : Network) (best : list Header).
Context (prev0 : FilterHeader) (contents : list bytes) (block_of : BlockHash -> Block).
Context (watched : gset ScriptBuf).
Context (Hbest : honest_chain a b n best) (Hcontents : length contents = length best).
Context (Hlo : lo <= b + 2) (Hroom : is_u32 (b + 2000 + Z.of_nat (length best))).
Context (Hserves : serves reply a b best prev0 contents) (Hblocks : serves_blocks reply best block_of).

End Served.

(** ** A wallet with one script *)
Module ToyDelivery.
Export ToyConverge.

(** The filter of the second block matches the script. *)
Definition watching : Node (SqliteHeaderDb ToySql.table) (SqlitePeerDb peer_table) :=
  set_chain (put_script [12] (chain asking)) asking.

Definition toy_block (k : BlockHash) : Block (Bitcoin := toy) := (k, true).

Definition block_reply (m : MainThreadMessage) : list PeerMessage :=
  match m with GetBlock k => [PeerBlock (toy_block k)] | _ => toy_reply m end.

Lemma block_reply_serves : serves block_reply 100 0 batch 0 contents.
Proof. by destruct toy_serves; split. Qed.

Lemma block_reply_blocks : serves_blocks block_reply batch toy_block.
Proof. by split. Qed.

Lemma watching_behind :
  behind 1 100 0 1 Regtest batch 0 contents 0 0 0 Behind
    ([WtxidRelay] ++ [get_headers_message (chain watching)]) watching.
Proof.
  destruct toy_behind as [[] Hs Hp]. split; [|exact Hs|exact Hp]. split; try done.
  intros j h content Hj Hc. by destruct (batch_lookup _ _ Hj) as [[-> ->]|[[-> ->]|[-> ->]]];
    injection Hc as <-.
Qed.

Lemma watching_linked : linked 1 {[ [44]; [12] ]} watching.
Proof. split; [by apply (bool_decide_unpack _)|vm_eq|by apply (bool_decide_unpack _)|done|done]. Qed.

(** Sixteen arrivals, none of them late. *)
Definition arriving : list (Env * bool) := replicate 16 (toy_env, true).

End ToyDelivery.
