(* ===== verification/Startup.v ===== *)
(** * From the builder to a synchronized client

    The composition of the parts for a new node: it is built with one configured
    peer and an empty header store, connects to the peer in its first turn, greets
    it when its version arrives ([handle_version]), and then the dialogue of
    [Delivery] begins. *)

From stdpp Require Import base numbers list gmap sorting strings.
From Stdlib Require Import ZArith Lia.
From S2P Require Import Prelude Bitcoin ChainTypes Graph Walk GraphFacts Reorg ActiveChain FilterMarks TreeProperties.
From S2P Require Import Checkpoints Batches BlockQueue Messages HeaderStore PeerStore Chain ChainFacts FilterSync.
From S2P Require Import ChainProperties Restart HeaderSync FilterProgress Network Wire Dns PeerMap Node NodeFacts NodeProperties.
From S2P Require Import Config Converge Quiet Delivery.

(** ** Loading nothing *)

Section Loading.
Context `{Bitcoin} {D : Type} `{HeaderStore D} {P : Type} `{PeerStore P}.

(** A store that has no headers. *)
Definition stores_nothing (d : D) : Prop :=
  (forall k, (store_header_at k d).2 = d /\ forall h, (store_header_at k d).1 <> inr (Some h)) /\
  forall lo hi, store_load lo hi d = (inr [], d).

Lemma set_db_same (c : Chain D) : set_db (db c) c = c.
Proof. by destruct c. Qed.

Lemma restart_nothing {E} k (c : Chain D) :
  stores_nothing (db c) -> restart_at (E := E) k c = (inr (), c).
Proof.
  intros [Hk _]. specialize (Hk k) as [Hd Hn]. unfold restart_at, st_modify.
  destruct (store_header_at k (db c)) as [r d]. cbn in Hd, Hn. subst d. rewrite set_db_same.
  by destruct r as [e|[h|]]; [|destruct (Hn h)|].
Qed.

Lemma fetch_nothing (nd : Node D P) tip n :
  header_chain (chain nd) = tree_new tip n -> stores_nothing (db (chain nd)) ->
  fetch_headers nd = (inr (), nd).
Proof.
  intros Ht He. unfold fetch_headers, on_chain.
  assert (load_headers (chain nd) = (inr (), chain nd)) as ->; [|by destruct nd].
  unfold load_headers. rewrite !st_get_ok.
  rewrite (st_bind_ok _ _ _ _ _ (restart_nothing _ _ He)), (st_bind_ok _ _ _ _ _ (restart_nothing _ _ He)).
  rewrite st_get_ok. unfold st_run, mbind, ST_bind. rewrite (proj2 He), set_db_same. cbn [load_loop].
  unfold st_modify, mret, ST_ret. rewrite Ht. unfold assume_checked_to. cbn. 
  destruct (chain nd). cbn in *. by rewrite Ht.
Qed.
End Loading.

(** ** Greeting the peer *)

Section Greeting.
Context `{Bitcoin} {D : Type} `{HeaderStore D} {P : Type} `{PeerStore P}.
Context (filter_control : bool) (BROADCAST_MIN : FeeRate) (peer : PeerId).
Implicit Types (c : Chain D) (nd : Node D P) (pm : PeerMap P).

(** What greeting leaves of the chain: everything but the peers' heights and the
    dialog. *)
Definition chain_same : relation (Chain D) := fun c c' =>
  header_chain c' = header_chain c /\ ch_network c' = ch_network c /\
  ch_checkpoints c' = ch_checkpoints c /\ request_state c' = request_state c /\
  scripts c' = scripts c /\ block_queue c' = block_queue c.

(** The node before it is synchronized, with one connection and the messages
    [l] on its channel. *)
Record greeting (h : HeightMonitor) (c : Chain D) (l : list MainThreadMessage) (nd : Node D P) : Prop := {
  gr_state : state nd = Behind;
  gr_chain : chain_same c (chain nd);
  gr_heights : heights (chain nd) = h;
  gr_peer : exists x, pm_map (peer_map nd) = {[peer := x]} /\ mp_finished x = false /\ ptx x = l;
  gr_size : target_db_size (peer_map nd) = UnboundedSize;
  gr_idle : broadcaster_is_empty (tx_broadcaster nd) = true;
  gr_required : required_peers nd = 1%nat;
}.

(** A method of the manager that changes the heights by [fh] and puts [new] on
    the channel. *)
Definition greets (f : PeerMap P -> PeerMap P) (fh : HeightMonitor -> HeightMonitor)
    (new : list MainThreadMessage) : Prop :=
  forall pm x, pm_map pm = {[peer := x]} -> mp_finished x = false ->
    target_db_size (f pm) = target_db_size pm /\ pm_heights (f pm) = fh (pm_heights pm) /\
    exists y, pm_map (f pm) = {[peer := y]} /\ mp_finished y = false /\ ptx y = ptx x ++ new.

Lemma greets_alter f (g : ManagedPeer -> ManagedPeer) new :
  (forall pm, f pm = with_peer g peer pm) ->
  (forall x, mp_finished x = false -> mp_finished (g x) = false /\ ptx (g x) = ptx x ++ new) ->
  greets f (fun h => h) new.
Proof.
  intros Hf Hg pm x Hx Hfin. rewrite Hf. split_and!; [done..|]. exists (g x).
  cbn. rewrite Hx. split; [by rewrite alter_singleton_eq|]. by apply Hg.
Qed.

Lemma greets_send msg : greets (send_message peer msg) (fun h => h) [msg].
Proof.
  eapply greets_alter; [done|]. intros x Hx. unfold channel_send. by rewrite Hx.
Qed.

Lemma greeting_do {E} f fh new h c l nd :
  greets f fh new -> greeting h c l nd ->
  exists nd', peer_map_do (E := E) f nd = (inr (), nd') /\ greeting (fh h) c (l ++ new) nd'.
Proof.
  intros Hf [Hs Hc Hh (x & Hx & Hfin & Hl) Hsize Hi Hr].
  destruct (Hf (lend (chain nd) (peer_map nd)) x Hx Hfin) as (Ht & Hfh & y & Hy & Hyf & Hyl).
  eexists. split; [done|]. split; try done.
  - cbn. rewrite Hfh. cbn. by rewrite Hh.
  - exists y. split; [exact Hy|]. split; [done|]. by rewrite Hyl, Hl.
  - cbn. by rewrite Ht.
Qed.

Lemma greeting_say {E} o h c l nd :
  greeting h c l nd -> exists nd', node_say (E := E) o nd = (inr (), nd') /\ greeting h c l nd'.
Proof. intros []. eexists. split; [done|]. by split. Qed.

Lemma greets_tried : greets (tried peer) (fun h => h) [].
Proof.
  intros pm x Hx Hfin. unfold tried, record_status. rewrite Hx, lookup_singleton_eq.
  unfold update_or_warn. destruct (store_update _ _) as [[e|[]] d]; rewrite app_nil_r;
    (split_and!; [done..|]); by exists x.
Qed.

(** What the node sends before it asks for headers. *)
Definition handshake : list MainThreadMessage := [GetAddrV2; WtxidRelay; SendVerack; GetAddr].

Lemma live_single pm x : pm_map pm = {[peer := x]} -> mp_finished x = false -> live pm = 1%nat.
Proof.
  intros Hx Hfin. unfold live, live_peers. rewrite Hx, map_to_list_singleton. by rewrite filter_cons_True.
Qed.

Lemma greeting_need h c l nd :
  greeting h c l nd -> exists nd', peer_map_try (D := D) need_peers nd = (inr true, nd') /\ greeting h c l nd'.
Proof.
  intros []. unfold peer_map_try, on_peer_map, need_peers.
  rewrite st_get_ok. cbn [target_db_size lend]. rewrite gr_size0. eexists. split; [done|]. by split.
Qed.

(** The next step of a computation is a method of the manager. *)
Ltac greet Hg f fh new :=
  let Hrun := fresh "Hrun" in let Hg' := fresh "Hg" in
  edestruct (greeting_do (E := NodeError store_error peer_store_error) f fh new) as (? & Hrun & Hg');
    [|exact Hg|rewrite ?st_bind_assoc, (st_bind_ok _ _ _ _ _ Hrun); clear Hrun Hg; rename Hg' into Hg].

(** The version of a peer that is recent enough is answered with the handshake
    and the request for headers. *)
Lemma version_greets e v h c nd :
  WTXID_VERSION <= ver_version v -> greeting h c [] nd ->
  exists nd', handle_peer filter_control e (mkPeerThreadMessage peer (PeerVersion v)) nd = (inr (), nd') /\
    greeting (hm_insert peer (as_u32 (ver_start_height v)) h) c
      (handshake ++ [get_headers_message c]) nd'.
Proof.
  intros Hv Hg. cbn [handle_peer ptm_message ptm_nonce].
  greet Hg (set_offset (P := P) (env_unix e) peer (ver_timestamp v)) (fun h : HeightMonitor => h) (@nil MainThreadMessage).
  { eapply greets_alter; [done|]. intros ? ?. by rewrite app_nil_r. }
  greet Hg (set_services (P := P) peer (ver_services v)) (fun h : HeightMonitor => h) (@nil MainThreadMessage).
  { eapply greets_alter; [done|]. intros ? ?. by rewrite app_nil_r. }
  greet Hg (set_height (P := P) peer (as_u32 (ver_start_height v)))
    (hm_insert peer (as_u32 (ver_start_height v))) (@nil MainThreadMessage).
  { intros pm ? ? ?. split_and!; [done..|]. eexists. by rewrite app_nil_r. }
  unfold handle_version. rewrite (proj2 (Z.ltb_ge _ _)) by done. rewrite st_bind_assoc, st_get_ok, (gr_state _ _ _ _ Hg).
  rewrite bool_decide_false by (intros Hn; by apply Hn). cbn [andb].
  greet Hg (tried (P := P) peer) (fun h : HeightMonitor => h) (@nil MainThreadMessage).
  { apply greets_tried. }
  destruct (greeting_need _ _ _ _ Hg) as (n1 & Hrun1 & Hg1). rewrite st_bind_assoc, (st_bind_ok _ _ _ _ _ Hrun1).
  clear Hg Hrun1. rename Hg1 into Hg.
  greet Hg (send_message (P := P) peer GetAddrV2) (fun h : HeightMonitor => h) [GetAddrV2]; [apply greets_send|].
  greet Hg (send_message (P := P) peer WtxidRelay) (fun h : HeightMonitor => h) [WtxidRelay]; [apply greets_send|].
  greet Hg (send_message (P := P) peer SendVerack) (fun h : HeightMonitor => h) [SendVerack]; [apply greets_send|].
  greet Hg (send_message (P := P) peer GetAddr) (fun h : HeightMonitor => h) [GetAddr]; [apply greets_send|].
  destruct (gr_peer _ _ _ _ Hg) as (y & Hy & Hfin & _).
  rewrite st_bind_assoc, st_get_ok, st_bind_assoc, st_get_ok, (live_single _ _ Hy Hfin), (gr_required _ _ _ _ Hg), decide_True by done.
  edestruct (greeting_say (E := NodeError store_error peer_store_error) (SendInfo ConnectionsMet)) as (n2 & Hrun2 & Hg2); [exact Hg|].
  rewrite st_bind_assoc, (st_bind_ok _ _ _ _ _ Hrun2). clear Hg Hrun2. rename Hg2 into Hg.
  rewrite st_get_ok.
  edestruct (greeting_do (E := NodeError store_error peer_store_error)
    (send_message (P := P) peer (get_headers_message (chain n2))) (fun h : HeightMonitor => h)
    [get_headers_message (chain n2)]) as (n3 & Hrun3 & Hg3); [apply greets_send|exact Hg|].
  exists n3. split; [exact Hrun3|].
  assert (get_headers_message (chain n2) = get_headers_message c) as Heq
    by (unfold get_headers_message; by rewrite (proj1 (gr_chain _ _ _ _ Hg))).
  by rewrite Heq in Hg3.
Qed.
(** *** The turns before the version arrives *)

(** A built node that has not dialled anybody yet: [w] is the configured peer to
    be tried first. *)
Record fresh (w : TrustedPeer) (wl : list TrustedPeer) (nd : Node D P) : Prop := {
  fr_state : state nd = Behind;
  fr_heights : heights (chain nd) = height_monitor_new;
  fr_map : pm_map (peer_map nd) = ∅;
  fr_id : peer_id_increment (current_id (peer_map nd)) = peer;
  fr_whitelist : whitelist (peer_map nd) = wl ++ [w];
  fr_size : target_db_size (peer_map nd) = UnboundedSize;
  fr_idle : broadcaster_is_empty (tx_broadcaster nd) = true;
  fr_required : required_peers nd = 1%nat;
}.

(** The peer can be reached: its address is of a kind the connector takes, and
    dialling it succeeds. *)
Definition reachable_peer (e : Env) (w : TrustedPeer) (pm : PeerMap P) : Prop :=
  can_connect (connector pm) (tp_address w) = true /\
  exists tcp, connect (env_dial e) (connector pm) (tp_address w)
    (default (default_port_from_network (pm_network pm)) (tp_port w)) = inr tcp.

Lemma next_whitelisted resolve status w wl (pm : PeerMap P) :
  whitelist pm = wl ++ [w] ->
  next_peer resolve status pm =
    (inr (mkPersistedPeer (tp_address w) (default (default_port_from_network (pm_network pm)) (tp_port w))
            (tp_known_services w) Tried), set_whitelist wl pm).
Proof.
  intros Hw. unfold next_peer. rewrite st_get_ok, Hw. unfold pop_back.
  cbn. by rewrite last_snoc, length_app, Nat.add_sub, take_app_length.
Qed.

Lemma live_none (pm : PeerMap P) : pm_map pm = ∅ -> live pm = 0%nat.
Proof. intros Hm. unfold live, live_peers. by rewrite Hm, map_to_list_empty. Qed.

(** The manager handed back. *)
Definition taken (m : PeerMap P) (nd : Node D P) : Node D P :=
  {| state := state nd; chain := take_back m (chain nd); peer_map := m;
     tx_broadcaster := tx_broadcaster nd; required_peers := required_peers nd;
     last_block_monitor := last_block_monitor nd |}.

Lemma peer_map_try_ok {A} (f : ST (PeerMap P) (PeerManagerError peer_store_error) A) nd a m :
  f (lend (chain nd) (peer_map nd)) = (inr a, m) ->
  peer_map_try (D := D) f nd = (inr a, taken m nd).
Proof. intros Hf. unfold peer_map_try, on_peer_map. by rewrite Hf. Qed.

Lemma peer_map_run_ok {E A} (f : PeerMap P -> A * PeerMap P) nd a m :
  f (lend (chain nd) (peer_map nd)) = (a, m) ->
  peer_map_run (D := D) (E := E) f nd = (inr a, taken m nd).
Proof. intros Hf. unfold peer_map_run, on_peer_map. by rewrite Hf. Qed.

Lemma dispatch_connects e w wl nd :
  fresh w wl nd -> reachable_peer e w (peer_map nd) ->
  exists nd', dispatch BROADCAST_MIN e nd = (inr (), nd') /\
    greeting height_monitor_new (chain nd) [] nd'.
Proof.
  intros [Hs Hh Hm Hid Hw Hsize Hi Hr] [Hcan [tcp Hcon]]. unfold dispatch.
  set (nd1 := (peer_map_do (E := NodeError store_error peer_store_error) clean nd).2).
  rewrite (st_bind_ok _ _ nd () nd1) by done. rewrite !st_get_ok.
  assert (pm_map (peer_map nd1) = ∅) as Hm1 by (cbn; by rewrite Hm).
  assert (heights (chain nd1) = height_monitor_new) as Hh1 by (cbn; by rewrite Hm, Hh).
  rewrite (live_none _ Hm1). unfold next_required_peers. change (state nd1) with (state nd).
  rewrite Hs, decide_True by lia.
  set (nd2 := (node_say (E := NodeError store_error peer_store_error)
    (SendWarning (NeedConnections (Z.of_nat 0) (Z.of_nat 1))) nd1).2).
  rewrite (st_bind_ok _ _ nd1 () nd2) by done.
  erewrite st_bind_ok; [|apply peer_map_try_ok, next_whitelisted; exact Hw].
  erewrite st_bind_ok.
  2: { apply peer_map_run_ok. unfold pm_dispatch. cbn -[peer_id_increment] in Hcan, Hcon |- *.
       rewrite Hcan. cbn -[peer_id_increment]. rewrite Hcon. reflexivity. }
  eexists. split; [reflexivity|]. split; cbn -[peer_id_increment]; try done.
  eexists. by rewrite Hid, Hm, map_filter_empty, insert_empty.
Qed.

(** With the connection made, it is only looked after. *)
Lemma dispatch_greeted e c l nd :
  greeting height_monitor_new c l nd ->
  exists nd', dispatch BROADCAST_MIN e nd = (inr (), nd') /\ greeting height_monitor_new c l nd'.
Proof.
  intros [Hs Hc Hh (x & Hx & Hfin & Hl) Hsize Hi Hr]. unfold dispatch.
  set (nd1 := (peer_map_do (E := NodeError store_error peer_store_error) clean nd).2).
  rewrite (st_bind_ok _ _ nd () nd1) by done. rewrite !st_get_ok.
  assert (pm_map (peer_map nd1) = {[peer := x]}) as Hm1
    by (cbn; rewrite Hx; by apply map_filter_singleton_True).
  rewrite (live_single _ _ Hm1 Hfin). unfold next_required_peers.
  change (state nd1) with (state nd). rewrite Hs, decide_False by lia.
  exists nd1. split; [done|]. split; try done; [by cbn; rewrite Hh|by exists x].
Qed.

Lemma unsynced_advance {E} now nd :
  state nd = Behind -> hm_max (heights (chain nd)) = None ->
  advance_state (E := E) now nd = (inr (), nd).
Proof.
  intros Hs Hh. unfold advance_state. rewrite !st_get_ok, Hs. unfold is_synced. by rewrite Hh.
Qed.

Lemma greeting_maintained e c l nd :
  greeting height_monitor_new c l nd ->
  (get_blocks e;; broadcast_transactions (E := NodeError store_error peer_store_error) e) nd = (inr (), nd).
Proof.
  intros [Hs _ _ _ _ Hi _].
  assert (get_blocks (E := NodeError store_error peer_store_error) e nd = (inr (), nd)) as Hget.
  { unfold get_blocks, pop_block_queue. by rewrite st_bind_assoc, st_get_ok, Hs. }
  rewrite (st_bind_ok _ _ _ _ _ Hget). unfold broadcast_transactions. by rewrite st_get_ok, Hi.
Qed.

(** The turn in which the node connects, and those in which it waits. *)
Lemma connecting_turn e w wl input nd :
  fresh w wl nd -> reachable_peer e w (peer_map nd) ->
  exists nd', node_turn filter_control BROADCAST_MIN e input nd =
      handle_input filter_control BROADCAST_MIN e input nd' /\
    greeting height_monitor_new (chain nd) [] nd'.
Proof.
  intros Hf Hr. destruct (dispatch_connects e w wl nd Hf Hr) as (nd' & Hd & Hg). exists nd'.
  split; [|done]. unfold node_turn, maintain.
  rewrite (st_bind_ok _ _ _ _ _ (unsynced_advance _ _ (fr_state _ _ _ Hf) ltac:(by rewrite (fr_heights _ _ _ Hf)))).
  rewrite st_bind_assoc, (st_bind_ok _ _ _ _ _ Hd).
  by rewrite (st_bind_ok _ _ _ _ _ (greeting_maintained _ _ _ _ Hg)).
Qed.

Lemma waiting_turn e input c l nd :
  greeting height_monitor_new c l nd ->
  exists nd', node_turn filter_control BROADCAST_MIN e input nd =
      handle_input filter_control BROADCAST_MIN e input nd' /\
    greeting height_monitor_new c l nd'.
Proof.
  intros Hg. destruct (dispatch_greeted e c l nd Hg) as (nd' & Hd & Hg'). exists nd'.
  split; [|done]. unfold node_turn, maintain.
  rewrite (st_bind_ok _ _ _ _ _ (unsynced_advance _ _ (gr_state _ _ _ _ Hg) ltac:(by rewrite (gr_heights _ _ _ _ Hg)))).
  rewrite st_bind_assoc, (st_bind_ok _ _ _ _ _ Hd).
  by rewrite (st_bind_ok _ _ _ _ _ (greeting_maintained _ _ _ _ Hg')).
Qed.

Definition nothing_arrives (e : Env) : Env * NodeInput := (e, FromPeer None).

Lemma waiting_turns l c nd :
  greeting height_monitor_new c [] nd ->
  exists nd', node_loop filter_control BROADCAST_MIN (nothing_arrives <$> l) nd = (inr false, nd') /\
    greeting height_monitor_new c [] nd'.
Proof.
  revert nd. induction l as [|e l IH]; intros nd Hg; [by exists nd|].
  destruct (waiting_turn e (FromPeer None) c [] nd Hg) as (n1 & Hrun & Hg1).
  destruct (IH n1 Hg1) as (n2 & Hrun2 & Hg2). exists n2. split; [|done].
  cbn [fmap list_fmap node_loop nothing_arrives]. by rewrite (st_bind_ok _ _ nd false n1).
Qed.

(** From the built node to the request for headers: it connects, waits, and
    answers the version. *)
Lemma first_turns_run e1 l e2 v w wl nd :
  fresh w wl nd -> reachable_peer e1 w (peer_map nd) -> WTXID_VERSION <= ver_version v ->
  exists nd', node_loop filter_control BROADCAST_MIN
      (nothing_arrives e1 :: (nothing_arrives <$> l) ++
        [(e2, FromPeer (Some (mkPeerThreadMessage peer (PeerVersion v))))]) nd = (inr false, nd') /\
    greeting (hm_insert peer (as_u32 (ver_start_height v)) height_monitor_new) (chain nd)
      (handshake ++ [get_headers_message (chain nd)]) nd'.
Proof.
  intros Hf Hr Hv.
  destruct (connecting_turn e1 w wl (FromPeer None) nd Hf Hr) as (n1 & Hrun1 & Hg1).
  destruct (waiting_turns l _ _ Hg1) as (n2 & Hrun2 & Hg2).
  destruct (waiting_turn e2 (FromPeer (Some (mkPeerThreadMessage peer (PeerVersion v)))) _ _ _ Hg2)
    as (n3 & Hrun3 & Hg3).
  destruct (version_greets e2 v _ _ _ Hv Hg3) as (n4 & Hrun4 & Hg4).
  exists n4. split; [|done]. cbn [node_loop nothing_arrives].
  rewrite (st_bind_ok _ _ nd false n1), (node_loop_app _ _ _ _ _ _ Hrun2) by done.
  cbn [node_loop]. rewrite (st_bind_ok _ _ n2 false n4); [done|]. rewrite Hrun3.
  cbn [handle_input]. by rewrite (st_bind_ok _ _ _ _ _ Hrun4).
Qed.

End Greeting.

(** ** The composition *)

Section Composition.
Context `{Bitcoin} `{!WorkLaws} {D : Type} `{HeaderStore D} {P : Type} `{PeerStore P}.
Context (filter_control : bool) (BROADCAST_MIN : FeeRate).
Context (reply : MainThreadMessage -> list PeerMessage).
Context (a : BlockHash) (b : Height) (n : Network) (best : list Header).
Context (prev0 : FilterHeader) (contents : list bytes) (block_of : BlockHash -> Block).
Context (Hbest : honest_chain a b n best) (Hcontents : length contents = length best).
Context (Hroom : is_u32 (b + 2000 + Z.of_nat (length best))).
Context (Hserves : serves reply a b best prev0 contents) (Hblocks : serves_blocks reply best block_of).
Implicit Types (c : Chain D) (nd : Node D P).

(** The first connection of a node gets this number. *)
Definition first_peer : PeerId := 1.

(** What the chain of the peer must satisfy where it meets the configuration:
    it goes through the checkpoints ahead, its filters can be searched for the
    scripts, and its difficulties pass the audit. *)
Record admissible c : Prop := {
  ad_checkpoints cp j h : cp ∈ checkpoints (ch_checkpoints c) -> best !! j = Some h ->
    cp_height cp = b + 1 + Z.of_nat j -> block_hash h = cp_hash cp;
  ad_readable j h content : best !! j = Some h -> contents !! j = Some content ->
    match_any content (block_hash h) (elements (scripts c)) <> None;
  ad_audited : audited (tree_new (from_checkpoint b a) n) best;
}.

(** Built with the quorum of one peer, no limit on the peer store, [w] the last
    of the configured peers, and no headers stored. *)
Record new_node (w : TrustedPeer) (wl : list TrustedPeer) nd : Prop := {
  nn_fresh : fresh first_peer w wl nd;
  nn_tree : header_chain (chain nd) = tree_new (from_checkpoint b a) n;
  nn_network : ch_network (chain nd) = n;
  nn_requests : request_state (chain nd) = request_state_new 1;
  nn_pending : pending (block_queue (chain nd)) = [];
  nn_store : stores_nothing (db (chain nd));
}.

Lemma built_new calls now ps hs nd b' w wl :
  build_with_databases (builder_calls n calls) now ps hs = (Some nd, b') ->
  last (omap asked_checkpoint calls) = Some (mkCheckpoint b a) ->
  required_peers nd = 1%nat -> target_db_size (peer_map nd) = UnboundedSize ->
  concat (asked_whitelist <$> calls) = wl ++ [w] -> stores_nothing hs ->
  new_node w wl nd.
Proof.
  intros Hb Hcp Hreq Hsize Hw He. destruct (calls_configured n calls) as [Hn Hc].
  unfold build_with_databases, node_new in Hb. rewrite Hn in Hb.
  destruct (checkpoints_new n) as [cps|]; [|done].
  cbn in Hb. rewrite (cd_checkpoint _ _ Hc), Hcp, (cd_whitelist _ _ Hc), Hw in Hb. cbn in Hb.
  pose proof (cd_valid _ _ Hc) as Hv. unfold valid_config, MIN_PEERS in Hv.
  injection Hb as <- _. cbn in Hreq, Hsize. split; try done.
  cbn. by replace (cfg_required_peers (nb_config (builder_calls n calls))) with 1 by lia.
Qed.

(** The tree of a node that starts at the checkpoint is on the peer's chain. *)
Lemma start_on_best commits :
  audited (tree_new (from_checkpoint b a) n) best ->
  on_best a b (b + 2) best commits 0 0 0 (tree_new (from_checkpoint b a) n).
Proof.
  intros Ha. split.
  - exact (wf_tree_new (from_checkpoint b a) n).
  - exact (canonical_ok_new (from_checkpoint b a) n (b + 2)).
  - done.
  - lia.
  - intros h x _ Hx. cbn in Hx. by rewrite lookup_empty in Hx.
  - exact Ha.
  - lia.
  - intros j h x Hj. lia.
Qed.

Lemma greeting_behind v w wl nd nd' l :
  new_node w wl nd -> admissible (chain nd) ->
  as_u32 (ver_start_height v) = b + Z.of_nat (length best) ->
  greeting first_peer (hm_insert first_peer (as_u32 (ver_start_height v)) height_monitor_new)
    (chain nd) l nd' ->
  behind first_peer a b (b + 2) n best prev0 contents 0 0 0 Behind l nd' /\
  linked first_peer (scripts (chain nd)) nd' /\ pending (block_queue (chain nd')) = [].
Proof.
  intros [Hf Ht Hn Hreq Hq _] [Hcp Hread Ha] Hv [Hs (Et & En & Ec & Er & Es & Eq) Hh (x & Hx & Hfin & Hl) _ Hi Hreq1].
  split_and!.
  - split; [|done|exists x; by rewrite Hx, lookup_singleton_eq]. split.
    + rewrite Et, Ht. by apply start_on_best.
    + by rewrite En.
    + by rewrite Ec.
    + rewrite Hh, Hv. unfold hm_max. cbn. by rewrite insert_empty, map_fold_singleton.
    + by rewrite Er, Hreq.
    + by rewrite Er, Hreq.
    + by rewrite Es.
  - split; try done.
    + rewrite Hx. by rewrite dom_singleton_L.
    + rewrite Hh. unfold hm_retain. cbn. by f_equal.
    + lia.
  - by rewrite Eq.
Qed.
(** The first turns of a node: it connects, waits, and gets the version. *)
Definition first_turns (e1 : Env) (waits : list Env) (e2 : Env) (v : VersionMessage) : list (Env * NodeInput) :=
  nothing_arrives e1 :: (nothing_arrives <$> waits) ++
    [(e2, FromPeer (Some (mkPeerThreadMessage first_peer (PeerVersion v))))].

(** The answers to the handshake, all of them gossip. *)
Definition welcome : list PeerMessage := mjoin (reply <$> handshake).

(** C4: a node that is configured for one peer and built with an empty header
    store brings that peer's chain to the client.  It loads its stored headers,
    connects to the configured peer in the first turn, and answers the peer's
    version with the handshake and the request for headers; from there, in every
    environment and with any turns in between in which nothing arrives, when as
    many answers have arrived as computed, it has announced [Synced] with the
    peer's tip, every filter or matching block was told before that, and its
    chain is the peer's, with all filter headers and filters. *)
Theorem built_node_serves_client calls now ps hs nd b' w wl e1 waits e2 v :
  build_with_databases (builder_calls n calls) now ps hs = (Some nd, b') ->
  last (omap asked_checkpoint calls) = Some (mkCheckpoint b a) ->
  concat (asked_whitelist <$> calls) = wl ++ [w] ->
  required_peers nd = 1%nat -> target_db_size (peer_map nd) = UnboundedSize -> stores_nothing hs ->
  admissible (chain nd) -> reachable_peer e1 w (peer_map nd) ->
  WTXID_VERSION <= ver_version v -> as_u32 (ver_start_height v) = b + Z.of_nat (length best) ->
  Forall (fun x => is_gossip x = true) welcome ->
  exists nd1, node_run filter_control BROADCAST_MIN (first_turns e1 waits e2 v) nd = (inr false, nd1) /\
    forall turns,
      (rounds best 0 0 0 + 3 * length best + length welcome + 4 +
       lates filter_control BROADCAST_MIN first_peer reply turns 0 nd1 <= arrivals turns)%nat ->
      exists before after inputs nd', turns = before ++ after /\ fst <$> inputs = fst <$> before /\
        node_run filter_control BROADCAST_MIN (first_turns e1 waits e2 v ++ inputs) nd = (inr false, nd') /\
        announced filter_control a b best contents block_of (scripts (chain nd)) 0 (chain nd') /\
        synchronized best prev0 contents TransactionsSynced nd'.
Proof.
  intros Hb Hcp Hw Hreq Hsize He Had Hr Hv Hheight Hgossip.
  pose proof (built_new _ _ _ _ _ _ _ _ Hb Hcp Hreq Hsize Hw He) as Hnew.
  pose proof (fetch_nothing _ _ _ (nn_tree _ _ _ Hnew) (nn_store _ _ _ Hnew)) as Hfetch.
  destruct (first_turns_run filter_control BROADCAST_MIN first_peer e1 waits e2 v w wl nd
    (nn_fresh _ _ _ Hnew) Hr Hv) as (nd1 & Hrun & Hg).
  destruct (greeting_behind _ _ _ _ _ _ Hnew Had Hheight Hg) as (Hbe & Hl & Hp).
  assert (get_headers_message (chain nd1) = get_headers_message (chain nd)) as Heq
    by (unfold get_headers_message; by rewrite (proj1 (gr_chain _ _ _ _ _ Hg))).
  rewrite <- Heq in Hbe. exists nd1. split.
  { unfold node_run. by rewrite (st_bind_ok _ _ _ _ _ Hfetch). }
  intros turns Hle.
  destruct (dialogue_starts filter_control first_peer reply a b (b + 2) n best prev0 contents block_of
    (scripts (chain nd)) (sent first_peer nd1) Hcontents Hserves 0 0 0 handshake [] welcome nd1 Hbe Hl Hp eq_refl Hgossip
    (since_now _ _))
    as (flight & Hd & Hm).
  rewrite Nat.sub_0_r in Hm.
  destruct (dialogue_served filter_control BROADCAST_MIN first_peer reply a b (b + 2) n best prev0 contents
    block_of (scripts (chain nd)) (sent first_peer nd1) Hbest Hcontents ltac:(lia) Hroom Hserves Hblocks
    turns _ _ _ _ _ _ _ _ _ Hd ltac:(rewrite Hm; exact Hle))
    as (before & after & inputs & k' & nd' & Hsplit & _ & Hfst & Hloop & Hann & Hsyn).
  exists before, after, inputs, nd'. split_and!; [done|done| |done|done].
  unfold node_run. rewrite (st_bind_ok _ _ _ _ _ Hfetch), (node_loop_app _ _ _ _ _ _ Hrun).
  exact Hloop.
Qed.
End Composition.

(** ** A new wallet with one peer *)
Module ToyStartup.
Export ToyDelivery.

Definition new_calls : list BuilderCall :=
  [AddScripts [[12]; [44]]; AfterCheckpoint (mkCheckpoint 0 100);
   AddTrustedPeer (mkTrustedPeer (Ipv4 [10; 0; 0; 1]) None NO_SERVICES);
   AddTrustedPeer (mkTrustedPeer addr_b (Some 8333) COMPACT_FILTERS)].

Definition built_new : option (Node (SqliteHeaderDb ToySql.table) (SqlitePeerDb peer_table)) * NodeBuilder :=
  build_with_databases (builder_calls Regtest new_calls) 0 tried_store empty_store.

Definition toy_new : Node (SqliteHeaderDb ToySql.table) (SqlitePeerDb peer_table) :=
  default toy_node built_new.1.

Definition hello : VersionMessage :=
  mkVersion 70016 COMPACT_FILTERS 5 (mkNetAddress 0 [] 0) (mkNetAddress 0 [] 0) 7 "peer" 3 false.

(** The peer answers [getaddr] too. *)
Definition welcoming (m : MainThreadMessage) : list PeerMessage :=
  match m with GetAddr => [PeerAddr []] | _ => block_reply m end.

Lemma welcoming_serves : serves welcoming 100 0 batch 0 contents.
Proof. by destruct block_reply_serves; split. Qed.

Lemma welcoming_blocks : serves_blocks welcoming batch toy_block.
Proof. by split. Qed.

Lemma toy_admissible : admissible 100 0 Regtest batch contents (chain toy_new).
Proof.
  split.
  - intros cp j h Hin. by apply elem_of_nil in Hin.
  - intros j h content Hj Hc. by destruct (batch_lookup _ _ Hj) as [[-> ->]|[[-> ->]|[-> ->]]];
      injection Hc as <-.
  - by vm_compute.
Qed.

Lemma nothing_stored : stores_nothing (D := SqliteHeaderDb ToySql.table) empty_store.
Proof.
  split.
  - intros k. cbn. unfold db_header_at. cbn. by rewrite lookup_empty.
  - intros lo hi. by vm_compute.
Qed.

(** Two idle turns before the version, twenty arrivals after it. *)
Lemma built_node_serves_client_witness : exists inputs nd',
  node_run false 250 (first_turns toy_env [toy_env; toy_env] toy_env hello ++ inputs) toy_new = (inr false, nd') /\
  SendEvent (BlockEvent (mkIndexedBlock 2 (toy_block 2))) ∈ dialog (chain nd') /\
  state nd' = TransactionsSynced.
Proof.
  destruct (built_node_serves_client false 250 welcoming 100 0 Regtest batch 0 contents toy_block
    toy_honest eq_refl ltac:(by vm_compute) welcoming_serves welcoming_blocks
    new_calls 0 tried_store empty_store toy_new (builder_new Regtest)
    (mkTrustedPeer addr_b (Some 8333) COMPACT_FILTERS)
    [mkTrustedPeer (Ipv4 [10; 0; 0; 1]) None NO_SERVICES]
    toy_env [toy_env; toy_env] toy_env hello eq_refl eq_refl eq_refl eq_refl eq_refl nothing_stored
    toy_admissible (conj eq_refl (ex_intro _ () eq_refl)) ltac:(by vm_compute) eq_refl
    ltac:(by repeat constructor)) as (nd1 & Hstart & Hserved).
  assert (nd1 = (node_run false 250 (first_turns toy_env [toy_env; toy_env] toy_env hello) toy_new).2) as ->
    by (by rewrite Hstart).
  destruct (Hserved (replicate 20 (toy_env, true)) ltac:(vm_compute; lia))
    as (before & after & inputs & nd' & _ & _ & Hrun & (u & l1 & l2 & Hd & _ & _ & Htold) & Hsyn).
  exists inputs, nd'. split_and!; [exact Hrun| |apply Hsyn].
  rewrite Hd. apply elem_of_app. left.
  apply (Htold 1%nat (hdr 2 1 1) [12] ltac:(lia) eq_refl eq_refl). vm_eq.
Defined.
End ToyStartup.
