(* ===== verification/Link.v ===== *)
(** * A connection: the node, its task and a remote node

    [Delivery] lets the answers of a peer arrive in the node's turns.  Here they
    come through the task of the connection ([Peer]): it takes the requests off
    its channel, writes them, reads what the remote node answers, and forwards
    it.  The node and the task run in any order; the remote answers each message
    that was written to it. *)

From stdpp Require Import base numbers list gmap sorting strings.
From Stdlib Require Import ZArith Lia.
From S2P Require Import Prelude Bitcoin ChainTypes Graph Walk GraphFacts Reorg ActiveChain FilterMarks TreeProperties.
From S2P Require Import Checkpoints Batches BlockQueue Messages HeaderStore PeerStore Chain ChainFacts FilterSync.
From S2P Require Import ChainProperties HeaderSync FilterProgress Network Counter Wire Reader Dns Peer PeerMap Node NodeFacts.
From S2P Require Import NodeProperties Converge Quiet Delivery.

(** ** The messages of a connection *)

Section Thread.
Context `{Wire} (filter_control : bool).
Implicit Types (p : Peer).

(** What is written for a request; nothing for the order to disconnect. *)
Definition request_message (m : MainThreadMessage) : option NetworkMessage :=
  match m with
  | GetAddr => Some NmGetAddr
  | GetAddrV2 => Some NmSendAddrV2
  | WtxidRelay => Some NmWtxidRelay
  | GetHeaders cfg => Some (NmGetHeaders (ghc_locators cfg) (default 0 (ghc_stop_hash cfg)))
  | GetFilterHeaders m => Some (NmGetCFHeaders m)
  | GetFilters m => Some (NmGetCFilters m)
  | GetBlock h => Some (NmGetData [get_block_from_cfg filter_control h])
  | BroadcastTx tx => Some (NmInv [InvWTx (compute_wtxid tx)])
  | SendVerack => Some NmVerack
  | DisconnectPeer => None
  end.

(** What the task forwards to the node. *)
Definition forwarded (m : ReaderMessage) : option PeerMessage :=
  match m with
  | RdVersion v => Some (PeerVersion v)
  | RdAddr l => Some (PeerAddr l)
  | RdHeaders l => Some (PeerHeaders l)
  | RdFilterHeaders m => Some (PeerFilterHeaders m)
  | RdFilter m => Some (PeerFilter m)
  | RdBlock b => Some (PeerBlock b)
  | RdNewBlocks l => Some (PeerNewBlocks l)
  | RdFeeFilter f => Some (PeerFeeFilter f)
  | RdVerack | RdPing _ | RdPong _ | RdReject _ | RdTxRequests _ | RdDisconnect => None
  end.

(** Messages that are neither requests for transactions nor reasons to
    disconnect. *)
Definition plain (m : ReaderMessage) : bool :=
  match m with RdTxRequests _ | RdDisconnect => false | _ => true end.

(** The transport encodes what the task may write: always in plaintext, and as
    long as the cipher works otherwise. *)
Definition outgoing (w : NetworkMessage) : Prop :=
  (exists m, request_message m = Some w) \/ exists nonce, w = NmPong nonce.

Context (able : MessageGenerator -> Prop).
Context (Hable : forall g w, able g -> outgoing w -> exists b g', serialize w g = (inr b, g') /\ able g').

(** The socket and the channel to the node are open. *)
Record healthy p : Prop := {
  hl_socket : wr_open (writer p) = true;
  hl_main : main_open p = true;
  hl_able : able (generator p);
}.

(** The task after a message: its counter is [c], it forwarded [out], and wrote
    the encoding of [written]. *)
Record goes_on (c : MessageCounter) (out : list PeerMessage) (written : list NetworkMessage) p p' : Prop := {
  go_healthy : healthy p';
  go_counter : message_counter p' = c;
  go_main : to_main p' = to_main p ++ (mkPeerThreadMessage (p_nonce p) <$> out);
  go_nonce : p_nonce p' = p_nonce p;
  go_config : p_timeout_config p' = p_timeout_config p;
  go_written : exists bs, wr_bytes (writer p') = wr_bytes (writer p) ++ bs /\
    length bs = length written /\ serialize_all written (generator p) = (inr (concat bs), generator p');
}.

Lemma goes_on_count f p : healthy p -> goes_on (f (message_counter p)) [] [] p (set_counter f p).
Proof. intros []. split; try done; [by rewrite app_nil_r|]. exists []. by rewrite app_nil_r. Qed.

Lemma serialize_all_app (l1 l2 : list NetworkMessage) : forall (g g1 g2 : MessageGenerator) b1 b2,
  serialize_all l1 g = (inr b1, g1) -> serialize_all l2 g1 = (inr b2, g2) ->
  serialize_all (l1 ++ l2) g = (inr (b1 ++ b2), g2).
Proof.
  induction l1 as [|w l1 IH]; intros g g1 g2 b1 b2 H1 H2; cbn [serialize_all app] in *.
  - by injection H1 as <- <-.
  - st_cases H1; [done|]. st_cases H1; [done|]. injection H1 as <- <-.
    rewrite (st_bind_ok _ _ _ _ _ Hstep), (st_bind_ok _ _ _ _ _ (IH _ _ _ _ _ Hstep0 H2)).
    cbn. by rewrite (assoc_L (++)).
Qed.

Lemma goes_on_trans c1 c2 o1 o2 w1 w2 p p1 p2 :
  goes_on c1 o1 w1 p p1 -> goes_on c2 o2 w2 p1 p2 -> goes_on c2 (o1 ++ o2) (w1 ++ w2) p p2.
Proof.
  intros [? ? Hm1 Hn1 Hf1 (b1 & Hb1 & Hl1 & Hs1)] [? ? Hm2 Hn2 Hf2 (b2 & Hb2 & Hl2 & Hs2)].
  split; [done|done| |congruence|congruence|].
  - by rewrite Hm2, Hm1, Hn1, fmap_app, (assoc_L (++)).
  - exists (b1 ++ b2). rewrite Hb2, Hb1, (assoc_L (++)), !length_app, concat_app.
    split_and!; [done|lia|by eapply serialize_all_app].
Qed.

Lemma write_goes_on w p :
  healthy p -> outgoing w ->
  exists p', (m ← generate (serialize w); write_bytes m) p = (inr (), p') /\
    goes_on (message_counter p) [] [w] p p'.
Proof.
  intros [Hs Hm Ha] Hw. destruct (Hable _ _ Ha Hw) as (b & g' & Hser & Ha').
  unfold generate, mbind, ST_bind. rewrite Hser. unfold write_bytes. cbn [writer]. rewrite Hs.
  eexists. split; [reflexivity|]. split; try done; [by rewrite app_nil_r|].
  exists [b]. split_and!; [done..|]. cbn [serialize_all concat].
  by rewrite (st_bind_ok _ _ _ _ _ Hser).
Qed.

Lemma send_goes_on m p :
  healthy p -> exists p', send_main m p = (inr (), p') /\ goes_on (message_counter p) [m] [] p p'.
Proof.
  intros [Hs Hm Ha]. unfold send_main. rewrite Hm. eexists. split; [reflexivity|]. split; try done.
  exists []. by rewrite app_nil_r.
Qed.

Lemma goes_on_refl p : healthy p -> goes_on (message_counter p) [] [] p p.
Proof. split; try done; [by rewrite app_nil_r|]. exists []. by rewrite app_nil_r. Qed.

(** A request is counted and written. *)
Lemma request_taken now m w p :
  healthy p -> request_message m = Some w ->
  exists p', main_thread_request filter_control now m p = (inr (), p') /\
    goes_on (apply_ops (op_of_main now m) (message_counter p)) [] [w] p p'.
Proof.
  intros Hp Hw. assert (outgoing w) as Ho by (left; by exists m).
  assert (forall f, exists p', (m ← generate (serialize w); write_bytes m) (set_counter f p) = (inr (), p') /\
    goes_on (f (message_counter p)) [] [w] p p') as Hcount.
  { intros f. pose proof (goes_on_count f p Hp) as Hc.
    destruct (write_goes_on w _ (go_healthy _ _ _ _ _ Hc) Ho) as (p' & Hrun & Hgo).
    exists p'. split; [done|]. exact (goes_on_trans _ _ _ _ _ _ _ _ _ Hc Hgo). }
  destruct m; cbn in Hw; try discriminate; injection Hw as <-;
    try (exact (Hcount _)); try (by apply write_goes_on).
  destruct Hp as [Hs Hm Ha]. destruct (Hable _ _ Ha Ho) as (b & g' & Hser & Ha').
  cbn [main_thread_request]. unfold gen_announce_transaction, generate, st_modify, mbind, ST_bind.
  cbn [generator set_counter]. rewrite Hser. unfold write_bytes. cbn [writer set_tx_queue set_counter].
  rewrite Hs. eexists. split; [reflexivity|]. split; try done; [by rewrite app_nil_r|].
  exists [b]. split_and!; [done..|]. cbn [serialize_all concat].
  by rewrite (st_bind_ok _ _ _ _ _ Hser).
Qed.

Definition pongs (m : ReaderMessage) : list NetworkMessage :=
  match m with RdPing nonce => [NmPong nonce] | _ => [] end.

(** A message is counted and forwarded; a ping is answered. *)
Lemma message_heard m p :
  healthy p -> plain m = true ->
  exists p', handle_peer_message m p = (inr (), p') /\
    goes_on (apply_ops (op_of_reader m) (message_counter p)) (option_list (forwarded m)) (pongs m) p p'.
Proof.
  intros Hp Hm.
  assert (forall f x, exists p', (st_modify (set_counter f);; send_main x) p = (inr (), p') /\
    goes_on (f (message_counter p)) [x] [] p p') as Hcount.
  { intros f x. pose proof (goes_on_count f p Hp) as Hc.
    destruct (send_goes_on x _ (go_healthy _ _ _ _ _ Hc)) as (p' & Hrun & Hgo).
    exists p'. split; [done|]. exact (goes_on_trans _ _ _ _ _ _ _ _ _ Hc Hgo). }
  destruct m; cbn in Hm |- *; try discriminate; try (exact (Hcount _ _)); try (by apply send_goes_on).
  - eexists. split; [reflexivity|]. pose proof (goes_on_count got_reject p Hp) as [[] ? ? ? ? ?]. by split.
  - eexists. split; [reflexivity|]. by apply goes_on_count.
  - apply write_goes_on; [done|]. right. by eexists.
  - eexists. split; [reflexivity|]. by apply goes_on_refl.
Qed.

(** *** In the loop *)

(** Neither the response nor the connection has taken too long. *)
Definition on_time (start now : Instant) p : bool :=
  negb (unresponsive now (message_counter p)) &&
  negb (max_connection_time (p_timeout_config p) <? duration_since now start).

Lemma turn_goes_on start now input p :
  unsolicited (message_counter p) = false -> on_time start now p = true ->
  peer_turn filter_control start (mkPeerTurn now false input) p =
    match input with
    | FromReader (Some m) => let '(r, p') := handle_peer_message m p in (ends_loop r, p')
    | FromMain (Some m) =>
        let '(r, p') := main_thread_request filter_control now m p in (ends_loop r, p')
    | _ => (false, p)
    end.
Proof.
  intros Hu [Ht Hc]%andb_true_iff. apply negb_true_iff in Ht, Hc.
  unfold peer_turn, peer_checks. cbn [read_finished turn_now turn_input]. by rewrite Hu, Ht, Hc.
Qed.
End Thread.

(** ** What the messages cost *)

Section Credits.
Context `{Wire}.
Implicit Types (l : list ReaderMessage) (ops : list CounterOp) (ms : list MainThreadMessage).

Definition credits (k : Category) (ops : list CounterOp) : Z :=
  foldr (fun op z => credit k op + z) 0 ops.

Lemma credits_app k ops1 ops2 : credits k (ops1 ++ ops2) = credits k ops1 + credits k ops2.
Proof. unfold credits. induction ops1 as [|op ops1 IH]; cbn; [done|]. rewrite IH. lia. Qed.

Lemma balance_app k ops1 ops2 : balance k (ops1 ++ ops2) = balance k ops1 + credits k ops2.
Proof.
  revert ops1. induction ops2 as [|op ops2 IH]; intros ops1; [rewrite app_nil_r; cbn; lia|].
  replace (ops1 ++ op :: ops2) with ((ops1 ++ [op]) ++ ops2) by by rewrite <- (assoc_L (++)).
  rewrite IH, balance_snoc. unfold credits. cbn. lia.
Qed.

(** What a request grants, and what messages take. *)
Definition grants (k : Category) ms : Z := credits k (mjoin (op_of_main 0 <$> ms)).
Definition costs (k : Category) l : Z := - credits k (mjoin (op_of_reader <$> l)).

Lemma op_of_main_credits k now m : credits k (op_of_main now m) = credits k (op_of_main 0 m).
Proof. by destruct k, m. Qed.

Lemma grants_one k now m : grants k [m] = credits k (op_of_main now m).
Proof. unfold grants. cbn. by rewrite app_nil_r, op_of_main_credits. Qed.

Lemma costs_one k r : costs k [r] = - credits k (op_of_reader r).
Proof. unfold costs. cbn. by rewrite app_nil_r. Qed.

Lemma grants_app k ms1 ms2 : grants k (ms1 ++ ms2) = grants k ms1 + grants k ms2.
Proof. unfold grants. by rewrite fmap_app, join_app, credits_app. Qed.

Lemma costs_app k l1 l2 : costs k (l1 ++ l2) = costs k l1 + costs k l2.
Proof. unfold costs. rewrite fmap_app, join_app, credits_app. lia. Qed.

Lemma costs_nonneg k l : 0 <= costs k l.
Proof.
  induction l as [|r l IH]; [done|]. replace (r :: l) with ([r] ++ l) by done.
  rewrite costs_app. enough (0 <= costs k [r]) by lia. unfold costs. destruct k, r; cbn; lia.
Qed.

Lemma costs_take k i l : costs k (take i l) <= costs k l.
Proof.
  rewrite <- (take_drop i l) at 2. rewrite costs_app. pose proof (costs_nonneg k (drop i l)). lia.
Qed.

(** A remote node that keeps to the protocol: its first messages, and its
    answers to requests, are plain, do not have more addresses than the reader
    lets through, and are no more than was asked for. *)
Definition well_sized (m : ReaderMessage) : bool :=
  plain m && match m with RdAddr l => bool_decide (length l <= 1000)%nat | _ => true end.

Record protocol (hello : list ReaderMessage) (answer : MainThreadMessage -> list ReaderMessage) : Prop := {
  pt_hello : Forall (fun m => well_sized m = true) hello;
  pt_answer m : Forall (fun m => well_sized m = true) (answer m);
  pt_hello_cost k : costs k hello <= initial k;
  pt_answer_cost k m : costs k (answer m) <= grants k [m];
}.

Context (hello : list ReaderMessage) (answer : MainThreadMessage -> list ReaderMessage).
Context (Hprotocol : protocol hello answer).

(** What the remote sends when it has read the requests [ms]. *)
Definition outbox ms : list ReaderMessage := hello ++ mjoin (answer <$> ms).

Lemma outbox_app ms1 ms2 : outbox (ms1 ++ ms2) = outbox ms1 ++ mjoin (answer <$> ms2).
Proof. unfold outbox. by rewrite fmap_app, join_app, (assoc_L (++)). Qed.

Lemma outbox_sized ms : Forall (fun m => well_sized m = true) (outbox ms).
Proof.
  apply Forall_app. split; [apply Hprotocol|]. apply Forall_join, Forall_fmap, Forall_forall.
  intros m _. apply Hprotocol.
Qed.

Lemma outbox_cost k ms i : costs k (take i (outbox ms)) <= initial k + grants k ms.
Proof.
  etransitivity; [apply costs_take|]. unfold outbox. rewrite costs_app.
  pose proof (pt_hello_cost _ _ Hprotocol k).
  enough (costs k (mjoin (answer <$> ms)) <= grants k ms) by lia.
  induction ms as [|m ms IH]; [done|].
  replace (m :: ms) with ([m] ++ ms) by done. rewrite fmap_app, join_app, costs_app, grants_app.
  pose proof (pt_answer_cost _ _ Hprotocol k m). cbn [fmap list_fmap mjoin list_join].
  rewrite app_nil_r. lia.
Qed.
End Credits.

(** ** The system *)

Section Link.
Context `{Wire} {D : Type} `{HeaderStore D} {P : Type} `{PeerStore P}.
Context (filter_control : bool) (BROADCAST_MIN : FeeRate) (peer : PeerId) (start : Instant).
Context (hello : list ReaderMessage) (answer : MainThreadMessage -> list ReaderMessage).

(** The node and the task, how many requests the task has taken off its channel,
    how many messages of the remote it has read, and how many forwarded messages
    the node has taken. *)
Record Link := mkLink {
  ln_node : Node D P;
  ln_task : Peer;
  ln_alive : bool;
  ln_taken : nat;
  ln_heard : nat;
  ln_told : nat;
}.

Implicit Types (lk : Link) (nd : Node D P).

(** Everything the remote has sent: its answers to what the task has written. *)
Definition remote_sent lk : list ReaderMessage :=
  outbox hello answer (take (ln_taken lk) (sent peer (ln_node lk))).

(** What happens next: a turn of the node, in which the next forwarded message
    arrives or none; or a turn of the task, which takes a request, reads a
    message, reads a ping, or waits. *)
Inductive LinkEvent :=
  | NodeTurns (e : Env) (arrives : bool)
  | TaskTakes (now : Instant)
  | TaskHears (now : Instant)
  | TaskPinged (now : Instant) (nonce : Z)
  | TaskWaits (now : Instant).

(** A turn of the task, with the new numbers of messages; the node sees that it
    ended. *)
Definition task_turn (now : Instant) (input : PeerInput) (taken heard : nat) lk : Link :=
  let '(stop, p) := peer_turn filter_control start (mkPeerTurn now false input) (ln_task lk) in
  {| ln_node := if stop then (peer_map_do (E := NodeError store_error peer_store_error)
                                (finish_peer peer) (ln_node lk)).2 else ln_node lk;
     ln_task := p; ln_alive := negb stop; ln_taken := taken; ln_heard := heard;
     ln_told := ln_told lk |}.

Definition link_event (ev : LinkEvent) : ST Link (NodeError store_error peer_store_error) () := fun lk =>
  let when_alive (f : Link) := (inr (), if ln_alive lk then f else lk) in
  match ev with
  | NodeTurns e arrives =>
      let next := if arrives then to_main (ln_task lk) !! ln_told lk else None in
      let '(r, nd) := node_turn filter_control BROADCAST_MIN e (FromPeer next) (ln_node lk) in
      (match r with inl err => inl err | inr _ => inr () end,
       {| ln_node := nd; ln_task := ln_task lk; ln_alive := ln_alive lk; ln_taken := ln_taken lk;
          ln_heard := ln_heard lk;
          ln_told := match next with Some _ => S (ln_told lk) | None => ln_told lk end |})
  | TaskTakes now =>
      when_alive match sent peer (ln_node lk) !! ln_taken lk with
                 | Some m => task_turn now (FromMain (Some m)) (S (ln_taken lk)) (ln_heard lk) lk
                 | None => lk
                 end
  | TaskHears now =>
      when_alive match remote_sent lk !! ln_heard lk with
                 | Some m => task_turn now (FromReader (Some m)) (ln_taken lk) (S (ln_heard lk)) lk
                 | None => lk
                 end
  | TaskPinged now nonce =>
      when_alive (task_turn now (FromReader (Some (RdPing nonce))) (ln_taken lk) (ln_heard lk) lk)
  | TaskWaits now => when_alive (task_turn now ReaderTimeout (ln_taken lk) (ln_heard lk) lk)
  end.

Fixpoint link_run (l : list LinkEvent) : ST Link (NodeError store_error peer_store_error) () :=
  match l with
  | [] => mret ()
  | ev :: l' => link_event ev;; link_run l'
  end.

(** ** The invariant of the connection *)

Context (able : MessageGenerator -> Prop).
Context (Hable : forall g w, able g -> outgoing filter_control w ->
  exists b g', serialize w g = (inr b, g') /\ able g').
Context (Hprotocol : protocol hello answer) (limit : Duration).
Context (before : list bytes) (gen0 : MessageGenerator).

Definition is_pong (w : NetworkMessage) : bool :=
  match w with NmPong _ => true | _ => false end.

(** After [before], what is on the wire is the encoding of the requests taken off
    the channel, in their order, with answers to pings in between. *)
Definition on_wire lk : Prop :=
  exists bs ws, wr_bytes (writer (ln_task lk)) = before ++ bs /\ length bs = length ws /\
    serialize_all ws gen0 = (inr (concat bs), generator (ln_task lk)) /\
    filter (fun w => is_pong w = false) ws =
      omap (request_message filter_control) (take (ln_taken lk) (sent peer (ln_node lk))).

Lemma request_no_pong m w : request_message filter_control m = Some w -> is_pong w = false.
Proof. destruct m; cbn; congruence || by intros [= <-]. Qed.

Definition asks_addresses (m : MainThreadMessage) : bool :=
  match m with GetAddr => true | _ => false end.

(** [ops] is the history of the counter. *)
Record joined (ops : list CounterOp) lk : Prop := {
  jn_alive : ln_alive lk = true;
  jn_healthy : healthy able (ln_task lk);
  jn_nonce : p_nonce (ln_task lk) = peer;
  jn_taken : (ln_taken lk <= length (sent peer (ln_node lk)))%nat;
  jn_heard : (ln_heard lk <= length (remote_sent lk))%nat;
  jn_main : to_main (ln_task lk) =
    mkPeerThreadMessage peer <$> omap forwarded (take (ln_heard lk) (remote_sent lk));
  jn_told : (ln_told lk <= length (to_main (ln_task lk)))%nat;
  jn_ledger : ledger_ok ops limit (message_counter (ln_task lk));
  jn_balance k : balance k ops = initial k + grants k (take (ln_taken lk) (sent peer (ln_node lk))) -
    costs k (take (ln_heard lk) (remote_sent lk));
  jn_length : (length ops <= 1 + ln_taken lk + ln_heard lk)%nat;
  jn_requests : addr_requests ops =
    Z.of_nat (length (filter (fun m => asks_addresses m = true) (take (ln_taken lk) (sent peer (ln_node lk)))));
  jn_written : on_wire lk;
  jn_polite : Forall (fun m => m <> DisconnectPeer) (sent peer (ln_node lk));
  jn_addresses : Z.of_nat (length (filter (fun m => asks_addresses m = true) (sent peer (ln_node lk)))) <= 100000;
}.

(** At most a billion messages. *)
Definition in_bounds lk : Prop := Z.of_nat (ln_taken lk + ln_heard lk) + 2 <= 2 ^ 30.

(** The turn of the task is in time. *)
Definition timely (ev : LinkEvent) lk : Prop :=
  match ev with
  | NodeTurns _ _ => True
  | TaskTakes now | TaskHears now | TaskPinged now _ | TaskWaits now =>
      on_time start now (ln_task lk) = true
  end.

Lemma joined_solicited ops lk : joined ops lk -> unsolicited (message_counter (ln_task lk)) = false.
Proof.
  intros Hj. apply not_true_is_false. intros Hu.
  apply unsolicited_spec in Hu as [k Hk]; [|apply (jn_ledger _ _ Hj)].
  rewrite (lo_field _ _ _ (jn_ledger _ _ Hj)), (jn_balance _ _ Hj) in Hk.
  pose proof (outbox_cost hello answer Hprotocol k (take (ln_taken lk) (sent peer (ln_node lk))) (ln_heard lk)).
  unfold remote_sent in Hk. lia.
Qed.

Lemma ledger_extends ops new c :
  ledger_ok ops limit c -> counted (ops ++ new) -> (length new <= 1)%nat -> Forall op_ok new ->
  unsolicited c = false -> ledger_ok (ops ++ new) limit (apply_ops new c).
Proof.
  intros Hl Hc Hn Hok Hu. destruct new as [|op [|]]; cbn in Hn; [by rewrite app_nil_r| |lia].
  apply ledger_step; [done|by inversion Hok|done|done].
Qed.

(** A turn of the task: [new] is what it counts, [out] what it forwards. *)
Lemma task_keeps now input new out written taken heard ops lk p' :
  let reqs := take taken (sent peer (ln_node lk)) in
  joined ops lk -> in_bounds lk ->
  peer_turn filter_control start (mkPeerTurn now false input) (ln_task lk) = (false, p') ->
  goes_on able (apply_ops new (message_counter (ln_task lk))) out written (ln_task lk) p' ->
  Forall op_ok new -> (length new + ln_taken lk + ln_heard lk <= taken + heard)%nat ->
  (taken + heard <= 1 + ln_taken lk + ln_heard lk)%nat ->
  (taken <= length (sent peer (ln_node lk)))%nat -> (heard <= length (outbox hello answer reqs))%nat ->
  omap forwarded (take heard (outbox hello answer reqs)) =
    omap forwarded (take (ln_heard lk) (remote_sent lk)) ++ out ->
  (forall k, credits k new = grants k reqs - grants k (take (ln_taken lk) (sent peer (ln_node lk))) -
     (costs k (take heard (outbox hello answer reqs)) - costs k (take (ln_heard lk) (remote_sent lk)))) ->
  addr_requests (ops ++ new) = Z.of_nat (length (filter (fun m => asks_addresses m = true) reqs)) ->
  omap (request_message filter_control) reqs =
    omap (request_message filter_control) (take (ln_taken lk) (sent peer (ln_node lk))) ++
    filter (fun w => is_pong w = false) written ->
  joined (ops ++ new) (task_turn now input taken heard lk).
Proof.
  intros reqs Hj Hb Hturn Hgo Hok Hlow Hhigh Htaken Hheard Hout Hcr Haddr Hwr.
  pose proof (joined_solicited _ _ Hj) as Hu. unfold task_turn. rewrite Hturn.
  destruct Hj, Hgo. unfold in_bounds in Hb.
  assert (length (ops ++ new) <= 1 + taken + heard)%nat as Hlen by (rewrite length_app; lia).
  split; cbn [negb ln_alive ln_task ln_node ln_taken ln_heard ln_told]; try done.
  - congruence.
  - rewrite go_main0, jn_main0, jn_nonce0, <- fmap_app. f_equal. by rewrite <- Hout.
  - rewrite go_main0, length_app. lia.
  - rewrite go_counter0. apply ledger_extends; try done; [|lia].
    split; [lia|]. rewrite Haddr. subst reqs.
    pose proof (filter_take_length (fun m => asks_addresses m = true) taken (sent peer (ln_node lk))). lia.
  - intros k. rewrite balance_app, jn_balance0, Hcr. subst reqs. unfold remote_sent.
    cbn [ln_taken ln_node]. lia.
  - destruct jn_written0 as (bs & ws & Hbs & Hlen0 & Hser & Hws), go_written0 as (bs' & Hbs' & Hlen' & Hser').
    exists (bs ++ bs'), (ws ++ written). cbn [ln_task ln_taken ln_node].
    rewrite Hbs', Hbs, !length_app, concat_app, filter_app, Hws, <- Hwr, (assoc_L (++)).
    split_and!; [done|lia|by eapply serialize_all_app|done].
Qed.

(** The state that an event leaves when nothing could be done. *)
Definition frozen lk lk' : Prop :=
  sent peer (ln_node lk') = sent peer (ln_node lk) /\ to_main (ln_task lk') = to_main (ln_task lk) /\
  ln_taken lk' = ln_taken lk /\ ln_heard lk' = ln_heard lk /\ ln_told lk' = ln_told lk.

(** Requests that are not taken, and messages that are not read. *)
Definition undone lk : nat :=
  (length (sent peer (ln_node lk)) - ln_taken lk +
   (length (outbox hello answer (sent peer (ln_node lk))) - ln_heard lk))%nat.

Lemma remote_sent_prefix lk :
  remote_sent lk `prefix_of` outbox hello answer (sent peer (ln_node lk)).
Proof.
  unfold remote_sent. rewrite <- (take_drop (ln_taken lk) (sent peer (ln_node lk))) at 2.
  rewrite outbox_app. by apply prefix_app_r.
Qed.

(** What an event of the task does: it gets something done, or leaves all as it
    was because there is nothing to do. *)
Definition task_result (ev : LinkEvent) lk : Prop :=
  exists ops lk', link_event ev lk = (inr (), lk') /\ joined ops lk' /\
    ln_node lk' = ln_node lk /\ ln_told lk' = ln_told lk /\
    ((undone lk' < undone lk)%nat \/
     frozen lk lk' /\
     match ev with
     | TaskTakes _ => ln_taken lk = length (sent peer (ln_node lk))
     | TaskHears _ => ln_heard lk = length (remote_sent lk)
     | _ => True
     end).

Lemma frozen_refl lk : frozen lk lk.
Proof. by split_and!. Qed.

Lemma task_takes now ops lk :
  joined ops lk -> in_bounds lk -> on_time start now (ln_task lk) = true ->
  task_result (TaskTakes now) lk.
Proof.
  intros Hj Hb Ht. pose proof (joined_solicited _ _ Hj) as Hu. unfold task_result. cbn [link_event].
  rewrite (jn_alive _ _ Hj).
  destruct (sent peer (ln_node lk) !! ln_taken lk) as [m|] eqn:Hm.
  2: { exists ops, lk. split_and!; [done..|]. right. split; [apply frozen_refl|].
       apply lookup_ge_None in Hm. pose proof (jn_taken _ _ Hj). lia. }
  assert (take (S (ln_taken lk)) (sent peer (ln_node lk)) =
    take (ln_taken lk) (sent peer (ln_node lk)) ++ [m]) as Htake by by apply take_S_r.
  pose proof (lookup_lt_Some _ _ _ Hm) as Hlt.
  assert (exists w, request_message filter_control m = Some w) as [w Hw].
  { pose proof (jn_polite _ _ Hj) as Hp. rewrite Forall_forall in Hp.
    specialize (Hp m (list_elem_of_lookup_2 _ _ _ Hm)). destruct m; by eauto. }
  destruct (request_taken filter_control able Hable now m w _ (jn_healthy _ _ Hj) Hw) as (p' & Hrun & Hgo).
  assert (peer_turn filter_control start (mkPeerTurn now false (FromMain (Some m))) (ln_task lk) = (false, p'))
    as Hturn by (rewrite turn_goes_on, Hrun by done; reflexivity).
  exists (ops ++ op_of_main now m). eexists. split; [reflexivity|].
  assert (remote_sent lk `prefix_of` outbox hello answer (take (S (ln_taken lk)) (sent peer (ln_node lk))))
    as [more Hmore] by (rewrite Htake, outbox_app; by eexists).
  pose proof (jn_heard _ _ Hj) as Hh.
  assert (take (ln_heard lk) (outbox hello answer (take (S (ln_taken lk)) (sent peer (ln_node lk)))) =
    take (ln_heard lk) (remote_sent lk)) as Hsame by (rewrite Hmore; by rewrite take_app_le).
  split; [|split; [|split]].
  - eapply task_keeps; try done.
    + by destruct m; cbn; repeat constructor.
    + destruct m; cbn; lia.
    + rewrite Hmore, length_app. lia.
    + by rewrite Hsame, app_nil_r.
    + intros k. rewrite Hsame, Htake, grants_app, (grants_one k now m). lia.
    + rewrite addr_requests_app, (jn_requests _ _ Hj), Htake, filter_app, length_app, Nat2Z.inj_add.
      f_equal. by destruct m.
    + rewrite Htake, omap_app. f_equal. cbn [omap list_omap]. rewrite Hw.
      by rewrite filter_cons_True by by eapply request_no_pong.
  - unfold task_turn. by rewrite Hturn.
  - unfold task_turn. by rewrite Hturn.
  - left. unfold undone, task_turn. rewrite Hturn. cbn. lia.
Qed.

Lemma well_sized_plain m : well_sized m = true -> plain m = true /\ Forall op_ok (op_of_reader m).
Proof.
  unfold well_sized. intros [Hp Hs]%andb_true_iff. split; [done|].
  destruct m; cbn in *; repeat constructor; apply bool_decide_eq_true in Hs; lia.
Qed.

Lemma task_hears now ops lk :
  joined ops lk -> in_bounds lk -> on_time start now (ln_task lk) = true ->
  task_result (TaskHears now) lk.
Proof.
  intros Hj Hb Ht. pose proof (joined_solicited _ _ Hj) as Hu. unfold task_result. cbn [link_event].
  rewrite (jn_alive _ _ Hj).
  destruct (remote_sent lk !! ln_heard lk) as [m|] eqn:Hm.
  2: { exists ops, lk. split_and!; [done..|]. right. split; [apply frozen_refl|].
       apply lookup_ge_None in Hm. pose proof (jn_heard _ _ Hj). lia. }
  assert (take (S (ln_heard lk)) (remote_sent lk) = take (ln_heard lk) (remote_sent lk) ++ [m]) as Htake
    by by apply take_S_r.
  pose proof (lookup_lt_Some _ _ _ Hm) as Hlt.
  pose proof (outbox_sized hello answer Hprotocol (take (ln_taken lk) (sent peer (ln_node lk)))) as Hws.
  rewrite Forall_forall in Hws. destruct (well_sized_plain m) as [Hplain Hok].
  { apply Hws. by eapply list_elem_of_lookup_2. }
  destruct (message_heard filter_control able Hable m _ (jn_healthy _ _ Hj) Hplain) as (p' & Hrun & Hgo).
  assert (peer_turn filter_control start (mkPeerTurn now false (FromReader (Some m))) (ln_task lk) = (false, p'))
    as Hturn by (rewrite turn_goes_on, Hrun by done; reflexivity).
  exists (ops ++ op_of_reader m). eexists. split; [reflexivity|].
  pose proof (remote_sent_prefix lk) as Hpre. apply prefix_length in Hpre.
  pose proof (jn_taken _ _ Hj).
  split; [|split; [|split]].
  - eapply task_keeps; try done.
    + destruct m; cbn; lia.
    + lia.
    + change (outbox hello answer (take (ln_taken lk) (sent peer (ln_node lk)))) with (remote_sent lk).
      rewrite Htake, omap_app. cbn. by destruct (forwarded m).
    + intros k. change (outbox hello answer (take (ln_taken lk) (sent peer (ln_node lk)))) with (remote_sent lk).
      rewrite Htake, costs_app, costs_one. lia.
    + rewrite addr_requests_app, (jn_requests _ _ Hj). destruct m; apply Z.add_0_r.
    + by destruct m; rewrite ?app_nil_r.
  - unfold task_turn. by rewrite Hturn.
  - unfold task_turn. by rewrite Hturn.
  - left. unfold undone, task_turn. rewrite Hturn. cbn. lia.
Qed.

(** A ping is answered, and costs nothing. *)
Lemma task_idle now input written p' ops lk :
  joined ops lk -> in_bounds lk ->
  peer_turn filter_control start (mkPeerTurn now false input) (ln_task lk) = (false, p') ->
  goes_on able (message_counter (ln_task lk)) [] written (ln_task lk) p' ->
  filter (fun w => is_pong w = false) written = [] ->
  joined ops (task_turn now input (ln_taken lk) (ln_heard lk) lk) /\
  frozen lk (task_turn now input (ln_taken lk) (ln_heard lk) lk) /\
  ln_node (task_turn now input (ln_taken lk) (ln_heard lk) lk) = ln_node lk.
Proof.
  intros Hj Hb Hturn Hgo Hpong. split_and!.
  - rewrite <- (app_nil_r ops). pose proof (jn_heard _ _ Hj) as Hh.
    eapply (task_keeps now input [] [] written _ _ ops lk p'); try done; [lia|apply Hj|..].
    + by rewrite app_nil_r.
    + intros k. unfold remote_sent. cbn. lia.
    + rewrite app_nil_r. apply Hj.
    + by rewrite Hpong, app_nil_r.
  - unfold frozen, task_turn. rewrite Hturn. cbn. split_and!; try done.
    rewrite (go_main _ _ _ _ _ _ Hgo). cbn. by rewrite app_nil_r.
  - unfold task_turn. by rewrite Hturn.
Qed.

Lemma task_event ev ops lk :
  joined ops lk -> in_bounds lk -> timely ev lk -> (forall e arrives, ev <> NodeTurns e arrives) ->
  task_result ev lk.
Proof.
  intros Hj Hb Ht Hev. pose proof (joined_solicited _ _ Hj) as Hu. destruct ev as [e arr|now|now|now nonce|now].
  - by destruct (Hev e arr).
  - by eapply task_takes.
  - by eapply task_hears.
  - destruct (message_heard filter_control able Hable (RdPing nonce) _ (jn_healthy _ _ Hj) eq_refl)
      as (p' & Hrun & Hgo).
    destruct (task_idle now (FromReader (Some (RdPing nonce))) [NmPong nonce] p' ops lk Hj Hb) as (Hj' & Hf & Hn);
      [by rewrite turn_goes_on, Hrun by done|exact Hgo|done|].
    exists ops. eexists. split; [cbn [link_event]; rewrite (jn_alive _ _ Hj); reflexivity|].
    split_and!; [done|done|apply Hf|by right].
  - destruct (task_idle now ReaderTimeout [] (ln_task lk) ops lk Hj Hb) as (Hj' & Hf & Hn);
      [by rewrite turn_goes_on by done|apply goes_on_refl, Hj|done|].
    exists ops. eexists. split; [cbn [link_event]; rewrite (jn_alive _ _ Hj); reflexivity|].
    split_and!; [done|done|apply Hf|by right].
Qed.

(** What the node sends does not change what the task has done. *)
Lemma node_keeps ops lk nd' more next :
  joined ops lk -> sent peer nd' = sent peer (ln_node lk) ++ more ->
  Forall (fun m => m <> DisconnectPeer) more ->
  Z.of_nat (length (filter (fun m => asks_addresses m = true) (sent peer nd'))) <= 100000 ->
  (next <> None -> (ln_told lk < length (to_main (ln_task lk)))%nat) ->
  joined ops {| ln_node := nd'; ln_task := ln_task lk; ln_alive := ln_alive lk; ln_taken := ln_taken lk;
    ln_heard := ln_heard lk;
    ln_told := match next : option PeerThreadMessage with Some _ => S (ln_told lk) | None => ln_told lk end |}.
Proof.
  intros Hj Hsent Hmore Haddr Hnext. pose proof (jn_taken _ _ Hj) as Ht.
  assert (take (ln_taken lk) (sent peer nd') = take (ln_taken lk) (sent peer (ln_node lk))) as Htake
    by (rewrite Hsent; by rewrite take_app_le).
  destruct Hj. split; unfold on_wire, remote_sent; cbn [ln_alive ln_task ln_node ln_taken ln_heard ln_told];
    rewrite ?Htake; try done.
  - rewrite Hsent, length_app. lia.
  - destruct next; [|done]. by apply Hnext.
  - rewrite Hsent. by apply Forall_app.
Qed.

(** The requests of the synchronization are harmless. *)
Lemma since_polite ops lk nd' :
  joined ops lk -> since peer (sent peer (ln_node lk)) nd' ->
  exists more, sent peer nd' = sent peer (ln_node lk) ++ more /\ Forall (fun m => m <> DisconnectPeer) more /\
    Z.of_nat (length (filter (fun m => asks_addresses m = true) (sent peer nd'))) <= 100000.
Proof.
  intros Hj (more & Hsent & Hmore). exists more. split_and!; [done| |].
  - eapply Forall_impl; [exact Hmore|]. by intros [].
  - assert (filter (fun m => asks_addresses m = true) more = []) as Hnone.
    { apply list_filter_none. eapply Forall_impl; [exact Hmore|]. by intros []. }
    rewrite Hsent, filter_app, Hnone, app_nil_r. apply (jn_addresses _ _ Hj).
Qed.

(** The event would get something done. *)
Definition wanted (ev : LinkEvent) lk : Prop :=
  match ev with
  | NodeTurns _ true => (ln_told lk < length (to_main (ln_task lk)))%nat \/ undone lk = 0%nat
  | TaskTakes _ => (ln_taken lk < length (sent peer (ln_node lk)))%nat
  | TaskHears _ => (ln_heard lk < length (remote_sent lk))%nat
  | _ => False
  end.

Lemma wanted_frozen ev lk lk' : frozen lk lk' -> wanted ev lk -> wanted ev lk'.
Proof.
  intros (Hs & Hm & Ht & Hh & Hto). destruct ev as [e []| | | |]; cbn; unfold undone, remote_sent;
    by rewrite ?Hs, ?Hm, ?Ht, ?Hh, ?Hto.
Qed.

(** In any state something is wanted: a turn of the node, or of the task for its
    channel or for the remote. *)
Lemma joined_wanted ops lk : joined ops lk ->
  (forall e, wanted (NodeTurns e true) lk) \/ (forall now, wanted (TaskHears now) lk) \/
  (forall now, wanted (TaskTakes now) lk).
Proof.
  intros Hj.
  pose proof (jn_told _ _ Hj). pose proof (jn_heard _ _ Hj). pose proof (jn_taken _ _ Hj).
  destruct (decide (ln_heard lk < length (remote_sent lk))%nat); [by right; left|].
  destruct (decide (ln_taken lk < length (sent peer (ln_node lk)))%nat); [by right; right|].
  left. intros e. cbn. right. unfold undone.
  assert (remote_sent lk = outbox hello answer (sent peer (ln_node lk))) as Hall
    by (unfold remote_sent; rewrite take_ge by lia; done).
  rewrite <- Hall. lia.
Qed.

(** ** The dialogue through the connection *)

Context (a : BlockHash) (b lo : Height) (n : Network) (best : list Header).
Context (prev0 : FilterHeader) (contents : list bytes) (block_of : BlockHash -> Block).
Context (watched : gset ScriptBuf).

(** The messages of the remote as the node sees them. *)
Definition seen_reply (m : MainThreadMessage) : list PeerMessage := omap forwarded (answer m).
Definition greeting_seen : list PeerMessage := omap forwarded hello.

Context (Hbest : honest_chain a b n best) (Hcontents : length contents = length best).
Context (Hlo : lo <= b + 2) (Hroom : is_u32 (b + 2000 + Z.of_nat (length best))).
Context (Hserves : serves seen_reply a b best prev0 contents).
Context (Hblocks : serves_blocks seen_reply best block_of).

Abbreviation dialogue nd := (dialogue (D := D) (P := P) filter_control peer seen_reply a b lo n best prev0
  contents block_of watched (sent peer nd)).
Abbreviation measure := (measure (D := D) best).

Lemma omap_join {A B} (f : A -> option B) (ll : list (list A)) :
  omap f (mjoin ll) = mjoin (omap f <$> ll).
Proof.
  induction ll as [|l ll IH]; [done|]. change (mjoin (l :: ll)) with (l ++ mjoin ll).
  by rewrite omap_app, IH.
Qed.

(** What was forwarded are the first of the answers. *)
Lemma forwarded_answers ops lk i :
  joined ops lk -> (length greeting_seen <= i < length (to_main (ln_task lk)))%nat ->
  to_main (ln_task lk) !! i =
    mkPeerThreadMessage peer <$> answers peer seen_reply (ln_node lk) !! (i - length greeting_seen)%nat.
Proof.
  intros Hj [Hlow Hi]. rewrite (jn_main _ _ Hj), length_fmap in Hi. rewrite (jn_main _ _ Hj), list_lookup_fmap. f_equal.
  destruct (remote_sent_prefix lk) as [rest Hrest].
  assert (greeting_seen ++ answers peer seen_reply (ln_node lk) =
    omap forwarded (take (ln_heard lk) (remote_sent lk)) ++
    omap forwarded (drop (ln_heard lk) (remote_sent lk) ++ rest)) as Hall.
  { rewrite <- omap_app, (assoc_L (++)), take_drop, <- Hrest. unfold outbox. rewrite omap_app. f_equal.
    unfold answers. rewrite omap_join, <- list_fmap_compose. done. }
  trans ((greeting_seen ++ answers peer seen_reply (ln_node lk)) !! i); [|by rewrite lookup_app_r].
  rewrite Hall, lookup_app_l by done. done.
Qed.

Lemma dialogue_now early q0 p q m s r k flight nd :
  Delivery.dialogue filter_control peer seen_reply a b lo n best prev0 contents block_of watched early
    q0 p q m s r k flight nd ->
  dialogue nd q0 p q m s r k flight nd.
Proof. intros []. split; try done. apply since_now. Qed.

(** A turn of the node: it comes closer to the end, or leaves all as it was
    because nothing has arrived that could. *)
Lemma node_event e arrives ops q0 p q m s r flight lk :
  joined ops lk -> (length greeting_seen <= ln_told lk)%nat ->
  dialogue (ln_node lk) q0 p q m s r (ln_told lk - length greeting_seen) flight (ln_node lk) ->
  s <> TransactionsSynced ->
  exists p' q' m' s' r' flight' lk',
    link_event (NodeTurns e arrives) lk = (inr (), lk') /\ joined ops lk' /\
    (length greeting_seen <= ln_told lk')%nat /\
    dialogue (ln_node lk') q0 p' q' m' s' r' (ln_told lk' - length greeting_seen) flight' (ln_node lk') /\
    (measure q' s' r' flight' (chain (ln_node lk')) <=
     measure q s r flight (chain (ln_node lk)) + if late e (ln_node lk) then 1 else 0)%nat /\
    ((measure q' s' r' flight' (chain (ln_node lk')) <
      measure q s r flight (chain (ln_node lk)) + if late e (ln_node lk) then 2 else 0)%nat \/
     frozen lk lk' /\ flight <> [] /\ (arrives = true -> ln_told lk = length (to_main (ln_task lk)))).
Proof.
  intros Hj Hg Hd Hs. set (nd := ln_node lk) in *.
  set (k := (ln_told lk - length greeting_seen)%nat) in *.
  set (arr := arrives && bool_decide (ln_told lk < length (to_main (ln_task lk)))%nat).
  destruct (turn_step filter_control BROADCAST_MIN peer seen_reply a b lo n best prev0 contents block_of watched
    (sent peer nd) Hbest Hcontents Hlo Hroom Hserves Hblocks e arr _ _ _ _ _ _ _ _ _ Hd Hs)
    as (p' & q' & m' & s' & r' & k' & flight' & nd' & Hturn & Hd' & Hm & Hempty & Hsend).
  set (next := if arrives then to_main (ln_task lk) !! ln_told lk else None).
  assert (next = mkPeerThreadMessage peer <$> (if arr then answers peer seen_reply nd !! k else None)) as Hnext.
  { unfold next, arr. destruct arrives; [|done]. cbn [andb]. case_bool_decide.
    - by rewrite (forwarded_answers ops) by done.
    - by apply lookup_ge_None_2; lia. }
  unfold talk_turn in Hturn. rewrite st_get_ok in Hturn. cbn [fst snd] in Hturn. rewrite <- Hnext in Hturn.
  apply st_bind_inv in Hturn as [(err & [=] & _)|(stop & nd1 & Hturn & Hret)]. injection Hret as Hk' ->.
  set (told := match next with Some _ => S (ln_told lk) | None => ln_told lk end).
  assert (k' = (told - length greeting_seen)%nat) as ->.
  { unfold told. rewrite Hnext, <- Hk'. destruct (if arr then _ else _); cbn; lia. }
  exists p', q', m', s', r', flight'. eexists. split; [|split; [|split; [|split]]].
  - unfold link_event. cbn beta iota zeta. fold nd next. rewrite Hturn. reflexivity.
  - destruct (since_polite _ _ nd' Hj) as (new & ? & ? & ?); [apply Hd'|].
    eapply node_keeps; [done..|]. intros Hne. unfold next in Hne. destruct arrives; [|done]. destruct (_ !! _) eqn:Hx in Hne; [|done]. by apply lookup_lt_Some in Hx.
  - cbn. unfold told. destruct next; lia.
  - by eapply dialogue_now.
  - cbn. split; [lia|]. destruct next as [x|] eqn:Hx.
    + left. assert (arr = true) as -> by (destruct arr; [done|discriminate]).
      destruct (late e nd); lia.
    + destruct Hsend as [Hsend|Hlt]; [|by left].
      destruct (decide (flight = [])) as [Hf|Hf]; [left; specialize (Hempty Hf); destruct (late e nd); lia|].
      right. split_and!; [by split_and!|done|]. intros ->. apply lookup_ge_None in Hx.
      pose proof (jn_told _ _ Hj). lia.
Qed.

(** ** Towards the end of the dialogue *)

(** The dialogue goes on, [c] away from its end. *)
Definition conversing (q0 c : nat) lk : Prop :=
  exists ops p q m s r flight, joined ops lk /\ (length greeting_seen <= ln_told lk)%nat /\
    dialogue (ln_node lk) q0 p q m s r (ln_told lk - length greeting_seen) flight (ln_node lk) /\
    c = measure q s r flight (chain (ln_node lk)).

Definition synced lk : Prop := state (ln_node lk) = TransactionsSynced.

Definition late_event (ev : LinkEvent) lk : nat :=
  match ev with NodeTurns e _ => if late e (ln_node lk) then 1 else 0 | _ => 0 end.

(** With nothing undone and nothing waiting, no answer is under way. *)
Lemma all_arrived ops q0 p q m s r flight lk :
  joined ops lk -> (length greeting_seen <= ln_told lk)%nat ->
  dialogue (ln_node lk) q0 p q m s r (ln_told lk - length greeting_seen) flight (ln_node lk) ->
  undone lk = 0%nat -> ln_told lk = length (to_main (ln_task lk)) -> flight = [].
Proof.
  intros Hj Hg Hd Hu Ht. destruct Hd as [_ _ (past & Ha & Hk) _ _ _ _ _].
  unfold undone in Hu. pose proof (jn_taken _ _ Hj).
  assert (remote_sent lk = outbox hello answer (sent peer (ln_node lk))) as Hall
    by (unfold remote_sent; rewrite take_ge by lia; done).
  assert (length greeting_seen + length (answers peer seen_reply (ln_node lk)) = ln_told lk)%nat as Hlen.
  { rewrite Ht, (jn_main _ _ Hj), length_fmap, Hall, take_ge by lia. unfold outbox, answers.
    rewrite omap_app, length_app, omap_join, <- list_fmap_compose. done. }
  rewrite Ha, length_app in Hlen. apply length_zero_iff_nil. lia.
Qed.

(** The node has announced the remote's tip and told the client everything
    before; the task never ended, and has written what it was asked. *)
Definition served (q0 : nat) lk : Prop :=
  ln_alive lk = true /\ on_wire lk /\
  announced filter_control a b best contents block_of watched q0 (chain (ln_node lk)) /\
  synchronized best prev0 contents TransactionsSynced (ln_node lk).

Lemma conversing_synced q0 c lk : conversing q0 c lk -> synced lk -> served q0 lk.
Proof.
  intros (ops & p & q & m & s & r & flight & Hj & _ & Hd & _) Hs. split; [apply Hj|]. split; [apply (jn_written _ _ Hj)|].
  assert (s = TransactionsSynced) as -> by (rewrite <- Hs; destruct Hd as [[] _ _ _ _ _ _ _]; congruence).
  by eapply dialogue_complete.
Qed.

(** One event: the end comes closer, or more is done, or nothing could be. *)
Lemma conversing_step q0 c ev lk :
  conversing q0 c lk -> ~ synced lk -> timely ev lk -> in_bounds lk ->
  exists c' lk', link_event ev lk = (inr (), lk') /\ conversing q0 c' lk' /\
    (c' <= c + late_event ev lk)%nat /\
    ((c' < c + 2 * late_event ev lk)%nat \/ c' = c /\ (undone lk' < undone lk)%nat \/
     frozen lk lk' /\ ~ wanted ev lk).
Proof.
  intros (ops & p & q & m & s & r & flight & Hj & Hg & Hd & ->) Hs Ht Hb.
  assert (s <> TransactionsSynced) as Hst.
  { intros ->. apply Hs. unfold synced. by destruct Hd as [[] _ _ _ _ _ _ _]. }
  assert ((forall e arrives, ev <> NodeTurns e arrives) \/ exists e arrives, ev = NodeTurns e arrives)
    as [Hev|(e & arrives & ->)] by (destruct ev; eauto; by left).
  - destruct (task_event ev ops lk Hj Hb Ht Hev) as (ops' & lk' & Hrun & Hj' & Hn & Hto & Hres).
    assert (late_event ev lk = 0%nat) as Hl by (destruct ev as [e arr| | | |]; [by destruct (Hev e arr)|done..]).
    exists (measure q s r flight (chain (ln_node lk))), lk'. rewrite Hl. split_and!; [done| |lia|].
    + exists ops', p, q, m, s, r, flight. rewrite Hn, Hto. by split_and!.
    + destruct Hres as [?|[Hf Hnone]]; [by right; left|]. right. right. split; [done|].
      destruct ev as [e arr| | | |]; [by destruct (Hev e arr)|..]; cbn; (lia || tauto).
  - destruct (node_event e arrives _ _ _ _ _ _ _ _ _ Hj Hg Hd Hst)
      as (p' & q' & m' & s' & r' & flight' & lk' & Hrun & Hj' & Hg' & Hd' & Hle & Hres).
    exists (measure q' s' r' flight' (chain (ln_node lk'))), lk'. cbn [late_event]. split_and!; [done| |lia|].
    + exists ops, p', q', m', s', r', flight'. by split_and!.
    + destruct Hres as [?|(Hf & Hfl & Hwait)]; [left; destruct (late e (ln_node lk)); lia|].
      right. right. split; [done|]. cbn. destruct arrives; [|tauto]. specialize (Hwait eq_refl).
      intros [?|Hu]; [lia|]. apply Hfl. exact (all_arrived _ _ _ _ _ _ _ _ _ Hj Hg Hd Hu Hwait).
Qed.

End Link.
