(* ===== verification/Session.v ===== *)
(** * A new wallet and a remote node, end to end

    The system of [Link] under any fair schedule: turns of the node and of the
    connection's task keep coming, in any order.  A general argument shows that
    every step either comes closer to the end, or gets a message further, or
    leaves all as it was until something that can be done is scheduled.  It is
    applied to a node from the builder on: it connects, greets the remote when its
    version comes through the task, and synchronizes. *)

From stdpp Require Import base numbers list gmap sorting strings.
From Stdlib Require Import ZArith Lia.
From S2P Require Import Prelude Bitcoin ChainTypes Graph Walk GraphFacts Reorg ActiveChain FilterMarks TreeProperties.
From S2P Require Import Checkpoints Batches BlockQueue Messages HeaderStore PeerStore Chain ChainFacts FilterSync.
From S2P Require Import ChainProperties Restart HeaderSync FilterProgress Network Counter Wire Reader Dns Peer PeerMap.
From S2P Require Import Node NodeFacts NodeProperties Config Converge Quiet Delivery Startup Link.

(** ** Fair schedules *)

Section Fairness.
Context `{Wire} {D : Type} `{HeaderStore D} {P : Type} `{PeerStore P}.
Context (filter_control : bool) (BROADCAST_MIN : FeeRate) (peer : PeerId) (start : Instant).
Context (hello : list ReaderMessage) (answer : MainThreadMessage -> list ReaderMessage).
Implicit Types (lk : Link (D := D) (P := P)) (sched : nat -> LinkEvent).

Abbreviation link_event := (link_event (D := D) (P := P) filter_control BROADCAST_MIN peer start hello answer).
Abbreviation link_run := (link_run (D := D) (P := P) filter_control BROADCAST_MIN peer start hello answer).
Abbreviation undone := (undone peer hello answer).

(** The first [k] events of a schedule. *)
Definition run_to sched (k : nat) : ST (Link (D := D) (P := P)) (NodeError store_error peer_store_error) () :=
  link_run (sched <$> seq 0 k).

(** How many turns of the node are late: the wanted block was asked for too
    long ago. *)
Fixpoint link_lates (l : list LinkEvent) lk : nat :=
  match l with
  | [] => 0
  | ev :: l' =>
      (late_event ev lk +
       match link_event ev lk with (inr _, lk') => link_lates l' lk' | (inl _, _) => 0 end)%nat
  end.

(** After [k] events, with no synchronization so far. *)
Definition unsynced_at sched (k : nat) lk lk' : Prop :=
  run_to sched k lk = (inr (), lk') /\
  forall i lk1, (i <= k)%nat -> run_to sched i lk = (inr (), lk1) -> ~ synced lk1.

(** Turns of the node, of the task for its channel and of the task for the
    remote keep coming; and until the client is synchronized the task is in time,
    the messages are within bounds, and at most [late_turns] turns are late. *)
Record fair sched (late_turns : nat) lk : Prop := {
  fr_turns k : exists i e, (k <= i)%nat /\ sched i = NodeTurns e true;
  fr_takes k : exists i now, (k <= i)%nat /\ sched i = TaskTakes now;
  fr_hears k : exists i now, (k <= i)%nat /\ sched i = TaskHears now;
  fr_timely k lk' : unsynced_at sched k lk lk' -> timely start (sched k) lk' /\ in_bounds lk';
  fr_late k lk' : unsynced_at sched k lk lk' ->
    (link_lates (sched <$> seq 0 (S k)) lk <= late_turns)%nat;
}.

Definition shift sched : nat -> LinkEvent := fun i => sched (S i).

Lemma sched_cons sched k : sched <$> seq 0 (S k) = sched 0%nat :: (shift sched <$> seq 0 k).
Proof. cbn. f_equal. rewrite <- seq_shift. by rewrite <- list_fmap_compose. Qed.

Lemma run_to_step sched k lk lk1 :
  link_event (sched 0%nat) lk = (inr (), lk1) -> run_to sched (S k) lk = run_to (shift sched) k lk1.
Proof. intros Hev. unfold run_to. rewrite sched_cons. cbn [Link.link_run]. by rewrite (st_bind_ok _ _ _ _ _ Hev). Qed.

Lemma unsynced_step sched k lk lk1 lk' :
  ~ synced lk -> link_event (sched 0%nat) lk = (inr (), lk1) ->
  unsynced_at (shift sched) k lk1 lk' -> unsynced_at sched (S k) lk lk'.
Proof.
  intros Hs Hev [Hrun Hall]. split; [by rewrite (run_to_step _ _ _ _ Hev)|].
  intros [|i] lk2 Hi Hrun2; [by injection Hrun2 as <-|].
  rewrite (run_to_step _ _ _ _ Hev) in Hrun2. apply (Hall i); [lia|done].
Qed.

Lemma fair_step sched late_turns lk lk1 :
  fair sched late_turns lk -> ~ synced lk -> link_event (sched 0%nat) lk = (inr (), lk1) ->
  fair (shift sched) (late_turns - late_event (sched 0%nat) lk) lk1.
Proof.
  intros [H1' H2' H3' H4' H5'] Hs Hev. split.
  - intros k. destruct (H1' (S k)) as ([|i] & e & Hi & Hsch); [lia|]. exists i, e. split; [lia|done].
  - intros k. destruct (H2' (S k)) as ([|i] & e & Hi & Hsch); [lia|]. exists i, e. split; [lia|done].
  - intros k. destruct (H3' (S k)) as ([|i] & e & Hi & Hsch); [lia|]. exists i, e. split; [lia|done].
  - intros k lk' Hu. apply (H4' (S k)). by eapply unsynced_step.
  - intros k lk' Hu. pose proof (H5' (S k) lk' (unsynced_step _ _ _ _ _ Hs Hev Hu)) as Hl.
    rewrite sched_cons in Hl. cbn [link_lates] in Hl. rewrite Hev in Hl. lia.
Qed.

(** An invariant with a distance to the end. *)
Context (Inv : nat -> Link (D := D) (P := P) -> Prop) (good : Link (D := D) (P := P) -> Prop).
Context (Inv_good : forall c lk, Inv c lk -> synced lk -> good lk).
Context (Inv_step : forall c ev lk, Inv c lk -> ~ synced lk -> timely start ev lk -> in_bounds lk ->
  exists c' lk', link_event ev lk = (inr (), lk') /\ Inv c' lk' /\
    (c' <= c + late_event ev lk)%nat /\
    ((c' < c + 2 * late_event ev lk)%nat \/ c' = c /\ (undone lk' < undone lk)%nat \/
     frozen peer lk lk' /\ ~ wanted peer hello answer ev lk)).
Context (Inv_wanted : forall c lk, Inv c lk ->
  (forall e, wanted peer hello answer (NodeTurns e true) lk) \/
  (forall now, wanted peer hello answer (TaskHears now) lk) \/
  (forall now, wanted peer hello answer (TaskTakes now) lk)).

Definition gets_good sched lk : Prop :=
  exists k lk', run_to sched k lk = (inr (), lk') /\ good lk'.

Lemma good_step sched lk lk' :
  link_event (sched 0%nat) lk = (inr (), lk') -> gets_good (shift sched) lk' -> gets_good sched lk.
Proof.
  intros Hev (k & lk2 & Hrun & Hs). exists (S k), lk2. by rewrite (run_to_step _ _ _ _ Hev).
Qed.

(** At most [c] away from the end with the late turns that may come, and at most
    [u] messages to be taken or read, every fair schedule gets there. *)
Definition within (c u : nat) : Prop :=
  forall sched late_turns c' lk, Inv c' lk -> fair sched late_turns lk ->
    (c' + 2 * late_turns <= c)%nat -> (undone lk <= u)%nat -> gets_good sched lk.

(** A fair schedule waits at most until a wanted event comes. *)
Lemma wait_for c u i :
  (forall c' u', (c' < c \/ c' = c /\ u' < u)%nat -> within c' u') ->
  forall sched late_turns c' lk, Inv c' lk -> fair sched late_turns lk ->
    (c' + 2 * late_turns <= c)%nat -> (undone lk <= u)%nat -> wanted peer hello answer (sched i) lk ->
    gets_good sched lk.
Proof.
  intros IH. induction i as [|i IHi]; intros sched late_turns c' lk Hc Hf Hle Hu Hw.
  all: destruct (decide (state (ln_node lk) = TransactionsSynced)) as [Hs|Hs];
    [exists 0%nat, lk; split; [done|by eapply Inv_good]|].
  all: assert (unsynced_at sched 0 lk lk) as Hun by
    (split; [done|]; intros [|j] lk1 Hj Hrun; [by injection Hrun as <-|lia]).
  all: destruct (fr_timely _ _ _ Hf 0 lk Hun) as [Ht Hb].
  all: pose proof (fr_late _ _ _ Hf 0 lk Hun) as Hl.
  all: destruct (Inv_step c' (sched 0%nat) lk Hc Hs Ht Hb)
    as (c1 & lk1 & Hev & Hc1 & Hle1 & Hres).
  all: pose proof (fair_step _ _ _ _ Hf Hs Hev) as Hf1.
  all: cbn [seq fmap list_fmap link_lates] in Hl; rewrite Hev in Hl.
  all: apply (good_step _ _ _ Hev).
  all: destruct Hres as [Hlt|[[-> Hlt]|[Hfr Hno]]];
    [eapply (IH (c1 + 2 * (late_turns - late_event (sched 0%nat) lk))%nat); [left; lia|done|done|lia|done]| |].
  - eapply (IH (c' + 2 * (late_turns - late_event (sched 0%nat) lk))%nat (undone lk1));
      [destruct (decide (late_event (sched 0%nat) lk = 0%nat)); lia|done|done|lia|done].
  - by destruct (Hno Hw).
  - eapply (IH (c' + 2 * (late_turns - late_event (sched 0%nat) lk))%nat (undone lk1));
      [destruct (decide (late_event (sched 0%nat) lk = 0%nat)); lia|done|done|lia|done].
  - apply (IHi (shift sched) (late_turns - late_event (sched 0%nat) lk)%nat c1); [done|done|lia| |].
    + destruct Hfr as (Hs1 & _ & Ht1 & Hh1 & _). unfold Link.undone in *. by rewrite Hs1, Ht1, Hh1.
    + by eapply wanted_frozen.
Qed.

Lemma fair_gets_good c : forall u, within c u.
Proof.
  induction c as [c IHc] using lt_wf_ind. intros u. induction u as [u IHu] using lt_wf_ind.
  assert (forall c' u', (c' < c \/ c' = c /\ u' < u)%nat -> within c' u') as IH.
  { intros c' u' [Hc|[-> Hu]]; [by apply IHc|by apply IHu]. }
  intros sched late_turns c' lk Hc Hf Hle Hu.
  destruct (Inv_wanted _ _ Hc) as [Hw|[Hw|Hw]].
  - destruct (fr_turns _ _ _ Hf 0) as (i & e & _ & Hi).
    eapply (wait_for c u i IH); try done. by rewrite Hi.
  - destruct (fr_hears _ _ _ Hf 0) as (i & now & _ & Hi).
    eapply (wait_for c u i IH); try done. by rewrite Hi.
  - destruct (fr_takes _ _ _ Hf 0) as (i & now & _ & Hi).
    eapply (wait_for c u i IH); try done. by rewrite Hi.
Qed.
End Fairness.

(** ** What the schedule makes of the node and of the task *)

Section Projection.
Context `{Wire} {D : Type} `{HeaderStore D} {P : Type} `{PeerStore P}.
Context (filter_control : bool) (BROADCAST_MIN : FeeRate) (peer : PeerId) (start : Instant).
Context (hello : list ReaderMessage) (answer : MainThreadMessage -> list ReaderMessage).
Implicit Types (lk : Link (D := D) (P := P)).

Abbreviation link_event := (link_event (D := D) (P := P) filter_control BROADCAST_MIN peer start hello answer).
Abbreviation link_run := (link_run (D := D) (P := P) filter_control BROADCAST_MIN peer start hello answer).

(** An event with the task alive afterwards is a turn of the node's loop or of
    the task's, or nothing. *)
Definition projects (inputs : list (Env * NodeInput)) (turns : list PeerTurn) lk lk' : Prop :=
  ln_alive lk = true /\
  node_loop filter_control BROADCAST_MIN inputs (ln_node lk) = (inr false, ln_node lk') /\
  peer_loop filter_control start turns (ln_task lk) = (false, ln_task lk').

Lemma task_turn_projects now input taken heard lk :
  ln_alive lk = true -> ln_alive (task_turn filter_control peer start now input taken heard lk) = true ->
  projects [] [mkPeerTurn now false input] lk (task_turn filter_control peer start now input taken heard lk).
Proof.
  intros Ha. unfold projects, task_turn. cbn [peer_loop].
  destruct (peer_turn _ _ _ _) as [stop p]. intros Hs. destruct stop; by split_and!.
Qed.

Lemma projects_none lk : ln_alive lk = true -> projects [] [] lk lk.
Proof. by repeat split. Qed.

Lemma event_projects ev lk lk' :
  link_event ev lk = (inr (), lk') -> ln_alive lk' = true -> exists inputs turns, projects inputs turns lk lk'.
Proof.
  intros Hev Ha. destruct ev as [e arrives|now|now|now nonce|now]; cbn [Link.link_event] in Hev.
  { destruct (node_turn _ _ _ _ _) as [[err|stop] n1] eqn:Hturn; [discriminate|]. injection Hev as <-.
    pose proof (peer_turn_goes_on _ _ _ _ _ _ _ Hturn) as ->.
    exists [(e, FromPeer (if arrives then to_main (ln_task lk) !! ln_told lk else None))], []. split; [done|]. split; [|done]. cbn [node_loop ln_node]. by rewrite (st_bind_ok _ _ _ _ _ Hturn). }
  all: injection Hev as <-; destruct (ln_alive lk) eqn:Hl; [|congruence].
  all: repeat match goal with |- context [match ?x with Some _ => _ | None => _ end] => destruct x end;
    eauto using projects_none; eexists _, _; by apply task_turn_projects.
Qed.

Lemma peer_loop_app ts1 ts2 : forall p p1,
  peer_loop filter_control start ts1 p = (false, p1) ->
  peer_loop filter_control start (ts1 ++ ts2) p = peer_loop filter_control start ts2 p1.
Proof.
  induction ts1 as [|t ts1 IH]; intros p p1 Hrun; [by injection Hrun as <-|].
  cbn [app peer_loop] in *. destruct (peer_turn _ _ t p) as [[] p2]; [discriminate|]. by apply IH.
Qed.

(** A schedule that leaves the task alive is a run of the node's loop and a run
    of the task's loop. *)
Lemma run_projects l : forall lk lk',
  link_run l lk = (inr (), lk') -> ln_alive lk' = true -> exists inputs turns, projects inputs turns lk lk'.
Proof.
  induction l as [|ev l IH]; intros lk lk' Hrun Ha; [injection Hrun as <-; eauto using projects_none|].
  cbn [Link.link_run] in Hrun. apply st_bind_inv in Hrun as [(err & [=] & _)|([] & lk1 & Hev & Hrun)].
  destruct (IH _ _ Hrun Ha) as (inputs2 & turns2 & Ha1 & Hn2 & Hp2).
  destruct (event_projects _ _ _ Hev Ha1) as (inputs1 & turns1 & Ha0 & Hn1 & Hp1).
  exists (inputs1 ++ inputs2), (turns1 ++ turns2). split; [done|split].
  - by rewrite (node_loop_app _ _ _ _ _ _ Hn1).
  - by rewrite (peer_loop_app _ _ _ _ Hp1).
Qed.
End Projection.

(** ** The start of the task *)

Section Start.
Context `{Wire}.

Lemma start_leaves start unix secret (p p0 : Peer) :
  peer_start start unix secret p = (inr (), p0) ->
  message_counter p0 = sent_version start (message_counter p) /\ to_main p0 = to_main p /\
  main_open p0 = main_open p /\ p_nonce p0 = p_nonce p /\ wr_open (writer p0) = true.
Proof.
  unfold peer_start. intros Hrun. rewrite st_get_ok in Hrun.
  assert (forall q : Peer, (message ← generate (version_message unix None); write_bytes message;;
      st_modify (set_counter (sent_version start))) q = (inr (), p0) ->
    message_counter p0 = sent_version start (message_counter q) /\ to_main p0 = to_main q /\
      main_open p0 = main_open q /\ p_nonce p0 = p_nonce q /\ wr_open (writer p0) = true) as Hwrites.
  { intros q Hw. unfold generate, write_bytes, mbind, ST_bind in Hw.
    destruct (version_message _ _ _) as [[err|m] g]; [discriminate|]. cbn [writer] in Hw.
    destruct (wr_open (writer q)) eqn:Hopen; [|discriminate]. by injection Hw as <-. }
  apply st_bind_inv in Hrun as [(err & [=] & _)|([] & q & Hq & Hrun)].
  destruct (Hwrites _ Hrun) as (-> & -> & -> & -> & ->).
  destruct (services_has _ _); [destruct secret as [[err|enc]|]|]; try discriminate; by injection Hq as <-.
Qed.

Lemma ledger_starts start limit :
  ledger_ok [SentVersion start] limit (sent_version start (counter_new limit)).
Proof.
  apply (ledger_step [] (SentVersion start)); [|done|done|apply ledger_new].
  by split; vm_compute.
Qed.
End Start.

(** ** From the first connection on *)

Section Meeting.
Context `{Wire} {D : Type} `{HeaderStore D} {P : Type} `{PeerStore P}.
Context (filter_control : bool) (BROADCAST_MIN : FeeRate) (start : Instant).
Context (hello : list ReaderMessage) (answer : MainThreadMessage -> list ReaderMessage).
Context (able : MessageGenerator -> Prop) (limit : Duration) (before : list bytes) (gen0 : MessageGenerator).
Context (Hable : forall g w, able g -> outgoing filter_control w ->
  exists b g', serialize w g = (inr b, g') /\ able g').
Context (Hprotocol : protocol hello answer).
Context (a : BlockHash) (b : Height) (n : Network) (best : list Header).
Context (prev0 : FilterHeader) (contents : list bytes) (block_of : BlockHash -> Block).
Context (Hbest : honest_chain a b n best) (Hcontents : length contents = length best).
Context (Hroom : is_u32 (b + 2000 + Z.of_nat (length best))).
Context (Hserves : serves (seen_reply answer) a b best prev0 contents).
Context (Hblocks : serves_blocks (seen_reply answer) best block_of).
Implicit Types (c : Chain D) (nd : Node D P) (lk : Link (D := D) (P := P)).

(** The remote introduces itself with a recent version and its height, and
    answers the handshake with gossip at most. *)
Context (v : VersionMessage) (Hhello : greeting_seen hello = [PeerVersion v]).
Context (Hversion : WTXID_VERSION <= ver_version v).
Context (Hheight : as_u32 (ver_start_height v) = b + Z.of_nat (length best)).
Context (Hwelcome : Forall (fun x => is_gossip x = true) (welcome (seen_reply answer))).

Context (w : TrustedPeer) (wl : list TrustedPeer) (nd0 : Node D P).
Context (Hnew : new_node a b n w wl nd0) (Had : admissible a b n best contents (chain nd0)).

Abbreviation joined := (joined (D := D) (P := P) filter_control first_peer hello answer able limit before gen0).
Abbreviation greeting := (greeting (D := D) (P := P) first_peer).
Abbreviation conversing := (conversing (D := D) (P := P) filter_control first_peer hello answer able limit before gen0
  a b (b + 2) n best prev0 contents block_of (scripts (chain nd0))).
Abbreviation link_event := (link_event (D := D) (P := P) filter_control BROADCAST_MIN first_peer start hello answer).

(** The requests and blocks of the whole synchronization, the gossip, and the
    states; with the version before. *)
Definition distance : nat :=
  (rounds best 0 0 0 + 3 * length best + length (welcome (seen_reply answer)) + 4)%nat.

(** The connection is made, and the version has not reached the node. *)
Definition waits_for_version lk : Prop :=
  exists ops, joined ops lk /\ ln_told lk = 0%nat /\
    greeting height_monitor_new (chain nd0) [] (ln_node lk).

Definition meeting (c : nat) lk : Prop :=
  conversing 0 c lk \/ c = S distance /\ waits_for_version lk.

Lemma greeting_sent h c l nd : greeting h c l nd -> sent first_peer nd = l.
Proof.
  intros [_ _ _ (x & Hx & _ & Hl) _ _ _]. unfold sent. by rewrite Hx, lookup_singleton_eq.
Qed.

(** Nothing but the version can have been forwarded. *)
Lemma version_first ops lk x :
  joined ops lk -> sent first_peer (ln_node lk) = [] -> to_main (ln_task lk) !! 0%nat = Some x ->
  x = mkPeerThreadMessage first_peer (PeerVersion v).
Proof.
  intros Hj Hs Hx. rewrite (jn_main _ _ _ _ _ _ _ _ _ _ Hj), list_lookup_fmap in Hx.
  assert (remote_sent first_peer hello answer lk = hello) as Hr.
  { unfold remote_sent. rewrite Hs, take_nil. unfold outbox. cbn. by rewrite app_nil_r. }
  rewrite Hr in Hx. apply fmap_Some in Hx as (y & Hy & ->). f_equal.
  pose proof Hhello as Hg. unfold greeting_seen in Hg.
  rewrite <- (take_drop (ln_heard lk) hello), omap_app in Hg.
  destruct (omap forwarded (take (ln_heard lk) hello)); [done|]. injection Hy as ->. by injection Hg.
Qed.

Lemma handshake_polite c :
  Forall (fun m => m <> DisconnectPeer) (handshake ++ [get_headers_message (D := D) c]).
Proof. by repeat constructor. Qed.

(** The version makes the node greet the remote and ask for headers. *)
Lemma version_turn e ops lk x :
  joined ops lk -> ln_told lk = 0%nat -> greeting height_monitor_new (chain nd0) [] (ln_node lk) ->
  to_main (ln_task lk) !! 0%nat = Some x ->
  exists lk', link_event (NodeTurns e true) lk = (inr (), lk') /\ conversing 0 distance lk'.
Proof.
  intros Hj Ht Hg Hx. pose proof (version_first _ _ _ Hj (greeting_sent _ _ _ _ Hg) Hx) as ->.
  set (input := FromPeer (Some (mkPeerThreadMessage first_peer (PeerVersion v)))).
  destruct (waiting_turn filter_control BROADCAST_MIN first_peer e input _ _ _ Hg) as (n1 & Hrun1 & Hg1).
  destruct (version_greets filter_control first_peer e v _ _ _ Hversion Hg1) as (n2 & Hrun2 & Hg2).
  assert (node_turn filter_control BROADCAST_MIN e input (ln_node lk) = (inr false, n2)) as Hrun.
  { rewrite Hrun1. unfold input. cbn [handle_input]. by rewrite (st_bind_ok _ _ _ _ _ Hrun2). }
  destruct (greeting_behind a b n best prev0 contents Hcontents v w wl nd0 n2 _ Hnew Had Hheight Hg2)
    as (Hbe & Hl & Hp).
  assert (get_headers_message (chain n2) = get_headers_message (chain nd0)) as Heq
    by (unfold get_headers_message; by rewrite (proj1 (gr_chain _ _ _ _ _ Hg2))).
  rewrite <- Heq in Hbe.
  destruct (dialogue_starts filter_control first_peer (seen_reply answer) a b (b + 2) n best prev0 contents
    block_of (scripts (chain nd0)) (sent first_peer n2) Hcontents Hserves 0 0 0 handshake []
    (welcome (seen_reply answer)) n2 Hbe Hl Hp eq_refl Hwelcome (since_now _ _)) as (flight & Hd & Hm).
  eexists. split.
  { unfold Link.link_event. rewrite Ht, Hx. cbn beta iota zeta. unfold input in Hrun. rewrite Hrun. reflexivity. }
  exists ops, 0%nat, 0%nat, 0%nat, Behind, (rounds best 0 0 0), flight. cbn [ln_told ln_node]. split_and!.
  - rewrite <- Ht.
    apply (node_keeps _ _ _ _ _ _ _ _ ops lk n2 (handshake ++ [get_headers_message (chain nd0)])
      (Some (mkPeerThreadMessage first_peer (PeerVersion v)))); [done| |apply handshake_polite| |].
    + by rewrite (greeting_sent _ _ _ _ Hg), (greeting_sent _ _ _ _ Hg2).
    + by rewrite (greeting_sent _ _ _ _ Hg2).
    + intros _. rewrite Ht. by eapply lookup_lt_Some.
  - by rewrite Hhello.
  - rewrite Hhello. exact Hd.
  - rewrite Hm, Nat.sub_0_r. done.
Qed.

(** Until then a turn of the node changes nothing. *)
Lemma waiting_node e arrives ops lk :
  joined ops lk -> ln_told lk = 0%nat -> greeting height_monitor_new (chain nd0) [] (ln_node lk) ->
  (arrives = true -> to_main (ln_task lk) = []) ->
  exists lk', link_event (NodeTurns e arrives) lk = (inr (), lk') /\ frozen first_peer lk lk' /\
    joined ops lk' /\ ln_told lk' = 0%nat /\ greeting height_monitor_new (chain nd0) [] (ln_node lk').
Proof.
  intros Hj Ht Hg Hnone.
  destruct (waiting_turn filter_control BROADCAST_MIN first_peer e (FromPeer None) _ _ _ Hg) as (n1 & Hrun & Hg1).
  eexists. split.
  { unfold Link.link_event. assert ((if arrives then to_main (ln_task lk) !! ln_told lk else None) = None) as ->
      by (destruct arrives; [by rewrite Hnone|done]).
    rewrite Hrun. reflexivity. }
  split; [|split; [|done]].
  - unfold frozen. cbn [ln_node ln_task ln_taken ln_heard ln_told].
    by rewrite (greeting_sent _ _ _ _ Hg), (greeting_sent _ _ _ _ Hg1).
  - apply (node_keeps _ _ _ _ _ _ _ _ ops lk n1 [] None); [done| |constructor| |done].
    + by rewrite (greeting_sent _ _ _ _ Hg), (greeting_sent _ _ _ _ Hg1).
    + by rewrite (greeting_sent _ _ _ _ Hg1).
Qed.

(** The version is among the first messages. *)
Lemma all_heard ops lk :
  joined ops lk -> sent first_peer (ln_node lk) = [] -> undone first_peer hello answer lk = 0%nat ->
  to_main (ln_task lk) <> [].
Proof.
  intros Hj Hs Hu. unfold undone, outbox in Hu. rewrite Hs in Hu. cbn in Hu. rewrite app_nil_r in Hu.
  rewrite (jn_main _ _ _ _ _ _ _ _ _ _ Hj). unfold remote_sent, outbox. rewrite Hs, take_nil. cbn.
  rewrite app_nil_r, take_ge by lia.
  pose proof Hhello as Hg. unfold greeting_seen in Hg. by rewrite Hg.
Qed.

Lemma meeting_wanted (c : nat) lk : meeting c lk ->
  (forall e, wanted first_peer hello answer (NodeTurns e true) lk) \/
  (forall now, wanted first_peer hello answer (TaskHears now) lk) \/
  (forall now, wanted first_peer hello answer (TaskTakes now) lk).
Proof.
  intros [(ops & _ & _ & _ & _ & _ & _ & Hj & _)|[_ (ops & Hj & _)]]; by eapply joined_wanted.
Qed.

Lemma meeting_synced (c : nat) lk : meeting c lk -> synced lk ->
  served filter_control first_peer before gen0 a b best prev0 contents block_of (scripts (chain nd0)) 0 lk.
Proof.
  intros [Hc|[_ (ops & _ & _ & Hg)]] Hs; [by eapply conversing_synced|].
  unfold synced in Hs. by rewrite (gr_state _ _ _ _ _ Hg) in Hs.
Qed.

Lemma meeting_step (c : nat) ev lk :
  meeting c lk -> ~ synced lk -> timely start ev lk -> in_bounds lk ->
  exists (c' : nat) lk', link_event ev lk = (inr (), lk') /\ meeting c' lk' /\
    (c' <= c + late_event ev lk)%nat /\
    ((c' < c + 2 * late_event ev lk)%nat \/
     c' = c /\ (undone first_peer hello answer lk' < undone first_peer hello answer lk)%nat \/
     frozen first_peer lk lk' /\ ~ wanted first_peer hello answer ev lk).
Proof.
  intros [Hc|[-> (ops & Hj & Ht & Hg)]] Hs Hti Hb.
  - destruct (conversing_step filter_control BROADCAST_MIN first_peer start hello answer able Hable Hprotocol
      limit before gen0 a b (b + 2) n best prev0 contents block_of (scripts (chain nd0)) Hbest Hcontents ltac:(lia) Hroom
      Hserves Hblocks 0 c ev lk Hc Hs Hti Hb) as (c' & lk' & Hrun & Hc' & Hrest).
    exists c', lk'. split_and!; [done|by left|apply Hrest..].
  - assert ((forall e arrives, ev <> NodeTurns e arrives) \/ exists e arrives, ev = NodeTurns e arrives)
      as [Hev|(e & arrives & ->)] by (destruct ev; eauto; by left).
    + destruct (task_event filter_control BROADCAST_MIN first_peer start hello answer able Hable Hprotocol limit
        before gen0 ev ops lk Hj Hb Hti Hev) as (ops' & lk' & Hrun & Hj' & Hn & Hto & Hres).
      exists (S distance), lk'. split_and!; [done| |lia|].
      * right. split; [done|]. exists ops'. rewrite Hn, Hto. by split_and!.
      * destruct Hres as [?|[Hf Hnone]]; [by right; left|]. right. right. split; [done|].
        destruct ev as [e arr| | | |]; [by destruct (Hev e arr)|..]; cbn; (lia || tauto).
    + destruct (decide (arrives = true /\ to_main (ln_task lk) <> [])) as [[-> Hsome]|Hnone].
      * destruct (to_main (ln_task lk)) as [|x l] eqn:Hmain; [done|].
        destruct (version_turn e ops lk x Hj Ht Hg) as (lk' & Hrun & Hc'); [by rewrite Hmain|].
        exists distance, lk'. split_and!; [done|by left|lia|left; lia].
      * assert (arrives = true -> to_main (ln_task lk) = []) as Hempty.
        { intros ->. destruct (to_main (ln_task lk)); [done|]. by destruct Hnone. }
        destruct (waiting_node e arrives ops lk Hj Ht Hg Hempty) as (lk' & Hrun & Hf & Hj' & Ht' & Hg').
        exists (S distance), lk'. split_and!; [done| |lia|].
        { right. split; [done|]. by exists ops. }
        right. right. split; [done|]. cbn. destruct arrives; [|tauto]. specialize (Hempty eq_refl).
        rewrite Hempty. intros [Hlt|Hu]; [cbn in Hlt; lia|].
        exact (all_heard ops lk Hj (greeting_sent _ _ _ _ Hg) Hu Hempty).
Qed.

(** Every fair schedule serves the client. *)
Lemma meeting_served (c : nat) sched late_turns lk :
  meeting c lk ->
  fair filter_control BROADCAST_MIN first_peer start hello answer sched late_turns lk ->
  exists k lk', run_to filter_control BROADCAST_MIN first_peer start hello answer sched k lk = (inr (), lk') /\
    served filter_control first_peer before gen0 a b best prev0 contents block_of (scripts (chain nd0)) 0 lk'.
Proof.
  intros Hm Hf.
  by apply (fair_gets_good filter_control BROADCAST_MIN first_peer start hello answer meeting _
    meeting_synced meeting_step meeting_wanted (c + 2 * late_turns) _ sched late_turns c lk Hm Hf
    ltac:(lia) (le_n _)).
Qed.

(** The connection when the task has started, before anything was exchanged. *)
Definition connected nd (p : Peer) : Link (D := D) (P := P) := mkLink nd p true 0 0 0.

Lemma connected_meeting unix secret services cfg wr g p0 nd1 :
  limit = response_timeout cfg -> before = wr_bytes (writer p0) -> gen0 = generator p0 ->
  peer_start start unix secret (peer_new first_peer n services cfg wr g) = (inr (), p0) ->
  able (generator p0) -> greeting height_monitor_new (chain nd0) [] nd1 ->
  meeting (S distance) (connected nd1 p0).
Proof.
  intros Hlimit Hbefore Hgen Hstart Ha Hg. destruct (start_leaves _ _ _ _ _ Hstart) as (Hc & Hmain & Hopen & Hn & Hwr).
  pose proof (greeting_sent _ _ _ _ Hg) as Hs.
  right. split; [done|]. exists [SentVersion start]. split_and!; [|done|done].
  split; unfold remote_sent; cbn [ln_alive ln_task ln_node ln_taken ln_heard ln_told connected];
    rewrite ?Hs, ?take_nil, ?take_0; cbn; try done; try lia.
  - rewrite Hc, Hlimit. apply ledger_starts.
  - intros k. destruct k; vm_compute; done.
  - exists [], []. cbn. by rewrite app_nil_r, Hs, Hbefore, Hgen.
Qed.
End Meeting.

(** ** From the builder on *)

Section Session.
Context `{Wire} `{!WorkLaws} {D : Type} `{HeaderStore D} {P : Type} `{PeerStore P}.
Context (filter_control : bool) (BROADCAST_MIN : FeeRate).
Context (hello : list ReaderMessage) (answer : MainThreadMessage -> list ReaderMessage).
Context (a : BlockHash) (b : Height) (n : Network) (best : list Header).
Context (prev0 : FilterHeader) (contents : list bytes) (block_of : BlockHash -> Block).

(** A remote node with the chain [best] on top of the checkpoint.  It introduces
    itself with [v]; as the node sees it, it answers every request honestly, and
    the handshake with gossip at most. *)
Record honest_remote (v : VersionMessage) : Prop := {
  hr_chain : honest_chain a b n best;
  hr_contents : length contents = length best;
  hr_room : is_u32 (b + 2000 + Z.of_nat (length best));
  hr_protocol : protocol hello answer;
  hr_hello : greeting_seen hello = [PeerVersion v];
  hr_version : WTXID_VERSION <= ver_version v;
  hr_height : as_u32 (ver_start_height v) = b + Z.of_nat (length best);
  hr_serves : serves (seen_reply answer) a b best prev0 contents;
  hr_blocks : serves_blocks (seen_reply answer) best block_of;
  hr_welcome : Forall (fun x => is_gossip x = true) (welcome (seen_reply answer));
}.

(** The transport can encode whatever the task may write. *)
Definition transport_works (able : MessageGenerator -> Prop) : Prop :=
  forall g w, able g -> outgoing filter_control w -> exists m g', serialize w g = (inr m, g') /\ able g'.

(** C3: a new wallet with one honest remote node is served under every fair
    schedule.  The node is configured for one peer and built with an empty header
    store; it connects in its first turn, and the task of the connection is
    started and announces itself.  From there turns of the node, and turns of the
    task that take a request off its channel, read a message of the remote, answer
    a ping or time out, come in any order and in every environment.  The schedule
    is fair when the first three kinds keep coming, no timer of the task runs out,
    there are at most a billion messages, and only finitely many turns find the
    wanted block late.  Then after finitely many events the task is still alive (no
    message was unsolicited) and has written what the node asked for, the node has
    announced [Synced] with the remote's tip, every filter or matching block was
    told to the client before that, and the chain is the remote's with all filter
    headers and filters.  These events are a run of the node's loop and a run of
    the task. *)
Theorem fair_session_serves_client calls now ps hs nd b' w wl e1 v able start unix secret services cfg wr g p0 :
  build_with_databases (builder_calls n calls) now ps hs = (Some nd, b') ->
  last (omap asked_checkpoint calls) = Some (mkCheckpoint b a) ->
  concat (asked_whitelist <$> calls) = wl ++ [w] ->
  required_peers nd = 1%nat -> target_db_size (peer_map nd) = UnboundedSize -> stores_nothing hs ->
  admissible a b n best contents (chain nd) -> reachable_peer e1 w (peer_map nd) ->
  honest_remote v -> transport_works able ->
  peer_start start unix secret (peer_new first_peer n services cfg wr g) = (inr (), p0) ->
  able (generator p0) ->
  exists nd1, node_run filter_control BROADCAST_MIN [nothing_arrives e1] nd = (inr false, nd1) /\
    forall sched late_turns,
      fair filter_control BROADCAST_MIN first_peer start hello answer sched late_turns (connected nd1 p0) ->
      exists k inputs turns lk,
        run_to filter_control BROADCAST_MIN first_peer start hello answer sched k (connected nd1 p0) = (inr (), lk) /\
        served filter_control first_peer (wr_bytes (writer p0)) (generator p0) a b best prev0 contents block_of (scripts (chain nd)) 0 lk /\
        node_run filter_control BROADCAST_MIN (nothing_arrives e1 :: inputs) nd = (inr false, ln_node lk) /\
        peer_run filter_control start unix secret turns (peer_new first_peer n services cfg wr g) =
          (inr false, ln_task lk).
Proof.
  intros Hb Hcp Hw Hreq Hsize He Had Hr [] Hable Hstart Ha.
  assert (new_node a b n w wl nd) as Hnew by (by eapply built_new).
  pose proof (fetch_nothing _ _ _ (nn_tree _ _ _ _ _ _ Hnew) (nn_store _ _ _ _ _ _ Hnew)) as Hfetch.
  destruct (connecting_turn filter_control BROADCAST_MIN first_peer e1 w wl (FromPeer None) nd
    (nn_fresh _ _ _ _ _ _ Hnew) Hr) as (nd1 & Hturn & Hg).
  assert (node_loop filter_control BROADCAST_MIN [nothing_arrives e1] nd = (inr false, nd1)) as Hloop.
  { cbn [node_loop nothing_arrives]. by rewrite (st_bind_ok _ _ nd false nd1). }
  exists nd1. split; [unfold node_run; by rewrite (st_bind_ok _ _ _ _ _ Hfetch)|].
  intros sched late_turns Hf.
  destruct (meeting_served filter_control BROADCAST_MIN start hello answer able (response_timeout cfg)
    (wr_bytes (writer p0)) (generator p0) Hable
    hr_protocol0 a b n best prev0 contents block_of hr_chain0 hr_contents0 hr_room0 hr_serves0 hr_blocks0
    v hr_hello0 hr_version0 hr_height0 hr_welcome0 w wl nd Hnew Had (S (distance answer best)) sched late_turns (connected nd1 p0))
    as (k & lk & Hrun & Hserved); [by eapply connected_meeting|done|].
  destruct (run_projects filter_control BROADCAST_MIN first_peer start hello answer _ _ _ Hrun (proj1 Hserved))
    as (inputs & turns & _ & Hn & Hp).
  exists k, inputs, turns, lk. split_and!; [done|done| |].
  - unfold node_run. rewrite (st_bind_ok _ _ _ _ _ Hfetch).
    change (nothing_arrives e1 :: inputs) with ([nothing_arrives e1] ++ inputs).
    by rewrite (node_loop_app _ _ _ _ _ _ Hloop).
  - cbn [connected ln_task] in Hp. unfold peer_run. rewrite Hstart. by rewrite Hp.
Qed.
End Session.

(** ** A new wallet and a remote node *)
Module ToySession.
Export ToyStartup.
Import Reader.ToyWire.

(** What the reader makes of the messages that the node is to see. *)
Definition as_read (m : PeerMessage) : ReaderMessage :=
  match m with
  | PeerVersion v => RdVersion v
  | PeerAddr l => RdAddr l
  | PeerHeaders l => RdHeaders l
  | PeerFilterHeaders m => RdFilterHeaders m
  | PeerFilter m => RdFilter m
  | PeerBlock b => RdBlock b
  | PeerNewBlocks l => RdNewBlocks l
  | PeerFeeFilter f => RdFeeFilter f
  end.

Lemma read_back (l : list PeerMessage) : omap forwarded (as_read <$> l) = l.
Proof. induction l as [|[] l IH]; cbn; [done|..]; by rewrite IH. Qed.

(** The remote of [ToyStartup]: version and verack, then what it answers. *)
Definition first_words : list ReaderMessage := [RdVersion hello; RdVerack].
Definition remote (m : MainThreadMessage) : list ReaderMessage := as_read <$> welcoming m.

(** The node, the task for its channel, the task for the remote, a ping and an
    idle turn of the task take turns. *)
Definition in_turns (i : nat) : LinkEvent :=
  match (i mod 5)%nat with
  | 0%nat => NodeTurns toy_env true
  | 1%nat => TaskTakes 0
  | 2%nat => TaskHears 0
  | 3%nat => TaskPinged 0 77
  | _ => TaskWaits 0
  end.

Definition new_task : Peer :=
  peer_new first_peer Regtest NO_SERVICES peer_timeout_default (mkWriter true []) (mkMessageGenerator Regtest TransportV1).
Definition started : Peer := (peer_start 0 0 None new_task).2.
Definition dialled := (node_run false 250 [nothing_arrives toy_env] toy_new).2.
Definition begins := connected dialled started.

Abbreviation reached := (run_to (D := SqliteHeaderDb ToySql.table) (P := SqlitePeerDb peer_table)
  false 250 first_peer 0 first_words remote in_turns).

(** The client is synchronized after a hundred of them; before that every one is
    in time. *)
Definition orderly (k : nat) : bool :=
  match reached k begins with
  | (inr _, lk) =>
      on_time 0 0 (ln_task lk) && (Z.of_nat (ln_taken lk + ln_heard lk) + 2 <=? 2 ^ 30) &&
      Nat.eqb (link_lates false 250 first_peer 0 first_words remote (in_turns <$> seq 0 (S k)) begins) 0
  | (inl _, _) => false
  end.

Lemma orderly_before : forallb orderly (seq 0 100) = true.
Proof. vm_eq. Qed.

Lemma reached_synced : exists lk, reached 100 begins = (inr (), lk) /\ Link.synced lk.
Proof.
  exists (reached 100 begins).2. split; [|unfold Link.synced; vm_eq].
  rewrite (surjective_pairing (reached 100 begins)) at 1. f_equal.
Qed.

Lemma unsynced_orderly k lk :
  unsynced_at false 250 first_peer 0 first_words remote in_turns k begins lk -> orderly k = true.
Proof.
  intros [_ Hall]. pose proof orderly_before as Ho. rewrite forallb_forall in Ho.
  destruct (decide (k < 100)%nat) as [Hk|Hk]; [apply Ho, in_seq; lia|].
  destruct reached_synced as (lk1 & Hrun & Hs). destruct (Hall 100%nat lk1); [lia|done|done].
Qed.

Lemma in_turns_often k i : (i < 5)%nat -> in_turns (i + k * 5) = in_turns i.
Proof. intros Hi. unfold in_turns. by rewrite Nat.Div0.mod_add. Qed.

Lemma in_turns_fair : fair false 250 first_peer 0 first_words remote in_turns 0 begins.
Proof.
  split.
  - intros k. exists (0 + k * 5)%nat, toy_env. rewrite in_turns_often by lia. split; [lia|done].
  - intros k. exists (1 + k * 5)%nat, 0. rewrite in_turns_often by lia. split; [lia|done].
  - intros k. exists (2 + k * 5)%nat, 0. rewrite in_turns_often by lia. split; [lia|done].
  - intros k lk Hu. pose proof (unsynced_orderly _ _ Hu) as Ho. unfold orderly in Ho.
    rewrite (proj1 Hu) in Ho. apply andb_true_iff in Ho as [[Ht Hb]%andb_true_iff _].
    split; [|by apply Z.leb_le]. unfold timely, in_turns.
    by destruct (k mod 5)%nat as [|[|[|[|?]]]].
  - intros k lk Hu. pose proof (unsynced_orderly _ _ Hu) as Ho. unfold orderly in Ho.
    rewrite (proj1 Hu) in Ho. apply andb_true_iff in Ho as [_ Ho%Nat.eqb_eq]. by rewrite Ho.
Qed.

(** Filters are plain, and no more than there are. *)
Lemma filters_modest (f : Header -> bytes -> Messages.CFilter) l1 l2 :
  Forall (fun m => well_sized m = true) (as_read <$> zip_with (fun h c => PeerFilter (f h c)) l1 l2) /\
  forall k, costs k (as_read <$> zip_with (fun h c => PeerFilter (f h c)) l1 l2) <=
    match k with CFilter => Z.of_nat (length l2) | _ => 0 end.
Proof.
  revert l2. induction l1 as [|h l1 IH]; intros [|c l2].
  1-3: split; [by apply Forall_nil_2|intros k; destruct k; unfold costs; cbn; lia].
  specialize (IH l2) as [Hs Hc]. split; [by constructor|]. intros k. specialize (Hc k).
  change (as_read <$> _) with ([RdFilter (f h c)] ++ (as_read <$> zip_with (fun h c => PeerFilter (f h c)) l1 l2)).
  rewrite costs_app, costs_one. cbn [length].
  assert (- credits k (op_of_reader (RdFilter (f h c))) = match k with CFilter => 1 | _ => 0 end) as -> by by destruct k.
  destruct k; lia.
Qed.

Lemma remote_protocol : protocol first_words remote.
Proof.
  split.
  - by repeat constructor.
  - intros []; try (by repeat constructor).
    + unfold remote. cbn. destruct (ghc_locators _); by repeat constructor.
    + apply filters_modest.
  - intros []; by vm_compute.
  - intros k m. destruct m; try (by destruct k).
    + unfold remote. cbn. destruct (ghc_locators _); by destruct k.
    + etransitivity; [apply filters_modest|]. rewrite length_take, length_drop. cbn [length contents].
      destruct k; cbn; lia.
Qed.

Lemma remote_honest : honest_remote first_words remote 100 0 Regtest batch 0 contents toy_block hello.
Proof.
  assert (forall m, seen_reply remote m = welcoming m) as Hseen by (intros m; apply read_back).
  split; try done.
  - apply toy_honest.
  - apply remote_protocol.
  - destruct welcoming_serves. split; intros; rewrite Hseen; auto.
  - by repeat constructor.
Qed.

Definition plaintext (g : MessageGenerator) : Prop := gen_transport g = TransportV1.

Lemma plaintext_works : transport_works false plaintext.
Proof. intros g w Hg _. unfold serialize. rewrite Hg. by eexists _, _. Qed.

Lemma fair_session_serves_client_witness : exists k inputs turns lk,
  run_to false 250 first_peer 0 first_words remote in_turns k begins = (inr (), lk) /\
  node_run false 250 (nothing_arrives toy_env :: inputs) toy_new = (inr false, ln_node lk) /\
  peer_run false 0 0 None turns new_task = (inr false, ln_task lk) /\
  SendEvent (BlockEvent (mkIndexedBlock 2 (toy_block 2))) ∈ dialog (chain (ln_node lk)) /\
  state (ln_node lk) = TransactionsSynced.
Proof.
  destruct (fair_session_serves_client false 250 first_words remote 100 0 Regtest batch 0 contents toy_block
    new_calls 0 tried_store empty_store toy_new (builder_new Regtest)
    (mkTrustedPeer addr_b (Some 8333) COMPACT_FILTERS)
    [mkTrustedPeer (Ipv4 [10; 0; 0; 1]) None NO_SERVICES] toy_env hello plaintext 0 0 None NO_SERVICES
    peer_timeout_default (mkWriter true []) (mkMessageGenerator Regtest TransportV1) started
    eq_refl eq_refl eq_refl eq_refl eq_refl nothing_stored toy_admissible
    (conj eq_refl (ex_intro _ () eq_refl)) remote_honest plaintext_works eq_refl eq_refl)
    as (nd1 & Hstart & Hserved).
  assert (nd1 = dialled) as -> by (unfold dialled; by rewrite Hstart).
  destruct (Hserved in_turns 0%nat in_turns_fair) as (k & inputs & turns & lk & Hrun & Hs & Hn & Hp).
  destruct Hs as (_ & _ & (u & l1 & l2 & Hd & _ & _ & Htold) & Hsyn).
  exists k, inputs, turns, lk. split_and!; [exact Hrun|exact Hn|exact Hp| |apply Hsyn].
  rewrite Hd. apply elem_of_app. left.
  apply (Htold 1%nat (hdr 2 1 1) [12] ltac:(lia) eq_refl eq_refl). vm_eq.
Defined.
End ToySession.
