(* ===== verification/Account.v ===== *)
(** * An account of a run

    What every operation of the chain, and so every turn and every run of the
    node, does to the requests for blocks, to the marks of checked filters and to
    the dialogue with the client: no request is forgotten, blocks are handed over
    only for requests, filters are marked and shown only when they arrived with
    the right commitment.  It holds in both builds, with the feature
    [filter-control] and without, under every environment. *)

From stdpp Require Import base numbers list gmap sorting strings.
From Stdlib Require Import ZArith Lia.
From S2P Require Import Prelude Bitcoin ChainTypes Graph Walk GraphFacts Reorg ActiveChain FilterMarks TreeProperties.
From S2P Require Import Checkpoints Batches BlockQueue Messages HeaderStore PeerStore Chain ChainFacts FilterSync.
From S2P Require Import ChainProperties Restart HeaderSync FilterProgress Network Wire Dns PeerMap Node NodeFacts NodeProperties.
From S2P Require Import Config Converge Quiet Delivery Startup.

(** ** Marks of the tree *)

Section Marks.
Context `{Bitcoin}.
Implicit Types (t : BlockTree) (hs : gmap BlockHash BlockNode).

(** Every block that is marked after was marked before. *)
Definition no_new_marks : relation BlockTree := fun t t' =>
  forall k, is_filter_checked t' k = true -> is_filter_checked t k = true.

#[export] Instance no_new_marks_preorder : PreOrder no_new_marks.
Proof. split; [by intros t k|]. intros t1 t2 t3 H1' H2' k Hk. auto. Qed.

Definition marked_in hs (k : BlockHash) : Prop := exists n, hs !! k = Some n /\ filter_checked n = true.

Lemma checked_marked t k : is_filter_checked t k = true <-> marked_in (headers t) k.
Proof.
  unfold is_filter_checked, marked_in. destruct (headers t !! k) as [n|]; [|naive_solver].
  split; [by exists n|]. by intros (? & [= ->] & ?).
Qed.

Lemma no_marks t t' : (forall k, marked_in (headers t') k -> marked_in (headers t) k) -> no_new_marks t t'.
Proof. intros Hm k. rewrite !checked_marked. apply Hm. Qed.

Lemma marked_insert hs k n j :
  filter_checked n = false -> marked_in (<[k := n]> hs) j -> marked_in hs j.
Proof.
  intros Hn (m & Hm & Hc). destruct (decide (j = k)) as [->|Hne].
  - rewrite lookup_insert_eq in Hm. congruence.
  - rewrite lookup_insert_ne in Hm by done. by exists m.
Qed.

Lemma accept_marks t h : no_new_marks t (accept_header t h).2.
Proof.
  apply no_marks. intros k.
  assert (forall t0, headers t0 = headers t ->
    marked_in (headers (open_fork t0 h).2) k -> marked_in (headers t) k) as Hopen.
  { intros t0 Ht0. unfold open_fork. destruct (headers t0 !! _); [|cbn; by rewrite Ht0].
    destruct (pow_rejected _ _); cbn; rewrite Ht0; [done|]. by apply marked_insert. }
  unfold accept_header. case_decide.
  { unfold extend_tip. destruct (pow_rejected _ _); [done|]. cbn. by apply marked_insert. }
  case_decide; [done|]. destruct (position _ _) as [i|]; [|by apply Hopen].
  destruct (candidate_forks t !! i) as [f|]; [|by apply Hopen].
  cbn [headers with_forks]. destruct (headers t !! th f) as [p|]; [|by apply Hopen].
  unfold extend_fork. destruct (pow_rejected _ _); [done|]. cbn [headers with_forks].
  destruct (_ <? _); [|by apply marked_insert].
  unfold switch_to_fork. destruct (switch_loop _ _ _ _) as [[[c d] can] fin]. cbn. by apply marked_insert.
Qed.

Lemma set_commitment_marks t cm k : no_new_marks t (set_commitment t cm k).
Proof.
  apply no_marks. intros j (n & Hn & Hc). cbn in Hn.
  apply lookup_alter_Some in Hn as [(-> & n0 & Hn0 & ->)|[_ Hn]]; [by exists n0|by exists n].
Qed.

Lemma push_marks l : forall k t, no_new_marks t (push_loop l k t).
Proof.
  induction l as [|cm l IH]; intros k t; [done|]. cbn [push_loop].
  etransitivity; [apply (set_commitment_marks t cm k)|].
  destruct (header_at_hash _ _); [apply IH|done].
Qed.

Lemma reset_active_clears fuel : forall hs curr k,
  marked_in (reset_active_loop fuel hs curr) k -> marked_in hs k.
Proof.
  induction fuel as [|fuel IH]; intros hs curr k; [done|]. cbn [reset_active_loop].
  destruct (hs !! curr); [|done]. intros Hk%IH. by apply marked_insert in Hk.
Qed.

Lemma reset_fork_clears fuel : forall hs curr k,
  marked_in (reset_fork_loop fuel hs curr) k -> marked_in hs k.
Proof.
  induction fuel as [|fuel IH]; intros hs curr k; [done|]. cbn [reset_fork_loop].
  destruct (hs !! curr) as [n|]; [|done]. destruct (negb _); [done|]. intros Hk%IH. by apply marked_insert in Hk.
Qed.

Lemma reset_marks t : no_new_marks t (reset_all_filters t).
Proof.
  apply no_marks. intros k. unfold reset_all_filters. cbn [headers with_headers].
  assert (forall l hs, marked_in (foldl (fun hs fork => reset_fork_loop (walk_fuel hs) hs (th fork)) hs l) k ->
    marked_in hs k) as Hfold.
  { induction l as [|f l IH]; intros hs; [done|]. cbn [foldl]. intros Hk%IH. by eapply reset_fork_clears. }
  intros Hk%Hfold. by eapply reset_active_clears.
Qed.

(** The mark of a checked filter. *)
Lemma check_marks t b k : is_filter_checked (check_filter t b) k = true -> is_filter_checked t k = true \/ k = b.
Proof.
  rewrite !checked_marked. intros (n & Hn & Hc). cbn in Hn.
  apply lookup_alter_Some in Hn as [(-> & n0 & Hn0 & ->)|[_ Hn]]; [by right|left; by exists n].
Qed.
End Marks.

(** ** What an operation of the chain tells *)

Section Told.
Context `{Bitcoin} {D : Type} `{HeaderStore D}.
Implicit Types (c : Chain D) (k : BlockHash) (new : list Output).

Definition waits (r : Request) c : Prop := r ∈ pending (block_queue c).
Definition requested k c : Prop := k ∈ pending_hashes (block_queue c).
Definition screened k c : Prop := is_filter_checked (header_chain c) k = true.

Definition delivers k (o : Output) : Prop :=
  match o with SendEvent (BlockEvent b) => block_block_hash (ib_block b) = k | _ => False end.
Definition disconnects k (o : Output) : Prop :=
  match o with SendEvent (BlocksDisconnected l) => k ∈ hashes_of l | _ => False end.

(** The block of the request [r] is handed over: as an event, or on the channel
    of the request. *)
Definition hands (r : Request) (o : Output) : Prop :=
  match o, sender r with
  | SendEvent (BlockEvent b), None => block_block_hash (ib_block b) = req_hash r
  | BlockToChannel ch (inr b), Some ch' => ch = ch' /\ block_block_hash (ib_block b) = req_hash r
  | _, _ => False
  end.

(** The request has an end: the block is handed over, nobody waits for it any
    more, or it is reported as disconnected. *)
Definition ends (r : Request) (o : Output) : Prop :=
  hands r o \/ (sender r <> None /\ o = SendWarning ChannelDropped) \/ disconnects (req_hash r) o.

Definition among (Q : Output -> Prop) new : Prop := exists o, o ∈ new /\ Q o.

Lemma among_app Q n1 n2 : among Q (n1 ++ n2) <-> among Q n1 \/ among Q n2.
Proof. unfold among. setoid_rewrite elem_of_app. naive_solver. Qed.

Lemma among_l Q n1 n2 : among Q n1 -> among Q (n1 ++ n2).
Proof. rewrite among_app. by left. Qed.

Lemma among_r Q n1 n2 : among Q n2 -> among Q (n1 ++ n2).
Proof. rewrite among_app. by right. Qed.

Lemma among_nil Q : ~ among Q [].
Proof. by intros (o & Ho%elem_of_nil & _). Qed.

Lemma among_one Q o : among Q [o] <-> Q o.
Proof. unfold among. setoid_rewrite list_elem_of_singleton. naive_solver. Qed.

Lemma requested_waits k c : requested k c <-> exists r, waits r c /\ req_hash r = k.
Proof. unfold requested, waits, pending_hashes. rewrite list_elem_of_fmap. naive_solver. Qed.

Definition shows (f : IndexedFilter) (o : Output) : Prop := o = SendEvent (IndexedFilterEvent f).

(** The output hands no block over and shows no filter. *)
Definition plain (o : Output) : Prop :=
  match o with
  | SendEvent (BlockEvent _) | SendEvent (IndexedFilterEvent _) | BlockToChannel _ (inr _) => False
  | _ => True
  end.

Lemma plain_hands r o : plain o -> ~ hands r o.
Proof.
  unfold hands. intros Ho Hh. by destruct o as [| |[]|ch [|]| | |]; cbn in Ho, Hh; destruct (sender r).
Qed.

Lemma plain_shows f o : plain o -> ~ shows f o.
Proof. by intros Ho ->. Qed.

(** With the outputs [new], no request is forgotten, blocks are handed over only
    where they were requested, no filter is shown and none is marked. *)
Record tells new c c' : Prop := {
  tl_dialog : dialog c' = dialog c ++ new;
  tl_kept r : waits r c -> waits r c' \/ among (ends r) new;
  tl_only r : waits r c' \/ among (hands r) new -> waits r c;
  tl_shows f : ~ among (shows f) new;
  tl_marks : no_new_marks (header_chain c) (header_chain c');
}.

Lemma tells_trans n1 n2 c1 c2 c3 : tells n1 c1 c2 -> tells n2 c2 c3 -> tells (n1 ++ n2) c1 c3.
Proof.
  intros [Hd1 Hk1 Ho1 Hf1 Hm1] [Hd2 Hk2 Ho2 Hf2 Hm2]. split.
  - by rewrite Hd2, Hd1, (assoc_L (++)).
  - intros r Hr. rewrite among_app. destruct (Hk1 r Hr) as [Hr'|?]; [|tauto]. destruct (Hk2 r Hr'); tauto.
  - intros r. rewrite among_app. intros Hr. apply Ho1. destruct Hr as [?|[?|?]]; auto.
  - intros f. rewrite among_app. intros [?|?]; [by eapply Hf1|by eapply Hf2].
  - by etransitivity.
Qed.

Definition reports : relation (Chain D) := fun c c' => exists new, tells new c c'.

Lemma tells_quiet new c c' :
  dialog c' = dialog c ++ new -> block_queue c' = block_queue c ->
  no_new_marks (header_chain c) (header_chain c') -> Forall plain new -> tells new c c'.
Proof.
  intros Hd Hq Hm Hn. rewrite Forall_forall in Hn.
  split; [done|..]; unfold waits; rewrite ?Hq; try done.
  - by left.
  - intros r [Hr|(o & Ho & Hg)]; [done|]. by apply plain_hands in Hg; [|apply Hn].
  - intros f (o & Ho & Hg). by apply plain_shows in Hg; [|apply Hn].
Qed.

Lemma reports_quiet c c' :
  dialog c' = dialog c -> block_queue c' = block_queue c ->
  no_new_marks (header_chain c) (header_chain c') -> reports c c'.
Proof.
  intros Hd Hq Hm. exists []. by apply tells_quiet; [rewrite app_nil_r|..].
Qed.

Lemma reports_same c c' :
  dialog c' = dialog c -> block_queue c' = block_queue c -> header_chain c' = header_chain c -> reports c c'.
Proof. intros Hd Hq Ht. apply reports_quiet; [done..|by rewrite Ht]. Qed.

#[export] Instance reports_preorder : PreOrder reports.
Proof.
  split; [intros c; by apply reports_same|].
  intros c1 c2 c3 [n1 H1'] [n2 H2']. exists (n1 ++ n2). by eapply tells_trans.
Qed.

Lemma reports_say o c : plain o -> reports c (say o c).
Proof. intros Ho. exists [o]. apply tells_quiet; [done..|]. by apply Forall_singleton. Qed.

#[export] Instance reports_undisturbed : Undisturbed reports.
Proof.
  split; [apply _|]. intros c c' (Ht & _ & _ & Hq & new & Hd & Hn). exists new.
  apply tells_quiet; [done..|by rewrite Ht|]. eapply Forall_impl; [exact Hn|]. by intros [].
Qed.

Lemma reports_tree t c : no_new_marks (header_chain c) t -> reports c (set_tree t c).
Proof. intros Ht. by apply reports_quiet. Qed.

#[local] Hint Extern 1 (reports _ (say _ _)) => (apply reports_say; exact I) : kyoto.
#[local] Hint Extern 2 (reports _ _) => (by apply reports_same) : kyoto.

(** *** Filter headers *)

Lemma push_reports batch stop c : reports c (push_cf_header_batch batch stop c).
Proof. apply reports_tree, push_marks. Qed.

Lemma next_cf_reports c : reports c (next_cf_header_message c).2.
Proof. unfold next_cf_header_message. destruct (cf_cursor _ _). by apply reports_same. Qed.

Lemma next_filter_reports c : reports c (next_filter_message c).2.
Proof. by apply reports_same. Qed.

Lemma next_stateful_reports c : reports c (next_stateful_message c).2.
Proof.
  unfold next_stateful_message. destruct (negb _); [done|]. destruct (negb _).
  { pose proof (next_cf_reports c) as Hf. by destruct (next_cf_header_message c). }
  destruct (negb _); [|done].
  pose proof (next_filter_reports c) as Hf. by destruct (next_filter_message c).
Qed.

#[local] Hint Resolve push_reports next_filter_reports : kyoto.

Lemma count_agreement_reports id batch stop : st_keeps reports (count_agreement id batch stop).
Proof. unfold count_agreement. st_keeps. Qed.

#[local] Hint Resolve count_agreement_reports : kyoto.

Lemma sync_cf_headers_reports p msg : st_keeps reports (sync_cf_headers p msg).
Proof. unfold sync_cf_headers, check_alignment, queue_batch. st_keeps. Qed.

(** *** Headers *)

(** A reorganization takes the disconnected blocks from the queue, and says so. *)
Lemma disconnect_reports t acc dis c :
  no_new_marks (header_chain c) t ->
  reports c (say (SendEvent (BlocksDisconnected (reverse dis)))
    (stage (Reorganized acc dis)
      (set_block_queue (queue_remove ((fun x => block_hash (ih_header x)) <$> dis) (block_queue c)) (set_tree t c)))).
Proof.
  intros Ht. exists [SendEvent (BlocksDisconnected (reverse dis))].
  set (hs := (fun x => block_hash (ih_header x)) <$> dis).
  assert (forall r, r ∈ pending (queue_remove hs (block_queue c)) <->
    r ∈ pending (block_queue c) /\ req_hash r ∉ hs) as Hrem.
  { intros r. rewrite pending_remove, list_elem_of_filter. tauto. }
  split; [done| | | |done].
  - intros r Hr. destruct (decide (req_hash r ∈ hs)) as [Hin|Hout]; [right|left; by apply Hrem].
    apply among_one. right. right. cbn. unfold hashes_of. by rewrite fmap_reverse, elem_of_reverse.
  - intros r [Hr|Hr]; [by apply Hrem in Hr as [? _]|].
    by apply among_one, plain_hands in Hr.
  - intros f Hf. by apply among_one, plain_shows in Hf.
Qed.

Lemma sync_one_reports ncp hdr : st_keeps reports (sync_one ncp hdr).
Proof.
  intros c r c' Hs. unfold sync_one, accept, st_run in Hs. pose proof (accept_marks (header_chain c) hdr) as Hm.
  st_cases Hs; destruct (accept_header (header_chain c) hdr) as [ch t]; [discriminate|].
  injection Hstep as <- <-. cbn [snd] in Hm.
  pose proof (reports_tree t c Hm) as Ht. destruct ch as [x| |x|acc dis|[w g|p]].
  - etransitivity; [exact Ht|]. revert Hs. cbn beta iota.
    match goal with |- ?f _ = _ -> _ => assert (st_keeps reports f) as Hk by st_keeps; apply Hk end.
  - by injection Hs as _ <-.
  - etransitivity; [exact Ht|]. destruct ncp; [st_reads Hs|]; injection Hs as _ <-; [|done].
    by apply reports_say.
  - do 3 st_reads Hs. injection Hs as _ <-. by apply disconnect_reports.
  - by injection Hs as _ <-.
  - by injection Hs as _ <-.
Qed.

#[local] Hint Resolve sync_one_reports : kyoto.

Lemma sync_loop_reports ncp l : forall flag, st_keeps reports (sync_loop ncp l flag).
Proof. induction l as [|hdr l IH]; intros flag; cbn [sync_loop]; st_keeps. Qed.

Lemma write_headers_reports c : reports c (write_headers c).
Proof.
  unfold write_headers. destruct (store_write (db c)) as [[e|[]] d]; [|by apply reports_same].
  trans (set_db d c); [by apply reports_same|]. by apply reports_say.
Qed.

Lemma sanity_check_reports hb : st_keeps reports (sanity_check hb).
Proof. intros c r c' Hs%sanity_check_same. by subst. Qed.

Lemma clear_queue_reports (flag : bool) c : reports c (if flag then clear_compact_filter_queue c else c).
Proof. destruct flag; by apply reports_same. Qed.

#[local] Hint Resolve sync_loop_reports write_headers_reports sanity_check_reports clear_queue_reports : kyoto.

Lemma sync_chain_reports msg : st_keeps reports (sync_chain msg).
Proof. unfold sync_chain. st_keeps. Qed.

(** *** Filters and blocks *)

(** A filter that matches its commitment is checked against the scripts. *)
Definition verdict (m : CFilter) c : option bool :=
  match_any (cf_filter m) (cf_block_hash m) (elements (scripts c)).

Definition committed (m : CFilter) c : Prop :=
  exists h, tree_filter_commitment (header_chain c) (cf_block_hash m) = Some h /\
    filter_hash_of (cf_filter m) = fc_filter_hash h.

(** What becomes of the block of a filter that is checked: with the feature the
    filter is shown, without it a block that matches is requested. *)
Definition shown (m : CFilter) c c' : Prop :=
  block_queue c' = block_queue c /\
  exists height, height_of_hash (header_chain c) (cf_block_hash m) = Some height /\
    dialog c' = dialog c ++
      [SendEvent (IndexedFilterEvent (mkIndexedFilter height (filter_new (cf_filter m) (cf_block_hash m))))].

Definition matched (m : CFilter) c c' : Prop :=
  dialog c' = dialog c /\
  (block_queue c' = block_queue c /\ (requested (cf_block_hash m) c \/ verdict m c = Some false) \/
   block_queue c' = queue_add (request_new (cf_block_hash m)) (block_queue c) /\ verdict m c = Some true).

Record scans (filter_control : bool) (m : CFilter) c c' : Prop := {
  sn_committed : committed m c;
  sn_fresh : ~ screened (cf_block_hash m) c;
  sn_marks k : screened k c' -> screened k c \/ k = cf_block_hash m;
  sn_block : if filter_control then shown m c c' else matched m c c';
}.

(** Either nothing is done with the filter, or its block is looked after. *)
Lemma branch_scans filter_control m c (r : CFilterSyncError + ()) c1 :
  (if (filter_control : bool) then report_filter (cf_block_hash m) (filter_new (cf_filter m) (cf_block_hash m))
   else match_filter (cf_block_hash m) (filter_new (cf_filter m) (cf_block_hash m))) c = (r, c1) ->
  (r <> inr () \/ screened (cf_block_hash m) c) /\ c1 = c \/
  r = inr () /\ ~ screened (cf_block_hash m) c /\ header_chain c1 = header_chain c /\
    if filter_control then shown m c c1 else matched m c c1.
Proof.
  unfold screened, shown, matched. destruct filter_control; [unfold report_filter|unfold match_filter]; intros Hs; st_reads Hs.
  - destruct (is_filter_checked _ _) eqn:Hc; cbn [negb] in Hs; [injection Hs as _ <-; left; auto|].
    st_reads Hs. destruct (height_of_hash _ _) as [h|] eqn:Hh; injection Hs as <- <-; [right|by left; split; [left|]].
    split; [done|]. split; [done|]. split; [done|]. split; [done|]. by exists h.
  - destruct (is_filter_checked _ _) eqn:Hc.
    { rewrite orb_true_r in Hs. injection Hs as _ <-. left; auto. }
    destruct (queue_contains (block_queue c) (cf_block_hash m)) eqn:Hq; cbn [orb] in Hs.
    { injection Hs as <- <-. right. apply queue_contains_spec in Hq. do 3 (split; [done|]). auto 9. }
    st_reads Hs. unfold contains_any in Hs. cbn [block_filter filter_block_hash filter_new] in Hs.
    fold (verdict m c) in Hs. destruct (verdict m c) as [[]|] eqn:Hv; injection Hs as <- <-; [right..|by left; split; [left|]].
    all: do 3 (split; [done|]); auto 9.
Qed.

Lemma sync_filter_scans filter_control m c r c' :
  sync_filter filter_control m c = (r, c') -> reports c c' \/ scans filter_control m c c'.
Proof.
  unfold sync_filter. intros Hs. st_reads Hs. destruct (is_filters_synced c); [injection Hs as _ <-; by left|].
  st_reads Hs. destruct (tree_filter_commitment _ _) as [h|] eqn:Hh; [|injection Hs as _ <-; by left].
  st_cases Hs; apply st_guard_inv in Hstep as [-> Hg]; [by left|]. destruct Hg as [[Hg _]|[_ [=]]].
  apply Z.eqb_eq in Hg. cbn [filter_hash filter_new] in Hg.
  apply st_bind_inv in Hs as [(e & _ & Hs)|([] & c1 & Hm & Hs)].
  { apply branch_scans in Hs as [[_ ->]|[[=] _]]. by left. }
  apply branch_scans in Hm. st_reads Hs.
  set (c2 := set_tree (check_filter (header_chain c1) (cf_block_hash m)) c1) in *.
  assert (dialog c' = dialog c2 /\ block_queue c' = block_queue c2 /\ header_chain c' = header_chain c2)
    as (Hd' & Hq' & Ht').
  { st_reads Hs. destruct (last_filter_request _) as [req|]; [|by injection Hs as _ <-]. st_reads Hs.
    destruct (_ =? _); [|by injection Hs as _ <-]. st_reads Hs.
    destruct (negb _); by injection Hs as _ <-. }
  assert (header_chain c1 = header_chain c) as Ht by (by destruct Hm as [[_ ->]|(_ & _ & ? & _)]).
  assert (forall k, screened k c' -> screened k c \/ k = cf_block_hash m) as Hmarks.
  { intros k Hk. unfold screened in *. rewrite Ht' in Hk. subst c2. cbn [header_chain set_tree] in Hk.
    apply check_marks in Hk as [Hk|?]; [left; by rewrite <- Ht|by right]. }
  destruct Hm as [[[?|Hc] ->]|(_ & Hc & _ & Hm)]; [done|left|right].
  - apply reports_quiet; [done..|]. intros k Hk. by destruct (Hmarks k Hk) as [?| ->].
  - split; [by exists h|done|exact Hmarks|].
    unfold shown, matched in *. rewrite Hd', Hq'. by destruct filter_control.
Qed.

(** The wanted block leaves the queue; without a channel it is delivered. *)
Lemma receive_reports alive req b (height : Height) c (r : BlockScanError + ()) c' :
  want (block_queue c) = Some req -> (req_hash req =? block_block_hash b) = true ->
  match sender req with
  | Some channel => st_modify (answer_block alive channel (inr (mkIndexedBlock height b)))
  | None => st_modify (say (SendEvent (BlockEvent (mkIndexedBlock height b))))
  end (set_block_queue {| queue := queue (block_queue c); want := None; last_req := last_req (block_queue c) |} c) =
    (r, c') ->
  reports c c'.
Proof.
  intros Hw Hneed%Z.eqb_eq Hs.
  assert (pending (block_queue c) = req :: reverse (queue (block_queue c))) as Hp
    by (unfold pending; by rewrite Hw).
  assert (exists o, c' = say o (set_block_queue {| queue := queue (block_queue c); want := None;
      last_req := last_req (block_queue c) |} c) /\
    ends req o /\ (forall x, hands x o -> x = req) /\ (forall f, ~ shows f o)) as (o & -> & He & Hh & Hf).
  { unfold ends, hands. destruct req as [k s]. cbn in *. destruct s as [ch|]; injection Hs as _ <-.
    - unfold answer_block. destruct (alive ch); eexists; (split; [done|]); cbn.
      + split; [by left|]. split; [|done]. intros [k' [ch'|]] Hx; cbn in Hx; naive_solver congruence.
      + split; [right; left; done|]. split; [|done]. by intros [k' [ch'|]] Hx.
    - eexists; (split; [done|]); cbn. split; [by left|]. split; [|done].
      intros [k' [ch'|]] Hx; cbn in Hx; naive_solver congruence. }
  clear Hs r. exists [o].
  split; [done|intros r Hr|intros r Hr|intros f; by rewrite among_one|done];
    unfold waits in *; cbn [block_queue set_block_queue say] in *; rewrite Hp in *.
  - apply elem_of_cons in Hr as [->|Hr]; [by right; apply among_one|by left].
  - apply elem_of_cons. rewrite among_one in Hr. destruct Hr as [Hr|Hr]; [by right|left; auto].
Qed.

(** The wanted block is delivered. *)
Lemma check_send_block_reports alive b : st_keeps reports (check_send_block alive b).
Proof.
  intros c r c' Hs. unfold check_send_block in Hs. st_reads Hs.
  destruct (queue_need (block_queue c) (block_block_hash b)) eqn:Hneed; [|by injection Hs as _ <-].
  cbn [negb] in Hs. st_reads Hs.
  st_cases Hs; apply st_ok_or_inv in Hstep as [-> Hh]; [done|].
  st_cases Hs; apply st_guard_inv in Hstep as [-> _]; [done|].
  unfold queue_need in Hneed. destruct (want (block_queue c)) as [req|] eqn:Hw; [|done].
  unfold st_run, queue_receive in Hs. apply st_bind_inv in Hs as [(? & ? & Hst)|(sd & s & Hst & Hs)];
    rewrite Hw, Hneed in Hst; [discriminate|]. injection Hst as <- <-.
  exact (receive_reports alive req b a c r c' Hw Hneed Hs).
Qed.


Lemma next_block_reports now c : reports c (next_block now c).2.
Proof.
  unfold next_block. pose proof (pending_pop now (block_queue c)) as Hp.
  destruct (queue_pop now (block_queue c)) as [o q]. exists []. cbn in Hp |- *.
  split; cbn [block_queue set_block_queue dialog header_chain];
    unfold waits; cbn [block_queue set_block_queue]; rewrite ?Hp; try done.
  - by rewrite app_nil_r.
  - by left.
  - intros r [?|Hr]; [done|by apply among_nil in Hr].
  - intros f. apply among_nil.
Qed.

(** *** Fetching headers *)

Lemma store_header_reports height c :
  reports c (let '(r, d) := store_header_at height (db c) in (r, set_db d c)).2.
Proof. destruct (store_header_at height (db c)). by apply reports_same. Qed.

Lemma store_load_reports lo hi c :
  reports c (let '(r, d) := store_load lo hi (db c) in (r, set_db d c)).2.
Proof. destruct (store_load lo hi (db c)). by apply reports_same. Qed.

#[local] Hint Resolve store_header_reports store_load_reports : kyoto.

Lemma fetch_header_reports height : st_keeps reports (fetch_header height).
Proof. unfold fetch_header. st_keeps. Qed.

Lemma fetch_header_range_reports lo hi : st_keeps reports (fetch_header_range lo hi).
Proof. unfold fetch_header_range. st_keeps. Qed.

(** What comes before the message of a turn also leaves the tree and the
    scripts. *)
Definition rests : relation (Chain D) := fun c c' =>
  header_chain c' = header_chain c /\ scripts c' = scripts c /\ reports c c'.

#[export] Instance rests_undisturbed : Undisturbed rests.
Proof.
  split.
  - split; [by repeat split|]. intros c1 c2 c3 (? & ? & ?) (? & ? & ?). unfold rests.
    split_and!; [congruence..|by etransitivity].
  - intros c c' Hn. pose proof Hn as (Ht & _ & Hs & _). split_and!; [done..|]. by apply ud_notices.
Qed.

Lemma next_block_rests now c : rests c (next_block now c).2.
Proof.
  pose proof (next_block_reports now c) as Hr. unfold next_block in *.
  destruct (queue_pop now (block_queue c)). by repeat split.
Qed.

(** A request for a block is queued, or refused when its header is unknown. *)
Definition refuses (r : Request) (o : Output) : Prop :=
  exists ch, sender r = Some ch /\ (o = BlockToChannel ch (inl UnknownHash) \/ o = SendWarning ChannelDropped).

Record asks (r : Request) c c' : Prop := {
  as_tree : header_chain c' = header_chain c;
  as_queue : dialog c' = dialog c /\ block_queue c' = queue_add r (block_queue c) \/
    height_of_hash (header_chain c) (req_hash r) = None /\ block_queue c' = block_queue c /\
      exists o, dialog c' = dialog c ++ [o] /\ refuses r o /\ plain o;
}.

Lemma get_block_asks alive hash ch c : asks (from_block_request hash ch) c (get_block alive hash ch c).
Proof.
  unfold get_block. destruct (height_of_hash _ _) as [h|] eqn:Hh; [split; [done|by left]|].
  unfold answer_block. destruct (alive ch); (split; [done|right]); (split; [done|]); (split; [done|]); eexists;
    (split; [done|]); (split; [|done]); exists ch; (split; [done|]); auto.
Qed.

Lemma add_waits r q x : x ∈ pending (queue_add r q) <->
  x ∈ pending q \/ x = r /\ req_hash r ∉ pending_hashes q.
Proof.
  rewrite pending_add. case_decide as Hin; [tauto|]. rewrite elem_of_app, list_elem_of_singleton. tauto.
Qed.
End Told.

(** ** The account of a run *)

Section Account.
Context `{Bitcoin} {D : Type} `{HeaderStore D}.
Context (filter_control : bool).
Implicit Types (c : Chain D) (m : CFilter) (r : Request) (k : BlockHash) (new since : list Output).

(** What became of a filter that arrived at the chain [c1], when [since] was
    written until [c']. *)
Definition settled m c1 since c' : Prop :=
  if filter_control then
    exists height, height_of_hash (header_chain c1) (cf_block_hash m) = Some height /\
      among (shows (mkIndexedFilter height (filter_new (cf_filter m) (cf_block_hash m)))) since
  else
    verdict m c1 = Some false \/
    exists r, req_hash r = cf_block_hash m /\ (r = request_new (cf_block_hash m) \/ waits r c1) /\
      (waits r c' \/ among (ends r) since).

(** What became of a request of the client that arrived at [c1]. *)
Definition met r c1 since c' : Prop :=
  waits r c' \/ among (ends r) since \/ requested (req_hash r) c1 \/
  height_of_hash (header_chain c1) (req_hash r) = None /\ among (refuses r) since.

(** With the outputs [new] a run goes from [c] to [c']; the filters [A] and the
    requests [Q] arrived in it, each with the chain it came to. *)
Record accounts (A : CFilter -> Chain D -> Prop) (Q : Request -> Chain D -> Prop) c new c' : Prop := {
  ac_dialog : dialog c' = dialog c ++ new;
  ac_kept r : waits r c -> waits r c' \/ among (ends r) new;
  ac_screened k : screened k c' -> screened k c \/
    exists m c1 since, A m c1 /\ cf_block_hash m = k /\ dialog c' = dialog c1 ++ since /\ settled m c1 since c';
  ac_asked r c1 : Q r c1 -> exists since, dialog c' = dialog c1 ++ since /\ met r c1 since c';
  ac_only r : waits r c' \/ among (hands r) new -> waits r c \/
    (filter_control = false /\
     exists m c1, A m c1 /\ r = request_new (cf_block_hash m) /\ verdict m c1 = Some true) \/
    exists c1, Q r c1;
  ac_shows f : among (shows f) new -> filter_control = true /\
    exists m c1, A m c1 /\ ~ screened (cf_block_hash m) c1 /\
      height_of_hash (header_chain c1) (cf_block_hash m) = Some (if_height f) /\ if_filter f = filter_new (cf_filter m) (cf_block_hash m);
}.

Lemma settled_later m c1 since c2 new c3 :
  (forall r, waits r c2 -> waits r c3 \/ among (ends r) new) ->
  settled m c1 since c2 -> settled m c1 (since ++ new) c3.
Proof.
  unfold settled. intros Hk. destruct filter_control.
  { intros (h & ? & ?). exists h. auto using among_l. }
  intros [?|(r & Hr & Hw & [Hp|?])]; [by left|right; exists r..]; [|by auto using among_l].
  destruct (Hk r Hp); auto using among_r.
Qed.

Lemma met_later r c1 since c2 new c3 :
  (forall r, waits r c2 -> waits r c3 \/ among (ends r) new) ->
  met r c1 since c2 -> met r c1 (since ++ new) c3.
Proof.
  unfold met. rewrite !among_app. intros Hk [Hp|[?|[?|[? ?]]]]; [destruct (Hk r Hp); auto|auto..].
  right. right. right. auto.
Qed.

Definition either {X} (Q1 Q2 : X -> Chain D -> Prop) : X -> Chain D -> Prop := fun x c => Q1 x c \/ Q2 x c.

Lemma accounts_trans A1 A2 Q1 Q2 c1 n1 c2 n2 c3 :
  accounts A1 Q1 c1 n1 c2 -> accounts A2 Q2 c2 n2 c3 ->
  accounts (either A1 A2) (either Q1 Q2) c1 (n1 ++ n2) c3.
Proof.
  unfold either. intros [Hd1 Hk1 Hs1 Ha1 Ho1 Hf1] [Hd2 Hk2 Hs2 Ha2 Ho2 Hf2]. split.
  - by rewrite Hd2, Hd1, (assoc_L (++)).
  - intros r Hr. rewrite among_app. destruct (Hk1 r Hr) as [Hr'|?]; [|tauto]. destruct (Hk2 r Hr'); tauto.
  - intros k [Hx|(m & c & since & ? & Hm)]%Hs2; [|right; exists m, c, since; auto].
    apply Hs1 in Hx as [?|(m & c & since & ? & Hm & Hd & Hx)]; [by left|right].
    exists m, c, (since ++ n2). split_and!; [by left|done|by rewrite Hd2, Hd, (assoc_L (++))|].
    by eapply settled_later.
  - intros r c [Hq|Hq]; [|by apply Ha2].
    destruct (Ha1 r c Hq) as (since & Hd & Hm). exists (since ++ n2). split; [by rewrite Hd2, Hd, (assoc_L (++))|].
    by eapply met_later.
  - intros r Hr. rewrite among_app in Hr.
    assert (waits r c2 \/ among (hands r) n1 \/
      (filter_control = false /\
       exists m c, A2 m c /\ r = request_new (cf_block_hash m) /\ verdict m c = Some true) \/
      exists c, Q2 r c) as [Hx|[Hx|Hx]].
    { destruct Hr as [Hr|[Hr|Hr]]; [|by right; left|]; (destruct (Ho2 r) as [?|?]; auto). }
    1,2: destruct (Ho1 r) as [?|[(? & m & c & ?)|(c & ?)]];
      [auto|by left|right; left; split; [done|]; exists m, c; naive_solver|right; right; exists c; auto].
    right. destruct Hx as [(? & m & c & ?)|(c & ?)]; [left; split; [done|]; exists m, c; naive_solver|right; exists c; auto].
  - intros f [Hf|Hf]%among_app; [destruct (Hf1 f Hf) as (? & m & c & ?)|destruct (Hf2 f Hf) as (? & m & c & ?)];
      (split; [done|]); exists m, c; naive_solver.
Qed.

(** The arrivals may be dated back over steps that only report. *)
Lemma accounts_mono (A B : CFilter -> Chain D -> Prop) (Q R : Request -> Chain D -> Prop) c new c' :
  (forall m c1, A m c1 -> exists c0, B m c0 /\ rests c0 c1) ->
  (forall r c0, R r c0 -> exists c1, Q r c1 /\ rests c0 c1) ->
  (forall r c1, Q r c1 -> exists c0, R r c0) ->
  accounts A Q c new c' -> accounts B R c new c'.
Proof.
  intros HA HR HQ [Hd Hk Hs Ha Ho Hf].
  assert (forall m c0 c1, rests c0 c1 -> verdict m c1 = verdict m c0) as Hv
    by (intros m c0 c1 (_ & Hsc & _); unfold verdict; by rewrite Hsc).
  split; [done|done|..].
  - intros k [?|(m & c1 & since & Hm & Hkm & Hd1 & Hx)]%Hs; [by left|right].
    destruct (HA m c1 Hm) as (c0 & Hm0 & Hr0). pose proof Hr0 as (Ht & _ & n0 & Ht0).
    exists m, c0, (n0 ++ since). split_and!; [done..|by rewrite Hd1, (tl_dialog _ _ _ Ht0), (assoc_L (++))|].
    unfold settled in *. rewrite (Hv _ _ _ Hr0), Ht in Hx. destruct filter_control.
    + destruct Hx as (h & ? & ?). exists h. auto using among_r.
    + destruct Hx as [?|(r & Hr & Hw & Hx)]; [by left|right; exists r]. split; [done|].
      split; [|destruct Hx; auto using among_r].
      destruct Hw as [?|Hw]; [by left|right; apply (tl_only _ _ _ Ht0); by left].
  - intros r c0 Hr. destruct (HR r c0 Hr) as (c1 & Hq & Ht & _ & n0 & Ht0).
    destruct (Ha r c1 Hq) as (since & Hd1 & Hx). exists (n0 ++ since).
    split; [by rewrite Hd1, (tl_dialog _ _ _ Ht0), (assoc_L (++))|].
    unfold met in *. rewrite !among_app, <- Ht. destruct Hx as [?|[?|[Hx|[? ?]]]]; [auto..| |auto 8].
    right. right. left. apply requested_waits in Hx as (x & Hx & Hxh). apply requested_waits. exists x.
    split; [|done]. apply (tl_only _ _ _ Ht0). by left.
  - intros r [?|[(? & m & c1 & Hm & ? & Hx)|(c1 & Hq)]]%Ho; [by left|right..]; [left|right; by eapply HQ].
    destruct (HA m c1 Hm) as (c0 & Hm0 & Hr0). split; [done|]. exists m, c0. by rewrite <- (Hv _ _ _ Hr0).
  - intros f (? & m & c1 & Hm & Hn & Hh & ?)%Hf. destruct (HA m c1 Hm) as (c0 & Hm0 & Ht & _).
    split; [done|]. exists m, c0. unfold screened in *. by rewrite <- Ht.
Qed.

Definition none {X} : X -> Chain D -> Prop := fun _ _ => False.
Definition only {X} (x : X) c : X -> Chain D -> Prop := fun x' c' => x' = x /\ c' = c.

(** What only reports has nothing more to account for. *)
Lemma tells_accounts new c c' : tells new c c' -> accounts none none c new c'.
Proof.
  intros [Hd Hk Ho Hf Hm]. split; [done|done|..].
  - intros k Hx. left. by apply Hm.
  - done.
  - intros r Hr. left. auto.
  - intros f Hs. by destruct (Hf f).
Qed.

Lemma scans_accounts m c c' :
  scans filter_control m c c' -> exists new, accounts (only m c) none c new c'.
Proof.
  intros [_ Hfresh Hmarks Hb]. unfold only. destruct filter_control eqn:Hfc.
  - destruct Hb as (Hq & h & Hh & Hd). eexists. split; unfold waits, settled; rewrite ?Hq, ?Hfc; [exact Hd|auto| |done|..].
    + intros k [?| ->]%Hmarks; [by left|right]. do 3 eexists. split; [done|]. split; [done|]. split; [exact Hd|].
      exists h. split; [done|]. by apply among_one.
    + intros r [?|Hr]; [by left|]. by apply among_one in Hr.
    + intros f [= <-]%among_one. split; [done|]. by exists m, c.
  - destruct Hb as (Hd & Hq). exists []. rewrite <- (app_nil_r (dialog c)) in Hd.
    assert (forall r, waits r c -> waits r c') as Hkept.
    { unfold waits. destruct Hq as [[-> _]|[-> _]]; [done|]. intros r Hr. apply add_waits. by left. }
    split; [done|by left; auto| |done|..].
    + intros k [?| ->]%Hmarks; [by left|right]. exists m, c, []. split_and!; [done..|]. unfold settled. rewrite Hfc.
      unfold waits. destruct Hq as [[Hq [Hr|?]]|[Hq Hv]]; [right|by left|right].
      * apply requested_waits in Hr as (r & Hw & Hr). exists r. rewrite Hq. auto.
      * destruct (decide (cf_block_hash m ∈ pending_hashes (block_queue c))) as [Hr|Hr].
        -- apply requested_waits in Hr as (r & Hw & Hr). exists r. split; [done|]. split; [by right|left].
           rewrite Hq. apply add_waits. by left.
        -- exists (request_new (cf_block_hash m)). split; [done|]. split; [by left|]. left. rewrite Hq. apply add_waits. by right.
    + intros r [Hr|Hr%among_nil]; [|done]. unfold waits in *. destruct Hq as [[Hq _]|[Hq Hv]]; rewrite Hq in Hr; [by left|].
      apply add_waits in Hr as [?|[-> _]]; [by left|right; left]. split; [done|]. by exists m, c.
    + by intros f Hf%among_nil.
Qed.

Lemma asks_accounts r c c' : asks r c c' -> exists new, accounts none (only r c) c new c'.
Proof.
  intros [Ht Hq]. unfold only. destruct Hq as [[Hd Hq]|(Hh & Hq & o & Hd & Ho & Hp)].
  - exists []. rewrite <- (app_nil_r (dialog c)) in Hd. split; unfold waits, screened; rewrite ?Hq, ?Ht; [done|..].
    + intros x Hx. left. apply add_waits. by left.
    + by left.
    + intros x c1 [-> ->]. exists []. split; [done|]. unfold met, waits. rewrite Hq, add_waits.
      destruct (decide (req_hash r ∈ pending_hashes (block_queue c))) as [?|?]; [by right; right; left|left; by right].
    + intros x [[?|[-> _]]%add_waits|Hx%among_nil]; [by left|right; right; by exists c|done].
    + by intros f Hf%among_nil.
  - exists [o]. split; unfold waits, screened; rewrite ?Hq, ?Ht; [done|by left|by left|..].
    + intros x c1 [-> ->]. exists [o]. split; [done|]. unfold met. rewrite !among_one. auto.
    + intros x [?|Hx%among_one]; [by left|]. by apply plain_hands in Hx.
    + intros f Hf%among_one. by apply plain_shows in Hf.
Qed.
End Account.

(** ** A turn of the node *)

Section Turn.
Context `{Bitcoin} {D : Type} `{HeaderStore D} {P : Type} `{PeerStore P}.
Context (filter_control : bool) (BROADCAST_MIN : FeeRate).
Implicit Types (c : Chain D) (nd : Node D P).

Abbreviation node_turn := (node_turn (D := D) (P := P) filter_control BROADCAST_MIN).
Abbreviation node_loop := (node_loop (D := D) (P := P) filter_control BROADCAST_MIN).

(** The chain moves by [R], whatever the state of the synchronization does. *)
Definition chains (R : relation (Chain D)) : relation (Node D P) := fun nd nd' => R (chain nd) (chain nd').

#[local] Instance chains_preorder R `{!PreOrder R} : PreOrder (chains R).
Proof. split; [by intros nd; unfold chains|]. intros n1 n2 n3 ? ?. unfold chains in *. by etransitivity. Qed.

Lemma at_chains {E A} R (f : ST (Node D P) E A) : st_keeps (at_chain R) f -> st_keeps (chains R) f.
Proof. intros Hf nd r nd' Hr. by apply Hf in Hr as [? _]. Qed.

Lemma chains_say {E} (R : relation (Chain D)) o :
  (forall c, R c (say o c)) -> st_keeps (chains R) (node_say (D := D) (P := P) (E := E) o).
Proof. intros Hr nd r nd' [= _ <-]. apply Hr. Qed.

Lemma chains_state {E} (R : relation (Chain D)) `{!PreOrder R} s :
  st_keeps (chains R) (st_modify (E := E) (set_state (D := D) (P := P) s)).
Proof. intros nd r nd' [= _ <-]. unfold chains. cbn. reflexivity. Qed.

Lemma rests_say o c : plain o -> rests c (say o c).
Proof. intros Ho. split_and!; [done..|]. by apply reports_say. Qed.

Lemma enter_rests {E} s : st_keeps (chains rests) (enter (D := D) (P := P) (E := E) s).
Proof.
  unfold enter. apply st_keeps_bind; [apply _| |intros _; apply (chains_state rests)].
  apply chains_say. intros c. by apply rests_say.
Qed.

#[local] Hint Resolve enter_rests : kyoto.

#[local] Hint Extern 1 (st_keeps (chains _) (node_say _)) =>
  (apply chains_say; intros ?; first [apply rests_say | apply reports_say]; exact I) : kyoto.
#[local] Hint Extern 1 (chains _ _ (reset_last_block _ _)) => (unfold chains; cbn; reflexivity) : kyoto.
#[local] Hint Extern 1 (chains _ _ (set_broadcaster _ _)) => (unfold chains; cbn; reflexivity) : kyoto.
#[local] Hint Extern 1 (st_keeps (chains _) (peer_map_run (broadcast _))) => (apply at_chains, at_broadcast, _) : kyoto.

Lemma advance_rests {E} now : st_keeps (chains rests) (advance_state (D := D) (P := P) (E := E) now).
Proof. unfold advance_state. st_keeps. Qed.

(** Everything before the message of the turn. *)
Lemma before_rests e :
  st_keeps (chains rests) (advance_state (E := NodeError store_error peer_store_error) (env_now e);;
    maintain (D := D) (P := P) BROADCAST_MIN e).
Proof.
  apply st_keeps_bind; [apply _|apply advance_rests|intros _].
  apply at_chains, at_maintain; [apply _|apply next_block_rests].
Qed.

(** *** The messages of the peers *)

Lemma respond_reports {E} k o : st_keeps (chains reports) (respond (D := D) (P := P) (E := E) k o).
Proof. apply at_chains, at_respond, _. Qed.

Lemma respond_all_reports {E} o : st_keeps (chains reports) (respond_all (D := D) (P := P) (E := E) o).
Proof. apply at_chains, at_respond_all, _. Qed.

#[local] Hint Resolve respond_reports respond_all_reports : kyoto.
#[local] Hint Extern 1 (st_keeps (chains reports) (enter _)) =>
  (intros ? ? ? Hr; by apply enter_rests in Hr as (_ & _ & ?)) : kyoto.

Lemma inventory_reports {E} k l : st_keeps (chains reports) (handle_inventory_blocks (D := D) (P := P) (E := E) k l).
Proof.
  unfold handle_inventory_blocks. st_keeps;
    [apply at_chains, at_peer_map_do; [apply _|]; intros m; apply increments_says|..].
  all: apply at_chains, at_chain_do; intros c; by apply reports_same.
Qed.

(** All messages but filters only report. *)
Lemma handle_peer_reports e p :
  (forall m, ptm_message p <> PeerFilter m) ->
  st_keeps (chains reports) (handle_peer (D := D) (P := P) filter_control e p).
Proof.
  intros Hp. destruct p as [k msg]. cbn [ptm_message] in Hp.
  destruct msg as [v|l|l|msg|msg|b|l|fee]; [|..|by destruct (Hp msg)| | |].
  - apply at_chains, at_version, _.
  - apply at_chains. exact (at_gossip reports l).
  - apply st_keeps_bind; [apply _|apply st_keeps_modify; intros nd; by apply (reports_same (chain nd))|intros _].
    apply st_keeps_bind; [apply _| |intros o; apply respond_reports].
    apply at_chains, at_handle_headers; [apply _|apply sync_chain_reports|apply next_stateful_reports].
  - apply st_keeps_bind; [apply _| |intros o; apply respond_all_reports].
    apply at_chains, at_handle_cf_headers; [apply _|apply sync_cf_headers_reports|apply next_stateful_reports].
  - apply st_keeps_bind; [apply _| |intros o; apply respond_reports].
    apply at_chains, at_handle_block; [apply _|apply check_send_block_reports].
  - apply st_keeps_bind; [apply _|apply inventory_reports|intros o; apply respond_all_reports].
  - apply at_chains, at_peer_map_do; [apply _|]. intros m. by apply pm_says_same.
Qed.

(** A filter is scanned, or nothing is. *)
Lemma handle_filter_scans e k m nd r nd' :
  handle_peer (D := D) (P := P) filter_control e (mkPeerThreadMessage k (PeerFilter m)) nd = (r, nd') ->
  reports (chain nd) (chain nd') \/
  exists c1, scans filter_control m (chain nd) c1 /\ reports c1 (chain nd').
Proof.
  intros Hr. cbn [handle_peer ptm_message ptm_nonce] in Hr. unfold handle_filter in Hr.
  rewrite st_bind_assoc in Hr.
  apply st_bind_inv in Hr as [(err & _ & Hr)|(x & n1 & Hx & Hr)].
  { unfold chain_result in Hr. by destruct (sync_filter _ _ _). }
  unfold chain_result in Hx. destruct (sync_filter filter_control m (chain nd)) as [y c1] eqn:Hs. injection Hx as <- <-.
  assert (reports c1 (chain nd')) as Hrest.
  { change (chains reports (set_chain c1 nd) nd'). revert Hr.
    match goal with |- ?f _ = _ -> _ => enough (st_keeps (chains reports) f) as Hk by apply Hk end.
    apply st_keeps_bind; [apply _| |intros o; apply respond_reports]. apply at_chains.
    destruct y as [err|[q|]].
    - apply st_keeps_bind; [apply _|by apply at_say; [apply _|]|intros _].
      destruct err; try (apply st_keeps_ret, _);
        (apply st_keeps_bind; [apply _|apply at_record, _|intros _; apply st_keeps_ret, _]).
    - apply st_keeps_bind; [apply _|apply at_chain_update, _|intros _; apply st_keeps_ret, _].
    - apply st_keeps_ret, _. }
  apply sync_filter_scans in Hs as [Hs|Hs]; [left; by etransitivity|right; by exists c1].
Qed.

(** *** The messages of the client *)

Lemma rescan_reports {E} : st_keeps (chains reports) (rescan (D := D) (P := P) (E := E)).
Proof.
  unfold rescan. st_keeps.
  all: first [apply at_chains, at_chain_do; intros c; apply reports_tree, reset_marks
             | apply at_chains, at_chain_run; intros c; apply next_filter_reports].
Qed.

Lemma answer_reports {E} alive o :
  plain o -> st_keeps (chains reports) (answer (D := D) (P := P) (E := E) alive o).
Proof. intros Ho. apply chains_say. intros c. apply reports_say. by destruct alive. Qed.

(** The client asks for blocks with the feature only. *)
Definition asks_block (i : NodeInput) : bool :=
  match i with FromClient (Some (ClientGetBlock _ _)) => true | _ => false end.

Lemma handle_client_reports e msg :
  asks_block (FromClient (Some msg)) = false ->
  st_keeps (chains reports) (handle_client (D := D) (P := P) BROADCAST_MIN e msg).
Proof.
  intros Hno. destruct msg as [|tx|sc| |hash ch|d|peer|ch h|ch lo hi|ch|]; cbn [handle_client]; try done.
  all: try (by st_keeps).
  all: try (apply st_keeps_bind; [apply _| |intros _; apply st_keeps_ret, _]; apply at_chains;
    first [ by apply at_chain_do; intros c; apply reports_same
          | by apply at_peer_map_do; [apply _|]; intros m; apply pm_says_same ]).
  - apply st_keeps_bind; [apply _|apply rescan_reports|intros [m|]; [|apply st_keeps_ret, _]].
    apply st_keeps_bind; [apply _|apply at_chains, at_node_broadcast, _|intros _; apply st_keeps_ret, _].
  - apply st_keeps_bind; [apply _|apply at_chains, at_chain_result, fetch_header_reports|intros [?|[?|]]];
      (apply st_keeps_bind; [apply _|by apply answer_reports|intros _; apply st_keeps_ret, _]).
  - apply st_keeps_bind; [apply _|apply at_chains, at_chain_result, fetch_header_range_reports|intros [?|?]];
      (apply st_keeps_bind; [apply _|by apply answer_reports|intros _; apply st_keeps_ret, _]).
  - apply st_keeps_bind; [apply _|apply st_keeps_get, _|intros x].
    apply st_keeps_bind; [apply _|by apply answer_reports|intros _; apply st_keeps_ret, _].
Qed.

(** In the turn with the input [i] a filter of [k] arrives that matches its
    commitment. *)
Definition filter_arrives (i : NodeInput) (k : BlockHash) (m : CFilter) nd : Prop :=
  exists p, i = FromPeer (Some (mkPeerThreadMessage p (PeerFilter m))) /\ cf_block_hash m = k /\ committed m (chain nd).

(** In the turn with the input [i] the client makes the request [x]. *)
Definition request_arrives (i : NodeInput) (x : Request) : Prop :=
  exists hash ch, i = FromClient (Some (ClientGetBlock hash ch)) /\ x = from_block_request hash ch.

(** A turn only reports, or a filter arrives in it and is scanned, or a request
    arrives in it. *)
Lemma turn_tells e i nd r nd' :
  node_turn e i nd = (r, nd') ->
  reports (chain nd) (chain nd') /\ ((exists err, r = inl err) \/ asks_block i = false) \/
  exists c0, rests (chain nd) c0 /\
    ((exists p m c1, i = FromPeer (Some (mkPeerThreadMessage p (PeerFilter m))) /\
        scans filter_control m c0 c1 /\ reports c1 (chain nd')) \/
     (exists x, request_arrives i x /\ r = inr false /\ asks x c0 (chain nd'))).
Proof.
  intros Hr. unfold Node.node_turn in Hr. rewrite <- st_bind_assoc in Hr.
  apply st_bind_inv in Hr as [(err & -> & Hr)|([] & n1 & Hb & Hr)].
  { left. apply before_rests in Hr as (_ & _ & ?). split; [done|]. left. by exists err. }
  apply before_rests in Hb. pose proof Hb as (_ & _ & Hrep). unfold chains in Hb.
  assert (reports (chain n1) (chain nd') -> reports (chain nd) (chain nd')) as Hthen by (intros; by etransitivity).
  destruct i as [[[p msg]|]|[msg|]]; cbn [handle_input] in Hr.
  - destruct (match msg with PeerFilter m => Some m | _ => None end) as [m|] eqn:Hm.
    + destruct msg; try discriminate. injection Hm as ->.
      assert (exists n2, handle_peer filter_control e (mkPeerThreadMessage p (PeerFilter m)) n1 = n2 /\ n2.2 = nd')
        as ([r2 n2] & Hrun & <-).
      { apply st_bind_inv in Hr as [(err & _ & Hr)|([] & n2 & Hr & [= _ <-])]; by eexists. }
      apply handle_filter_scans in Hrun as [Hrun|(c1 & Hs & Hrun)]; [left; auto|right].
      exists (chain n1). split; [done|]. left. by exists p, m, c1.
    + left. split; [|by right]. apply Hthen. revert Hr. cut (st_keeps (chains reports)
        (handle_peer (D := D) (P := P) filter_control e (mkPeerThreadMessage p msg);; mret false)).
      { intros Hk Hr. by apply Hk in Hr. }
      apply st_keeps_bind; [apply _| |intros _; apply st_keeps_ret, _].
      apply handle_peer_reports. cbn. intros m ->. discriminate.
  - left. split; [|by right]. apply Hthen. by injection Hr as _ <-.
  - destruct (asks_block (FromClient (Some msg))) eqn:Hask.
    + destruct msg as [| | | |hash ch| | | | | |]; try discriminate. right. exists (chain n1). split; [done|]. right.
      exists (from_block_request hash ch). split; [by exists hash, ch|].
      cbn [handle_client] in Hr. st_reads Hr. unfold chain_do in Hr. st_reads Hr. injection Hr as <- <-. split; [done|].
      assert (forall n : Node D P, chain (match state n with TransactionsSynced => set_state FiltersSynced n | _ => n end)
        = chain n) as Hst by (intros n; by destruct (state n)).
      cbn [chain set_chain]. rewrite Hst. apply get_block_asks.
    + left. split; [|by right]. apply Hthen. by apply handle_client_reports in Hr.
  - left. split; [|by right]. apply Hthen. by injection Hr as _ <-.
Qed.

Lemma turn_accounts e i nd r nd' :
  node_turn e i nd = (r, nd') ->
  exists new, accounts filter_control
    (fun m c => c = chain nd /\ filter_arrives i (cf_block_hash m) m nd)
    (fun x c => c = chain nd /\ request_arrives i x /\ r = inr false) (chain nd) new (chain nd').
Proof.
  intros Hr. apply turn_tells in Hr as [[[new Ht] Hq]|(c0 & Hrest & Hcase)].
  { exists new. eapply accounts_mono; [| | |by apply tells_accounts]; [done| |done].
    intros x c (_ & (hash & ch & -> & _) & ->). by destruct Hq as [[? [=]]|[=]]. }
  pose proof Hrest as (Htree & _ & n0 & Ht0).
  destruct Hcase as [(p & m & c1 & -> & Hs & n2 & Ht2)|(x & Hx & -> & Hs)].
  - assert (committed m (chain nd)) as Hcom
      by (destruct (sn_committed _ _ _ _ Hs) as (h & ? & ?); exists h; by rewrite <- Htree).
    apply scans_accounts in Hs as [n1 Hs]. exists ((n0 ++ n1) ++ n2).
    eapply accounts_mono;
      [| | |eapply accounts_trans; [eapply accounts_trans; [by apply tells_accounts|exact Hs]|by apply tells_accounts]].
    + intros m' c [[[]|[-> ->]]|[]]. exists (chain nd). split; [|done]. split; [done|]. by exists p.
    + intros x c (_ & (hash & ch & [=] & _) & _).
    + intros x c [[[]|[]]|[]].
  - apply asks_accounts with (filter_control := filter_control) in Hs as [n1 Hs]. exists (n0 ++ n1).
    eapply accounts_mono; [| | |eapply accounts_trans; [by apply tells_accounts|exact Hs]].
    + intros m c [[]|[]].
    + intros x' c (-> & Hx' & _). exists c0. split; [right|done].
      destruct Hx as (hash & ch & -> & ->), Hx' as (hash' & ch' & [= <- <-] & ->). done.
    + intros x' c [[]|[-> _]]. by exists (chain nd).
Qed.

(** ** Whole runs *)

(** The turn [t] of the run comes to the node [nd1]. *)
Definition passes (inputs : list (Env * NodeInput)) nd (t : Env * NodeInput) nd1 : Prop :=
  exists before after, inputs = before ++ t :: after /\ node_loop before nd = (inr false, nd1).

Lemma passes_cons e i l nd t nd1 :
  passes ((e, i) :: l) nd t nd1 <->
  t = (e, i) /\ nd1 = nd \/ exists n1, node_turn e i nd = (inr false, n1) /\ passes l n1 t nd1.
Proof.
  split.
  - intros ([|[e' i'] before] & after & [= -> ->] & Hrun); [left; by injection Hrun as <-|right].
    cbn [Node.node_loop] in Hrun.
    apply st_bind_inv in Hrun as [(err & [=] & _)|([] & n1 & Ht & Hrun)]; [discriminate|].
    exists n1. split; [done|]. by exists before, after.
  - intros [[-> ->]|(n1 & Ht & before & after & -> & Hrun)]; [by exists [], l|].
    exists ((e, i) :: before), after. split; [done|]. cbn [Node.node_loop]. by rewrite (st_bind_ok _ _ _ _ _ Ht).
Qed.

(** In the run a filter of [k] arrives that matches its commitment; [nd1] is the
    node then. *)
Definition arrives_at (inputs : list (Env * NodeInput)) nd (k : BlockHash) (m : CFilter) nd1 : Prop :=
  exists t, passes inputs nd t nd1 /\ filter_arrives t.2 k m nd1.

(** In the run the client makes the request [x] and the node takes it; [nd1] is
    the node then. *)
Definition asks_at (inputs : list (Env * NodeInput)) nd (x : Request) nd1 : Prop :=
  exists t nd2, passes inputs nd t nd1 /\ request_arrives t.2 x /\ node_turn t.1 t.2 nd1 = (inr false, nd2).

Definition run_filters inputs nd (m : CFilter) c : Prop :=
  exists nd1, c = chain nd1 /\ arrives_at inputs nd (cf_block_hash m) m nd1.
Definition run_requests inputs nd (x : Request) c : Prop :=
  exists nd1, c = chain nd1 /\ asks_at inputs nd x nd1.

Lemma turn_filters e i l nd m : filter_arrives i (cf_block_hash m) m nd -> run_filters ((e, i) :: l) nd m (chain nd).
Proof. intros Ha. exists nd. split; [done|]. exists (e, i). split; [|done]. apply passes_cons. by left. Qed.

Lemma later_filters e i l nd n1 m c :
  node_turn e i nd = (inr false, n1) -> run_filters l n1 m c -> run_filters ((e, i) :: l) nd m c.
Proof.
  intros Ht (nd1 & -> & t & Hp & Ha). exists nd1. split; [done|]. exists t. split; [|done].
  apply passes_cons. right. by exists n1.
Qed.

Lemma run_requests_cons e i l nd x c :
  run_requests ((e, i) :: l) nd x c <->
  (exists nd2, c = chain nd /\ request_arrives i x /\ node_turn e i nd = (inr false, nd2)) \/
  exists n1, node_turn e i nd = (inr false, n1) /\ run_requests l n1 x c.
Proof.
  unfold run_requests, asks_at. split.
  - intros (nd1 & -> & t & nd2 & [[-> ->]|(n1 & Ht & Hp)]%passes_cons & Ha & Hr); [left; by exists nd2|right].
    exists n1. split; [done|]. exists nd1. split; [done|]. by exists t, nd2.
  - intros [(nd2 & -> & Ha & Hr)|(n1 & Ht & nd1 & -> & t & nd2 & Hp & Ha & Hr)].
    + exists nd. split; [done|]. exists (e, i), nd2. split; [apply passes_cons; by left|done].
    + exists nd1. split; [done|]. exists t, nd2. split; [|done]. apply passes_cons. right. by exists n1.
Qed.

Lemma run_accounts inputs : forall nd r nd',
  node_loop inputs nd = (r, nd') ->
  exists new, accounts filter_control (run_filters inputs nd) (run_requests inputs nd) (chain nd) new (chain nd').
Proof.
  induction inputs as [|[e i] l IH]; intros nd r nd' Hr.
  { injection Hr as _ <-. exists []. apply accounts_mono with (A := none) (Q := none); [done| |done|].
    - intros x c (nd1 & _ & t & nd2 & (before & after & Hl & _) & _). by destruct before.
    - apply tells_accounts, tells_quiet; [by rewrite app_nil_r|done..]. }
  cbn [Node.node_loop] in Hr. destruct (node_turn e i nd) as [o n1] eqn:Ht.
  destruct (turn_accounts e i nd o n1 Ht) as [n Ha].
  assert (o = inr false \/ o <> inr false /\ n1 = nd') as [->|[Ho ->]].
  { apply st_bind_inv in Hr as [(err & _ & Hr)|([] & n2 & Hr & Hrest)]; rewrite Ht in Hr; injection Hr as -> ->;
      [by right|right; by injection Hrest as _ <-|by left]. }
  - rewrite (st_bind_ok _ _ _ _ _ Ht) in Hr. destruct (IH n1 r nd' Hr) as [n' Ha']. exists (n ++ n').
    eapply accounts_mono; [| | |by eapply accounts_trans].
    + intros m c [[-> Hm]|Hm]; exists c || exists (chain nd); (split; [|done]).
      * by apply turn_filters.
      * by eapply later_filters.
    + intros x c Hx. exists c. split; [|done]. apply run_requests_cons in Hx as [(nd2 & -> & Hx & _)|(n2 & Ht2 & Hx)].
      * by left.
      * right. rewrite Ht in Ht2. by injection Ht2 as ->.
    + intros x c Hx. exists c. apply run_requests_cons. destruct Hx as [(-> & Hx & _)|Hx]; [left|right]; by exists n1.
  - exists n. eapply accounts_mono; [| | |exact Ha].
    + intros m c [-> Hm]. exists (chain nd). split; [by apply turn_filters|done].
    + intros x c Hx. apply run_requests_cons in Hx as [(nd2 & -> & Hx & Ht2)|(n2 & Ht2 & Hx)];
        rewrite Ht in Ht2; by injection Ht2.
    + intros x c (-> & Hx & ->). done.
Qed.
End Turn.
