(* ===== verification/Wallet.v ===== *)
(** * What the wallet is told

    The account of [Account], read from the client's side, one contract for each
    build, under every environment and whatever the peers send.  Without the
    feature [filter-control]: a block whose filter was checked is not forgotten;
    either its filter did not match, or the block is still requested, or it was
    delivered, or it was reported as disconnected; and only blocks whose filter
    matched are requested and delivered.  With the feature: every filter that is
    checked is shown, and every request for a block has its end.

    Runs show what the code does not do: a block that comes back with a second
    reorganization is not told again, one that a reorganization took away can be
    told afterwards, and of two requests for a block the second is dropped. *)

From stdpp Require Import base numbers list gmap sorting strings.
From Stdlib Require Import ZArith Lia.
From S2P Require Import Prelude Bitcoin ChainTypes Graph Walk GraphFacts Reorg ActiveChain FilterMarks TreeProperties.
From S2P Require Import Checkpoints Batches BlockQueue Messages HeaderStore PeerStore Chain ChainFacts FilterSync.
From S2P Require Import ChainProperties Restart HeaderSync FilterProgress Network Wire Dns PeerMap Node NodeFacts NodeProperties.
From S2P Require Import Config Converge Quiet Delivery Startup.
From S2P Require Import Account.

(** ** The wallet's contract, by build *)

Section Contract.
Context `{Bitcoin} {D : Type} `{HeaderStore D} {P : Type} `{PeerStore P}.
Context (BROADCAST_MIN : FeeRate).
Implicit Types (c : Chain D) (nd : Node D P) (k : BlockHash) (new since : list Output).

(** Without the feature no request has a channel. *)
Definition no_channels c : Prop := forall x, waits x c -> sender x = None.

Definition asks_no_blocks (inputs : list (Env * NodeInput)) : Prop :=
  Forall (fun t => asks_block t.2 = false) inputs.

(** The block was delivered, or reported as disconnected, or neither. *)
Definition given k new : Prop := among (delivers k) new.
Definition heard k new : Prop := among (fun o => delivers k o \/ disconnects k o) new.

Lemma asks_nothing fc inputs nd x c :
  asks_no_blocks inputs -> ~ run_requests fc BROADCAST_MIN inputs nd x c.
Proof.
  intros Hno (nd1 & _ & t & nd2 & (before & after & -> & _) & (hash & ch & Ht & _) & _).
  apply Forall_app in Hno as [_ [Ht' _]%Forall_cons]. by rewrite Ht in Ht'.
Qed.

Lemma ends_heard x new : sender x = None -> among (ends x) new -> heard (req_hash x) new.
Proof.
  intros Hx (o & Ho & He). exists o. split; [done|]. destruct He as [He|[[? _]|?]]; [left|done|by right].
  unfold hands in He. destruct o as [| |[]|ch [|]| | |]; cbn in He; try rewrite Hx in He; done.
Qed.

Lemma given_hands k new : given k new -> among (hands (request_new k)) new.
Proof. intros (o & Ho & Hd). exists o. split; [done|]. by destruct o as [| |[]|ch [|]| | |]. Qed.

Lemma run_no_channels inputs nd r nd' :
  asks_no_blocks inputs -> no_channels (chain nd) ->
  node_loop (D := D) (P := P) false BROADCAST_MIN inputs nd = (r, nd') -> no_channels (chain nd').
Proof.
  intros Hno Hc Hr x Hx. apply run_accounts in Hr as (new & Ha).
  destruct (ac_only _ _ _ _ _ _ Ha x) as [?|[(_ & m & c & _ & -> & _)|(c & Hq)]]; [by left|by apply Hc|done|].
  by apply asks_nothing in Hq.
Qed.

(** C13: the wallet misses no match and is told of nothing else, in a build without
    the feature [filter-control].  Along any run of the node's loop, under any
    environment and with any messages of peers and client: a block whose filter is
    checked at the end was checked at the beginning, or a filter that matches its
    commitment arrived for it in some turn, and it did not match the scripts
    watched at that moment, or since then the block is still requested, or it was delivered, or it was reported as
    disconnected.  And every block that is delivered in the run, or requested at its
    end, was requested at the beginning, or such a filter arrived for it and
    matched. *)
Theorem wallet_misses_nothing inputs nd r nd' :
  asks_no_blocks inputs -> no_channels (chain nd) ->
  node_loop (D := D) (P := P) false BROADCAST_MIN inputs nd = (r, nd') ->
  exists new, dialog (chain nd') = dialog (chain nd) ++ new /\
    (forall k, screened k (chain nd') -> screened k (chain nd) \/
       exists m nd1 since, arrives_at false BROADCAST_MIN inputs nd k m nd1 /\
         dialog (chain nd') = dialog (chain nd1) ++ since /\
         (verdict m (chain nd1) = Some false \/ requested k (chain nd') \/ heard k since)) /\
    (forall k, requested k (chain nd') \/ given k new -> requested k (chain nd) \/
       exists m nd1, arrives_at false BROADCAST_MIN inputs nd k m nd1 /\ verdict m (chain nd1) = Some true).
Proof.
  intros Hno Hc Hr. pose proof (run_no_channels inputs nd r nd' Hno Hc Hr) as Hc'.
  destruct (run_accounts false BROADCAST_MIN inputs nd r nd' Hr) as (new & [Hd _ Hs _ Ho _]).
  exists new. split; [done|]. split.
  - intros k Hk. destruct (Hs k Hk) as [?|(m & c1 & since & (nd1 & -> & Harr) & <- & Hd1 & Hx)]; [by left|right].
    exists m, nd1, since. split; [done|]. split; [done|]. destruct Hx as [?|(x & Hxk & Hw & Hx)]; [by left|right].
    assert (sender x = None) as Hsx.
    { destruct Hw as [->|Hw]; [done|]. destruct Harr as (t & (before & after & -> & Hrun) & _).
      apply Forall_app in Hno as [Hno _]. by apply (run_no_channels before nd (inr false) nd1 Hno Hc Hrun). }
    destruct Hx as [Hx|Hx]; [left; apply requested_waits; by exists x|right; rewrite <- Hxk; by apply ends_heard].
  - intros k Hk.
    assert (waits (request_new k) (chain nd') \/ among (hands (request_new k)) new) as Hk'.
    { destruct Hk as [(x & Hx & <-)%requested_waits|Hk]; [left|right; by apply given_hands].
      pose proof (Hc' x Hx). by destruct x as [h s]; cbn in *; subst s. }
    destruct (Ho _ Hk') as [?|[(_ & m & c1 & (nd1 & -> & Harr) & [= ->] & ?)|(c & Hq)]].
    + left. apply requested_waits. by exists (request_new k).
    + right. by exists m, nd1.
    + by apply asks_nothing in Hq.
Qed.

(** C14: the contract of a build with the feature [filter-control], in which the
    client screens the filters and asks for blocks.  Along any run of the node's
    loop, under any environment and with any messages of peers and client: a filter
    that is newly marked as checked arrived in some turn, matched its commitment,
    and was shown to the client with its height; every filter that is shown arrived
    so.  A request for a block that was pending is still pending, or it came to an
    end: the block was handed over on the channel of that request, or nobody
    listened there any more, or the block was reported as disconnected.  A request
    that the client made in the run is pending or came to such an end, or it was
    refused as the header is not stored, or the block was requested already.  And a
    block is handed over only for a request that was pending or was made in the
    run. *)
Theorem filter_control_serves inputs nd r nd' :
  node_loop (D := D) (P := P) true BROADCAST_MIN inputs nd = (r, nd') ->
  exists new, dialog (chain nd') = dialog (chain nd) ++ new /\
    (forall k, screened k (chain nd') -> screened k (chain nd) \/
       exists m nd1 since height, arrives_at true BROADCAST_MIN inputs nd k m nd1 /\
         dialog (chain nd') = dialog (chain nd1) ++ since /\
         height_of_hash (header_chain (chain nd1)) k = Some height /\
         SendEvent (IndexedFilterEvent (mkIndexedFilter height (filter_new (cf_filter m) k))) ∈ since) /\
    (forall f, SendEvent (IndexedFilterEvent f) ∈ new ->
       exists m k nd1, arrives_at true BROADCAST_MIN inputs nd k m nd1 /\ ~ screened k (chain nd1) /\
         height_of_hash (header_chain (chain nd1)) k = Some (if_height f) /\
         if_filter f = filter_new (cf_filter m) k) /\
    (forall x, waits x (chain nd) -> waits x (chain nd') \/ among (ends x) new) /\
    (forall x nd1, asks_at true BROADCAST_MIN inputs nd x nd1 ->
       exists since, dialog (chain nd') = dialog (chain nd1) ++ since /\
         (waits x (chain nd') \/ among (ends x) since \/ requested (req_hash x) (chain nd1) \/
          height_of_hash (header_chain (chain nd1)) (req_hash x) = None /\ among (refuses x) since)) /\
    (forall x, waits x (chain nd') \/ among (hands x) new ->
       waits x (chain nd) \/ exists nd1, asks_at true BROADCAST_MIN inputs nd x nd1).
Proof.
  intros Hr. destruct (run_accounts true BROADCAST_MIN inputs nd r nd' Hr) as (new & [Hd Hk Hs Ha Ho Hf]).
  exists new. split; [done|]. split.
  { intros k [?|(m & c1 & since & (nd1 & -> & Harr) & <- & Hd1 & h & Hh & o & Ho1 & ->)]%Hs; [by left|right].
    by exists m, nd1, since, h. }
  split.
  { intros f Hin. destruct (Hf f) as (_ & m & c1 & (nd1 & -> & Harr) & Hn & Hh & He); [by eexists|].
    by exists m, (cf_block_hash m), nd1. }
  split; [exact Hk|]. split.
  - intros x nd1 Hx. apply (Ha x (chain nd1)). by exists nd1.
  - intros x [?|[([=] & _)|(c & nd1 & _ & Hx)]]%Ho; [by left|right; by exists nd1].
Qed.
End Contract.

(** ** Runs of a wallet with one script *)
Module ToyWallet.
Export ToyStartup.

Definition filter_of (k : BlockHash) (content : bytes) : Env * NodeInput :=
  from_peer (PeerFilter (mkCFilter FILTER_BASIC k content)).

(** The node synchronizes with the chain 1, 2, 3; the filter of 2 matches. *)
Definition first_sync : list (Env * NodeInput) :=
  [idle; from_peer (PeerVersion hello); from_peer (PeerHeaders batch); idle;
   from_peer (PeerFilterHeaders (mkCFHeaders 3 0 [11; 12; 13])); idle;
   filter_of 1 [11]; filter_of 2 [12]; filter_of 3 [13]; idle; idle;
   from_peer (PeerBlock (toy_block 2)); idle; idle].

(** Then 12, 13, 14 replace 2 and 3. *)
Definition to_fork : list (Env * NodeInput) :=
  [from_peer (PeerNewBlocks [14]); from_peer (PeerHeaders [hdr 12 1 1; hdr 13 12 1; hdr 14 13 1]);
   from_peer (PeerFilterHeaders (mkCFHeaders 14 12 [21; 22; 23]));
   filter_of 12 [21]; filter_of 13 [22]; filter_of 14 [23]; idle; idle; idle; idle; idle].

(** Then 4 and 5 on top of 3 bring 2 and 3 back. *)
Definition and_back : list (Env * NodeInput) :=
  [from_peer (PeerNewBlocks [5]); from_peer (PeerHeaders [hdr 4 3 1; hdr 5 4 1]);
   from_peer (PeerFilterHeaders (mkCFHeaders 5 161 [31; 32]));
   filter_of 4 [31]; filter_of 5 [32]; idle; idle; idle; idle].

Definition after (l : list (Env * NodeInput)) : Node (SqliteHeaderDb ToySql.table) (SqlitePeerDb peer_table) :=
  (node_loop false 250 l toy_new).2.

(** What the wallet was told of a block: [true] that it has it, [false] that it
    is gone. *)
Definition history (k : BlockHash) (nd : Node (SqliteHeaderDb ToySql.table) (SqlitePeerDb peer_table)) : list bool :=
  omap (fun o => match o with
    | SendEvent (BlockEvent b) => if block_block_hash (ib_block b) =? k then Some true else None
    | SendEvent (BlocksDisconnected l) => if existsb (Z.eqb k) (hashes_of l) then Some false else None
    | _ => None
    end) (dialog (chain nd)).

Definition announced_tips (nd : Node (SqliteHeaderDb ToySql.table) (SqlitePeerDb peer_table)) : list BlockHash :=
  omap (fun o => match o with SendEvent (Synced u) => Some (cp_hash (update_tip u)) | _ => None end)
    (dialog (chain nd)).

Lemma toy_new_idle : no_channels (chain toy_new).
Proof. by intros x Hx%elem_of_nil. Qed.

Lemma first_sync_runs : node_loop false 250 first_sync toy_new = (inr false, after first_sync).
Proof. unfold after. rewrite (surjective_pairing (node_loop false 250 first_sync toy_new)) at 1. f_equal. Qed.

Lemma wallet_misses_nothing_witness :
  history 2 (after first_sync) = [true] /\
  exists m nd1, arrives_at false 250 first_sync toy_new 2 m nd1 /\ verdict m (chain nd1) = Some true.
Proof.
  split; [vm_eq|].
  destruct (wallet_misses_nothing 250 first_sync toy_new (inr false) (after first_sync)) as (new & Hd & _ & Ho).
  - by repeat constructor.
  - exact toy_new_idle.
  - exact first_sync_runs.
  - destruct (Ho 2) as [Hr|?]; [right| |done].
    + exists (SendEvent (BlockEvent (mkIndexedBlock 2 (toy_block 2)))). split; [|done].
      assert (dialog (chain toy_new) = []) as Hnil by vm_eq. rewrite Hnil in Hd. cbn in Hd. rewrite <- Hd.
      apply (list_elem_of_lookup_2 _ 6). vm_eq.
    + unfold requested in Hr. assert (pending_hashes (block_queue (chain toy_new)) = []) as Hq by vm_eq.
      rewrite Hq in Hr. apply elem_of_nil in Hr as [].
Defined.

(** A second reorganization brings block 2 back.  Its filter is still marked as
    checked, so that it is not asked for again; the wallet was told that the block
    is gone, and the node announces that it is synchronized. *)
Lemma reconnected_block_forgotten :
  let nd := after (first_sync ++ to_fork ++ and_back) in
  history 2 nd = [true; false] /\ header_at_height (header_chain (chain nd)) 2 = Some (hdr 2 1 1) /\
  state nd = TransactionsSynced /\ announced_tips nd = [3; 14; 5].
Proof. split_and!; vm_eq. Qed.

(** The filter of block 2 arrives after a reorganization took the block away: it
    still has its commitment, so that the block is requested and delivered. *)
Definition stale_filter : list (Env * NodeInput) :=
  take 7 first_sync ++ take 2 to_fork ++ [filter_of 2 [12]] ++ drop 2 to_fork ++
  [from_peer (PeerBlock (toy_block 2)); idle; idle].

Lemma stale_block_delivered :
  let nd := after stale_filter in
  history 2 nd = [false; true] /\ header_at_height (header_chain (chain nd)) 2 = Some (hdr 12 1 1) /\
  state nd = TransactionsSynced /\ announced_tips nd = [14].
Proof. split_and!; vm_eq. Qed.

(** The client screens the filters itself and asks for block 2 on channel 7, then
    again on channel 8, and on channel 9 for a block nobody knows. *)
Definition ask (k : BlockHash) (ch : ChannelId) : Env * NodeInput :=
  (toy_env, FromClient (Some (ClientGetBlock k ch))).

Definition ask_twice : list (Env * NodeInput) :=
  take 11 first_sync ++ [ask 2 7; ask 2 8; ask 99 9; idle; from_peer (PeerBlock (toy_block 2)); idle].

Definition after_control (l : list (Env * NodeInput)) : Node (SqliteHeaderDb ToySql.table) (SqlitePeerDb peer_table) :=
  (node_loop true 250 l toy_new).2.

(** The answers on the channels, and the filters shown, with their heights. *)
Definition answers (nd : Node (SqliteHeaderDb ToySql.table) (SqlitePeerDb peer_table)) : list (ChannelId * option BlockHash) :=
  omap (fun o => match o with
    | BlockToChannel ch (inr b) => Some (ch, Some (block_block_hash (ib_block b)))
    | BlockToChannel ch (inl _) => Some (ch, None)
    | _ => None
    end) (dialog (chain nd)).

Definition filters_shown (nd : Node (SqliteHeaderDb ToySql.table) (SqlitePeerDb peer_table)) : list (Height * BlockHash) :=
  omap (fun o => match o with
    | SendEvent (IndexedFilterEvent f) => Some (if_height f, filter_block_hash (if_filter f))
    | _ => None
    end) (dialog (chain nd)).

Lemma ask_twice_runs : node_loop true 250 ask_twice toy_new = (inr false, after_control ask_twice).
Proof. unfold after_control. rewrite (surjective_pairing (node_loop true 250 ask_twice toy_new)) at 1. f_equal. Qed.

Lemma filter_control_serves_witness :
  filters_shown (after_control ask_twice) = [(1, 1); (2, 2); (3, 3)] /\
  answers (after_control ask_twice) = [(9, None); (7, Some 2)] /\
  exists nd1, asks_at true 250 ask_twice toy_new (from_block_request 2 7) nd1.
Proof.
  split; [vm_eq|]. split; [vm_eq|].
  destruct (filter_control_serves 250 ask_twice toy_new (inr false) (after_control ask_twice) ask_twice_runs)
    as (new & Hd & _ & _ & _ & _ & Ho).
  destruct (Ho (from_block_request 2 7)) as [Hr|?]; [right| |done].
  - exists (BlockToChannel 7 (inr (mkIndexedBlock 2 (toy_block 2)))). split; [|exact (conj eq_refl eq_refl)].
    assert (dialog (chain toy_new) = []) as Hnil by vm_eq. rewrite Hnil in Hd. cbn in Hd. rewrite <- Hd.
    apply (list_elem_of_lookup_2 _ 12). vm_eq.
  - unfold waits in Hr. assert (pending (block_queue (chain toy_new)) = []) as Hq by vm_eq.
    rewrite Hq in Hr. apply elem_of_nil in Hr as [].
Defined.

(** The second request for a block that is awaited is dropped with its channel: the
    node runs on and nothing is ever sent to channel 8. *)
Lemma duplicate_request_dropped :
  let nd := after_control ask_twice in
  answers nd = [(9, None); (7, Some 2)] /\ pending (block_queue (chain nd)) = [] /\ state nd = TransactionsSynced.
Proof. split_and!; vm_eq. Qed.

(** A block of a branch that lost is requested and delivered as any other. *)
Definition ask_stale : list (Env * NodeInput) :=
  take 11 first_sync ++ to_fork ++ [ask 2 7; idle; from_peer (PeerBlock (toy_block 2)); idle].

Lemma stale_request_accepted :
  let nd := after_control ask_stale in
  answers nd = [(7, Some 2)] /\ header_at_height (header_chain (chain nd)) 2 = Some (hdr 12 1 1).
Proof. split_and!; vm_eq. Qed.
End ToyWallet.
